(* ===== verification/_CoqProject ===== *)
-Q . S2P
Prelude.v
FixedHashMap.v
Types.v
Text.v
OrderPool.v
PriceLevel.v
Bitmap.v
OrderBook.v
OrderBookProofs.v
BookStore.v
Consumer.v
MatchingEngine.v
MatchingSpec.v
MatchingProofs.v
MatchingTypes.v
SpscRing.v
SpscThreads.v
Pipeline.v
Risk.v
Gateway.v
Floor.v
Double.v
Strategy.v
Wire.v
Ouch.v
Net.v
NetLogic.v
Transport.v
Exchange.v
PriceBounds.v
ZeroQuantity.v
ExchangeServer.v
ServerProofs.v
ServerLifecycle.v
ServerSim.v
ServerClaims.v
ServerFrames.v
Packets.v
Itch.v
Replay.v
Tools.v
ReplayRun.v
Receiver.v
LiveRun.v
Options.v
ExchangeRun.v
TradingRun.v
System.v
TradingMain.v
