(* ===== verification/Prelude.v ===== *)
(** * OpenHFT-FPGA-DPDK: a verification library

    The program (under [src/]) is a small electronic-trading system in C++.  A trading
    runtime receives ITCH market data, from a NIC through DPDK or from a replay file,
    rebuilds a limit order book, asks a strategy, checks risk and sends OUCH orders over
    TCP or TLS.  An exchange runtime accepts such orders over a TCP/TLS server, matches
    them with price-time priority and answers.

<<
    NIC / replay file                                   exchange runtime
      receiver, replay reader                             TCP/TLS server (epoll)
      packet and ITCH parsers, dispatcher                 OUCH handler, session map
      pipeline (SPSC ring + worker thread)                matching engine, book, pool
      book consumer (book, pool, hash map)                event dispatcher, listener
      strategy -> gateway (risk) -> OUCH sink -> transport ==>
>>

    ** Files and what they model

    Shared: [Prelude] machine integers, lists, options, automation; [Types] the domain
    types and the heap of orders ([orderbook/software/{order,trade,common/types}.hpp],
    [models/order_intent.hpp]); [Text] how numbers are written to a stream and read back.

    Containers: [FixedHashMap] ([common/fixed_hash_map.hpp]); [OrderPool]
    ([order_pool.cpp]); [PriceLevel] ([price_level.hpp], intrusive doubly linked lists
    over the heap); [Bitmap] (the bit scans of [array_order_book.cpp]); [SpscRing] and
    [SpscThreads] ([common/spsc_ring_buffer.hpp], sequentially and with two threads).

    Order book and its clients: [OrderBook], [OrderBookProofs] ([array_order_book.cpp]);
    [BookStore] the relation between book, pool and heap that both clients keep;
    [Consumer] ([pipeline/market_data_book_consumer.cpp]); [MatchingEngine],
    [MatchingSpec], [MatchingProofs], [MatchingTypes] ([matching_engine.cpp], the sequencer
    and the event dispatcher: the code, its specification, the refinement, and that every
    value stays inside its C++ type).

    Trading side: [Pipeline] ([pipeline/dispatcher.cpp], [market_data_pipeline.cpp]);
    [Risk] ([risk/], [position/]); [Gateway] ([gateway/]); [Floor] (the trade listeners
    [journal/], [market_data/trade_publisher.cpp] and the position manager, and
    [apps/matching_engine_demo.cpp], which connects them with gateway and engine);
    [Double], [Strategy] (binary64, [strategy/]);
    [Wire], [Ouch] ([common/endian.hpp], the wire utilities, encoders and decoders of
    [execution/ouch/]); [Net] the calls to the system and to OpenSSL, [NetLogic] the rules
    for reasoning about them; [Transport] (the TCP and TLS transports and the execution
    sink).

    Exchange side: [Exchange] (session map, handler, execution listener); [PriceBounds]
    and [ZeroQuantity] (what prices outside the book and orders without quantity do);
    [ExchangeServer], [ServerProofs], [ServerLifecycle], [ServerSim], [ServerClaims],
    [ServerFrames] ([exchange_tcp_server.cpp]: the code, what serving a client does, which
    handles the server owns, a recorder in the place of an order handler that may be
    undefined, serving a client of any handler and of the exchange's own, and which frames
    the call log says a handler was given).

    Inputs and programs: [Packets] ([dpdk/parser/{ethernet,ipv4,udp}]); [Itch]
    ([dpdk/parser/itch], [itch_replay_dispatcher.cpp]); [Replay] (replay readers, the
    file generator); [Tools] ([common/numa_utils.cpp], [logging/async_logger.cpp],
    [pcap_replay_reader.cpp], [tools/itch/itch_sender.cpp]); [ReplayRun] (the replay branch of [apps/trading_runtime.cpp] with
    its worker thread); [Receiver] ([dpdk/receiver]); [LiveRun] (the DPDK branch with the
    worker thread); [Options] (the command lines of both runtimes); [ExchangeRun]
    ([apps/exchange_runtime.cpp]); [TradingRun], [TradingMain] (the wiring of the trading
    runtime, its choice of transport, the answer it reads and its final report);
    [System] (both programs, connected by the bytes on the wire).

    ** How code becomes definitions

    One definition per function, under its C++ name with the class as prefix
    ([ArrayOrderBook_addOrder]).  An object is a record of its members, passed and
    returned.  Orders are shared and mutable: they live in a heap, pointers are
    addresses.  A [w]-bit integer is a [Z] with its wrap-around written out
    ([wrap], [sint]); bytes are [Z] in [[0, 256)]; [double] is binary64 of the Standard
    Library's [SpecFloat].  The outer [option] of an operation is undefined behaviour
    (an index out of range, a null or dangling pointer, a read outside a buffer); a
    theorem that states a [Some] result states its absence.

    Virtual interfaces are type classes: [EventConsumer], [OrderExecutionSink],
    [OuchTransport], [OuchHandler], [MarketDataEventSink], [UdpPayloadSink]; clients are
    verified against the class and the implementations are instances.  [OuchHandler] stands
    for the one handler the server holds, [ExchangeOuchHandler]; it is a class so that the
    server can also be run in front of a recorder.  Code outside the
    repository is a parameter: [std::hash] a function, sockets and OpenSSL the class
    [World] (documented behaviour in [WorldLaws], [Quiescent] and [HandleLaws], which
    [toy_world], [peer_world], [fd_world] and [session_world] satisfy), DPDK the class
    [DpdkWorld]; libnuma, libpcap and spdlog are worlds of [Tools] that answer every call.

    Threads are step relations: [SpscThreads.push_step]/[pop_step] at the granularity of
    memory accesses, [Pipeline.pipeline_step], [ReplayRun.replay_step] and
    [LiveRun.live_step] at that of ring operations, which [SpscThreads] justifies.

    ** What is shown

    Containers (C1-C3, C10, C11): the hash map is a finite map; the pool hands out each
    slot once; the bitmap scans are linear scans; the ring is a bounded queue, also for
    two threads with stale loads, without a data race.

    Books (C4-C9): book consumer and matching engine refine abstract books (lists of
    resting orders, oldest first); the engine computes price-time priority, conserves
    quantity, trades best prices first, leaves the book uncrossed and keeps every value in
    the range of its type; the total of a level is the sum of its orders plus all that
    partial cancels and executions have taken there, which the code leaves behind.

    Pipeline and trading (C13, C14, C17, C19, C20): events are delivered once and in order
    in all interleavings; on the floor every unit is accounted for, from the intents to
    positions and console; the limit on the risk position holds through the gateway; the
    strategies place exactly the orders their rule gives for the books and the totals
    they see, event by event.

    What the checks let through (C12, C15, C16, C18): an order without quantity leaves the
    exchange's book crossed; resting orders make room for executed positions beyond the
    limit; the order value wraps; prices beyond the level arrays reach the engine.

    Wire and network (C21-C24, C26-C30): messages round trip and decoders stay in bounds and
    read the fields the protocol puts there; the transports move whole messages under
    partial transfers; a TLS connection is verified or released; the handler's answers and
    the listener's reports carry the fields of their orders and trades; the server
    reassembles frames, for every handler that is defined on what its peer may send, and
    takes no order before the handshake; the exchange runtime hands its handler the frames
    of its call log, is undefined only when the handler is undefined on them, and holds at
    every moment exactly the handles its server records and none after its end; intents
    submitted to the client's sink reach the exchange's book, with their own sides, prices
    and quantities, and each is confirmed.

    Market data in (C31-C38): parsers read inside the packet in network order; the
    dispatcher decodes exactly the protocol; a replay file is delivered in full and a
    replay run always can end; a live run delivers what the receiver accepts; the receiver
    delivers the datagrams of its port, but trusts the lengths in the headers.

    Programs (C25, C39, C40): which command lines are accepted, and that no refusal is
    silent; the trading runtime, from a file and live, to its positions and its final
    report; and both programs together: from the market data to the exchange's book, whose
    imbalance is the position the client's risk manager has recorded.

    ** Fuel and bounds

    Loops over arrays recurse on the array or on a number of probes and need no fuel.
    The matching loop, the bitmap scans, the loops of transports and server and the
    replay loop take fuel; C3, C5, C24, C25, C27, C28, C29 and C33 state fuel that is enough
    (the number of words, of resting orders, of bytes plus the patience of the world, of
    messages).  The endless loops of the receiver and of the exchange are run for any
    number of steps.  Constants are the source's: 100,000 price levels, 4096 pooled orders,
    a ring of 4096 slots.

    ** Not modelled

    The text of log lines and of the receiver's report of rates (it changes nothing but
    the counters, which are modelled), and the error lines of the programs after their
    options are parsed; benchmarks and tests, which drive the modelled
    components; the SystemVerilog parser; interfaces without code ([pipeline/pipeline.hpp],
    [orderbook/software/order_book.hpp]).  Of the libraries the program calls (OpenSSL,
    sockets, DPDK, libnuma, libpcap, spdlog) only the use of their answers is modelled. *)

From stdpp Require Export base tactics option list numbers gmap sets.
From stdpp Require Import options.
From Stdlib Require Export ZArith Lia.

Global Open Scope Z_scope.

Declare Scope hft_scope.
Delimit Scope hft_scope with hft.
Global Open Scope hft_scope.

(** ** Machine integers

    An unsigned [w]-bit value is a [Z] kept in [[0, 2^w)] by [wrap w]; a signed
    one is kept in [[-2^(w-1), 2^(w-1))] by [sint w].  These are the C++
    [static_cast]s and the modular results of unsigned arithmetic. *)

Definition wrap (w z : Z) : Z := z mod 2 ^ w.

Definition sint (w z : Z) : Z := (z + 2 ^ (w - 1)) mod 2 ^ w - 2 ^ (w - 1).

Abbreviation u8 := (wrap 8) (only parsing).
Abbreviation u16 := (wrap 16) (only parsing).
Abbreviation u32 := (wrap 32) (only parsing).
Abbreviation u64 := (wrap 64) (only parsing).
Abbreviation i32 := (sint 32) (only parsing).
Abbreviation i64 := (sint 64) (only parsing).

(** [is_uint w z]: [z] is a value of an unsigned [w]-bit type. *)
Definition is_uint (w z : Z) : Prop := 0 <= z < 2 ^ w.

Definition is_sint (w z : Z) : Prop := - 2 ^ (w - 1) <= z < 2 ^ (w - 1).

#[global] Instance is_uint_dec w z : Decision (is_uint w z).
Proof. unfold is_uint. apply _. Defined.

#[global] Instance is_sint_dec w z : Decision (is_sint w z).
Proof. unfold is_sint. apply _. Defined.

(** ** Fixed-size arrays

    A [std::array] whose elements are default-initialised is a finite map from
    indices to the elements written so far; an index that was never written
    reads as the default element [d].  Bounds are checked by the operations that
    index the array, since indexing outside is undefined in the source. *)

Definition arr_get {A} (d : A) (a : gmap Z A) (i : Z) : A := default d (a !! i).

(** [in_range n i]: the index [i] is inside an array of [n] elements. *)
Definition in_range (n i : Z) : bool := (0 <=? i) && (i <? n).

(** ** Counting indices of a range that satisfy a boolean test *)

Fixpoint countN (P : Z -> bool) (n : nat) : Z :=
  match n with
  | O => 0
  | S n => countN P n + Z.b2z (P (Z.of_nat n))
  end.

Definition countZ (P : Z -> bool) (n : Z) : Z := countN P (Z.to_nat n).

(** ** Automation *)

Create HintDb hft discriminated.
Create Rewrite HintDb hft.

(** Closes goals about division and remainder. *)
Ltac zdm := Z.to_euclidean_division_equations; lia.

(** Turns the boolean comparisons of a hypothesis or of the goal into
    propositions. *)
Ltac bprop :=
  repeat match goal with
  | H : _ && _ = true |- _ => apply andb_prop in H; destruct H
  | H : _ && _ = false |- _ => apply andb_false_iff in H
  | H : _ || _ = true |- _ => apply orb_prop in H
  | H : _ || _ = false |- _ => apply orb_false_elim in H; destruct H
  | H : negb _ = true |- _ => apply negb_true_iff in H
  | H : negb _ = false |- _ => apply negb_false_iff in H
  | H : (_ =? _) = true |- _ => apply Z.eqb_eq in H
  | H : (_ =? _) = false |- _ => apply Z.eqb_neq in H
  | H : (_ <? _) = true |- _ => apply Z.ltb_lt in H
  | H : (_ <? _) = false |- _ => apply Z.ltb_ge in H
  | H : (_ <=? _) = true |- _ => apply Z.leb_le in H
  | H : (_ <=? _) = false |- _ => apply Z.leb_gt in H
  | H : (_ >? _) = true |- _ => rewrite Z.gtb_ltb in H; apply Z.ltb_lt in H
  | H : (_ >? _) = false |- _ => rewrite Z.gtb_ltb in H; apply Z.ltb_ge in H
  | H : (_ >=? _) = true |- _ => rewrite Z.geb_leb in H; apply Z.leb_le in H
  | H : (_ >=? _) = false |- _ => rewrite Z.geb_leb in H; apply Z.leb_gt in H
  | H : bool_decide _ = true |- _ => apply bool_decide_eq_true in H
  | H : bool_decide _ = false |- _ => apply bool_decide_eq_false in H
  end.

(** Splits on the next [if] or [match] of the goal, keeping the equation in
    propositional form. *)
Ltac bcase :=
  match goal with
  | |- context [if ?b then _ else _] =>
      lazymatch type of b with
      | bool => let E := fresh "E" in destruct b eqn:E; bprop
      | sumbool _ _ => destruct b
      end
  end.

(** ** Lemmas on machine integers *)

Lemma wrap_range w z : 0 <= w -> 0 <= wrap w z < 2 ^ w.
Proof. intros. apply Z.mod_pos_bound. lia. Qed.

Lemma wrap_small w z : 0 <= z < 2 ^ w -> wrap w z = z.
Proof. apply Z.mod_small. Qed.

Lemma wrap_wrap w z : wrap w (wrap w z) = wrap w z.
Proof. unfold wrap. by rewrite Zmod_mod. Qed.

Lemma wrap_add_l w a b : wrap w (wrap w a + b) = wrap w (a + b).
Proof. unfold wrap. by rewrite Zplus_mod_idemp_l. Qed.

Lemma wrap_sub_l w a b : wrap w (wrap w a - b) = wrap w (a - b).
Proof. unfold wrap. by rewrite Zminus_mod_idemp_l. Qed.

Lemma sint_range w z : 0 < w -> - 2 ^ (w - 1) <= sint w z < 2 ^ (w - 1).
Proof.
  intros Hw. unfold sint.
  assert (2 ^ w = 2 * 2 ^ (w - 1)) as E.
  { rewrite <- Z.pow_succ_r by lia. f_equal. lia. }
  pose proof (Z.mod_pos_bound (z + 2 ^ (w - 1)) (2 ^ w)). lia.
Qed.

Lemma sint_small w z : 0 < w -> - 2 ^ (w - 1) <= z < 2 ^ (w - 1) -> sint w z = z.
Proof.
  intros Hw Hz. unfold sint.
  assert (2 ^ w = 2 * 2 ^ (w - 1)) as E.
  { rewrite <- Z.pow_succ_r by lia. f_equal. lia. }
  rewrite Z.mod_small; lia.
Qed.

Lemma sint_add_l w a b : sint w (sint w a + b) = sint w (a + b).
Proof.
  unfold sint. f_equal.
  replace ((a + 2 ^ (w - 1)) mod 2 ^ w - 2 ^ (w - 1) + b + 2 ^ (w - 1)) with
    ((a + 2 ^ (w - 1)) mod 2 ^ w + b) by lia.
  rewrite Zplus_mod_idemp_l. f_equal. lia.
Qed.

Lemma sint_sint w a : sint w (sint w a) = sint w a.
Proof. rewrite <- (Z.add_0_r (sint w a)) at 1. rewrite sint_add_l. f_equal. lia. Qed.

#[export] Hint Rewrite wrap_wrap wrap_add_l wrap_sub_l : hft.

(** ** Lemmas on arrays *)

Lemma arr_get_set_eq {A} (d : A) a i x : arr_get d (<[i:=x]> a) i = x.
Proof. unfold arr_get. by rewrite lookup_insert_eq. Qed.

Lemma arr_get_set_ne {A} (d : A) a i j x :
  i <> j -> arr_get d (<[i:=x]> a) j = arr_get d a j.
Proof. intros. unfold arr_get. by rewrite lookup_insert_ne. Qed.

Lemma arr_get_set {A} (d : A) a i j x :
  arr_get d (<[i:=x]> a) j = if decide (i = j) then x else arr_get d a j.
Proof. case_decide; subst; [apply arr_get_set_eq|by apply arr_get_set_ne]. Qed.

Lemma arr_get_empty {A} (d : A) i : arr_get d ∅ i = d.
Proof. unfold arr_get. by rewrite lookup_empty. Qed.

Lemma in_range_spec n i : in_range n i = true <-> 0 <= i < n.
Proof. unfold in_range. rewrite andb_true_iff, Z.leb_le, Z.ltb_lt. done. Qed.

Lemma in_range_false n i : in_range n i = false <-> ~ (0 <= i < n).
Proof. rewrite <- in_range_spec. by destruct (in_range n i). Qed.

(** ** Lemmas on lists *)

Lemma filter_ext_all {A} (P Q : A -> Prop) `{!forall x, Decision (P x), !forall x, Decision (Q x)} (l : list A) :
  (forall x, x ∈ l -> P x <-> Q x) -> filter P l = filter Q l.
Proof.
  induction l as [|x l IH]; intros E; [done|]. rewrite !filter_cons.
  rewrite IH by (intros; apply E; by right).
  pose proof (E x (list_elem_of_here _ _)). repeat case_decide; naive_solver.
Qed.

Lemma Forall_filter_keep {A} (P Q : A -> Prop) `{!forall x, Decision (P x)} (l : list A) :
  Forall Q l -> Forall Q (filter P l).
Proof. rewrite !Forall_forall. intros HQ x [_ Hx]%list_elem_of_filter. by apply HQ. Qed.

Lemma length_omap_le {A B} (f : A -> option B) (l : list A) : (length (omap f l) <= length l)%nat.
Proof. induction l as [|x l IH]; cbn; [done|]. destruct (f x); cbn; lia. Qed.

(** ** Lemmas on counting *)

Lemma countN_ext P Q n :
  (forall i, 0 <= i < Z.of_nat n -> P i = Q i) -> countN P n = countN Q n.
Proof.
  induction n as [|n IH]; intros H; [done|]. cbn [countN].
  rewrite IH by (intros; apply H; lia). by rewrite H by lia.
Qed.

Lemma countZ_bounds P n : 0 <= n -> 0 <= countZ P n <= n.
Proof.
  intros Hn. unfold countZ. rewrite <- (Z2Nat.id n) at 3 by done.
  induction (Z.to_nat n) as [|k IH]; cbn [countN]; [lia|].
  destruct (P (Z.of_nat k)); cbn [Z.b2z]; lia.
Qed.

Lemma countZ_zero P n : (forall i, 0 <= i < n -> P i = false) -> countZ P n = 0.
Proof.
  intros H. unfold countZ.
  assert (forall i, 0 <= i < Z.of_nat (Z.to_nat n) -> P i = false) as H'
    by (intros; apply H; lia).
  clear H. induction (Z.to_nat n) as [|k IH]; [done|]. cbn [countN].
  rewrite H' by lia. rewrite IH; [done|]. intros; apply H'; lia.
Qed.

(** Switching one index of the range from [false] to [true] adds one. *)
Lemma countZ_set P Q n i :
  0 <= i < n -> P i = false -> Q i = true ->
  (forall j, 0 <= j < n -> j <> i -> Q j = P j) ->
  countZ Q n = countZ P n + 1.
Proof.
  intros Hi HP HQ H. unfold countZ.
  assert (0 <= i < Z.of_nat (Z.to_nat n)) as Hi' by lia.
  assert (forall j, 0 <= j < Z.of_nat (Z.to_nat n) -> j <> i -> Q j = P j) as H'
    by (intros; apply H; lia).
  clear H Hi. revert Hi' H'. induction (Z.to_nat n) as [|k IH]; [lia|].
  intros Hi H. cbn [countN].
  destruct (Z.eq_dec (Z.of_nat k) i) as [<-|Hne].
  - rewrite HP, HQ. cbn [Z.b2z]. rewrite (countN_ext Q P); [lia|].
    intros; apply H; lia.
  - rewrite IH; [|lia|intros; apply H; lia]. rewrite (H (Z.of_nat k)); lia.
Qed.

(** A count below the size of the range leaves some index out. *)
Lemma countZ_lt P n : countZ P n < n -> exists i, 0 <= i < n /\ P i = false.
Proof.
  unfold countZ. intros H.
  assert (countN P (Z.to_nat n) < Z.of_nat (Z.to_nat n)) as H'.
  { assert (0 < n \/ n <= 0) as [Hn|Hn] by lia; [lia|].
    replace (Z.to_nat n) with O in H by lia. cbn in H. lia. }
  clear H. assert (Z.of_nat (Z.to_nat n) <= Z.max 0 n) as Hn by lia.
  induction (Z.to_nat n) as [|k IH]; cbn [countN] in H'; [lia|].
  destruct (P (Z.of_nat k)) eqn:E; [|exists (Z.of_nat k); split; [lia|done]].
  apply IH; cbn [Z.b2z] in H'; lia.
Qed.

Lemma countZ_all P n : 0 <= n -> (forall i, 0 <= i < n -> P i = true) -> countZ P n = n.
Proof.
  intros Hn H. destruct (Z.eq_dec (countZ P n) n) as [|Hne]; [done|].
  pose proof (countZ_bounds P n Hn).
  destruct (countZ_lt P n) as (i & Hi & E); [lia|]. by rewrite H in E.
Qed.
