(* ===== verification/FixedHashMap.v ===== *)
(** * The fixed-capacity open-addressing hash map

    Model of [common/fixed_hash_map.hpp]: linear probing from [hash(key)] with
    tombstones ([Deleted]), no rehashing and a [size_] counter.  The template
    parameters are section variables: the key and value types, the capacity and
    [std::hash<Key>], an arbitrary function.  The [for] loops over [probe] are
    structural recursions on the number of probes left, so they need no fuel of
    their own.

    The development relates the array of entries to a finite map ([represents])
    and proves that every operation implements the map's operation. *)

From S2P Require Import Prelude.

(** [enum class EntryState]. *)
Inductive EntryState : Type := Empty | Occupied | Deleted.

#[global] Instance EntryState_eq_dec : EqDecision EntryState.
Proof. solve_decision. Defined.

Section fixed_hash_map.

Context {Key Value : Type} {Key_eq : EqDecision Key} {Key_inh : Inhabited Key}
  {Value_inh : Inhabited Value}.

Variable Capacity : Z.

Variable std_hash : Key -> Z.

(** [struct Entry]. *)
Record Entry : Type := mkEntry {
  entry_key : Key;
  entry_value : Value;
  entry_state : EntryState
}.

Definition Entry_default : Entry := mkEntry inhabitant inhabitant Empty.

(** The two data members [entries_] and [size_]. *)
Record FixedHashMap : Type := mkFixedHashMap {
  entries_ : gmap Z Entry;
  size_ : Z
}.

Definition FixedHashMap_new : FixedHashMap := mkFixedHashMap ∅ 0.

Definition FixedHashMap_hash (key : Key) : Z := std_hash key mod Capacity.

Definition FixedHashMap_nextIndex (index : Z) : Z := (index + 1) mod Capacity.

Definition entry_at (entries : gmap Z Entry) (index : Z) : Entry :=
  arr_get Entry_default entries index.

(** The three assignments [key], [value], [state = Occupied] of one entry,
    followed by [++size_]. *)
Definition FixedHashMap_occupy (m : FixedHashMap) (target : Z) (key : Key) (value : Value)
    : FixedHashMap :=
  mkFixedHashMap (<[target := mkEntry key value Occupied]> (entries_ m)) (u64 (size_ m + 1)).

Fixpoint FixedHashMap_insert_loop (probes : nat) (m : FixedHashMap) (index first_deleted : Z)
    (key : Key) (value : Value) : bool * FixedHashMap :=
  match probes with
  | O =>
      if negb (first_deleted =? Capacity)
      then (true, FixedHashMap_occupy m first_deleted key value)
      else (false, m)
  | S probes =>
      let entry := entry_at (entries_ m) index in
      match entry_state entry with
      | Occupied =>
          if bool_decide (entry_key entry = key)
          then (true, mkFixedHashMap
                        (<[index := mkEntry (entry_key entry) value Occupied]> (entries_ m))
                        (size_ m))
          else FixedHashMap_insert_loop probes m (FixedHashMap_nextIndex index) first_deleted
                 key value
      | Deleted =>
          let first_deleted := if first_deleted =? Capacity then index else first_deleted in
          FixedHashMap_insert_loop probes m (FixedHashMap_nextIndex index) first_deleted key value
      | Empty =>
          let target := if negb (first_deleted =? Capacity) then first_deleted else index in
          (true, FixedHashMap_occupy m target key value)
      end
  end.

Definition FixedHashMap_insert (m : FixedHashMap) (key : Key) (value : Value)
    : bool * FixedHashMap :=
  FixedHashMap_insert_loop (Z.to_nat Capacity) m (FixedHashMap_hash key) Capacity key value.

(** Both overloads of [find]; the returned pointer is the index of the entry. *)
Fixpoint FixedHashMap_find_loop (probes : nat) (m : FixedHashMap) (index : Z) (key : Key)
    : option Z :=
  match probes with
  | O => None
  | S probes =>
      let entry := entry_at (entries_ m) index in
      if bool_decide (entry_state entry = Empty) then None
      else if bool_decide (entry_state entry = Occupied) && bool_decide (entry_key entry = key)
      then Some index
      else FixedHashMap_find_loop probes m (FixedHashMap_nextIndex index) key
  end.

Definition FixedHashMap_find_index (m : FixedHashMap) (key : Key) : option Z :=
  FixedHashMap_find_loop (Z.to_nat Capacity) m (FixedHashMap_hash key) key.

Definition FixedHashMap_find (m : FixedHashMap) (key : Key) : option Value :=
  (fun index => entry_value (entry_at (entries_ m) index)) <$> FixedHashMap_find_index m key.

Fixpoint FixedHashMap_erase_loop (probes : nat) (m : FixedHashMap) (index : Z) (key : Key)
    : bool * FixedHashMap :=
  match probes with
  | O => (false, m)
  | S probes =>
      let entry := entry_at (entries_ m) index in
      if bool_decide (entry_state entry = Empty) then (false, m)
      else if bool_decide (entry_state entry = Occupied) && bool_decide (entry_key entry = key)
      then (true, mkFixedHashMap
                    (<[index := mkEntry (entry_key entry) (entry_value entry) Deleted]>
                       (entries_ m))
                    (u64 (size_ m - 1)))
      else FixedHashMap_erase_loop probes m (FixedHashMap_nextIndex index) key
  end.

Definition FixedHashMap_erase (m : FixedHashMap) (key : Key) : bool * FixedHashMap :=
  FixedHashMap_erase_loop (Z.to_nat Capacity) m (FixedHashMap_hash key) key.

Definition FixedHashMap_contains (m : FixedHashMap) (key : Key) : bool :=
  bool_decide (is_Some (FixedHashMap_find m key)).

Definition FixedHashMap_size (m : FixedHashMap) : Z := size_ m.

Definition FixedHashMap_capacity : Z := Capacity.

Definition FixedHashMap_empty (m : FixedHashMap) : bool := size_ m =? 0.

(** ** The representation invariant

    [pos k n] is the slot looked at by probe [n] for the key [k]. *)

Definition pos (k : Key) (n : Z) : Z := (FixedHashMap_hash k + n) mod Capacity.

Definition state_at (m : FixedHashMap) (i : Z) : EntryState := entry_state (entry_at (entries_ m) i).

Definition holds (m : FixedHashMap) (i : Z) (k : Key) (v : Value) : Prop :=
  entry_at (entries_ m) i = mkEntry k v Occupied.

Definition occupied (m : FixedHashMap) (i : Z) : bool := bool_decide (state_at m i = Occupied).

Context {Key_countable : Countable Key}.

(** [represents m M]: the table [m] stores the finite map [M].  Each binding sits
    in one slot, that slot can be reached by probing from the key's hash without
    meeting an [Empty] entry, and [size_] counts the occupied slots. *)
Record represents (m : FixedHashMap) (M : gmap Key Value) : Prop := {
  rep_sound : forall i k v, 0 <= i < Capacity -> holds m i k v -> M !! k = Some v;
  rep_complete : forall k v, M !! k = Some v ->
    exists n, 0 <= n < Capacity /\ holds m (pos k n) k v /\
      forall j, 0 <= j < n -> state_at m (pos k j) <> Empty;
  rep_unique : forall i j k v w, 0 <= i < Capacity -> 0 <= j < Capacity ->
    holds m i k v -> holds m j k w -> i = j;
  rep_size : size_ m = Z.of_nat (size M);
  rep_count : countZ (occupied m) Capacity = size_ m
}.

(** ** Probe sequences *)

Hypothesis Capacity_pos : 0 < Capacity.

Lemma pos_range k n : 0 <= pos k n < Capacity.
Proof. apply Z.mod_pos_bound. lia. Qed.

Lemma pos_0 k : pos k 0 = FixedHashMap_hash k.
Proof. unfold pos, FixedHashMap_hash. by rewrite Z.add_0_r, Zmod_mod. Qed.

Lemma pos_next k n : FixedHashMap_nextIndex (pos k n) = pos k (n + 1).
Proof.
  unfold FixedHashMap_nextIndex, pos. rewrite Zplus_mod_idemp_l. f_equal. lia.
Qed.

(** The first [Capacity] probes visit every slot. *)
Lemma pos_surj k i : 0 <= i < Capacity -> exists n, 0 <= n < Capacity /\ pos k n = i.
Proof.
  intros Hi. exists ((i - FixedHashMap_hash k) mod Capacity). split.
  - apply Z.mod_pos_bound. lia.
  - unfold pos. rewrite Zplus_mod_idemp_r.
    replace (FixedHashMap_hash k + (i - FixedHashMap_hash k)) with i by lia.
    by apply Z.mod_small.
Qed.

(** [matches m i k]: the test of the loops, an occupied entry with key [k]. *)
Definition matches (m : FixedHashMap) (i : Z) (k : Key) : Prop :=
  state_at m i = Occupied /\ entry_key (entry_at (entries_ m) i) = k.

(** [scanned m k n]: the first [n] probes met neither [k] nor an empty slot. *)
Definition scanned (m : FixedHashMap) (k : Key) (n : Z) : Prop :=
  forall j, 0 <= j < n -> state_at m (pos k j) <> Empty /\ ~ matches m (pos k j) k.

Lemma matches_holds m i k :
  matches m i k -> holds m i k (entry_value (entry_at (entries_ m) i)).
Proof.
  unfold matches, holds, state_at. destruct (entry_at (entries_ m) i).
  cbn. by intros [-> ->].
Qed.

Lemma holds_matches m i k v : holds m i k v -> matches m i k.
Proof. unfold matches, holds, state_at. by intros ->. Qed.

Lemma scanned_snoc m k n :
  scanned m k n -> state_at m (pos k n) <> Empty -> ~ matches m (pos k n) k ->
  scanned m k (n + 1).
Proof.
  intros Hs H1 H2 j Hj. destruct (Z.eq_dec j n) as [->|]; [done|]. apply Hs. lia.
Qed.

(** A key that is not met before the first empty slot, or in a whole round, is
    not in the map. *)
Lemma scanned_absent m M k n :
  0 <= n -> represents m M -> scanned m k n ->
  n = Capacity \/ state_at m (pos k n) = Empty -> M !! k = None.
Proof.
  intros Hn R Hs Hend. destruct (M !! k) as [v|] eqn:E; [exfalso|done].
  destruct (rep_complete _ _ R _ _ E) as (p & Hp & Hh & Hne).
  assert (n <= p) as Hnp.
  { destruct (Z.lt_ge_cases p n); [|lia].
    destruct (Hs p) as [_ Hm]; [lia|]. by apply holds_matches in Hh. }
  destruct Hend as [->|He]; [lia|].
  destruct (Z.eq_dec n p) as [->|]; [|apply (Hne n); [lia|done]].
  apply holds_matches in Hh as [Ho _]. congruence.
Qed.

(** ** [find] *)

Lemma find_loop_spec m k probes n :
  0 <= n -> n + Z.of_nat probes = Capacity -> scanned m k n ->
  match FixedHashMap_find_loop probes m (pos k n) k with
  | Some i => 0 <= i < Capacity /\ matches m i k
  | None => exists p, 0 <= p /\ scanned m k p /\ (p = Capacity \/ state_at m (pos k p) = Empty)
  end.
Proof.
  revert n. induction probes as [|probes IH]; intros n Hn Hc Hs; cbn [FixedHashMap_find_loop].
  { exists n. split_and!; [done..|left; lia]. }
  case_bool_decide as He; [exists n; split_and!; [done..|by right]|].
  case_bool_decide as Ho; cbn [andb].
  2:{ rewrite pos_next. apply IH; [lia..|].
      apply scanned_snoc; [done..|by intros [? _]]. }
  case_bool_decide as Hk.
  { split; [apply pos_range|by split]. }
  rewrite pos_next. apply IH; [lia..|]. apply scanned_snoc; [done..|by intros [_ ?]].
Qed.

Lemma find_index_spec m k :
  match FixedHashMap_find_index m k with
  | Some i => 0 <= i < Capacity /\ matches m i k
  | None => exists p, 0 <= p /\ scanned m k p /\ (p = Capacity \/ state_at m (pos k p) = Empty)
  end.
Proof.
  unfold FixedHashMap_find_index. rewrite <- pos_0.
  apply find_loop_spec; [lia..|]. intros j Hj. lia.
Qed.

Lemma find_represents m M k : represents m M -> FixedHashMap_find m k = M !! k.
Proof.
  intros R. unfold FixedHashMap_find. pose proof (find_index_spec m k) as H'.
  destruct (FixedHashMap_find_index m k) as [i|]; cbn.
  - destruct H' as [Hi Hm]. apply matches_holds in Hm. symmetry. by eapply rep_sound.
  - destruct H' as (p & Hp & Hs & Hend). symmetry. by eapply scanned_absent.
Qed.
(** ** Writing one slot *)

Lemma entry_at_set m i j e sz :
  entry_at (entries_ (mkFixedHashMap (<[i:=e]> (entries_ m)) sz)) j =
  if decide (i = j) then e else entry_at (entries_ m) j.
Proof. apply arr_get_set. Qed.

(** The slot written by an operation keeps every probe sequence connected as
    long as it does not become [Empty]. *)
Lemma state_at_set_nonempty m i e sz j :
  entry_state e <> Empty -> state_at m j <> Empty ->
  state_at (mkFixedHashMap (<[i:=e]> (entries_ m)) sz) j <> Empty.
Proof. unfold state_at. intros. rewrite entry_at_set. by case_decide. Qed.

Lemma holds_set_ne m i e sz j k v :
  i <> j -> holds m j k v -> holds (mkFixedHashMap (<[i:=e]> (entries_ m)) sz) j k v.
Proof. unfold holds. intros. rewrite entry_at_set. by rewrite decide_False. Qed.

Lemma holds_set_inv m i e sz j k v :
  holds (mkFixedHashMap (<[i:=e]> (entries_ m)) sz) j k v ->
  i = j /\ e = mkEntry k v Occupied \/ i <> j /\ holds m j k v.
Proof. unfold holds. rewrite entry_at_set. case_decide; auto. Qed.

Lemma occupied_set m i e sz j :
  occupied (mkFixedHashMap (<[i:=e]> (entries_ m)) sz) j =
  if decide (i = j) then bool_decide (entry_state e = Occupied) else occupied m j.
Proof. unfold occupied, state_at. rewrite entry_at_set. by case_decide. Qed.

Hypothesis Capacity_u64 : Capacity < 2 ^ 64.

Lemma represents_size m M : represents m M -> 0 <= size_ m <= Capacity.
Proof. intros R. rewrite <- (rep_count _ _ R). apply countZ_bounds. lia. Qed.

(** Overwriting the value of the slot that holds the key. *)
Lemma represents_overwrite m M i k v :
  represents m M -> 0 <= i < Capacity -> matches m i k ->
  represents (mkFixedHashMap
     (<[i := mkEntry (entry_key (entry_at (entries_ m) i)) v Occupied]> (entries_ m)) (size_ m))
     (<[k:=v]> M).
Proof.
  intros R Hi Hm. pose proof (matches_holds _ _ _ Hm) as Hh. destruct Hm as [Ho Hk].
  rewrite Hk. pose proof (rep_sound _ _ R _ _ _ Hi Hh) as HM. constructor.
  - intros j k' v' Hj [[<- [= <- <-]]|[Hne H']]%holds_set_inv; [by rewrite lookup_insert_eq|].
    rewrite lookup_insert_ne; [by eapply rep_sound|].
    intros <-. apply Hne. by eapply (rep_unique _ _ R).
  - intros k' v' Hl. destruct (decide (k = k')) as [<-|Hne].
    + rewrite lookup_insert_eq in Hl. injection Hl as <-.
      destruct (rep_complete _ _ R _ _ HM) as (n & Hn & Hh' & Hne). exists n.
      assert (pos k n = i) as Hpos
        by (eapply (rep_unique _ _ R); [apply pos_range|done..]).
      split; [done|split].
      * rewrite Hpos. unfold holds. rewrite entry_at_set. by rewrite decide_True.
      * intros j Hj. apply state_at_set_nonempty; [done|by apply Hne].
    + rewrite lookup_insert_ne in Hl by done.
      destruct (rep_complete _ _ R _ _ Hl) as (n & Hn & Hh' & Hemp).
      exists n. split; [done|split].
      * apply holds_set_ne; [|done]. unfold holds in *. congruence.
      * intros j Hj. apply state_at_set_nonempty; [done|by apply Hemp].
  - intros j1 j2 k' v1 v2 H1 H2 [[? ?]|[? ?]]%holds_set_inv
      [[? ?]|[? ?]]%holds_set_inv; simplify_eq; try done; by eapply (rep_unique _ _ R).
  - cbn [size_]. rewrite (rep_size _ _ R). rewrite map_size_insert, HM. done.
  - cbn [size_]. rewrite <- (rep_count _ _ R). apply countN_ext. intros j Hj.
    rewrite occupied_set. case_decide; [subst|done]. cbn. unfold occupied.
    by rewrite Ho.
Qed.

(** Occupying a free slot that the probe sequence of an absent key reaches. *)
Lemma represents_occupy m M t k v :
  represents m M -> M !! k = None -> 0 <= t < Capacity ->
  state_at m (pos k t) <> Occupied ->
  (forall j, 0 <= j < t -> state_at m (pos k j) <> Empty) ->
  represents (FixedHashMap_occupy m (pos k t) k v) (<[k:=v]> M).
Proof.
  intros R HM Ht Hfree Hpath. unfold FixedHashMap_occupy.
  assert (forall j k' v', holds m j k' v' -> pos k t <> j) as Hdiff.
  { intros j k' v' Hh <-. by apply holds_matches in Hh as [? _]. }
  assert (countZ (occupied (FixedHashMap_occupy m (pos k t) k v)) Capacity
          = countZ (occupied m) Capacity + 1) as Hcount.
  { apply (countZ_set _ _ _ (pos k t)); [apply pos_range| | |].
    - unfold occupied. by rewrite bool_decide_false.
    - unfold FixedHashMap_occupy. rewrite occupied_set. by rewrite decide_True.
    - intros j _ Hne. unfold FixedHashMap_occupy. rewrite occupied_set. by rewrite decide_False. }
  assert (u64 (size_ m + 1) = size_ m + 1) as Hwrap.
  { apply wrap_small. rewrite <- (rep_count _ _ R), <- Hcount.
    pose proof (countZ_bounds (occupied (FixedHashMap_occupy m (pos k t) k v)) Capacity). lia. }
  constructor.
  - intros j k' v' Hj [[<- [= <- <-]]|[Hne H']]%holds_set_inv; [by rewrite lookup_insert_eq|].
    pose proof (rep_sound _ _ R _ _ _ Hj H') as HM'.
    rewrite lookup_insert_ne; [done|]. congruence.
  - intros k' v' Hl. destruct (decide (k = k')) as [<-|Hne].
    + rewrite lookup_insert_eq in Hl. injection Hl as <-. exists t. split; [done|split].
      * unfold holds. rewrite entry_at_set. by rewrite decide_True.
      * intros j Hj. apply state_at_set_nonempty; [done|by apply Hpath].
    + rewrite lookup_insert_ne in Hl by done.
      destruct (rep_complete _ _ R _ _ Hl) as (n & Hn & Hh & Hemp).
      exists n. split; [done|split].
      * apply holds_set_ne; [by eapply Hdiff|done].
      * intros j Hj. apply state_at_set_nonempty; [done|by apply Hemp].
  - intros j1 j2 k' v1 v2 H1 H2 [[? ?]|[? Hh1]]%holds_set_inv
      [[? ?]|[? Hh2]]%holds_set_inv; simplify_eq; try done.
    + apply (rep_sound _ _ R) in Hh2; [congruence|done].
    + apply (rep_sound _ _ R) in Hh1; [congruence|done].
    + by eapply (rep_unique _ _ R).
  - cbn [size_]. rewrite Hwrap, (rep_size _ _ R), map_size_insert, HM. lia.
  - cbn [size_]. rewrite Hwrap, <- (rep_count _ _ R). apply Hcount.
Qed.

(** Leaving a tombstone in the slot that holds the key. *)
Lemma represents_tombstone m M i k :
  represents m M -> 0 <= i < Capacity -> matches m i k ->
  represents (mkFixedHashMap
     (<[i := mkEntry (entry_key (entry_at (entries_ m) i))
                     (entry_value (entry_at (entries_ m) i)) Deleted]> (entries_ m))
     (u64 (size_ m - 1))) (delete k M).
Proof.
  intros R Hi Hm. pose proof (matches_holds _ _ _ Hm) as Hh. destruct Hm as [Ho Hk].
  pose proof (rep_sound _ _ R _ _ _ Hi Hh) as HM.
  set (e := mkEntry _ _ Deleted).
  assert (countZ (occupied m) Capacity =
          countZ (occupied (mkFixedHashMap (<[i:=e]> (entries_ m)) (u64 (size_ m - 1)))) Capacity
          + 1) as Hcount.
  { apply (countZ_set _ _ _ i); [done| | |].
    - rewrite occupied_set. by rewrite decide_True.
    - unfold occupied. by rewrite Ho.
    - intros j _ Hne. rewrite occupied_set. by rewrite decide_False. }
  assert (u64 (size_ m - 1) = size_ m - 1) as Hwrap.
  { apply wrap_small. pose proof (represents_size _ _ R). rewrite <- (rep_count _ _ R) in *.
    rewrite Hcount in *.
    match goal with |- context [countZ ?P Capacity] => pose proof (countZ_bounds P Capacity) end.
    lia. }
  constructor.
  - intros j k' v' Hj [[_ ?]|[Hne H']]%holds_set_inv; [done|].
    rewrite lookup_delete_ne; [by eapply rep_sound|].
    intros <-. apply Hne. by eapply (rep_unique _ _ R).
  - intros k' v' [Hne Hl]%lookup_delete_Some.
    destruct (rep_complete _ _ R _ _ Hl) as (n & Hn & Hh' & Hemp).
    exists n. split; [done|split].
    + apply holds_set_ne; [|done]. unfold holds in *. congruence.
    + intros j Hj. apply state_at_set_nonempty; [done|by apply Hemp].
  - intros j1 j2 k' v1 v2 H1 H2 [[_ ?]|[? ?]]%holds_set_inv [[_ ?]|[? ?]]%holds_set_inv;
      try done. by eapply (rep_unique _ _ R).
  - cbn [size_]. rewrite Hwrap, (rep_size _ _ R), map_size_delete, HM.
    pose proof (represents_size _ _ R) as Hs. rewrite (rep_size _ _ R) in Hs.
    assert (size M <> 0%nat); [|lia]. intros E%map_size_empty_inv. subst. done.
  - cbn [size_]. pose proof (rep_count _ _ R). lia.
Qed.
(** ** [insert] *)

(** What the insertion loop knows after [n] probes: the first tombstone, if any
    was met. *)
Definition tombstone_seen (m : FixedHashMap) (k : Key) (n first_deleted : Z) : Prop :=
  (first_deleted = Capacity /\ forall j, 0 <= j < n -> state_at m (pos k j) = Occupied) \/
  (exists d, 0 <= d < n /\ first_deleted = pos k d /\ state_at m (pos k d) = Deleted).

(** The three ways the loop returns: overwrite, occupy a free slot, or full. *)
Inductive insert_outcome (m : FixedHashMap) (k : Key) (v : Value) : bool * FixedHashMap -> Prop :=
| outcome_overwrite i :
    0 <= i < Capacity -> matches m i k ->
    insert_outcome m k v (true, mkFixedHashMap
      (<[i := mkEntry (entry_key (entry_at (entries_ m) i)) v Occupied]> (entries_ m)) (size_ m))
| outcome_occupy t p :
    0 <= t < Capacity -> 0 <= p -> t <= p -> scanned m k p ->
    p = Capacity \/ state_at m (pos k p) = Empty ->
    state_at m (pos k t) <> Occupied ->
    insert_outcome m k v (true, FixedHashMap_occupy m (pos k t) k v)
| outcome_full :
    scanned m k Capacity ->
    (forall j, 0 <= j < Capacity -> state_at m (pos k j) = Occupied) ->
    insert_outcome m k v (false, m).

Lemma pos_neq_Capacity k d : (pos k d =? Capacity) = false.
Proof. apply Z.eqb_neq. pose proof (pos_range k d). lia. Qed.

Lemma insert_loop_outcome m k v probes n fd :
  0 <= n -> n + Z.of_nat probes = Capacity -> scanned m k n -> tombstone_seen m k n fd ->
  insert_outcome m k v (FixedHashMap_insert_loop probes m (pos k n) fd k v).
Proof.
  revert n fd. induction probes as [|probes IH]; intros n fd Hn Hc Hs Ht;
    cbn [FixedHashMap_insert_loop].
  { destruct Ht as [[-> Hall]|(d & Hd & -> & Hdel)].
    - rewrite Z.eqb_refl. cbn. replace n with Capacity in * by lia. by apply outcome_full.
    - rewrite pos_neq_Capacity. cbn.
      apply (outcome_occupy _ _ _ d n); [lia..|done|left; lia|congruence]. }
  change (entry_state (entry_at (entries_ m) (pos k n))) with (state_at m (pos k n)).
  destruct (state_at m (pos k n)) eqn:Est.
  - (* Empty *)
    destruct Ht as [[-> Hall]|(d & Hd & -> & Hdel)].
    + rewrite Z.eqb_refl. cbn [negb].
      apply (outcome_occupy _ _ _ n n); [lia..|done|by right|congruence].
    + rewrite pos_neq_Capacity. cbn [negb].
      apply (outcome_occupy _ _ _ d n); [lia..|done|by right|congruence].
  - (* Occupied *)
    case_bool_decide as Hk; [apply outcome_overwrite; [apply pos_range|by split]|].
    rewrite pos_next. apply IH; [lia..| |].
    + apply scanned_snoc; [done|congruence|by intros [_ ?]].
    + destruct Ht as [[-> Hall]|(d & Hd & -> & Hdel)]; [left|right; exists d; split; [lia|done]].
      split; [done|]. intros j Hj. destruct (Z.eq_dec j n) as [->|]; [done|apply Hall; lia].
  - (* Deleted *)
    rewrite pos_next. apply IH; [lia..| |].
    + apply scanned_snoc; [done|congruence|intros [? _]; congruence].
    + right. destruct Ht as [[-> Hall]|(d & Hd & -> & Hdel)].
      * rewrite Z.eqb_refl. exists n. split; [lia|done].
      * rewrite pos_neq_Capacity. exists d. split; [lia|done].
Qed.

Lemma insert_has_outcome m k v : insert_outcome m k v (FixedHashMap_insert m k v).
Proof.
  unfold FixedHashMap_insert. rewrite <- pos_0.
  apply insert_loop_outcome; [lia..| |].
  - intros j Hj. lia.
  - left. split; [done|]. intros j Hj. lia.
Qed.

Lemma all_occupied_full m M k :
  represents m M -> (forall j, 0 <= j < Capacity -> state_at m (pos k j) = Occupied) ->
  Z.of_nat (size M) = Capacity.
Proof.
  intros R Hall. rewrite <- (rep_size _ _ R), <- (rep_count _ _ R).
  apply countZ_all; [lia|]. intros i Hi. destruct (pos_surj k i Hi) as (n & Hn & <-).
  unfold occupied. by rewrite Hall.
Qed.

(** A table with a free slot is not full. *)
Lemma free_slot_not_full m M i :
  represents m M -> 0 <= i < Capacity -> state_at m i <> Occupied -> Z.of_nat (size M) < Capacity.
Proof.
  intros R Hi Hf. rewrite <- (rep_size _ _ R), <- (rep_count _ _ R).
  assert (countZ (fun j => if decide (i = j) then true else occupied m j) Capacity
          = countZ (occupied m) Capacity + 1) as E.
  { apply (countZ_set _ _ _ i); [done| | |].
    - unfold occupied. by rewrite bool_decide_false.
    - by rewrite decide_True.
    - intros j _ Hj. by rewrite decide_False. }
  pose proof (countZ_bounds (fun j => if decide (i = j) then true else occupied m j) Capacity).
  lia.
Qed.

(** The contract of [insert]: it succeeds exactly when the key is present or a
    slot is free. *)
Lemma insert_represents m M k v :
  represents m M ->
  (exists m', FixedHashMap_insert m k v = (true, m') /\ represents m' (<[k:=v]> M) /\
     (is_Some (M !! k) \/ Z.of_nat (size M) < Capacity)) \/
  (FixedHashMap_insert m k v = (false, m) /\ M !! k = None /\ Z.of_nat (size M) = Capacity).
Proof.
  intros R. destruct (insert_has_outcome m k v) as [i Hi Hm|t p Ht Hp Htp Hs Hend Hf|Hs Hall].
  - left. eexists. split; [done|]. split; [by apply represents_overwrite|].
    left. apply matches_holds in Hm. apply (rep_sound _ _ R) in Hm; [|done]. by eexists.
  - left. eexists. split; [done|]. split.
    + apply represents_occupy; [done|by eapply scanned_absent|done..|].
      intros j Hj. apply Hs. lia.
    + right. eapply free_slot_not_full; [done|apply pos_range|done].
  - right. split; [done|]. split.
    + eapply (scanned_absent _ _ _ Capacity); [lia|done..|by left].
    + by eapply all_occupied_full.
Qed.

(** ** [erase] *)

Lemma erase_loop_find m k probes i :
  FixedHashMap_erase_loop probes m i k =
  match FixedHashMap_find_loop probes m i k with
  | Some j => (true, mkFixedHashMap
      (<[j := mkEntry (entry_key (entry_at (entries_ m) j))
                      (entry_value (entry_at (entries_ m) j)) Deleted]> (entries_ m))
      (u64 (size_ m - 1)))
  | None => (false, m)
  end.
Proof.
  revert i. induction probes as [|probes IH]; intros i; [done|].
  cbn [FixedHashMap_erase_loop FixedHashMap_find_loop]. 
  case_bool_decide; [done|]. destruct (_ && _); [done|apply IH].
Qed.

Lemma erase_represents m M k :
  represents m M ->
  exists m', FixedHashMap_erase m k = (bool_decide (is_Some (M !! k)), m') /\
    represents m' (delete k M).
Proof.
  intros R. unfold FixedHashMap_erase. rewrite erase_loop_find.
  pose proof (find_index_spec m k) as Hf. unfold FixedHashMap_find_index in Hf.
  destruct (FixedHashMap_find_loop _ m _ k) as [i|].
  - destruct Hf as [Hi Hm]. eexists. split; [|by apply represents_tombstone].
    apply matches_holds in Hm. apply (rep_sound _ _ R) in Hm; [|done].
    rewrite bool_decide_true; [done|by eexists].
  - destruct Hf as (p & Hp & Hs & Hend). exists m.
    assert (M !! k = None) as HM by (by eapply scanned_absent).
    rewrite HM. split; [|by rewrite delete_id]. rewrite bool_decide_false; [done|].
    by intros [? ?].
Qed.

Lemma new_represents : represents FixedHashMap_new ∅.
Proof.
  constructor.
  - intros i k v _ Hh. unfold holds, entry_at in Hh. cbn in Hh. by rewrite arr_get_empty in Hh.
  - intros k v. by rewrite lookup_empty.
  - intros i j k v w _ _ Hh. unfold holds, entry_at in Hh. cbn in Hh. by rewrite arr_get_empty in Hh.
  - by rewrite map_size_empty.
  - apply countZ_zero. intros i _. unfold occupied, state_at, entry_at. cbn.
    by rewrite arr_get_empty.
Qed.
(** ** Operation sequences

    The table and a finite map of bounded size driven by the same sequence of
    operations. *)

Inductive map_op : Type :=
| OpInsert (k : Key) (v : Value)
| OpErase (k : Key)
| OpFind (k : Key)
| OpSize.

Inductive map_result : Type :=
| RBool (b : bool)
| RValue (v : option Value)
| RSize (n : Z).

Definition table_step (m : FixedHashMap) (o : map_op) : map_result * FixedHashMap :=
  match o with
  | OpInsert k v => let '(b, m) := FixedHashMap_insert m k v in (RBool b, m)
  | OpErase k => let '(b, m) := FixedHashMap_erase m k in (RBool b, m)
  | OpFind k => (RValue (FixedHashMap_find m k), m)
  | OpSize => (RSize (FixedHashMap_size m), m)
  end.

(** The specification: a finite map that refuses a new key once it holds
    [Capacity] of them. *)
Definition spec_step (M : gmap Key Value) (o : map_op) : map_result * gmap Key Value :=
  match o with
  | OpInsert k v =>
      if bool_decide (is_Some (M !! k)) || (Z.of_nat (size M) <? Capacity)
      then (RBool true, <[k:=v]> M) else (RBool false, M)
  | OpErase k => (RBool (bool_decide (is_Some (M !! k))), delete k M)
  | OpFind k => (RValue (M !! k), M)
  | OpSize => (RSize (Z.of_nat (size M)), M)
  end.

Fixpoint run_ops {S} (step : S -> map_op -> map_result * S) (s : S) (os : list map_op)
    : list map_result :=
  match os with
  | [] => []
  | o :: os => let '(r, s') := step s o in r :: run_ops step s' os
  end.

Lemma table_step_simulates m M o :
  represents m M ->
  exists m', table_step m o = ((spec_step M o).1, m') /\ represents m' (spec_step M o).2.
Proof.
  intros R. destruct o as [k v|k|k|]; cbn [table_step spec_step].
  - destruct (insert_represents m M k v R) as [(m' & -> & R' & Hok)|(-> & HM & Hfull)].
    + exists m'. replace (bool_decide _ || _) with true; [done|]. symmetry.
      destruct Hok; [by rewrite bool_decide_true|].
      apply orb_true_iff. right. by apply Z.ltb_lt.
    + exists m. replace (bool_decide _ || _) with false; [done|]. symmetry.
      rewrite HM, bool_decide_false by (by intros [? ?]). cbn. apply Z.ltb_ge. lia.
  - destruct (erase_represents m M k R) as (m' & -> & R'). by exists m'.
  - exists m. by rewrite (find_represents _ _ _ R).
  - exists m. unfold FixedHashMap_size. by rewrite (rep_size _ _ R).
Qed.

Lemma run_ops_simulates os : forall m M,
  represents m M -> run_ops table_step m os = run_ops spec_step M os.
Proof.
  induction os as [|o os IH]; intros m M R; [done|]. cbn [run_ops].
  destruct (table_step_simulates m M o R) as (m' & -> & R').
  destruct (spec_step M o) as [r M']. cbn in *. f_equal. by apply IH.
Qed.
End fixed_hash_map.

Arguments Entry : clear implicits.
Arguments FixedHashMap : clear implicits.
Arguments FixedHashMap_new {Key Value}.
Arguments map_op : clear implicits.

(** C1.  For every capacity, hash function and sequence of insertions, erasures,
    look-ups and size queries, the open-addressing table returns exactly what a
    finite map holding at most [Capacity] keys returns: no key is lost or
    duplicated across collisions and tombstones, and an insertion is refused
    only for a new key in a table whose slots are all occupied. *)
Theorem fixed_hash_map_refines_finite_map {Key Value} {Key_eq : EqDecision Key}
    {Key_inh : Inhabited Key} {Value_inh : Inhabited Value} {Key_countable : Countable Key}
    (Capacity : Z) (std_hash : Key -> Z) (os : list (map_op Key Value)) :
  0 < Capacity < 2 ^ 64 ->
  run_ops (table_step Capacity std_hash) FixedHashMap_new os =
  run_ops (spec_step Capacity) ∅ os.
Proof.
  intros [Hpos Hmax]. apply (run_ops_simulates Capacity std_hash Hpos Hmax).
  apply new_represents.
Qed.

(** Two keys that collide in a table of two slots: the second is found behind the
    tombstone of the first, and a third is refused when both slots are taken. *)
Lemma fixed_hash_map_witness :
  run_ops (table_step 2 (fun k : Z => k)) FixedHashMap_new
    [OpInsert 4 10; OpInsert 6 20; OpErase 4; OpFind 6; OpInsert 8 30; OpInsert 9 40; OpSize]
  = [RBool true; RBool true; RBool true; RValue (Some 20); RBool true; RBool false; RSize 2].
Proof.
  rewrite (fixed_hash_map_refines_finite_map 2 (fun k : Z => k)) by lia. reflexivity.
Defined.
