(* ===== verification/Types.v ===== *)
(** * Domain types of the order book and the order heap

    [orderbook/software/common/types.hpp], [order.hpp], [trade.hpp] and
    [models/order_intent.hpp].

    Orders are shared, mutable objects: the pool owns them, a price level links
    them and the order index points at them.  They live in a heap, a finite map
    from addresses to [Order] records; an [Order*] is an optional address and
    dereferencing an address outside the heap is undefined ([None]).  A
    [PriceLevel*] names a slot of one of the two level arrays of a book. *)

From S2P Require Import Prelude.

Inductive Side : Type := Buy | Sell.

#[global] Instance Side_eq_dec : EqDecision Side.
Proof. solve_decision. Defined.

Definition opposite (s : Side) : Side := match s with Buy => Sell | Sell => Buy end.

(** [Price] is [int64_t], [Quantity] is [uint32_t], [OrderId] and [AccountId]
    are [uint64_t]; a [Symbol] is eight characters. *)
Abbreviation Price := Z (only parsing).
Abbreviation Quantity := Z (only parsing).
Abbreviation OrderId := Z (only parsing).
Abbreviation AccountId := Z (only parsing).
Abbreviation Symbol := (list Z) (only parsing).

(** Addresses of orders, [Order*] and [PriceLevel*]. *)
Abbreviation loc := Z (only parsing).
Abbreviation ptr := (option Z) (only parsing).
Abbreviation level_ptr := (option (Side * Z)) (only parsing).

Record Order : Type := mkOrder {
  ord_id : OrderId;
  ord_account_id : AccountId;
  ord_side : Side;
  ord_price : Price;
  ord_quantity : Quantity;
  ord_level : level_ptr;
  ord_prev : ptr;
  ord_next : ptr
}.

#[global] Instance Order_eq_dec : EqDecision Order.
Proof. solve_decision. Defined.

Abbreviation heap := (gmap Z Order) (only parsing).

Record Trade : Type := mkTrade {
  trade_sequence : Z;
  trade_buy_order_id : OrderId;
  trade_sell_order_id : OrderId;
  trade_buy_account_id : AccountId;
  trade_sell_account_id : AccountId;
  trade_price : Price;
  trade_quantity : Quantity
}.

#[global] Instance Trade_eq_dec : EqDecision Trade.
Proof. solve_decision. Defined.

Record OrderIntent : Type := mkOrderIntent {
  int_accountId : AccountId;
  int_side : Side;
  int_symbol : Symbol;
  int_price : Price;
  int_quantity : Quantity
}.

(** ** Assignments to the fields of an order *)

Definition set_next (n : ptr) (o : Order) : Order :=
  mkOrder (ord_id o) (ord_account_id o) (ord_side o) (ord_price o) (ord_quantity o)
    (ord_level o) (ord_prev o) n.

Definition set_prev (p : ptr) (o : Order) : Order :=
  mkOrder (ord_id o) (ord_account_id o) (ord_side o) (ord_price o) (ord_quantity o)
    (ord_level o) p (ord_next o).

Definition set_links (l : level_ptr) (p n : ptr) (o : Order) : Order :=
  mkOrder (ord_id o) (ord_account_id o) (ord_side o) (ord_price o) (ord_quantity o) l p n.

Definition set_quantity (q : Quantity) (o : Order) : Order :=
  mkOrder (ord_id o) (ord_account_id o) (ord_side o) (ord_price o) q
    (ord_level o) (ord_prev o) (ord_next o).

(** ** Data of an order, without its links *)

Definition ord_data (o : Order) : OrderId * AccountId * Side * Price * Quantity :=
  (ord_id o, ord_account_id o, ord_side o, ord_price o, ord_quantity o).

(** [same_data h h']: the same orders with the same data; only links differ. *)
Definition same_data (h h' : heap) : Prop := forall o, ord_data <$> h !! o = ord_data <$> h' !! o.

#[global] Instance same_data_equiv : Equivalence same_data.
Proof.
  split; red; unfold same_data.
  - done.
  - intros h1 h2 H o. by rewrite H.
  - intros h1 h2 h3 H1 H2 o. by rewrite H1.
Qed.

Lemma same_data_insert h o ord ord' :
  h !! o = Some ord -> ord_data ord' = ord_data ord -> same_data h (<[o:=ord']> h).
Proof.
  intros Ho E o'. destruct (decide (o = o')) as [<-|Hne].
  - rewrite lookup_insert_eq, Ho. cbn. by rewrite E.
  - by rewrite lookup_insert_ne.
Qed.

Lemma same_data_lookup h h' o ord :
  same_data h h' -> h !! o = Some ord ->
  exists ord', h' !! o = Some ord' /\ ord_data ord' = ord_data ord.
Proof.
  intros H Ho. specialize (H o). rewrite Ho in H. cbn in H.
  destruct (h' !! o) as [ord'|]; [|done]. exists ord'. split; [done|].
  by apply (inj Some) in H.
Qed.

Lemma ord_data_inj o o' :
  ord_data o = ord_data o' <->
  ord_id o = ord_id o' /\ ord_account_id o = ord_account_id o' /\ ord_side o = ord_side o' /\
  ord_price o = ord_price o' /\ ord_quantity o = ord_quantity o'.
Proof. unfold ord_data. split; [by intros [= -> -> -> -> ->]|by intros (-> & -> & -> & -> & ->)]. Qed.
