(* ===== verification/Text.v ===== *)
(** * Text

    The characters of a string as bytes, and numbers as text: [decimal_string] is what
    an output stream writes for an unsigned number of at most 64 bits, [signed_string]
    what it writes for a signed one, and [digits_prefix] with [decimal_value] reads one
    back. *)

From Stdlib Require Import String Ascii.
From S2P Require Import Prelude.

Local Open Scope string_scope.
Local Open Scope Z_scope.

(** The bytes of a path or a host. *)
Definition chars (s : string) : list Z := (fun c => Z.of_nat (nat_of_ascii c)) <$> list_ascii_of_string s.

Definition newline : string := String (ascii_of_nat 10) EmptyString.

(** ** Digits *)

Definition digit_of (c : ascii) : option Z :=
  let n := Z.of_nat (nat_of_ascii c) in
  if (48 <=? n) && (n <=? 57) then Some (n - 48) else None.

(** The longest prefix of digits, and what follows. *)
Fixpoint digits_prefix (s : string) : list Z * string :=
  match s with
  | EmptyString => ([], EmptyString)
  | String c rest =>
      match digit_of c with
      | Some d => let '(ds, tail) := digits_prefix rest in (d :: ds, tail)
      | None => ([], s)
      end
  end.

Definition decimal_value (ds : list Z) : Z := foldl (fun acc d => acc * 10 + d) 0 ds.

(** The decimal digits of [n], at most [fuel] of them. *)
Fixpoint digits_of (fuel : nat) (n : Z) : list Z :=
  match fuel with
  | O => []
  | S fuel => if n <? 10 then [n] else digits_of fuel (n / 10) ++ [n mod 10]
  end.

Fixpoint digits_string (ds : list Z) : string :=
  match ds with
  | [] => ""
  | d :: ds => String (ascii_of_nat (Z.to_nat (d + 48))) (digits_string ds)
  end.

(** 20 digits are enough for 64 bits. *)
Definition decimal_string (n : Z) : string := digits_string (digits_of 20 n).

Definition signed_string (n : Z) : string :=
  if n <? 0 then String "-" (decimal_string (- n)) else decimal_string n.

(** Reading a number back: its value and the text behind it. *)
Definition read_decimal (s : string) : Z * string :=
  let '(ds, tail) := digits_prefix s in (decimal_value ds, tail).

(** The text does not begin with a digit. *)
Definition no_digit (s : string) : Prop :=
  match s with EmptyString => True | String c _ => digit_of c = None end.

Definition is_digit (d : Z) : Prop := 0 <= d < 10.

Lemma digit_of_digit d : is_digit d -> digit_of (ascii_of_nat (Z.to_nat (d + 48))) = Some d.
Proof.
  unfold is_digit. intros Hd.
  assert (d = 0 \/ d = 1 \/ d = 2 \/ d = 3 \/ d = 4 \/ d = 5 \/ d = 6 \/ d = 7 \/ d = 8 \/ d = 9)
    as [->|[->|[->|[->|[->|[->|[->|[->|[->| ->]]]]]]]]] by lia; reflexivity.
Qed.

Lemma digits_prefix_string ds : Forall is_digit ds -> digits_prefix (digits_string ds) = (ds, "").
Proof.
  induction 1 as [|d ds Hd _ IH]; [done|]. cbn [digits_string digits_prefix].
  by rewrite digit_of_digit, IH.
Qed.

Lemma digits_of_spec fuel : forall n, 0 <= n < 10 ^ Z.of_nat fuel -> (0 < fuel)%nat ->
  Forall is_digit (digits_of fuel n) /\ decimal_value (digits_of fuel n) = n /\ digits_of fuel n <> [].
Proof.
  induction fuel as [|fuel IH]; intros n Hn Hf; [lia|]. cbn [digits_of]. bcase.
  - split; [repeat constructor; unfold is_digit; lia|]. by split.
  - replace (Z.of_nat (S fuel)) with (Z.of_nat fuel + 1) in Hn by lia.
    rewrite Z.pow_add_r in Hn by lia. change (10 ^ 1) with 10 in Hn.
    assert (0 < fuel)%nat by (destruct fuel; [cbn in Hn|]; lia).
    destruct (IH (n / 10)) as (Hd & Hv & Hne); [zdm|done|].
    split; [apply Forall_app; split; [done|]; repeat constructor; unfold is_digit; zdm|].
    split; [|by destruct (digits_of fuel (n / 10))].
    unfold decimal_value in *. rewrite foldl_app, Hv. cbn. zdm.
Qed.

Lemma read_digits ds tail :
  Forall is_digit ds -> no_digit tail -> digits_prefix (digits_string ds ++ tail) = (ds, tail).
Proof.
  intros Hds Ht. induction Hds as [|d ds Hd _ IH]; cbn [digits_string].
  - change ("" ++ tail) with tail. destruct tail as [|c tail]; [done|].
    unfold no_digit in Ht. cbn [digits_prefix]. by rewrite Ht.
  - change (String ?c ?a ++ tail) with (String c (a ++ tail)). cbn [digits_prefix].
    by rewrite digit_of_digit, IH.
Qed.

(** What was written is read back. *)
Lemma read_decimal_string n tail :
  is_uint 64 n -> no_digit tail -> read_decimal (decimal_string n ++ tail) = (n, tail).
Proof.
  unfold is_uint. intros Hn Ht.
  destruct (digits_of_spec 20 n) as (Hd & Hv & _); [change (10 ^ Z.of_nat 20) with 100000000000000000000; lia|lia|].
  unfold read_decimal, decimal_string. rewrite read_digits by done. by rewrite Hv.
Qed.

Fixpoint string_drop (n : nat) (s : string) : string :=
  match n, s with
  | S n, String _ s => string_drop n s
  | _, _ => s
  end.

Lemma string_drop_append a b : string_drop (String.length a) (a ++ b) = b.
Proof. induction a as [|c a IH]; [by destruct b|exact IH]. Qed.

Lemma append_assoc (a b c : string) : (a ++ b) ++ c = a ++ b ++ c.
Proof.
  induction a as [|x a IH]; [done|]. change (String x ((a ++ b) ++ c) = String x (a ++ b ++ c)).
  by rewrite IH.
Qed.

Lemma append_nil_r (a : string) : a ++ "" = a.
Proof. induction a as [|x a IH]; [done|]. change (String x (a ++ "") = String x a). by rewrite IH. Qed.

(** Reading a number behind a label, with what follows it. *)
Definition read_labelled (label : string) (s : string) : Z * string :=
  read_decimal (string_drop (String.length label) s).

Lemma read_labelled_number label n tail :
  is_uint 64 n -> no_digit tail -> read_labelled label (label ++ decimal_string n ++ tail) = (n, tail).
Proof. intros. unfold read_labelled. rewrite string_drop_append. by apply read_decimal_string. Qed.

Lemma signed_string_nonneg n : 0 <= n -> signed_string n = decimal_string n.
Proof. intros Hn. unfold signed_string. by rewrite (proj2 (Z.ltb_ge _ _)). Qed.
