(* ===== verification/OrderPool.v ===== *)
(** * The object pool of orders

    [orderbook/software/order_pool.{hpp,cpp}].  The storage is a contiguous block
    of [capacity] orders at addresses [base .. base + capacity - 1]; [free_list_]
    is a stack of free addresses (its back is the head of the list) and
    [in_use_] one flag per slot. *)

From S2P Require Import Prelude Types.

Record OrderPool : Type := mkOrderPool {
  storage_data : loc;        (* storage_.data() *)
  storage_size : Z;          (* storage_.size() *)
  free_list_ : list loc;     (* back of the vector first *)
  in_use_ : gmap Z Z         (* uint8_t flags *)
}.

(** The state of a freshly constructed order. *)
Definition Order_init : Order := mkOrder 0 0 Buy 0 0 None None None.

(** The orders of the storage, as the constructor allocates them. *)
Definition storage_orders (base capacity : Z) : heap :=
  list_to_map ((fun i => (base + i, Order_init)) <$> seqZ 0 capacity).

(** The constructor pushes [&storage_[0]], ..., [&storage_[capacity - 1]] in
    order, so the last one is at the back. *)
Definition OrderPool_new (base capacity : Z) : OrderPool :=
  mkOrderPool base capacity (reverse ((fun i => base + i) <$> seqZ 0 capacity)) ∅.

Definition OrderPool_in_use (p : OrderPool) (index : Z) : Z := arr_get 0 (in_use_ p) index.

Definition OrderPool_acquire (p : OrderPool) : ptr * OrderPool :=
  match free_list_ p with
  | [] => (None, p)
  | order :: rest =>
      let index := order - storage_data p in
      (Some order, mkOrderPool (storage_data p) (storage_size p) rest (<[index := 1]> (in_use_ p)))
  end.

Definition OrderPool_owns (p : OrderPool) (order : ptr) : bool :=
  match order with
  | None => false
  | Some order =>
      negb (storage_size p =? 0) &&
      (negb (order <? storage_data p) && (order <? storage_data p + storage_size p))
  end.

Definition OrderPool_release (p : OrderPool) (order : ptr) : OrderPool :=
  if negb (OrderPool_owns p order) then p
  else match order with
       | None => p
       | Some order =>
           let index := order - storage_data p in
           if OrderPool_in_use p index =? 0 then p
           else mkOrderPool (storage_data p) (storage_size p) (order :: free_list_ p)
                  (<[index := 0]> (in_use_ p))
       end.

Definition OrderPool_capacity (p : OrderPool) : Z := storage_size p.

Definition OrderPool_available (p : OrderPool) : Z := Z.of_nat (length (free_list_ p)).

(** [releaseIfOwned], a private member of both clients of the pool. *)
Definition releaseIfOwned (p : OrderPool) (order : ptr) : OrderPool :=
  if bool_decide (order <> None) && OrderPool_owns p order then OrderPool_release p order else p.

(** ** Invariant: the free list holds each unused slot of the storage once. *)

Definition in_storage (p : OrderPool) (o : loc) : Prop :=
  storage_data p <= o < storage_data p + storage_size p.

Definition acquired (p : OrderPool) (o : loc) : Prop :=
  in_storage p o /\ OrderPool_in_use p (o - storage_data p) <> 0.

(** Number of slots of the storage that are in use. *)
Definition used_slots (p : OrderPool) : Z :=
  countZ (fun i => negb (OrderPool_in_use p i =? 0)) (storage_size p).

Record pool_inv (p : OrderPool) : Prop := {
  pool_nodup : NoDup (free_list_ p);
  pool_free : forall o, o ∈ free_list_ p <->
    in_storage p o /\ OrderPool_in_use p (o - storage_data p) = 0;
  pool_size_nonneg : 0 <= storage_size p;
  pool_count : OrderPool_available p + used_slots p = storage_size p
}.

(** Client-side view of a run: acquisitions and releases in any order, including
    releases of foreign pointers and repeated releases. *)
Inductive pool_op : Type := Acquire | Release (order : ptr).

Definition pool_step (p : OrderPool) (op : pool_op) : OrderPool :=
  match op with
  | Acquire => (OrderPool_acquire p).2
  | Release order => OrderPool_release p order
  end.

(** ** Lemmas *)

Lemma owns_spec p o : OrderPool_owns p (Some o) = true <-> in_storage p o.
Proof.
  unfold OrderPool_owns, in_storage. rewrite !andb_true_iff, !negb_true_iff.
  rewrite Z.eqb_neq, Z.ltb_ge, Z.ltb_lt. lia.
Qed.

Lemma new_free_list base capacity o :
  o ∈ free_list_ (OrderPool_new base capacity) <-> base <= o < base + capacity.
Proof.
  cbn. rewrite elem_of_reverse, list_elem_of_fmap. setoid_rewrite elem_of_seqZ. split.
  - intros (i & -> & Hi). lia.
  - intros Ho. exists (o - base). lia.
Qed.

Lemma pool_inv_new base capacity : 0 <= capacity -> pool_inv (OrderPool_new base capacity).
Proof.
  intros Hc. constructor; [| |done|].
  - cbn. rewrite reverse_Permutation. apply NoDup_fmap_2; [|apply NoDup_seqZ]. intros i j. lia.
  - intros o. rewrite new_free_list. unfold in_storage, OrderPool_in_use. cbn.
    rewrite arr_get_empty. tauto.
  - unfold used_slots, OrderPool_available. rewrite countZ_zero; cbn.
    + rewrite length_reverse, length_fmap, length_seqZ. lia.
    + intros i _. unfold OrderPool_in_use. cbn. by rewrite arr_get_empty.
Qed.

(** Raising the flag of a free slot, and lowering the one of a used slot. *)
Lemma used_slots_set p i fl :
  0 <= i < storage_size p -> OrderPool_in_use p i = 0 ->
  used_slots (mkOrderPool (storage_data p) (storage_size p) fl (<[i:=1]> (in_use_ p))) =
  used_slots p + 1.
Proof.
  intros Hi Hu. unfold used_slots. cbn. apply (countZ_set _ _ _ i); [done| | |].
  - by rewrite Hu.
  - unfold OrderPool_in_use. cbn. by rewrite arr_get_set_eq.
  - intros j _ Hne. unfold OrderPool_in_use. cbn. by rewrite arr_get_set_ne.
Qed.

Lemma used_slots_clear p i fl :
  0 <= i < storage_size p -> OrderPool_in_use p i <> 0 ->
  used_slots (mkOrderPool (storage_data p) (storage_size p) fl (<[i:=0]> (in_use_ p))) =
  used_slots p - 1.
Proof.
  intros Hi Hu. apply Z.eqb_neq in Hu. unfold used_slots. cbn.
  rewrite (countZ_set (fun j => negb (OrderPool_in_use (mkOrderPool (storage_data p)
     (storage_size p) fl (<[i:=0]> (in_use_ p))) j =? 0))
     (fun j => negb (OrderPool_in_use p j =? 0)) _ i); [lia|done| | |].
  - unfold OrderPool_in_use. cbn. by rewrite arr_get_set_eq.
  - by rewrite Hu.
  - intros j _ Hne. unfold OrderPool_in_use. cbn. by rewrite arr_get_set_ne.
Qed.

Lemma acquire_spec p :
  pool_inv p ->
  match OrderPool_acquire p with
  | (None, p') => p' = p /\ free_list_ p = []
  | (Some o, p') =>
      pool_inv p' /\ free_list_ p = o :: free_list_ p' /\
      storage_data p' = storage_data p /\ storage_size p' = storage_size p /\
      in_storage p o /\
      (forall x, acquired p' x <-> x = o \/ acquired p x) /\ ~ acquired p o
  end.
Proof.
  intros I. unfold OrderPool_acquire. destruct (free_list_ p) as [|o rest] eqn:E; [done|].
  assert (o ∈ free_list_ p) as Ho by (rewrite E; left).
  pose proof (pool_nodup _ I) as Hnd. rewrite E, NoDup_cons in Hnd. destruct Hnd as [Hnotin Hnd].
  pose proof (proj1 (pool_free _ I o) Ho) as [Hin Hu].
  split; [constructor; cbn; [done| |apply (pool_size_nonneg _ I)|]|].
  { intros x. unfold in_storage, OrderPool_in_use. cbn. rewrite arr_get_set.
    pose proof (pool_free _ I x) as Hx. rewrite E in Hx. unfold in_storage, OrderPool_in_use in Hx.
    rewrite elem_of_cons in Hx. case_decide.
    - assert (x = o) as -> by lia. naive_solver.
    - assert (x <> o) by lia. naive_solver. }
  { pose proof (pool_count _ I) as Hc. unfold OrderPool_available in *. rewrite E in Hc.
    rewrite used_slots_set by (unfold in_storage in Hin; (done || lia)). cbn in *. lia. }
  do 3 (split; [done|]). split; [done|]. split.
  - intros x. unfold acquired, in_storage, OrderPool_in_use in *. cbn. rewrite arr_get_set.
    case_decide.
    + assert (x = o) as -> by lia. naive_solver.
    + assert (x <> o) by lia. naive_solver.
  - unfold acquired. naive_solver.
Qed.

Lemma release_spec p o :
  pool_inv p -> acquired p o ->
  let p' := OrderPool_release p (Some o) in
  pool_inv p' /\ free_list_ p' = o :: free_list_ p /\
  storage_data p' = storage_data p /\ storage_size p' = storage_size p /\
  (forall x, acquired p' x <-> x <> o /\ acquired p x).
Proof.
  intros I [Hin Hu]. unfold OrderPool_release.
  rewrite (proj2 (owns_spec p o) Hin). cbn [negb].
  rewrite (proj2 (Z.eqb_neq _ _) Hu). cbn zeta.
  split; [constructor; cbn; [| |apply (pool_size_nonneg _ I)|]|].
  { apply NoDup_cons. split; [|apply (pool_nodup _ I)]. rewrite (pool_free _ I). naive_solver. }
  { intros x. unfold in_storage, OrderPool_in_use. cbn. rewrite arr_get_set.
    pose proof (pool_free _ I x) as Hx. unfold in_storage, OrderPool_in_use in Hx, Hin.
    rewrite elem_of_cons. case_decide.
    - assert (x = o) as -> by lia. naive_solver.
    - assert (x <> o) by lia. naive_solver. }
  { pose proof (pool_count _ I) as Hc. unfold OrderPool_available in *.
    rewrite used_slots_clear by (unfold in_storage in Hin; (done || lia)). cbn in *. lia. }
  do 3 (split; [done|]).
  intros x. unfold acquired, in_storage, OrderPool_in_use in *. cbn. rewrite arr_get_set.
    case_decide.
    - assert (x = o) as -> by lia. naive_solver.
    - assert (x <> o) by (intros ->; lia). naive_solver.
Qed.

(** Releasing anything but an acquired slot changes nothing. *)
Lemma release_other p order :
  (forall o, order = Some o -> ~ acquired p o) -> OrderPool_release p order = p.
Proof.
  intros Hn. unfold OrderPool_release. destruct order as [o|]; [|done].
  destruct (OrderPool_owns p (Some o)) eqn:E; [|done]. cbn [negb].
  apply owns_spec in E. destruct (OrderPool_in_use p (o - storage_data p) =? 0) eqn:Eu; [done|].
  apply Z.eqb_neq in Eu. exfalso. by apply (Hn o).
Qed.

Lemma acquired_dec p o : acquired p o \/ ~ acquired p o.
Proof.
  unfold acquired, in_storage.
  destruct (decide (storage_data p <= o < storage_data p + storage_size p));
    destruct (decide (OrderPool_in_use p (o - storage_data p) = 0)); naive_solver.
Qed.

Lemma releaseIfOwned_release p order : releaseIfOwned p order = OrderPool_release p order.
Proof.
  unfold releaseIfOwned, OrderPool_release. destruct order as [o|]; [|done].
  rewrite bool_decide_true by done. cbn [andb]. by destruct (OrderPool_owns p (Some o)).
Qed.

Lemma pool_step_inv p op : pool_inv p -> pool_inv (pool_step p op).
Proof.
  intros I. destruct op as [|order]; cbn.
  - pose proof (acquire_spec p I) as H. destruct (OrderPool_acquire p) as [[o|] p'].
    + apply H.
    + destruct H as [-> _]. done.
  - destruct order as [o|]; [|done]. destruct (acquired_dec p o) as [Ha|Hn].
    + apply (release_spec p o I Ha).
    + rewrite release_other; [done|]. naive_solver.
Qed.

Lemma pool_run_inv ops p : pool_inv p -> pool_inv (foldl pool_step p ops).
Proof. revert p. induction ops as [|op ops IH]; intros p I; [done|]. by apply IH, pool_step_inv. Qed.

Lemma pool_run_storage ops p :
  storage_data (foldl pool_step p ops) = storage_data p /\
  storage_size (foldl pool_step p ops) = storage_size p.
Proof.
  revert p. induction ops as [|op ops IH]; intros p; [done|]. cbn [foldl].
  destruct (IH (pool_step p op)) as [-> ->]. destruct op as [|order]; cbn.
  - unfold OrderPool_acquire. by destruct (free_list_ p).
  - unfold OrderPool_release. repeat case_match; done.
Qed.

(** C2.  After any sequence of acquisitions and releases, including repeated
    releases and releases of pointers the pool does not own, the free list and
    the used slots account for the whole capacity; [acquire] fails only when
    every slot is in use, and otherwise hands out a slot of the storage that
    nobody holds; releasing it gives it back once, and a second release of the
    same pointer changes nothing. *)
Theorem order_pool_hands_out_each_slot_once (base capacity : Z) (ops : list pool_op) :
  0 <= capacity ->
  let p := foldl pool_step (OrderPool_new base capacity) ops in
  OrderPool_available p + used_slots p = OrderPool_capacity p /\
  match OrderPool_acquire p with
  | (None, p') => p' = p /\ used_slots p = capacity
  | (Some o, p') =>
      base <= o < base + capacity /\ ~ acquired p o /\ acquired p' o /\
      used_slots p' = used_slots p + 1 /\
      (let p2 := OrderPool_release p' (Some o) in
       ~ acquired p2 o /\ OrderPool_available p2 = OrderPool_available p /\
       OrderPool_release p2 (Some o) = p2)
  end.
Proof.
  intros Hc p. assert (pool_inv p) as I by (apply pool_run_inv, pool_inv_new, Hc).
  destruct (pool_run_storage ops (OrderPool_new base capacity)) as [Eb Ec].
  fold p in Eb, Ec. cbn in Eb, Ec.
  split; [apply (pool_count _ I)|]. pose proof (pool_count _ I) as Hcount.
  pose proof (acquire_spec p I) as Ha. destruct (OrderPool_acquire p) as [[o|] p'].
  - destruct Ha as (I' & Hfl & Hb & Hs & Hin & Hacq & Hfresh).
    assert (acquired p' o) as Ho by (apply Hacq; by left).
    destruct (release_spec p' o I' Ho) as (I2 & Hfl2 & Hb2 & Hs2 & Hacq2).
    pose proof (pool_count _ I') as Hcount'. unfold OrderPool_available in *.
    rewrite Hfl in *. cbn in Hcount.
    split; [unfold in_storage in Hin; lia|]. split; [done|]. split; [done|]. split; [lia|].
    split; [rewrite Hacq2; by intros [? _]|]. split; [by rewrite Hfl2|].
    apply release_other. intros ? [= <-]. rewrite Hacq2. by intros [? _].
  - destruct Ha as [-> Hfl]. split; [done|]. unfold OrderPool_available in Hcount.
    rewrite Hfl in Hcount. cbn in Hcount. lia.
Qed.

Lemma order_pool_witness :
  let p := foldl pool_step (OrderPool_new 100 2) [Acquire; Release (Some 101); Release (Some 7); Acquire] in
  OrderPool_available p + used_slots p = OrderPool_capacity p /\
  (OrderPool_acquire p).1 = Some 100.
Proof.
  destruct (order_pool_hands_out_each_slot_once 100 2
    [Acquire; Release (Some 101); Release (Some 7); Acquire]) as [H _]; [lia|].
  split; [exact H|reflexivity].
Defined.
