(* ===== verification/PriceLevel.v ===== *)
(** * Price levels: intrusive doubly linked FIFO lists of orders

    [orderbook/software/price_level.hpp].  A level holds the head and the tail of
    a list threaded through the [prev]/[next] fields of the orders in the heap.
    The operations take the level object, the address of the level itself
    ([this], stored in [order->level]) and the heap; every dereference goes
    through the heap and fails ([None]) on an address that is not an order.

    [level_repr] relates a level to the list of addresses it holds; [push_back]
    and [remove] are shown to implement appending and deleting on that list. *)

From S2P Require Import Prelude Types.

Record PriceLevel : Type := mkPriceLevel {
  lvl_price : Price;
  lvl_head : ptr;
  lvl_tail : ptr;
  lvl_total_quantity : Quantity
}.

Definition PriceLevel_default : PriceLevel := mkPriceLevel 0 None None 0.

Definition PriceLevel_empty (lvl : PriceLevel) : bool := bool_decide (lvl_head lvl = None).

Definition PriceLevel_front (lvl : PriceLevel) : ptr := lvl_head lvl.

Definition PriceLevel_push_back (this : Side * Z) (lvl : PriceLevel) (h : heap) (order : ptr)
    : option (PriceLevel * heap) :=
  o ← order;
  ord ← h !! o;
  let h := <[o := set_links (Some this) (lvl_tail lvl) None ord]> h in
  '(head, h) ←
    match lvl_tail lvl with
    | Some t => tord ← h !! t; Some (lvl_head lvl, <[t := set_next (Some o) tord]> h)
    | None => Some (Some o, h)
    end;
  ord ← h !! o;
  Some (mkPriceLevel (lvl_price lvl) head (Some o)
          (u32 (lvl_total_quantity lvl + ord_quantity ord)), h).

Definition PriceLevel_remove (lvl : PriceLevel) (h : heap) (order : ptr)
    : option (PriceLevel * heap) :=
  match order with
  | None => Some (lvl, h)
  | Some o =>
      ord ← h !! o;
      '(head, h) ←
        match ord_prev ord with
        | Some q => qord ← h !! q; Some (lvl_head lvl, <[q := set_next (ord_next ord) qord]> h)
        | None => Some (ord_next ord, h)
        end;
      ord ← h !! o;
      '(tail, h) ←
        match ord_next ord with
        | Some q => qord ← h !! q; Some (lvl_tail lvl, <[q := set_prev (ord_prev ord) qord]> h)
        | None => Some (ord_prev ord, h)
        end;
      ord ← h !! o;
      Some (mkPriceLevel (lvl_price lvl) head tail
              (u32 (lvl_total_quantity lvl - ord_quantity ord)),
            <[o := set_links None None None ord]> h)
  end.

Definition PriceLevel_pop_front (lvl : PriceLevel) (h : heap) : option (ptr * PriceLevel * heap) :=
  match lvl_head lvl with
  | None => Some (None, lvl, h)
  | Some o => '(lvl, h) ← PriceLevel_remove lvl h (Some o); Some (Some o, lvl, h)
  end.

(** ** The list a level represents *)

(** Every order of [l] is in the heap, belongs to the level [this] and is linked
    to its neighbours in [l]. *)
Definition linked (this : Side * Z) (h : heap) (l : list loc) : Prop :=
  forall l1 o l2, l = l1 ++ o :: l2 ->
  exists ord, h !! o = Some ord /\ ord_level ord = Some this /\
    ord_prev ord = last l1 /\ ord_next ord = head l2.

Record level_repr (this : Side * Z) (lvl : PriceLevel) (h : heap) (l : list loc) : Prop := {
  repr_nodup : NoDup l;
  repr_head : lvl_head lvl = head l;
  repr_tail : lvl_tail lvl = last l;
  repr_linked : linked this h l
}.

(** Sum of the quantities of the orders of [l]. *)
Definition quantity_of (h : heap) (o : loc) : Z := default 0 (ord_quantity <$> h !! o).

Definition total_of (h : heap) (l : list loc) : Z := foldr Z.add 0 (quantity_of h <$> l).

(** ** Linked lists in the heap *)

Lemma linked_elem this h l o :
  linked this h l -> o ∈ l -> exists ord, h !! o = Some ord /\ ord_level ord = Some this.
Proof.
  intros H (l1 & l2 & ->)%list_elem_of_split. destruct (H l1 o l2 eq_refl) as (ord & ? & ? & _).
  by exists ord.
Qed.

(** Only the orders of the list matter. *)
Lemma linked_frame this h h' l :
  (forall o, o ∈ l -> h' !! o = h !! o) -> linked this h l -> linked this h' l.
Proof.
  intros Hf H l1 o l2 ->. destruct (H l1 o l2 eq_refl) as (ord & Ho & ?).
  exists ord. split; [|done]. rewrite Hf; [done|]. set_solver.
Qed.

Lemma level_repr_frame this lvl h h' l :
  (forall o, o ∈ l -> h' !! o = h !! o) -> level_repr this lvl h l -> level_repr this lvl h' l.
Proof. intros Hf [? ? ? ?]. constructor; try done. by eapply linked_frame. Qed.

(** A change that keeps the links keeps the list. *)
Lemma linked_insert_same this h l o ord ord' :
  h !! o = Some ord ->
  ord_level ord' = ord_level ord -> ord_prev ord' = ord_prev ord -> ord_next ord' = ord_next ord ->
  linked this h l -> linked this (<[o:=ord']> h) l.
Proof.
  intros Ho E1 E2 E3 H l1 x l2 ->. destruct (H l1 x l2 eq_refl) as (xord & Hx & ? & ? & ?).
  destruct (decide (o = x)) as [<-|Hne].
  - rewrite lookup_insert_eq. exists ord'. simplify_eq. split_and!; congruence.
  - rewrite lookup_insert_ne by done. by exists xord.
Qed.

Lemma level_repr_insert_same this lvl h l o ord ord' :
  h !! o = Some ord ->
  ord_level ord' = ord_level ord -> ord_prev ord' = ord_prev ord -> ord_next ord' = ord_next ord ->
  level_repr this lvl h l -> level_repr this lvl (<[o:=ord']> h) l.
Proof. intros ? ? ? ? [? ? ? ?]. constructor; try done. by eapply linked_insert_same. Qed.

Lemma level_repr_default this h : level_repr this PriceLevel_default h [].
Proof. constructor; try done; [constructor|]. intros l1 o l2 E. by destruct l1. Qed.

Lemma total_of_cons h o l : total_of h (o :: l) = quantity_of h o + total_of h l.
Proof. done. Qed.

Lemma total_of_app h l1 l2 : total_of h (l1 ++ l2) = total_of h l1 + total_of h l2.
Proof. induction l1 as [|o l1 IH]; [done|]. cbn [app]. rewrite !total_of_cons. lia. Qed.

Lemma total_of_ext h h' l :
  (forall o, o ∈ l -> quantity_of h' o = quantity_of h o) -> total_of h' l = total_of h l.
Proof.
  induction l as [|o l IH]; intros H; [done|]. rewrite !total_of_cons, H, IH; [done| |left].
  intros x Hx. apply H. by right.
Qed.

Lemma quantity_of_same_data h h' o : same_data h h' -> quantity_of h' o = quantity_of h o.
Proof.
  intros H. specialize (H o). unfold quantity_of.
  destruct (h !! o) as [a|], (h' !! o) as [b|]; cbn in *; try done.
  apply (inj Some), ord_data_inj in H. naive_solver.
Qed.

Lemma total_of_same_data h h' l : same_data h h' -> total_of h' l = total_of h l.
Proof. intros H. apply total_of_ext. intros. by apply quantity_of_same_data. Qed.

(** ** Relinking neighbours *)

Definition alter_ptr (f : Order -> Order) (q : ptr) (h : heap) : heap :=
  match q with Some q => alter f q h | None => h end.

Lemma insert_alter (f : Order -> Order) (h : heap) q ord :
  h !! q = Some ord -> <[q := f ord]> h = alter f q h.
Proof.
  intros Hq. apply map_eq. intros i. rewrite lookup_insert, lookup_alter. case_decide; [|done].
  subst. by rewrite Hq.
Qed.

Lemma lookup_alter_ptr f q h o :
  alter_ptr f q h !! o = if decide (q = Some o) then f <$> h !! o else h !! o.
Proof.
  destruct q as [q|]; cbn [alter_ptr]; [|by rewrite decide_False].
  rewrite lookup_alter. repeat case_decide; naive_solver.
Qed.

Lemma same_data_alter_ptr f q h :
  (forall ord, ord_data (f ord) = ord_data ord) -> same_data h (alter_ptr f q h).
Proof.
  intros Hf o. rewrite lookup_alter_ptr. case_decide; [|done].
  destruct (h !! o); cbn; [by rewrite Hf|done].
Qed.

Lemma alter_ptr_ne f q h o : q <> Some o -> alter_ptr f q h !! o = h !! o.
Proof. intros. rewrite lookup_alter_ptr. by rewrite decide_False. Qed.

(** ** [push_back] appends *)

Lemma snoc_split {A} (l l1 l2 : list A) (o x : A) :
  l ++ [o] = l1 ++ x :: l2 ->
  (l2 = [] /\ x = o /\ l1 = l) \/ (exists l2', l2 = l2' ++ [o] /\ l = l1 ++ x :: l2').
Proof.
  intros E. destruct l2 as [|y l2' _] using rev_ind.
  - left. apply app_inj_tail in E as [-> ->]. done.
  - right. exists l2'. rewrite app_comm_cons, app_assoc in E.
    apply app_inj_tail in E as [-> ->]. done.
Qed.

Lemma last_in {A} (l : list A) x : last l = Some x -> x ∈ l.
Proof. intros (l' & ->)%last_Some. set_solver. Qed.

Lemma head_in {A} (l : list A) x : head l = Some x -> x ∈ l.
Proof. intros (l' & ->)%head_Some. left. Qed.

Lemma linked_push this h l o ord :
  NoDup l -> o ∉ l -> h !! o = Some ord -> linked this h l ->
  linked this (alter_ptr (set_next (Some o)) (last l)
                 (<[o := set_links (Some this) (last l) None ord]> h)) (l ++ [o]).
Proof.
  intros Hnd Hni Ho H l1 x l2 [(-> & -> & ->)|(l2' & -> & ->)]%snoc_split.
  - rewrite alter_ptr_ne by (by intros ?%last_in). rewrite lookup_insert_eq. by eexists.
  - destruct (H l1 x l2' eq_refl) as (xord & Hx & Hl & Hp & Hn).
    assert (x <> o) as Hne by (intros ->; set_solver).
    rewrite lookup_alter_ptr, lookup_insert_ne by done. rewrite Hx.
    destruct l2' as [|y l2']; cbn [app head].
    + rewrite last_snoc, decide_True by done. by eexists.
    + rewrite decide_False; [by eexists|].
      rewrite last_app_cons, last_cons_cons. intros Hin%last_in.
      apply NoDup_app in Hnd as (_ & _ & Hnd). apply NoDup_cons in Hnd as [? _]. done.
Qed.

Lemma push_back_spec this lvl h l o ord :
  level_repr this lvl h l -> h !! o = Some ord -> o ∉ l ->
  exists lvl' h', PriceLevel_push_back this lvl h (Some o) = Some (lvl', h') /\
    level_repr this lvl' h' (l ++ [o]) /\ same_data h h' /\
    lvl_price lvl' = lvl_price lvl /\
    lvl_total_quantity lvl' = u32 (lvl_total_quantity lvl + ord_quantity ord) /\
    (forall x, x ∉ l -> x <> o -> h' !! x = h !! x).
Proof.
  intros [Hnd Hh Ht Hl] Ho Hni.
  set (h1 := <[o := set_links (Some this) (last l) None ord]> h).
  set (h2 := alter_ptr (set_next (Some o)) (last l) h1).
  assert (same_data h h1) as SD1 by (by eapply same_data_insert).
  assert (same_data h h2) as SD2 by (etrans; [exact SD1|by apply same_data_alter_ptr]).
  assert (h2 !! o = Some (set_links (Some this) (last l) None ord)) as Ho2.
  { unfold h2. rewrite alter_ptr_ne by (by intros ?%last_in). apply lookup_insert_eq. }
  exists (mkPriceLevel (lvl_price lvl) (head (l ++ [o])) (Some o)
           (u32 (lvl_total_quantity lvl + ord_quantity ord))), h2.
  split; [|split; [constructor|]]; [| | | | |split; [done|]].
  - unfold PriceLevel_push_back. cbn. rewrite Ho. cbn. rewrite Ht. fold h1.
    unfold h2 in *. destruct (last l) as [t|] eqn:El; cbn in *.
    + pose proof (last_in _ _ El) as Hin.
      assert (t <> o) as Hto by (by intros ->).
      destruct (linked_elem _ _ _ _ Hl Hin) as (tord & Htl & _).
      assert (h1 !! t = Some tord) as Ht1 by (unfold h1; by rewrite lookup_insert_ne).
      rewrite Ht1. cbn. rewrite (insert_alter _ h1 t tord) by done.
      rewrite Ho2. cbn. rewrite Hh. destruct l; [done|]. done.
    + apply last_None in El as ->. rewrite Ho2. done.
  - apply NoDup_app. split; [done|]. split; [set_solver|]. apply NoDup_singleton.
  - done.
  - by rewrite last_snoc.
  - by apply linked_push.
  - split; [done|]. split; [done|]. intros x Hx Hxo.
    unfold h2, h1. rewrite alter_ptr_ne by (by intros ?%last_in). by rewrite lookup_insert_ne.
Qed.

(** ** [remove] deletes *)

Lemma middle_split {A} (l1 l2 m1 m2 : list A) (x : A) :
  l1 ++ l2 = m1 ++ x :: m2 ->
  (exists k, l1 = m1 ++ x :: k /\ m2 = k ++ l2) \/ (exists k, l2 = k ++ x :: m2 /\ m1 = l1 ++ k).
Proof.
  intros E. apply app_eq_app in E as (k & [[-> E]|[-> E]]).
  - destruct k as [|y k]; cbn in E.
    + right. exists []. by rewrite !app_nil_r.
    + injection E as -> ->. left. by exists k.
  - right. exists k. done.
Qed.

(** The heap after [remove]: the two neighbours are linked to each other and the
    order is unlinked. *)
Definition removed_heap (h : heap) (l1 : list loc) (o : loc) (l2 : list loc) : heap :=
  alter_ptr (set_links None None None) (Some o)
    (alter_ptr (set_prev (last l1)) (head l2) (alter_ptr (set_next (head l2)) (last l1) h)).

Lemma nodup_middle {A} (l1 l2 : list A) (o : A) :
  NoDup (l1 ++ o :: l2) ->
  NoDup (l1 ++ l2) /\ o ∉ l1 /\ o ∉ l2 /\ (forall x, x ∈ l1 -> x ∉ l2).
Proof.
  rewrite !NoDup_app, NoDup_cons. intros (H1 & H2 & H3 & H4). split_and!; set_solver.
Qed.

Lemma linked_removed this h l1 o l2 :
  NoDup (l1 ++ o :: l2) -> linked this h (l1 ++ o :: l2) ->
  linked this (removed_heap h l1 o l2) (l1 ++ l2).
Proof.
  intros Hnd H m1 x m2 E. destruct (nodup_middle _ _ _ Hnd) as (Hnd' & Ho1 & Ho2 & Hd).
  apply middle_split in E as [(k & -> & ->)|(k & -> & ->)].
  - destruct (H m1 x (k ++ o :: l2)) as (xord & Hx & Hl & Hp & Hn); [by rewrite <- app_assoc|].
    unfold removed_heap. rewrite alter_ptr_ne by (intros [= ->]; set_solver).
    rewrite alter_ptr_ne by (intros ?%head_in; apply (Hd x); set_solver).
    rewrite lookup_alter_ptr, Hx. destruct k as [|y k]; cbn [app head].
    + rewrite last_snoc, decide_True by done. by eexists.
    + rewrite decide_False; [by eexists|].
      rewrite last_app_cons, last_cons_cons. intros Hin%last_in.
      rewrite <- !app_assoc in Hnd'. cbn in Hnd'.
      apply NoDup_app in Hnd' as (_ & _ & Hnd'). apply NoDup_cons in Hnd' as [Hbad _].
      apply Hbad. set_solver.
  - destruct (H (l1 ++ o :: k) x m2) as (xord & Hx & Hl & Hp & Hn); [by rewrite <- app_assoc|].
    unfold removed_heap. rewrite alter_ptr_ne by (intros [= ->]; set_solver).
    rewrite lookup_alter_ptr.
    assert (alter_ptr (set_next (head (k ++ x :: m2))) (last l1) h !! x = Some xord) as ->.
    { rewrite alter_ptr_ne; [done|]. intros ?%last_in. apply (Hd x); set_solver. }
    destruct k as [|y k]; cbn [app head].
    + rewrite decide_True by done. rewrite app_nil_r. by eexists.
    + rewrite decide_False.
      * rewrite last_app_cons in *. rewrite last_cons_cons in Hp. by eexists.
      * intros [= ->]. apply NoDup_app in Hnd' as (_ & _ & Hnd'). cbn in Hnd'.
        apply NoDup_cons in Hnd' as [Hbad _]. apply Hbad. set_solver.
Qed.

Lemma same_data_removed h l1 o l2 : same_data h (removed_heap h l1 o l2).
Proof.
  unfold removed_heap. etrans; [|by apply same_data_alter_ptr].
  etrans; [|by apply same_data_alter_ptr]. by apply same_data_alter_ptr.
Qed.

Lemma removed_heap_frame h l1 o l2 x :
  x ∉ l1 ++ o :: l2 -> removed_heap h l1 o l2 !! x = h !! x.
Proof.
  intros Hx. unfold removed_heap.
  rewrite alter_ptr_ne by (intros [= ->]; set_solver).
  rewrite alter_ptr_ne by (intros ?%head_in; set_solver).
  rewrite alter_ptr_ne by (intros ?%last_in; set_solver). done.
Qed.

(** The code of [remove] computes [removed_heap]. *)
Lemma remove_eq this lvl h l1 o l2 ord :
  level_repr this lvl h (l1 ++ o :: l2) -> h !! o = Some ord ->
  PriceLevel_remove lvl h (Some o) =
    Some (mkPriceLevel (lvl_price lvl) (head (l1 ++ l2)) (last (l1 ++ l2))
            (u32 (lvl_total_quantity lvl - ord_quantity ord)), removed_heap h l1 o l2).
Proof.
  intros [Hnd Hh Ht Hl] Ho. destruct (nodup_middle _ _ _ Hnd) as (Hnd' & Ho1 & Ho2 & Hd).
  destruct (Hl l1 o l2 eq_refl) as (ord' & Ho' & _ & Hp & Hn). simplify_eq.
  unfold PriceLevel_remove, removed_heap. rewrite Ho. cbn [mbind option_bind]. rewrite Hp, Hn.
  set (ha := alter_ptr (set_next (head l2)) (last l1) h).
  assert (ha !! o = Some ord) as Hoa.
  { unfold ha. rewrite alter_ptr_ne; [done|by intros ?%last_in]. }
  assert (exists hd, match last l1 with
           | Some q => qord ← h !! q; Some (lvl_head lvl, <[q:=set_next (head l2) qord]> h)
           | None => Some (head l2, h)
           end = Some (hd, ha) /\ hd = head (l1 ++ l2)) as (hd & Ehd & Hhd).
  { unfold ha. destruct (last l1) as [q|] eqn:El; cbn [alter_ptr].
    - destruct (linked_elem _ _ _ q Hl) as (qord & Hq & _).
      { apply last_in in El. set_solver. }
      rewrite Hq. cbn. rewrite insert_alter by done. eexists. split; [done|].
      rewrite Hh. destruct l1; [done|]. done.
    - apply last_None in El as ->. by eexists. }
  rewrite Ehd. cbn. rewrite Hoa. cbn. rewrite Hn, Hp.
  set (hb := alter_ptr (set_prev (last l1)) (head l2) ha).
  assert (hb !! o = Some ord) as Hob.
  { unfold hb. rewrite alter_ptr_ne; [done|by intros ?%head_in]. }
  assert (exists tl, match head l2 with
           | Some q => qord ← ha !! q; Some (lvl_tail lvl, <[q:=set_prev (last l1) qord]> ha)
           | None => Some (last l1, ha)
           end = Some (tl, hb) /\ tl = last (l1 ++ l2)) as (tl & Etl & Htl).
  { unfold hb. destruct (head l2) as [q|] eqn:El; cbn [alter_ptr].
    - destruct (linked_elem _ _ _ q Hl) as (qord & Hq & _).
      { apply head_in in El. set_solver. }
      assert (ha !! q = Some qord) as Hqa.
      { unfold ha. rewrite alter_ptr_ne; [done|]. intros ?%last_in. apply head_in in El.
        by apply (Hd q). }
      rewrite Hqa. cbn. rewrite insert_alter by done. eexists. split; [done|].
      rewrite Ht. destruct l2 as [|y l2]; [done|]. by rewrite !last_app_cons, last_cons_cons.
    - apply head_None in El as ->. rewrite app_nil_r. by eexists. }
  rewrite Etl. cbn. rewrite Hob. cbn. rewrite insert_alter by done. by subst.
Qed.

Lemma remove_spec this lvl h l1 o l2 ord :
  level_repr this lvl h (l1 ++ o :: l2) -> h !! o = Some ord ->
  exists lvl' h', PriceLevel_remove lvl h (Some o) = Some (lvl', h') /\
    level_repr this lvl' h' (l1 ++ l2) /\ same_data h h' /\
    lvl_price lvl' = lvl_price lvl /\
    lvl_total_quantity lvl' = u32 (lvl_total_quantity lvl - ord_quantity ord) /\
    h' !! o = Some (set_links None None None ord) /\
    (forall x, x ∉ l1 ++ o :: l2 -> h' !! x = h !! x).
Proof.
  intros R Ho. do 2 eexists. split; [by eapply remove_eq|].
  pose proof R as [Hnd _ _ Hl]. destruct (nodup_middle _ _ _ Hnd) as (Hnd' & Ho1 & Ho2 & Hd).
  split; [constructor; try done; by apply linked_removed|].
  split; [apply same_data_removed|]. split; [done|]. split; [done|]. split.
  - unfold removed_heap. rewrite lookup_alter_ptr, decide_True by done.
    rewrite alter_ptr_ne by (by intros ?%head_in). rewrite alter_ptr_ne by (by intros ?%last_in).
    by rewrite Ho.
  - intros x Hx. by apply removed_heap_frame.
Qed.
