(* ===== verification/Bitmap.v ===== *)
(** * The active-level bitmaps of the order book

    The bit operations of [orderbook/software/array_order_book.cpp]: one bit per
    price, 64 per word, and the word-wise searches that find the next best bid
    (downwards, [std::countl_zero]) and the next best ask (upwards,
    [std::countr_zero]).  [active] reads the bit of a price; the searches are
    shown to return the nearest active price on their side. *)

From S2P Require Import Prelude.

Definition BitsPerBitmapWord : Z := 64.

Definition MaxPriceLevels : Z := 100000.

Definition BitmapWordCount : Z := (MaxPriceLevels + BitsPerBitmapWord - 1) / BitsPerBitmapWord.

(** [~x] on [uint64_t]. *)
Definition not64 (x : Z) : Z := u64 (Z.lnot x).

Definition lowerBitsMask (bitIndex : Z) : Z :=
  if bitIndex =? 0 then 0
  else if bitIndex >=? 64 then not64 0
  else u64 (Z.shiftl 1 bitIndex) - 1.

(** [std::countl_zero] and [std::countr_zero] on [uint64_t]. *)
Definition countl_zero (w : Z) : Z := if w =? 0 then 64 else 63 - Z.log2 w.

Fixpoint ctz_pos (p : positive) : Z :=
  match p with
  | xO p => 1 + ctz_pos p
  | _ => 0
  end.

Definition countr_zero (w : Z) : Z := match w with Zpos p => ctz_pos p | _ => 64 end.

Definition priceToIndex (price : Z) : Z := u64 price.

(** Indexing the bitmap outside its words is undefined. *)
Definition bitmap_word (bitmap : gmap Z Z) (word : Z) : option Z :=
  if in_range BitmapWordCount word then Some (arr_get 0 bitmap word) else None.

Definition setLevelActive (bitmap : gmap Z Z) (price : Z) : option (gmap Z Z) :=
  let index := priceToIndex price in
  let word := index / BitsPerBitmapWord in
  let bit := index mod BitsPerBitmapWord in
  w ← bitmap_word bitmap word;
  Some (<[word := Z.lor w (u64 (Z.shiftl 1 bit))]> bitmap).

Definition clearLevelActive (bitmap : gmap Z Z) (price : Z) : option (gmap Z Z) :=
  let index := priceToIndex price in
  let word := index / BitsPerBitmapWord in
  let bit := index mod BitsPerBitmapWord in
  w ← bitmap_word bitmap word;
  Some (<[word := Z.land w (not64 (u64 (Z.shiftl 1 bit)))]> bitmap).

(** The downward loop, structural in [wordIndex]. *)
Fixpoint refreshBestBid_loop (bitmap : gmap Z Z) (wordIndex : nat) (word : Z) : option Z :=
  if word =? 0 then
    match wordIndex with
    | O => Some 0
    | S wordIndex =>
        word ← bitmap_word bitmap (Z.of_nat wordIndex);
        refreshBestBid_loop bitmap wordIndex word
    end
  else
    let highestSetBit := BitsPerBitmapWord - 1 - countl_zero word in
    Some (i64 (Z.of_nat wordIndex * BitsPerBitmapWord + highestSetBit)).

(** The new value of [best_bid_]. *)
Definition refreshBestBid (bitmap : gmap Z Z) (best_bid : Z) : option Z :=
  if best_bid =? 0 then Some best_bid
  else
    let bestIndex := priceToIndex best_bid in
    let wordIndex := bestIndex / BitsPerBitmapWord in
    let bitIndex := bestIndex mod BitsPerBitmapWord in
    word ← bitmap_word bitmap wordIndex;
    refreshBestBid_loop bitmap (Z.to_nat wordIndex) (Z.land word (lowerBitsMask bitIndex)).

(** The upward loop; [words_left] is the number of words after [wordIndex]. *)
Fixpoint refreshBestAsk_loop (bitmap : gmap Z Z) (words_left : nat) (wordIndex word : Z)
    : option Z :=
  if word =? 0 then
    let wordIndex := wordIndex + 1 in
    if wordIndex >=? BitmapWordCount then Some 0
    else
      match words_left with
      | O => None
      | S words_left =>
          word ← bitmap_word bitmap wordIndex;
          refreshBestAsk_loop bitmap words_left wordIndex word
      end
  else
    let lowestSetBit := countr_zero word in
    Some (i64 (wordIndex * BitsPerBitmapWord + lowestSetBit)).

Definition refreshBestAsk (bitmap : gmap Z Z) (best_ask : Z) : option Z :=
  if best_ask =? 0 then Some best_ask
  else
    let bestIndex := priceToIndex best_ask in
    let wordIndex := bestIndex / BitsPerBitmapWord in
    let bitIndex := bestIndex mod BitsPerBitmapWord in
    word ← bitmap_word bitmap wordIndex;
    refreshBestAsk_loop bitmap (Z.to_nat (BitmapWordCount - wordIndex - 1)) wordIndex
      (Z.land word (not64 (lowerBitsMask (bitIndex + 1)))).

(** ** The set of prices a bitmap stands for *)

Definition active (bitmap : gmap Z Z) (price : Z) : bool :=
  Z.testbit (arr_get 0 bitmap (price / 64)) (price mod 64).

Definition words_wf (bitmap : gmap Z Z) : Prop := forall i, 0 <= arr_get 0 bitmap i < 2 ^ 64.

Definition valid_price (p : Z) : Prop := 0 < p < MaxPriceLevels.

(** ** Bit-level lemmas *)

Lemma testbit_u64 z j : Z.testbit (wrap 64 z) j = Z.testbit z j && ((0 <=? j) && (j <? 64)).
Proof.
  unfold wrap. destruct (Z.ltb_spec j 0).
  - rewrite !Z.testbit_neg_r by done. done.
  - rewrite Z.testbit_mod_pow2 by lia. destruct (Z.leb_spec 0 j); [|lia]. cbn.
    apply andb_comm.
Qed.

Lemma testbit_not64 x j : 0 <= j < 64 -> Z.testbit (not64 x) j = negb (Z.testbit x j).
Proof.
  intros Hj. unfold not64. rewrite testbit_u64, Z.lnot_spec by lia.
  destruct (Z.leb_spec 0 j), (Z.ltb_spec j 64); try lia. by rewrite andb_true_r.
Qed.

Lemma testbit_bit64 b j : 0 <= b < 64 -> 0 <= j -> Z.testbit (wrap 64 (Z.shiftl 1 b)) j = (j =? b).
Proof.
  intros Hb Hj. rewrite testbit_u64, Z.shiftl_1_l, Z.pow2_bits_eqb by lia.
  destruct (Z.eqb_spec b j), (Z.eqb_spec j b), (Z.leb_spec 0 j), (Z.ltb_spec j 64); lia || done.
Qed.

Lemma lowerBitsMask_ones b : 0 <= b <= 64 -> lowerBitsMask b = Z.ones b.
Proof.
  intros Hb. unfold lowerBitsMask. bcase; [by subst|]. bcase.
  - assert (b = 64) as -> by lia. reflexivity.
  - rewrite Z.shiftl_1_l, wrap_small, Z.ones_equiv; [lia|].
    split; [lia|]. apply Z.pow_lt_mono_r; lia.
Qed.

Lemma testbit_lowerBitsMask b j : 0 <= b <= 64 -> 0 <= j -> Z.testbit (lowerBitsMask b) j = (j <? b).
Proof.
  intros Hb Hj. rewrite lowerBitsMask_ones by done. rewrite Z.testbit_ones by lia.
  destruct (Z.leb_spec 0 j); [done|lia].
Qed.

Lemma ctz_pos_spec p :
  0 <= ctz_pos p /\ Z.testbit (Zpos p) (ctz_pos p) = true /\
  (forall j, 0 <= j < ctz_pos p -> Z.testbit (Zpos p) j = false).
Proof.
  induction p as [p IH|p IH|]; cbn [ctz_pos].
  - split; [lia|]. split; [done|]. intros; lia.
  - destruct IH as (H1 & H2 & H3). split; [lia|].
    change (Zpos p~0) with (2 * Zpos p). split.
    + rewrite Z.add_1_l, Z.double_bits_succ. done.
    + intros j Hj. destruct (Z.eq_dec j 0) as [->|]; [done|].
      replace j with (Z.succ (j - 1)) by lia. rewrite Z.double_bits_succ. apply H3. lia.
  - split; [lia|]. split; [done|]. intros; lia.
Qed.

Lemma testbit_high w j : 0 <= w < 2 ^ 64 -> 64 <= j -> Z.testbit w j = false.
Proof.
  intros Hw Hj. destruct (Z.eq_dec w 0) as [->|]; [apply Z.testbit_0_l|].
  apply Z.bits_above_log2; [lia|]. assert (Z.log2 w < 64); [|lia].
  apply Z.log2_lt_pow2; lia.
Qed.

(** The highest bit, as the code computes it from [countl_zero]. *)
Lemma highest_bit_spec w :
  0 < w < 2 ^ 64 ->
  let b := BitsPerBitmapWord - 1 - countl_zero w in
  0 <= b < 64 /\ Z.testbit w b = true /\ (forall j, b < j -> Z.testbit w j = false).
Proof.
  intros Hw b. assert (b = Z.log2 w) as E.
  { unfold b, countl_zero, BitsPerBitmapWord. destruct (Z.eqb_spec w 0); lia. }
  rewrite E. pose proof (Z.log2_nonneg w). split; [split; [done|apply Z.log2_lt_pow2; lia]|].
  split; [apply Z.bit_log2; lia|]. intros j Hj. apply Z.bits_above_log2; lia.
Qed.

Lemma lowest_bit_spec w :
  0 < w < 2 ^ 64 ->
  0 <= countr_zero w < 64 /\ Z.testbit w (countr_zero w) = true /\
  (forall j, 0 <= j < countr_zero w -> Z.testbit w j = false).
Proof.
  intros Hw. destruct w as [|p|p]; try lia. cbn [countr_zero].
  destruct (ctz_pos_spec p) as (H1 & H2 & H3). split; [|done]. split; [done|].
  destruct (Z.lt_ge_cases (ctz_pos p) 64); [done|]. rewrite testbit_high in H2; done || lia.
Qed.

Lemma testbit_zero_all w : 0 <= w -> (forall j, 0 <= j -> Z.testbit w j = false) -> w = 0.
Proof. intros Hw H. apply Z.bits_inj'. intros j Hj. rewrite H by done. by rewrite Z.testbit_0_l. Qed.

(** ** Setting and clearing a price *)

Lemma priceToIndex_id p : 0 <= p < MaxPriceLevels -> priceToIndex p = p.
Proof. unfold MaxPriceLevels. intros. apply wrap_small. lia. Qed.

Lemma bitmap_word_price bm p :
  0 <= p < MaxPriceLevels -> bitmap_word bm (p / 64) = Some (arr_get 0 bm (p / 64)).
Proof.
  intros Hp. unfold bitmap_word. rewrite (proj2 (in_range_spec _ _)); [done|].
  change BitmapWordCount with 1563. unfold MaxPriceLevels in Hp. zdm.
Qed.

(** Rewriting one word pointwise changes the bits of that word only. *)
Lemma active_set_word bm w x q :
  active (<[w := x]> bm) q = if decide (w = q / 64) then Z.testbit x (q mod 64) else active bm q.
Proof. unfold active. rewrite arr_get_set. by case_decide. Qed.

Lemma same_price p q : p / 64 = q / 64 -> (q mod 64 =? p mod 64) = (q =? p).
Proof. intros E. destruct (Z.eqb_spec (q mod 64) (p mod 64)), (Z.eqb_spec q p); subst; try done; zdm. Qed.

Lemma u64_lor a b : 0 <= a < 2 ^ 64 -> 0 <= b < 2 ^ 64 -> 0 <= Z.lor a b < 2 ^ 64.
Proof.
  intros Ha Hb. split; [apply Z.lor_nonneg; lia|].
  destruct (Z.eq_dec (Z.lor a b) 0) as [->|]; [lia|].
  apply Z.log2_lt_pow2; [pose proof (proj2 (Z.lor_nonneg a b)); lia|].
  rewrite Z.log2_lor by lia. apply Z.max_lub_lt.
  - destruct (Z.eq_dec a 0) as [->|]; [done|]. apply Z.log2_lt_pow2; lia.
  - destruct (Z.eq_dec b 0) as [->|]; [done|]. apply Z.log2_lt_pow2; lia.
Qed.

Lemma u64_land a b : 0 <= a < 2 ^ 64 -> 0 <= Z.land a b < 2 ^ 64.
Proof.
  intros Ha. assert (0 <= Z.land a b) as Hn by (apply Z.land_nonneg; lia). split; [done|].
  destruct (Z.lt_ge_cases (Z.land a b) (2 ^ 64)) as [|Hge]; [done|].
  assert (Z.land a b <> 0) by lia.
  pose proof (Z.bit_log2 (Z.land a b)) as Hb. rewrite Z.land_spec in Hb.
  rewrite testbit_high in Hb; [cbn in Hb; lia|done|]. apply Z.log2_le_pow2; lia.
Qed.

Lemma words_wf_set bm w x : words_wf bm -> 0 <= x < 2 ^ 64 -> words_wf (<[w := x]> bm).
Proof. intros Hwf Hx i. rewrite arr_get_set. by case_decide. Qed.

Lemma setLevelActive_spec bm p :
  words_wf bm -> 0 <= p < MaxPriceLevels ->
  exists bm', setLevelActive bm p = Some bm' /\ words_wf bm' /\
    forall q, active bm' q = (q =? p) || active bm q.
Proof.
  intros Hwf Hp. unfold setLevelActive, BitsPerBitmapWord.
  rewrite priceToIndex_id, bitmap_word_price by done. cbn. eexists. split; [done|].
  pose proof (Z.mod_pos_bound p 64). split.
  - apply words_wf_set; [done|]. apply u64_lor; [apply Hwf|apply wrap_range; lia].
  - intros q. rewrite active_set_word. pose proof (Z.mod_pos_bound q 64). case_decide as E.
    + rewrite Z.lor_spec, testbit_bit64 by lia. rewrite same_price by done.
      unfold active. rewrite <- E. apply orb_comm.
    + destruct (Z.eqb_spec q p); [subst; done|done].
Qed.

Lemma clearLevelActive_spec bm p :
  words_wf bm -> 0 <= p < MaxPriceLevels ->
  exists bm', clearLevelActive bm p = Some bm' /\ words_wf bm' /\
    forall q, active bm' q = negb (q =? p) && active bm q.
Proof.
  intros Hwf Hp. unfold clearLevelActive, BitsPerBitmapWord.
  rewrite priceToIndex_id, bitmap_word_price by done. cbn. eexists. split; [done|].
  pose proof (Z.mod_pos_bound p 64). split.
  - apply words_wf_set; [done|]. apply u64_land, Hwf.
  - intros q. rewrite active_set_word. pose proof (Z.mod_pos_bound q 64). case_decide as E.
    + rewrite Z.land_spec, testbit_not64, testbit_bit64 by lia. rewrite same_price by done.
      unfold active. rewrite <- E. apply andb_comm.
    + destruct (Z.eqb_spec q p); [subst; done|done].
Qed.

(** ** The downward search *)

(** [r] is the greatest active price below [top], or 0 when there is none. *)
Definition best_below (bm : gmap Z Z) (top r : Z) : Prop :=
  0 <= r /\ (r <> 0 -> r < top /\ active bm r = true) /\
  forall p, r < p < top -> active bm p = false.

(** [r] is the least active price above [bottom] among the words of the bitmap,
    or 0 when there is none. *)
Definition best_above (bm : gmap Z Z) (bottom r : Z) : Prop :=
  (r <> 0 -> bottom < r /\ active bm r = true) /\ 0 <= r < BitmapWordCount * 64 /\
  forall p, bottom < p < (if r =? 0 then BitmapWordCount * 64 else r) -> active bm p = false.

(** [word] is word [w] of the bitmap restricted to the prices that satisfy [P]. *)
Definition word_view (bm : gmap Z Z) (w : Z) (P : Z -> bool) (word : Z) : Prop :=
  0 <= word < 2 ^ 64 /\
  forall j, 0 <= j < 64 -> Z.testbit word j = active bm (w * 64 + j) && P (w * 64 + j).

Lemma active_word bm w j : 0 <= j < 64 -> active bm (w * 64 + j) = Z.testbit (arr_get 0 bm w) j.
Proof.
  intros Hj. unfold active. replace ((w * 64 + j) / 64) with w by zdm.
  by replace ((w * 64 + j) mod 64) with j by zdm.
Qed.

Lemma word_view_full bm w P :
  words_wf bm -> (forall j, 0 <= j < 64 -> P (w * 64 + j) = true) ->
  word_view bm w P (arr_get 0 bm w).
Proof.
  intros Hwf HP. split; [apply Hwf|]. intros j Hj. rewrite HP by done.
  by rewrite andb_true_r, active_word.
Qed.

Lemma word_view_zero bm w P p :
  word_view bm w P 0 -> P p = true -> p / 64 = w -> active bm p = false.
Proof.
  intros [_ H] HP <-. specialize (H (p mod 64) (Z.mod_pos_bound p 64 eq_refl)).
  replace (p / 64 * 64 + p mod 64) with p in H by zdm. rewrite HP, Z.testbit_0_l in H.
  by destruct (active bm p).
Qed.

(** A non-zero word of the search holds the answer. *)
Lemma bid_word_found bm top w word :
  0 <= w -> word_view bm w (fun p => p <? top) word -> word <> 0 ->
  (forall p, (w + 1) * 64 <= p < top -> active bm p = false) ->
  best_below bm top (w * 64 + (BitsPerBitmapWord - 1 - countl_zero word)).
Proof.
  intros Hw [Hrange Hbits] Hnz Hhi.
  destruct (highest_bit_spec word) as (Hb & Hset & Habove); [lia|].
  set (b := BitsPerBitmapWord - 1 - countl_zero word) in *.
  rewrite Hbits in Hset by done. apply andb_prop in Hset as [Hact Hlt]. apply Z.ltb_lt in Hlt.
  split; [lia|]. split; [done|]. intros p Hp.
  destruct (Z.lt_ge_cases p ((w + 1) * 64)) as [Hlow|]; [|apply Hhi; lia].
  specialize (Hbits (p - w * 64) ltac:(lia)). specialize (Habove (p - w * 64) ltac:(lia)).
  replace (w * 64 + (p - w * 64)) with p in Hbits by lia.
  rewrite Habove, (proj2 (Z.ltb_lt p top)) in Hbits by lia. by destruct (active bm p).
Qed.

Lemma refreshBestBid_loop_spec bm top w : forall word,
  words_wf bm -> 0 < top < MaxPriceLevels -> Z.of_nat w <= top / 64 ->
  word_view bm (Z.of_nat w) (fun p => p <? top) word ->
  (forall p, (Z.of_nat w + 1) * 64 <= p < top -> active bm p = false) ->
  exists r, refreshBestBid_loop bm w word = Some r /\ best_below bm top r.
Proof.
  induction w as [|w IH]; intros word Hwf Ht Hw Hv Hhi; cbn [refreshBestBid_loop];
    destruct (Z.eqb_spec word 0) as [->|Hnz].
  2,4: pose proof (bid_word_found bm top _ word (Nat2Z.is_nonneg _) Hv Hnz Hhi) as Hbest;
    pose proof (highest_bit_spec word ltac:(destruct Hv; lia)) as [Hb _];
    eexists; (rewrite sint_small; [done|lia|unfold BitsPerBitmapWord, MaxPriceLevels in *; zdm]).
  - exists 0. split; [done|]. split; [lia|]. split; [done|]. intros p Hp.
    destruct (Z.lt_ge_cases p 64); [|apply Hhi; lia].
    eapply word_view_zero; [exact Hv|apply Z.ltb_lt; lia|zdm].
  - assert (in_range BitmapWordCount (Z.of_nat w) = true) as Hr.
    { apply in_range_spec. change BitmapWordCount with 1563. unfold MaxPriceLevels in *. zdm. }
    unfold bitmap_word. rewrite Hr. cbn [mbind option_bind]. apply IH; [done|done|lia| |].
    + apply word_view_full; [done|]. intros j Hj. apply Z.ltb_lt. zdm.
    + intros p Hp. destruct (Z.lt_ge_cases p ((Z.of_nat (S w) + 1) * 64)); [|apply Hhi; lia].
      eapply word_view_zero; [exact Hv|apply Z.ltb_lt; lia|zdm].
Qed.

Lemma refreshBestBid_spec bm best :
  words_wf bm -> 0 < best < MaxPriceLevels ->
  exists r, refreshBestBid bm best = Some r /\ best_below bm best r.
Proof.
  intros Hwf Hb. unfold refreshBestBid, BitsPerBitmapWord.
  destruct (Z.eqb_spec best 0); [lia|]. rewrite priceToIndex_id, bitmap_word_price by lia. cbn.
  pose proof (Z.mod_pos_bound best 64).
  apply refreshBestBid_loop_spec; [done|done|rewrite Z2Nat.id by zdm; lia| |];
    rewrite Z2Nat.id by zdm.
  - split; [apply u64_land, Hwf|]. intros j Hj.
    rewrite Z.land_spec, testbit_lowerBitsMask, active_word by lia. f_equal.
    destruct (Z.ltb_spec j (best mod 64)), (Z.ltb_spec (best / 64 * 64 + j) best); done || zdm.
  - intros p Hp. zdm.
Qed.

(** ** The upward search *)

Lemma ask_word_found bm bottom w word :
  0 <= w < BitmapWordCount -> word_view bm w (fun p => bottom <? p) word -> word <> 0 ->
  0 < bottom -> (forall p, bottom < p < w * 64 -> active bm p = false) ->
  best_above bm bottom (w * 64 + countr_zero word).
Proof.
  intros Hw [Hrange Hbits] Hnz Hpos Hlo.
  destruct (lowest_bit_spec word) as (Hb & Hset & Hbelow); [lia|].
  set (b := countr_zero word) in *.
  rewrite Hbits in Hset by done. apply andb_prop in Hset as [Hact Hlt]. apply Z.ltb_lt in Hlt.
  split; [done|]. split; [lia|]. destruct (Z.eqb_spec (w * 64 + b) 0); [lia|]. intros p Hp.
  destruct (Z.lt_ge_cases p (w * 64)) as [|Hge]; [apply Hlo; lia|].
  specialize (Hbits (p - w * 64) ltac:(lia)). specialize (Hbelow (p - w * 64) ltac:(lia)).
  replace (w * 64 + (p - w * 64)) with p in Hbits by lia.
  rewrite Hbelow, (proj2 (Z.ltb_lt bottom p)) in Hbits by lia. by destruct (active bm p).
Qed.

Lemma refreshBestAsk_loop_spec bm bottom left : forall w word,
  words_wf bm -> 0 < bottom -> bottom / 64 <= w < BitmapWordCount ->
  BitmapWordCount - w - 1 = Z.of_nat left ->
  word_view bm w (fun p => bottom <? p) word ->
  (forall p, bottom < p < w * 64 -> active bm p = false) ->
  exists r, refreshBestAsk_loop bm left w word = Some r /\ best_above bm bottom r.
Proof.
  induction left as [|left IH]; intros w word Hwf Hpos Hw Hleft Hv Hlo;
    cbn [refreshBestAsk_loop]; destruct (Z.eqb_spec word 0) as [->|Hnz].
  2,4: pose proof (ask_word_found bm bottom w word ltac:(zdm) Hv Hnz Hpos Hlo) as Hbest;
    pose proof (lowest_bit_spec word ltac:(destruct Hv; lia)) as [Hb _];
    eexists; (rewrite sint_small; [done|lia|unfold BitsPerBitmapWord;
      change BitmapWordCount with 1563 in *; zdm]).
  all: assert (forall p, bottom < p < (w + 1) * 64 -> active bm p = false) as Hlo'
    by (intros p Hp; destruct (Z.lt_ge_cases p (w * 64)); [apply Hlo; lia|];
        eapply word_view_zero; [exact Hv|apply Z.ltb_lt; lia|zdm]).
  - rewrite Z.geb_leb, (proj2 (Z.leb_le _ _)) by lia. exists 0. split; [done|].
    split; [done|]. change BitmapWordCount with 1563 in *. split; [lia|]. cbn.
    intros p Hp. apply Hlo'. lia.
  - rewrite Z.geb_leb, (proj2 (Z.leb_gt _ _)) by lia.
    unfold bitmap_word. rewrite (proj2 (in_range_spec _ _)) by zdm. cbn [mbind option_bind].
    apply IH; [done|done|lia|lia| |done].
    apply word_view_full; [done|]. intros j Hj. apply Z.ltb_lt. zdm.
Qed.

Lemma refreshBestAsk_spec bm best :
  words_wf bm -> 0 < best < MaxPriceLevels ->
  exists r, refreshBestAsk bm best = Some r /\ best_above bm best r.
Proof.
  intros Hwf Hb. unfold refreshBestAsk, BitsPerBitmapWord.
  destruct (Z.eqb_spec best 0); [lia|]. rewrite priceToIndex_id, bitmap_word_price by lia.
  cbn [mbind option_bind]. pose proof (Z.mod_pos_bound best 64).
  assert (best / 64 < BitmapWordCount)
    by (change BitmapWordCount with 1563; unfold MaxPriceLevels in *; zdm).
  apply refreshBestAsk_loop_spec; [done|lia|lia|lia| |intros p Hp; zdm].
  split; [apply u64_land, Hwf|]. intros j Hj.
  rewrite Z.land_spec, testbit_not64, testbit_lowerBitsMask, active_word by lia. f_equal.
  destruct (Z.ltb_spec j (best mod 64 + 1)), (Z.ltb_spec best (best / 64 * 64 + j)); done || zdm.
Qed.

(** ** Reference searches: one price at a time *)

(** The greatest active price below [n], else 0. *)
Fixpoint scan_down (bm : gmap Z Z) (n : nat) : Z :=
  match n with
  | O => 0
  | S n => if active bm (Z.of_nat n) then Z.of_nat n else scan_down bm n
  end.

(** The least active price among [p], ..., [p + n - 1], else 0. *)
Fixpoint scan_up (bm : gmap Z Z) (n : nat) (p : Z) : Z :=
  match n with
  | O => 0
  | S n => if active bm p then p else scan_up bm n (p + 1)
  end.

Lemma scan_down_below bm n : best_below bm (Z.of_nat n) (scan_down bm n).
Proof.
  induction n as [|n IH]; cbn [scan_down]; [split; [done|]; split; [done|intros; lia]|].
  destruct (active bm (Z.of_nat n)) eqn:E.
  - split; [lia|]. split; [intros; split; [lia|done]|]. intros; lia.
  - destruct IH as (H1 & H2 & H3). split; [done|]. split.
    + intros Hr. specialize (H2 Hr). split; [lia|apply H2].
    + intros p Hp. destruct (Z.eq_dec p (Z.of_nat n)) as [->|]; [done|]. apply H3. lia.
Qed.

Lemma best_below_unique bm top r r' : best_below bm top r -> best_below bm top r' -> r = r'.
Proof.
  intros (H1 & H2 & H3) (H1' & H2' & H3').
  destruct (Z.lt_trichotomy r r') as [Hlt|[|Hlt]]; [|done|].
  - destruct H2' as [? Ha]; [lia|]. rewrite H3 in Ha; [done|lia].
  - destruct H2 as [? Ha]; [lia|]. rewrite H3' in Ha; [done|lia].
Qed.

Lemma scan_up_above bm n p :
  0 < p -> p + Z.of_nat n = BitmapWordCount * 64 -> best_above bm (p - 1) (scan_up bm n p).
Proof.
  revert p. induction n as [|n IH]; intros p Hp Hn; cbn [scan_up].
  - split; [done|]. change BitmapWordCount with 1563 in *. split; [lia|]. cbn. intros; lia.
  - destruct (active bm p) eqn:E.
    + split; [split; [lia|done]|]. split; [lia|]. destruct (Z.eqb_spec p 0); [lia|]. intros; lia.
    + destruct (IH (p + 1)) as (H1 & H2 & H3); [lia..|]. split; [|split; [done|]].
      * intros Hr. split; [|apply H1, Hr]. specialize (H1 Hr). lia.
      * intros q Hq. destruct (Z.eq_dec q p) as [->|]; [done|]. apply H3. lia.
Qed.

Lemma best_above_unique bm bot r r' :
  0 < bot -> best_above bm bot r -> best_above bm bot r' -> r = r'.
Proof.
  intros Hbot (H1 & H2 & H3) (H1' & H2' & H3').
  revert H3 H3'.
  destruct (Z.eqb_spec r 0) as [->|Hr], (Z.eqb_spec r' 0) as [->|Hr']; intros H3 H3'; [done| | |].
  - destruct (H1' Hr') as [? Ha]. rewrite H3 in Ha; [done|lia].
  - destruct (H1 Hr) as [? Ha]. rewrite H3' in Ha; [done|lia].
  - destruct (H1 Hr) as [? Ha], (H1' Hr') as [? Ha'].
    destruct (Z.lt_trichotomy r r') as [Hlt|[|Hlt]]; [|done|].
    + rewrite H3' in Ha; [done|lia].
    + rewrite H3 in Ha'; [done|lia].
Qed.

(** C3.  The word-wise bitmap searches that replace the removed best price
    ([countl_zero] downwards for the bid, [countr_zero] upwards for the ask, with
    the masks of the first word) return exactly what a scan of the prices one by
    one returns, never index outside the bitmap and terminate: the nearest
    active price on that side, or 0 when there is none. *)
Theorem bitmap_search_is_linear_scan (bm : gmap Z Z) (best : Z) :
  words_wf bm -> 0 < best < MaxPriceLevels ->
  refreshBestBid bm best = Some (scan_down bm (Z.to_nat best)) /\
  refreshBestAsk bm best =
    Some (scan_up bm (Z.to_nat (BitmapWordCount * BitsPerBitmapWord - best - 1)) (best + 1)).
Proof.
  intros Hwf Hb. split.
  - destruct (refreshBestBid_spec bm best Hwf Hb) as (r & -> & Hr). f_equal.
    eapply best_below_unique; [exact Hr|].
    rewrite <- (Z2Nat.id best) at 1 by lia. apply scan_down_below.
  - destruct (refreshBestAsk_spec bm best Hwf Hb) as (r & -> & Hr). f_equal.
    eapply best_above_unique; [|exact Hr|]; [lia|].
    replace best with (best + 1 - 1) at 1 by lia. apply scan_up_above; [lia|].
    unfold BitsPerBitmapWord. change BitmapWordCount with 1563.
    unfold MaxPriceLevels in Hb. lia.
Qed.

(** Prices 5, 63 and 200 are active. *)
Definition sample_bitmap : gmap Z Z := {[ 0 := Z.lor (2 ^ 5) (2 ^ 63); 3 := 2 ^ 8 ]}.

Lemma bitmap_search_witness :
  refreshBestBid sample_bitmap 200 = Some 63 /\ refreshBestAsk sample_bitmap 63 = Some 200 /\
  refreshBestBid sample_bitmap 200 = Some (scan_down sample_bitmap (Z.to_nat 200)).
Proof.
  split; [reflexivity|]. split; [reflexivity|].
  destruct (bitmap_search_is_linear_scan sample_bitmap 200) as [H _]; [|done|exact H].
  intros i. unfold arr_get, sample_bitmap.
  rewrite lookup_insert. case_decide; [split; vm_compute; congruence|].
  rewrite lookup_singleton. case_decide; split; vm_compute; congruence.
Defined.
