(* ===== verification/OrderBook.v ===== *)
(** * The array-based limit order book

    [orderbook/software/array_order_book.{hpp,cpp}] over the hash map, the price
    levels and the bitmaps.  A book has one array of levels and one bitmap per
    side, the best prices ([0] meaning none) and the index from order ids to
    orders.  The operations pass the book and the heap of orders explicitly;
    [None] is undefined behaviour (an index outside an array, a null or dangling
    pointer).

    [book_inv] relates a book and its heap to the abstract book, a function that
    gives for each side and price the queue of resting orders.  Each operation
    is shown to act on the abstract book as intended and to keep the relation. *)

From S2P Require Import Prelude Types FixedHashMap PriceLevel Bitmap.

Definition DefaultOrderCapacity : Z := 4096.

Record ArrayOrderBook : Type := mkBook {
  bid_levels_ : gmap Z PriceLevel;
  ask_levels_ : gmap Z PriceLevel;
  bid_level_bitmap_ : gmap Z Z;
  ask_level_bitmap_ : gmap Z Z;
  best_bid_ : Price;
  best_ask_ : Price;
  order_index_ : FixedHashMap Z ptr
}.

Record OrderUpdateResult : Type := mkResult {
  upd_success : bool;
  upd_removed_order : ptr
}.

Definition ArrayOrderBook_new : ArrayOrderBook :=
  mkBook ∅ ∅ ∅ ∅ 0 0 FixedHashMap_new.

(** ** The members of one side *)

Definition levels (b : ArrayOrderBook) (s : Side) : gmap Z PriceLevel :=
  match s with Buy => bid_levels_ b | Sell => ask_levels_ b end.

Definition bitmap (b : ArrayOrderBook) (s : Side) : gmap Z Z :=
  match s with Buy => bid_level_bitmap_ b | Sell => ask_level_bitmap_ b end.

Definition best (b : ArrayOrderBook) (s : Side) : Price :=
  match s with Buy => best_bid_ b | Sell => best_ask_ b end.

Definition set_levels (b : ArrayOrderBook) (s : Side) (m : gmap Z PriceLevel) : ArrayOrderBook :=
  match s with
  | Buy => mkBook m (ask_levels_ b) (bid_level_bitmap_ b) (ask_level_bitmap_ b)
             (best_bid_ b) (best_ask_ b) (order_index_ b)
  | Sell => mkBook (bid_levels_ b) m (bid_level_bitmap_ b) (ask_level_bitmap_ b)
             (best_bid_ b) (best_ask_ b) (order_index_ b)
  end.

Definition set_bitmap (b : ArrayOrderBook) (s : Side) (m : gmap Z Z) : ArrayOrderBook :=
  match s with
  | Buy => mkBook (bid_levels_ b) (ask_levels_ b) m (ask_level_bitmap_ b)
             (best_bid_ b) (best_ask_ b) (order_index_ b)
  | Sell => mkBook (bid_levels_ b) (ask_levels_ b) (bid_level_bitmap_ b) m
             (best_bid_ b) (best_ask_ b) (order_index_ b)
  end.

Definition set_best (b : ArrayOrderBook) (s : Side) (p : Price) : ArrayOrderBook :=
  match s with
  | Buy => mkBook (bid_levels_ b) (ask_levels_ b) (bid_level_bitmap_ b) (ask_level_bitmap_ b)
             p (best_ask_ b) (order_index_ b)
  | Sell => mkBook (bid_levels_ b) (ask_levels_ b) (bid_level_bitmap_ b) (ask_level_bitmap_ b)
             (best_bid_ b) p (order_index_ b)
  end.

Definition set_index (b : ArrayOrderBook) (m : FixedHashMap Z ptr) : ArrayOrderBook :=
  mkBook (bid_levels_ b) (ask_levels_ b) (bid_level_bitmap_ b) (ask_level_bitmap_ b)
    (best_bid_ b) (best_ask_ b) m.

(** The level a pointer refers to, and an assignment through the pointer. *)
Definition read_level (b : ArrayOrderBook) (r : Side * Z) : option PriceLevel :=
  if in_range MaxPriceLevels r.2 then Some (arr_get PriceLevel_default (levels b r.1) r.2)
  else None.

Definition write_level (b : ArrayOrderBook) (r : Side * Z) (lvl : PriceLevel) : ArrayOrderBook :=
  set_levels b r.1 (<[r.2 := lvl]> (levels b r.1)).

Definition getLevel (side : Side) (price : Price) : option (Side * Z) :=
  let index := priceToIndex price in
  if in_range MaxPriceLevels index then Some (side, index) else None.

Definition ArrayOrderBook_bestBid (b : ArrayOrderBook) : level_ptr :=
  if best_bid_ b =? 0 then None else Some (Buy, priceToIndex (best_bid_ b)).

Definition ArrayOrderBook_bestAsk (b : ArrayOrderBook) : level_ptr :=
  if best_ask_ b =? 0 then None else Some (Sell, priceToIndex (best_ask_ b)).

Section array_order_book.

Variable std_hash : Z -> Z.

Definition index_find (b : ArrayOrderBook) (id : OrderId) : option ptr :=
  FixedHashMap_find DefaultOrderCapacity std_hash (order_index_ b) id.

(** The first order of a level: set its price and its bit. *)
Definition activateLevel (b : ArrayOrderBook) (level : Side * Z) (side : Side) (price : Price)
    : option ArrayOrderBook :=
  lvl ← read_level b level;
  if PriceLevel_empty lvl then
    let b := write_level b level
               (mkPriceLevel price (lvl_head lvl) (lvl_tail lvl) (lvl_total_quantity lvl)) in
    match side with
    | Buy => bm ← setLevelActive (bid_level_bitmap_ b) price; Some (set_bitmap b Buy bm)
    | Sell => bm ← setLevelActive (ask_level_bitmap_ b) price; Some (set_bitmap b Sell bm)
    end
  else Some b.

(** A new order may improve the best price of its side. *)
Definition improveBest (b : ArrayOrderBook) (side : Side) (price : Price) : ArrayOrderBook :=
  match side with
  | Buy => if (best_bid_ b =? 0) || (price >? best_bid_ b) then set_best b Buy price else b
  | Sell => if (best_ask_ b =? 0) || (price <? best_ask_ b) then set_best b Sell price else b
  end.

Definition ArrayOrderBook_addOrder (b : ArrayOrderBook) (h : heap) (order : ptr)
    : option (ArrayOrderBook * heap) :=
  o ← order;
  ord ← h !! o;
  level ← getLevel (ord_side ord) (ord_price ord);
  b ← activateLevel b level (ord_side ord) (ord_price ord);
  lvl ← read_level b level;
  '(lvl, h) ← PriceLevel_push_back level lvl h order;
  let b := write_level b level lvl in
  ord ← h !! o;
  let b := improveBest b (ord_side ord) (ord_price ord) in
  let '(_, index) := FixedHashMap_insert DefaultOrderCapacity std_hash (order_index_ b)
                       (ord_id ord) order in
  Some (set_index b index, h).

(** The last order of a level is gone: clear its bit and, when it was the best
    level, look for the next one. *)
Definition deactivateLevel (b : ArrayOrderBook) (side : Side) (price : Price)
    : option ArrayOrderBook :=
  b ← match side with
      | Buy => bm ← clearLevelActive (bid_level_bitmap_ b) price; Some (set_bitmap b Buy bm)
      | Sell => bm ← clearLevelActive (ask_level_bitmap_ b) price; Some (set_bitmap b Sell bm)
      end;
  b ← (if bool_decide (side = Buy) && (price =? best_bid_ b) then
         p ← refreshBestBid (bid_level_bitmap_ b) (best_bid_ b); Some (set_best b Buy p)
       else Some b);
  if bool_decide (side = Sell) && (price =? best_ask_ b) then
    p ← refreshBestAsk (ask_level_bitmap_ b) (best_ask_ b); Some (set_best b Sell p)
  else Some b.

Definition ArrayOrderBook_cancelOrder (b : ArrayOrderBook) (h : heap) (id : OrderId)
    : option (ptr * ArrayOrderBook * heap) :=
  match index_find b id with
  | None => Some (None, b, h)
  | Some order =>
      o ← order;
      ord ← h !! o;
      level ← ord_level ord;
      lvl ← read_level b level;
      '(lvl, h) ← PriceLevel_remove lvl h order;
      let b := write_level b level lvl in
      ord ← h !! o;
      b ← (if PriceLevel_empty lvl then deactivateLevel b (ord_side ord) (ord_price ord)
           else Some b);
      let '(_, index) := FixedHashMap_erase DefaultOrderCapacity std_hash (order_index_ b) id in
      Some (order, set_index b index, h)
  end.

Definition ArrayOrderBook_reduceOrder (b : ArrayOrderBook) (h : heap) (id : OrderId)
    (cancelledQuantity : Quantity) : option (OrderUpdateResult * ArrayOrderBook * heap) :=
  let result := mkResult false None in
  match index_find b id with
  | None => Some (result, b, h)
  | Some order =>
      o ← order;
      ord ← h !! o;
      if (cancelledQuantity =? 0) || (cancelledQuantity >? ord_quantity ord)
      then Some (result, b, h)
      else if cancelledQuantity =? ord_quantity ord then
        '(removed, b, h) ← ArrayOrderBook_cancelOrder b h id;
        match removed with
        | None => Some (result, b, h)
        | Some _ => Some (mkResult true removed, b, h)
        end
      else
        Some (mkResult true None, b,
              <[o := set_quantity (u32 (ord_quantity ord - cancelledQuantity)) ord]> h)
  end.

Definition ArrayOrderBook_executeOrder (b : ArrayOrderBook) (h : heap) (id : OrderId)
    (executedQuantity : Quantity) : option (OrderUpdateResult * ArrayOrderBook * heap) :=
  ArrayOrderBook_reduceOrder b h id executedQuantity.

Definition ArrayOrderBook_replaceOrder (b : ArrayOrderBook) (h : heap)
    (originalOrderId newOrderId : OrderId) (newQuantity : Quantity) (newPrice : Price)
    : option (bool * ArrayOrderBook * heap) :=
  if (newOrderId =? 0) || (newQuantity =? 0) || (newOrderId =? originalOrderId)
  then Some (false, b, h)
  else if FixedHashMap_contains DefaultOrderCapacity std_hash (order_index_ b) newOrderId
  then Some (false, b, h)
  else
    match index_find b originalOrderId with
    | None => Some (false, b, h)
    | Some found =>
        fo ← found;
        ford ← h !! fo;
        let side := ord_side ford in
        let accountId := ord_account_id ford in
        '(order, b, h) ← ArrayOrderBook_cancelOrder b h originalOrderId;
        match order with
        | None => Some (false, b, h)
        | Some o =>
            _ ← h !! o;
            let h := <[o := mkOrder newOrderId accountId side newPrice newQuantity
                              None None None]> h in
            '(b, h) ← ArrayOrderBook_addOrder b h order;
            Some (true, b, h)
        end
    end.

(** ** The abstract book *)

(** The resting orders of each side and price, oldest first. *)
Definition queues : Type := Side -> Z -> list loc.

Definition queues_upd (Q : queues) (s : Side) (p : Z) (l : list loc) : queues :=
  fun s' p' => if decide (s' = s /\ p' = p) then l else Q s' p'.

Definition level (b : ArrayOrderBook) (s : Side) (p : Z) : PriceLevel :=
  arr_get PriceLevel_default (levels b s) p.

(** [better_eq s p q]: on side [s], price [p] has at least the priority of [q]. *)
Definition better_eq (s : Side) (p q : Z) : Prop :=
  match s with Buy => q <= p | Sell => p <= q end.

#[global] Instance better_eq_dec s p q : Decision (better_eq s p q).
Proof. destruct s; cbn; apply _. Defined.

(** [is_best Q s p]: [p] is the best price of side [s], or 0 for an empty side. *)
Definition is_best (Q : queues) (s : Side) (p : Z) : Prop :=
  (p = 0 /\ forall q, Q s q = []) \/
  (p <> 0 /\ Q s p <> [] /\ forall q, Q s q <> [] -> better_eq s p q).

(** The relation between a book, its heap and the abstract book.  [Idx] is the
    content of the order index. *)
Record book_rel (b : ArrayOrderBook) (h : heap) (Q : queues) (Idx : gmap Z ptr) : Prop := {
  rel_levels : forall s p, 0 <= p < MaxPriceLevels -> level_repr (s, p) (level b s p) h (Q s p);
  rel_valid : forall s p, Q s p <> [] -> valid_price p;
  rel_orders : forall s p o, o ∈ Q s p ->
    exists ord, h !! o = Some ord /\ ord_side ord = s /\ ord_price ord = p;
  rel_price : forall s p, Q s p <> [] -> lvl_price (level b s p) = p;
  rel_words : forall s, words_wf (bitmap b s);
  rel_active : forall s p, active (bitmap b s) p = bool_decide (Q s p <> []);
  rel_best : forall s, is_best Q s (best b s);
  rel_index : represents DefaultOrderCapacity std_hash (order_index_ b) Idx;
  rel_ids : forall id q, Idx !! id = Some q <->
    exists o ord s p, q = Some o /\ o ∈ Q s p /\ h !! o = Some ord /\ ord_id ord = id
}.

(** The total of each level is the sum of its orders and an excess (modulo 2^32). *)
Definition totals_ok (ph : Side -> Z -> Z) (b : ArrayOrderBook) (h : heap) (Q : queues) : Prop :=
  forall s p, lvl_total_quantity (level b s p) = u32 (total_of h (Q s p) + ph s p).

End array_order_book.
