(* ===== verification/OrderBookProofs.v ===== *)
(** * The order book implements the abstract book

    Lemmas and theorems about the operations of [OrderBook]: each keeps
    [book_rel] and acts on the queues as intended. *)

From S2P Require Import Prelude Types FixedHashMap PriceLevel Bitmap OrderBook.

(** ** Members after an assignment *)

Lemma levels_set_levels b s m s' :
  levels (set_levels b s m) s' = if decide (s' = s) then m else levels b s'.
Proof. by destruct s, s'. Qed.

Lemma level_write b r lvl s p :
  level (write_level b r lvl) s p = if decide (s = r.1 /\ p = r.2) then lvl else level b s p.
Proof.
  unfold level, write_level. rewrite levels_set_levels. case_decide as E1.
  - subst. rewrite arr_get_set. repeat case_decide; naive_solver.
  - rewrite decide_False; naive_solver.
Qed.

Lemma bitmap_set_levels b s m s' : bitmap (set_levels b s m) s' = bitmap b s'.
Proof. by destruct s, s'. Qed.

Lemma best_set_levels b s m s' : best (set_levels b s m) s' = best b s'.
Proof. by destruct s, s'. Qed.

Lemma index_set_levels b s m : order_index_ (set_levels b s m) = order_index_ b.
Proof. by destruct s. Qed.

Lemma level_set_bitmap b s m s' p : level (set_bitmap b s m) s' p = level b s' p.
Proof. by destruct s, s'. Qed.

Lemma bitmap_set_bitmap b s m s' :
  bitmap (set_bitmap b s m) s' = if decide (s' = s) then m else bitmap b s'.
Proof. by destruct s, s'. Qed.

Lemma best_set_bitmap b s m s' : best (set_bitmap b s m) s' = best b s'.
Proof. by destruct s, s'. Qed.

Lemma index_set_bitmap b s m : order_index_ (set_bitmap b s m) = order_index_ b.
Proof. by destruct s. Qed.

Lemma level_set_best b s x s' p : level (set_best b s x) s' p = level b s' p.
Proof. by destruct s, s'. Qed.

Lemma bitmap_set_best b s x s' : bitmap (set_best b s x) s' = bitmap b s'.
Proof. by destruct s, s'. Qed.

Lemma best_set_best b s x s' : best (set_best b s x) s' = if decide (s' = s) then x else best b s'.
Proof. by destruct s, s'. Qed.

Lemma index_set_best b s x : order_index_ (set_best b s x) = order_index_ b.
Proof. by destruct s. Qed.

Lemma level_set_index b m s p : level (set_index b m) s p = level b s p.
Proof. by destruct s. Qed.

Lemma bitmap_set_index b m s : bitmap (set_index b m) s = bitmap b s.
Proof. by destruct s. Qed.

Lemma best_set_index b m s : best (set_index b m) s = best b s.
Proof. by destruct s. Qed.

Create Rewrite HintDb book.
#[export] Hint Rewrite level_set_index bitmap_set_index best_set_index bitmap_set_levels best_set_levels index_set_levels level_set_bitmap
  best_set_bitmap index_set_bitmap level_set_best bitmap_set_best index_set_best : book.

Lemma queues_upd_eq Q s p l : queues_upd Q s p l s p = l.
Proof. unfold queues_upd. by rewrite decide_True. Qed.

Lemma queues_upd_ne Q s p l s' p' : ~ (s' = s /\ p' = p) -> queues_upd Q s p l s' p' = Q s' p'.
Proof. intros. unfold queues_upd. by rewrite decide_False. Qed.

Lemma read_level_valid b s p :
  0 <= p < MaxPriceLevels -> read_level b (s, p) = Some (level b s p).
Proof. intros Hp. unfold read_level. cbn. by rewrite (proj2 (in_range_spec _ _)). Qed.

Lemma getLevel_valid s p : 0 <= p < MaxPriceLevels -> getLevel s p = Some (s, p).
Proof.
  intros Hp. unfold getLevel. rewrite priceToIndex_id by done.
  by rewrite (proj2 (in_range_spec _ _)).
Qed.

Section order_book_proofs.

Context (std_hash : Z -> Z).

Abbreviation book_rel := (book_rel std_hash).
Abbreviation addOrder := (ArrayOrderBook_addOrder std_hash).
Abbreviation cancelOrder := (ArrayOrderBook_cancelOrder std_hash).

Lemma capacity_pos : 0 < DefaultOrderCapacity.
Proof. done. Qed.

Lemma capacity_u64 : DefaultOrderCapacity < 2 ^ 64.
Proof. done. Qed.

(** ** Consequences of the relation *)

Lemma rel_same_queue b h Q Idx o s p s' p' :
  book_rel b h Q Idx -> o ∈ Q s p -> o ∈ Q s' p' -> s' = s /\ p' = p.
Proof.
  intros R (ord & H1 & <- & <-)%(rel_orders _ _ _ _ _ R) (ord' & H2 & <- & <-)%(rel_orders _ _ _ _ _ R).
  by simplify_eq.
Qed.

Lemma rel_empty_level b h Q Idx s p :
  book_rel b h Q Idx -> 0 <= p < MaxPriceLevels ->
  PriceLevel_empty (level b s p) = bool_decide (Q s p = []).
Proof.
  intros R Hp. unfold PriceLevel_empty. rewrite (repr_head _ _ _ _ (rel_levels _ _ _ _ _ R s p Hp)).
  apply bool_decide_ext. apply head_None.
Qed.

Lemma rel_find b h Q Idx id : book_rel b h Q Idx -> index_find std_hash b id = Idx !! id.
Proof.
  intros R. unfold index_find. apply find_represents; [apply capacity_pos|].
  apply (rel_index _ _ _ _ _ R).
Qed.

Lemma rel_nodup b h Q Idx s p : book_rel b h Q Idx -> NoDup (Q s p).
Proof.
  intros R. destruct (decide (Q s p = [])) as [->|Hne]; [constructor|].
  pose proof (rel_valid _ _ _ _ _ R s p Hne) as Hv. unfold valid_price in Hv.
  apply (repr_nodup _ _ _ _ (rel_levels _ _ _ _ _ R s p ltac:(lia))).
Qed.

(** ** [addOrder] *)

Lemma activateLevel_spec b h Q Idx s p :
  book_rel b h Q Idx -> valid_price p ->
  exists b1, activateLevel b (s, p) s p = Some b1 /\
    level_repr (s, p) (level b1 s p) h (Q s p) /\
    lvl_price (level b1 s p) = p /\
    lvl_total_quantity (level b1 s p) = lvl_total_quantity (level b s p) /\
    (forall s' p', ~ (s' = s /\ p' = p) -> level b1 s' p' = level b s' p') /\
    (forall s', words_wf (bitmap b1 s')) /\
    (forall s' q, active (bitmap b1 s') q = bool_decide (s' = s /\ q = p) || active (bitmap b s') q) /\
    (forall s', best b1 s' = best b s') /\ order_index_ b1 = order_index_ b.
Proof.
  intros R Hv. unfold valid_price in Hv. unfold activateLevel.
  rewrite read_level_valid by lia. cbn [mbind option_bind].
  rewrite (rel_empty_level _ _ _ _ _ _ R) by lia.
  pose proof (rel_levels _ _ _ _ _ R s p ltac:(lia)) as [Hnd Hh Ht Hl].
  case_bool_decide as Hemp.
  - set (b0 := write_level b (s, p) _).
    destruct (setLevelActive_spec (bitmap b s) p (rel_words _ _ _ _ _ R s) ltac:(lia))
      as (bm & Hbm & Hwf & Hact).
    exists (set_bitmap b0 s bm). split.
    { destruct s; cbn in Hbm; change (bid_level_bitmap_ b0) with (bid_level_bitmap_ b);
        change (ask_level_bitmap_ b0) with (ask_level_bitmap_ b); by rewrite Hbm. }
    autorewrite with book. unfold b0. rewrite !level_write, decide_True by done.
    split; [by constructor|]. split; [done|]. split; [done|]. split.
    { intros s' p' Hne. autorewrite with book. rewrite level_write. by rewrite decide_False. }
    split.
    { intros s'. rewrite bitmap_set_bitmap. case_decide; [done|].
      unfold write_level. autorewrite with book. apply (rel_words _ _ _ _ _ R). }
    split.
    { intros s' q. rewrite bitmap_set_bitmap. case_decide as Es; [subst s'|].
      - rewrite Hact. f_equal. apply eq_true_iff_eq.
        rewrite Z.eqb_eq, bool_decide_eq_true. naive_solver.
      - unfold write_level. autorewrite with book.
        rewrite bool_decide_false; [done|naive_solver]. }
    split; [intros s'; unfold write_level; by autorewrite with book|].
    unfold write_level. by autorewrite with book.
  - exists b. split; [done|]. split; [done|]. split; [by apply (rel_price _ _ _ _ _ R)|].
    do 2 (split; [done|]). split; [apply (rel_words _ _ _ _ _ R)|]. split; [|done].
    intros s' q. case_bool_decide as E; [|done]. destruct E as [-> ->].
    rewrite (rel_active _ _ _ _ _ R). by rewrite bool_decide_true.
Qed.

Lemma improveBest_best b s p s' :
  best (improveBest b s p) s' =
  if decide (s' = s) then
    (if bool_decide (best b s = 0) || negb (bool_decide (better_eq s (best b s) p)) then p
     else best b s)
  else best b s'.
Proof.
  unfold improveBest, better_eq. destruct s; cbn [best];
    match goal with |- context [(?x =? 0)] => destruct (Z.eqb_spec x 0) end; cbn [orb];
    rewrite ?best_set_best.
  1,3: rewrite bool_decide_true by done; cbn; by destruct s'.
  - rewrite Z.gtb_ltb. destruct (Z.ltb_spec (best_bid_ b) p);
      rewrite ?best_set_best, bool_decide_false by done; cbn;
      destruct s'; cbn; case_bool_decide; (lia || done).
  - destruct (Z.ltb_spec p (best_ask_ b));
      rewrite ?best_set_best, bool_decide_false by done; cbn;
      destruct s'; cbn; case_bool_decide; (lia || done).
Qed.

Lemma improveBest_other b s p :
  (forall s' q, level (improveBest b s p) s' q = level b s' q) /\
  (forall s', bitmap (improveBest b s p) s' = bitmap b s') /\
  order_index_ (improveBest b s p) = order_index_ b.
Proof.
  unfold improveBest. destruct s; case_match; split_and!; intros; by autorewrite with book.
Qed.

(** The best price after an order joins the queue of price [p]. *)
Lemma is_best_add Q s p o x :
  is_best Q s x -> 0 < p ->
  is_best (queues_upd Q s p (Q s p ++ [o])) s
    (if bool_decide (x = 0) || negb (bool_decide (better_eq s x p)) then p else x).
Proof.
  intros Hb Hp. right.
  assert (forall q, queues_upd Q s p (Q s p ++ [o]) s q <> [] -> q = p \/ Q s q <> []) as Hinv.
  { intros q. unfold queues_upd. case_decide; naive_solver. }
  assert (queues_upd Q s p (Q s p ++ [o]) s p <> []) as Hself.
  { rewrite queues_upd_eq. by destruct (Q s p). }
  destruct Hb as [[-> Hnone]|(Hx & Hne & Hmax)].
  - rewrite bool_decide_true by done. cbn. split; [lia|]. split; [done|].
    intros q [->|Hq]%Hinv; [destruct s; cbn; lia|]. by rewrite Hnone in Hq.
  - rewrite bool_decide_false by done. cbn. case_bool_decide as Hbp; cbn.
    + split; [done|]. split.
      * unfold queues_upd. case_decide; [by destruct (Q s p)|done].
      * intros q [->|Hq]%Hinv; [done|by apply Hmax].
    + split; [lia|]. split; [done|]. intros q [->|Hq]%Hinv; [destruct s; cbn; lia|].
      specialize (Hmax q Hq). destruct s; cbn in *; lia.
Qed.

Lemma is_best_upd_other Q s p l s' x :
  s' <> s -> is_best Q s' x -> is_best (queues_upd Q s p l) s' x.
Proof.
  intros Hs Hb. unfold is_best in *. setoid_rewrite queues_upd_ne; [done|naive_solver..].
Qed.

Lemma nonempty_add Q s p o s' q :
  bool_decide (queues_upd Q s p (Q s p ++ [o]) s' q <> []) =
  bool_decide (s' = s /\ q = p) || bool_decide (Q s' q <> []).
Proof.
  unfold queues_upd. case_decide as E.
  - rewrite (bool_decide_true (s' = s /\ q = p)) by done. apply bool_decide_true.
    by destruct (Q s p).
  - by rewrite (bool_decide_false (s' = s /\ q = p)).
Qed.

(** The index after an order with a fresh id joins a queue. *)
Lemma ids_add b h Q Idx o ord s p :
  book_rel b h Q Idx -> h !! o = Some ord -> Idx !! ord_id ord = None ->
  forall id q, <[ord_id ord := Some o]> Idx !! id = Some q <->
    exists o' ord' s' p', q = Some o' /\ o' ∈ queues_upd Q s p (Q s p ++ [o]) s' p' /\
      h !! o' = Some ord' /\ ord_id ord' = id.
Proof.
  intros R Ho Hid id q. rewrite lookup_insert_Some, (rel_ids _ _ _ _ _ R). split.
  - intros [[<- <-]|[Hne (o' & ord0 & s' & p' & -> & Hin & Ho0 & <-)]].
    + exists o, ord, s, p. split; [done|]. rewrite queues_upd_eq. split; [set_solver|done].
    + exists o', ord0, s', p'. split; [done|]. split; [|done]. unfold queues_upd.
      case_decide as E; [destruct E as [-> ->]; set_solver|done].
  - intros (o' & ord0 & s' & p' & -> & Hin & Ho0 & <-). unfold queues_upd in Hin.
    assert (o' = o \/ o' ∈ Q s' p') as [->|Hin'].
    { case_decide as E; [destruct E as [-> ->]; set_solver|by right]. }
    + left. by simplify_eq.
    + right. split; [|by exists o', ord0, s', p'].
      intros E. assert (Idx !! ord_id ord = Some (Some o')) as Hsome; [|congruence].
      apply (rel_ids _ _ _ _ _ R). by exists o', ord0, s', p'.
Qed.

(** ** Replacing the queue of one price

    Both [addOrder] and [cancelOrder] change one level; this lemma rebuilds the
    relation from what happened to that level and a frame condition for the
    rest. *)
Lemma book_rel_update b h Q Idx b' h' s p l' Idx' :
  book_rel b h Q Idx -> valid_price p ->
  level_repr (s, p) (level b' s p) h' l' ->
  lvl_price (level b' s p) = p ->
  (forall s' p', ~ (s' = s /\ p' = p) -> level b' s' p' = level b s' p') ->
  same_data h h' ->
  (forall s' p' x, ~ (s' = s /\ p' = p) -> x ∈ Q s' p' -> h' !! x = h !! x) ->
  (forall x, x ∈ l' -> exists ord, h !! x = Some ord /\ ord_side ord = s /\ ord_price ord = p) ->
  (forall s', words_wf (bitmap b' s')) ->
  (forall s' q, active (bitmap b' s') q = bool_decide (queues_upd Q s p l' s' q <> [])) ->
  (forall s', is_best (queues_upd Q s p l') s' (best b' s')) ->
  represents DefaultOrderCapacity std_hash (order_index_ b') Idx' ->
  (forall id q, Idx' !! id = Some q <-> exists o ord s' p', q = Some o /\
     o ∈ queues_upd Q s p l' s' p' /\ h !! o = Some ord /\ ord_id ord = id) ->
  book_rel b' h' (queues_upd Q s p l') Idx'.
Proof.
  intros R Hv Hrepr Hprice Hlev SD Hframe Hl' Hwf Hact Hbest Hrep Hids.
  assert (forall s' p' x, x ∈ queues_upd Q s p l' s' p' ->
    exists ord, h !! x = Some ord /\ ord_side ord = s' /\ ord_price ord = p') as Hord.
  { intros s' p' x. unfold queues_upd. case_decide as E.
    - destruct E as [-> ->]. apply Hl'.
    - apply (rel_orders _ _ _ _ _ R). }
  constructor; try done.
  - intros s' q Hq. unfold queues_upd. case_decide as E; [by destruct E as [-> ->]|].
    rewrite Hlev by done. eapply level_repr_frame; [|by apply (rel_levels _ _ _ _ _ R)].
    intros x Hx. by eapply Hframe.
  - intros s' q. unfold queues_upd. case_decide as E; [by destruct E as [-> ->]|].
    apply (rel_valid _ _ _ _ _ R).
  - intros s' q x Hx. destruct (Hord _ _ _ Hx) as (ord & Ho & <- & <-).
    destruct (same_data_lookup _ _ _ _ SD Ho) as (ord' & Ho' & E). apply ord_data_inj in E.
    exists ord'. naive_solver.
  - intros s' q. unfold queues_upd. case_decide as E; [by destruct E as [-> ->]|].
    rewrite Hlev by done. apply (rel_price _ _ _ _ _ R).
  - intros id q. rewrite Hids. split; intros (o & ord & s' & p' & -> & Hin & Ho & <-).
    + destruct (same_data_lookup _ _ _ _ SD Ho) as (ord' & Ho' & E). apply ord_data_inj in E.
      exists o, ord', s', p'. naive_solver.
    + symmetry in SD. destruct (same_data_lookup _ _ _ _ SD Ho) as (ord' & Ho' & E).
      apply ord_data_inj in E. exists o, ord', s', p'. naive_solver.
Qed.

(** The steps of [addOrder], put together. *)
Lemma addOrder_eval b h o ord b1 lvl' h' ord' ok idx' :
  let s := ord_side ord in let p := ord_price ord in
  h !! o = Some ord -> valid_price p -> activateLevel b (s, p) s p = Some b1 ->
  PriceLevel_push_back (s, p) (level b1 s p) h (Some o) = Some (lvl', h') ->
  h' !! o = Some ord' -> ord_data ord' = ord_data ord ->
  let b2 := improveBest (write_level b1 (s, p) lvl') s p in
  FixedHashMap_insert DefaultOrderCapacity std_hash (order_index_ b2) (ord_id ord) (Some o) = (ok, idx') ->
  addOrder b h (Some o) = Some (set_index b2 idx', h').
Proof.
  intros s p Ho Hv Eact Epush Ho' (Hd1 & _ & Hd3 & Hd4 & _)%ord_data_inj b2 Eins.
  unfold ArrayOrderBook_addOrder. cbn [mbind option_bind]. rewrite Ho.
  cbn [mbind option_bind]. fold s p.
  unfold valid_price in Hv. rewrite getLevel_valid by (subst p; lia). cbn [mbind option_bind].
  rewrite Eact. cbn [mbind option_bind]. rewrite read_level_valid by (subst p; lia).
  cbn [mbind option_bind]. rewrite Epush. cbn [mbind option_bind]. rewrite Ho'.
  cbn [mbind option_bind]. rewrite Hd1, Hd3, Hd4. fold s p b2. by rewrite Eins.
Qed.

(** The best prices after an order was added at [p]. *)
Lemma best_after_add b b2 h Q Idx s p o :
  book_rel b h Q Idx -> valid_price p -> (forall x, best b2 x = best b x) ->
  forall s', is_best (queues_upd Q s p (Q s p ++ [o])) s' (best (improveBest b2 s p) s').
Proof.
  intros R Hv Hb2 s'. rewrite improveBest_best, !Hb2. case_decide as E.
  - subst s'. apply is_best_add; [apply (rel_best _ _ _ _ _ R)|unfold valid_price in Hv; lia].
  - apply is_best_upd_other; [done|apply (rel_best _ _ _ _ _ R)].
Qed.

Lemma addOrder_spec b h Q Idx o ord :
  book_rel b h Q Idx -> h !! o = Some ord -> valid_price (ord_price ord) ->
  (forall s p, o ∉ Q s p) -> Idx !! ord_id ord = None ->
  Z.of_nat (size Idx) < DefaultOrderCapacity ->
  let s := ord_side ord in let p := ord_price ord in
  exists b' h', addOrder b h (Some o) = Some (b', h') /\
    book_rel b' h' (queues_upd Q s p (Q s p ++ [o])) (<[ord_id ord := Some o]> Idx) /\
    same_data h h' /\
    lvl_total_quantity (level b' s p) = u32 (lvl_total_quantity (level b s p) + ord_quantity ord) /\
    (forall s' p', ~ (s' = s /\ p' = p) -> level b' s' p' = level b s' p') /\
    (forall x, x ∉ Q s p -> x <> o -> h' !! x = h !! x).
Proof.
  intros R Ho Hv Hfresh Hid Hroom s p.
  destruct (activateLevel_spec b h Q Idx s p R Hv)
    as (b1 & Eact & Hrepr & Hprice & Htot & Hlev & Hwf & Hactive & Hbest & Hidx).
  destruct (push_back_spec _ _ _ _ o ord Hrepr Ho (Hfresh s p))
    as (lvl' & h' & Epush & Hrepr' & SD & Hprice' & Htot' & Hframe).
  set (b2 := write_level b1 (s, p) lvl').
  destruct (improveBest_other b2 s p) as (Hlev3 & Hbm3 & Hidx3).
  assert (order_index_ b2 = order_index_ b) as Hidx2.
  { unfold b2, write_level. by autorewrite with book. }
  destruct (insert_represents _ std_hash capacity_pos capacity_u64 (order_index_ (improveBest b2 s p))
    Idx (ord_id ord) (Some o)) as [(idx' & Eins & Hrep & _)|(_ & _ & Hfull)];
    [rewrite Hidx3, Hidx2; apply (rel_index _ _ _ _ _ R)| |unfold DefaultOrderCapacity in *; lia].
  destruct (same_data_lookup _ _ _ _ SD Ho) as (ord' & Ho' & Hd).
  exists (set_index (improveBest b2 s p) idx'), h'. split; [by eapply addOrder_eval|].
  assert (forall s' q, level (set_index (improveBest b2 s p) idx') s' q =
            if decide (s' = s /\ q = p) then lvl' else level b1 s' q) as Hlevel.
  { intros s' q. rewrite level_set_index, Hlev3. unfold b2. by rewrite level_write. }
  split; [|split; [done|split; [|split; [|done]]]].
  - eapply book_rel_update; [exact R|done|..].
    + by rewrite Hlevel, decide_True.
    + rewrite Hlevel, decide_True by done. by rewrite Hprice'.
    + intros s' q Hne. rewrite Hlevel, decide_False by done. by apply Hlev.
    + done.
    + intros s' q x Hne Hx. apply Hframe.
      * intros Hx'. apply Hne. by eapply rel_same_queue.
      * intros ->. by apply (Hfresh s' q).
    + intros x [Hx|Hx]%elem_of_app.
      * by apply (rel_orders _ _ _ _ _ R).
      * assert (x = o) as -> by set_solver. by exists ord.
    + intros s'. rewrite bitmap_set_index, Hbm3.
      unfold b2, write_level. autorewrite with book. apply Hwf.
    + intros s' q. rewrite bitmap_set_index, Hbm3.
      unfold b2, write_level. autorewrite with book.
      rewrite Hactive, (rel_active _ _ _ _ _ R). symmetry. apply nonempty_add.
    + intros s'. rewrite best_set_index. eapply best_after_add; [exact R|done|].
      intros x. unfold b2, write_level. autorewrite with book. apply Hbest.
    + done.
    + by eapply ids_add.
  - rewrite Hlevel, decide_True by done. by rewrite Htot', Htot.
  - intros s' q Hne. rewrite Hlevel, decide_False by done. by apply Hlev.
Qed.


(** ** [cancelOrder] *)

(** The best bid after the best level was emptied, from the downward search. *)
Lemma is_best_refresh_bid Q bm p r :
  is_best Q Buy p -> p <> 0 -> (forall q, Q Buy q <> [] -> valid_price q) ->
  (forall q, active bm q = bool_decide (queues_upd Q Buy p [] Buy q <> [])) ->
  best_below bm p r -> is_best (queues_upd Q Buy p []) Buy r.
Proof.
  intros Hb Hp Hvalid Hact (H1 & H2 & H3). destruct Hb as [[? _]|(_ & _ & Hmax)]; [done|].
  assert (forall q, queues_upd Q Buy p [] Buy q <> [] -> q <= r /\ 0 < q) as Hle.
  { intros q Hq. assert (Q Buy q <> [] /\ q <> p) as [Hq' Hne].
    { unfold queues_upd in Hq. case_decide; naive_solver. }
    specialize (Hmax q Hq'). cbn in Hmax. pose proof (Hvalid q Hq') as Hv. unfold valid_price in Hv.
    split; [|lia]. destruct (Z.le_gt_cases q r); [done|].
    assert (active bm q = false) as Hf by (apply H3; lia).
    rewrite Hact in Hf. by apply bool_decide_eq_false in Hf. }
  destruct (Z.eq_dec r 0) as [->|Hr].
  - left. split; [done|]. intros q. destruct (decide (queues_upd Q Buy p [] Buy q = [])) as [|Hq];
      [done|]. apply Hle in Hq. lia.
  - right. destruct (H2 Hr) as [_ Ha]. rewrite Hact in Ha. apply bool_decide_eq_true in Ha.
    split; [done|]. split; [done|]. intros q Hq. cbn. by apply Hle.
Qed.

Lemma is_best_refresh_ask Q bm p r :
  is_best Q Sell p -> p <> 0 -> (forall q, Q Sell q <> [] -> valid_price q) ->
  (forall q, active bm q = bool_decide (queues_upd Q Sell p [] Sell q <> [])) ->
  best_above bm p r -> is_best (queues_upd Q Sell p []) Sell r.
Proof.
  intros Hb Hp Hvalid Hact (H1 & H2 & H3). destruct Hb as [[? _]|(_ & _ & Hmin)]; [done|].
  assert (forall q, queues_upd Q Sell p [] Sell q <> [] ->
            p < q < BitmapWordCount * 64 /\ active bm q = true) as Hgt.
  { intros q Hq. rewrite Hact, bool_decide_true by done. split; [|done].
    assert (Q Sell q <> [] /\ q <> p) as [Hq' Hne].
    { unfold queues_upd in Hq. case_decide; naive_solver. }
    specialize (Hmin q Hq'). cbn in Hmin. pose proof (Hvalid q Hq') as Hv.
    unfold valid_price, MaxPriceLevels in Hv. change BitmapWordCount with 1563. lia. }
  destruct (Z.eqb_spec r 0) as [->|Hr].
  - left. split; [done|]. intros q.
    destruct (decide (queues_upd Q Sell p [] Sell q = [])) as [|Hq]; [done|].
    apply Hgt in Hq as [? Ha]. rewrite H3 in Ha; done.
  - right. destruct (H1 Hr) as [_ Ha]. rewrite Hact in Ha. apply bool_decide_eq_true in Ha.
    split; [done|]. split; [done|]. intros q Hq. cbn.
    apply Hgt in Hq as [? Haq]. destruct (Z.le_gt_cases r q); [done|].
    rewrite H3 in Haq; [done|lia].
Qed.

(** Emptying a level that is not the best one. *)
Lemma is_best_upd_empty Q s p x : is_best Q s x -> x <> p -> Q s p <> [] ->
  is_best (queues_upd Q s p []) s x.
Proof.
  intros Hb Hx Hp. destruct Hb as [[_ Hnone]|(H1 & H2 & H3)]; [by rewrite Hnone in Hp|].
  right. split; [done|]. split; [rewrite queues_upd_ne; naive_solver|].
  intros q Hq. apply H3. unfold queues_upd in Hq. case_decide; naive_solver.
Qed.

Lemma nonempty_clear Q s p s' q :
  bool_decide (queues_upd Q s p [] s' q <> []) =
  negb (bool_decide (s' = s /\ q = p)) && bool_decide (Q s' q <> []).
Proof.
  unfold queues_upd. case_decide as E.
  - by rewrite (bool_decide_true (s' = s /\ q = p)).
  - by rewrite (bool_decide_false (s' = s /\ q = p)).
Qed.

(** Clearing the bit of an emptied level, on either side. *)
Lemma clear_bitmap_spec b Q s p :
  (forall s', words_wf (bitmap b s')) ->
  (forall s' q, active (bitmap b s') q = bool_decide (Q s' q <> [])) -> valid_price p ->
  exists bm, clearLevelActive (bitmap b s) p = Some bm /\
    (forall s', words_wf (bitmap (set_bitmap b s bm) s')) /\
    (forall s' q, active (bitmap (set_bitmap b s bm) s') q =
       bool_decide (queues_upd Q s p [] s' q <> [])).
Proof.
  intros Hwf Hact Hv. unfold valid_price in Hv.
  destruct (clearLevelActive_spec (bitmap b s) p (Hwf s) ltac:(lia)) as (bm & E & Hwf' & Hact').
  exists bm. split; [done|]. split.
  - intros s'. rewrite bitmap_set_bitmap. by case_decide.
  - intros s' q. rewrite bitmap_set_bitmap, nonempty_clear. case_decide as Es; [subst s'|].
    + rewrite Hact', Hact. do 2 f_equal. apply eq_true_iff_eq.
      rewrite Z.eqb_eq, bool_decide_eq_true. naive_solver.
    + rewrite (bool_decide_false (s' = s /\ q = p)) by naive_solver. apply Hact.
Qed.

Lemma deactivateLevel_spec b Q s p :
  (forall s', words_wf (bitmap b s')) ->
  (forall s' q, active (bitmap b s') q = bool_decide (Q s' q <> [])) ->
  (forall s', is_best Q s' (best b s')) -> (forall s' q, Q s' q <> [] -> valid_price q) ->
  Q s p <> [] ->
  exists b', deactivateLevel b s p = Some b' /\
    (forall s' q, level b' s' q = level b s' q) /\ order_index_ b' = order_index_ b /\
    (forall s', words_wf (bitmap b' s')) /\
    (forall s' q, active (bitmap b' s') q = bool_decide (queues_upd Q s p [] s' q <> [])) /\
    (forall s', is_best (queues_upd Q s p []) s' (best b' s')).
Proof.
  intros Hwf Hact Hbest Hvalid Hne. pose proof (Hvalid s p Hne) as Hv.
  destruct (clear_bitmap_spec b Q s p Hwf Hact Hv) as (bm & Ebm & Hwf1 & Hact1).
  set (b1 := set_bitmap b s bm) in *.
  assert (forall s', best b1 s' = best b s') as Hb1
    by (intros; unfold b1; by autorewrite with book).
  assert (exists r, (best b s = p -> match s with Buy => refreshBestBid | Sell => refreshBestAsk end
             (bitmap b1 s) (best b s) = Some r /\ is_best (queues_upd Q s p []) s r)) as (r & Hr).
  { unfold valid_price in Hv. destruct s.
    - destruct (refreshBestBid_spec (bitmap b1 Buy) p (Hwf1 Buy) Hv) as (r & Er & Hr).
      exists r. intros E. rewrite E. split; [done|].
      eapply is_best_refresh_bid; [rewrite <- E; apply Hbest|lia|apply Hvalid|apply Hact1|done].
    - destruct (refreshBestAsk_spec (bitmap b1 Sell) p (Hwf1 Sell) Hv) as (r & Er & Hr).
      exists r. intros E. rewrite E. split; [done|].
      eapply is_best_refresh_ask; [rewrite <- E; apply Hbest|lia|apply Hvalid|apply Hact1|done]. }
  exists (if decide (best b s = p) then set_best b1 s r else b1). split.
  { unfold deactivateLevel. destruct s; cbn [bitmap best] in *; rewrite Ebm; cbn [mbind option_bind];
      fold b1; [rewrite (bool_decide_true (Buy = Buy)), (bool_decide_false (Buy = Sell)) by done|
      rewrite (bool_decide_false (Sell = Buy)), (bool_decide_true (Sell = Sell)) by done];
      cbn [andb mbind option_bind];
      [change (best_bid_ b1) with (best_bid_ b)|change (best_ask_ b1) with (best_ask_ b)];
      case_decide as E; [rewrite <- E, Z.eqb_refl|rewrite (proj2 (Z.eqb_neq _ _)) by congruence| |];
      [|done|rewrite <- E, Z.eqb_refl|rewrite (proj2 (Z.eqb_neq _ _)) by congruence; done];
      destruct (Hr E) as [-> _]; done. }
  case_decide as E.
  - split; [intros; unfold b1; by autorewrite with book|].
    split; [unfold b1; by autorewrite with book|].
    do 2 (split; [intros; by rewrite bitmap_set_best|]).
    intros s'. rewrite best_set_best. case_decide as Es; [subst s'; by apply Hr|].
    rewrite Hb1. by apply is_best_upd_other.
  - split; [intros; unfold b1; by autorewrite with book|].
    split; [unfold b1; by autorewrite with book|]. do 2 (split; [done|]).
    intros s'. rewrite Hb1. destruct (decide (s' = s)) as [->|Hs].
    + by apply is_best_upd_empty.
    + by apply is_best_upd_other.
Qed.


(** The index entry of an id is the resting order with that id. *)
Lemma rel_index_entry b h Q Idx id o :
  book_rel b h Q Idx -> Idx !! id = Some (Some o) ->
  exists ord, h !! o = Some ord /\ ord_id ord = id /\ o ∈ Q (ord_side ord) (ord_price ord).
Proof.
  intros R (o' & ord & s & p & [= <-] & Hin & Ho & Hid)%(rel_ids _ _ _ _ _ R).
  destruct (rel_orders _ _ _ _ _ R _ _ _ Hin) as (ord' & Ho' & <- & <-). simplify_eq.
  by exists ord.
Qed.

(** The index after the order [id] leaves its queue. *)
Lemma ids_remove b h Q Idx id o ord s p l1 l2 :
  book_rel b h Q Idx -> Idx !! id = Some (Some o) -> h !! o = Some ord -> Q s p = l1 ++ o :: l2 ->
  forall id' q, delete id Idx !! id' = Some q <->
    exists o' ord' s' p', q = Some o' /\ o' ∈ queues_upd Q s p (l1 ++ l2) s' p' /\
      h !! o' = Some ord' /\ ord_id ord' = id'.
Proof.
  intros R Hid Ho HQ id' q. rewrite lookup_delete_Some, (rel_ids _ _ _ _ _ R).
  destruct (rel_index_entry _ _ _ _ _ _ R Hid) as (ord0 & Ho0 & Hid0 & Hin0). simplify_eq.
  pose proof (rel_nodup _ _ _ _ s p R) as Hnd. rewrite HQ in Hnd.
  destruct (nodup_middle _ _ _ Hnd) as (_ & Hn1 & Hn2 & _).
  split.
  - intros [Hne (o' & ord' & s' & p' & -> & Hin & Ho' & <-)].
    exists o', ord', s', p'. split; [done|]. split; [|done]. unfold queues_upd.
    case_decide as E; [|done]. destruct E as [-> ->]. rewrite HQ in Hin.
    assert (o' <> o) by (intros ->; congruence). set_solver.
  - intros (o' & ord' & s' & p' & -> & Hin & Ho' & <-).
    assert (o' ∈ Q s' p' /\ o' <> o) as [Hin' Hne].
    { unfold queues_upd in Hin. case_decide as E.
      - destruct E as [-> ->]. rewrite HQ. split; [set_solver|]. intros ->. set_solver.
      - split; [done|]. intros ->. apply E.
        eapply (rel_same_queue _ _ _ _ o s p); [done| |done]. rewrite HQ. set_solver. }
    split; [|by exists o', ord', s', p']. intros E.
    assert (Idx !! ord_id ord = Some (Some o')); [|congruence].
    apply (rel_ids _ _ _ _ _ R). by exists o', ord', s', p'.
Qed.

(** What [deactivateLevel] or leaving the level alone establishes. *)
Lemma cancel_level_spec b h Q Idx s p l' lvl' :
  book_rel b h Q Idx -> Q s p <> [] -> lvl_head lvl' = head l' ->
  let b1 := write_level b (s, p) lvl' in
  exists b', (if PriceLevel_empty lvl' then deactivateLevel b1 s p else Some b1) = Some b' /\
    (forall s' q, level b' s' q = level b1 s' q) /\ order_index_ b' = order_index_ b /\
    (forall s', words_wf (bitmap b' s')) /\
    (forall s' q, active (bitmap b' s') q = bool_decide (queues_upd Q s p l' s' q <> [])) /\
    (forall s', is_best (queues_upd Q s p l') s' (best b' s')).
Proof.
  intros R HQ Hh b1.
  assert (forall s', bitmap b1 s' = bitmap b s') as Ebm
    by (intros; unfold b1, write_level; by autorewrite with book).
  assert (forall s', best b1 s' = best b s') as Ebe
    by (intros; unfold b1, write_level; by autorewrite with book).
  assert (order_index_ b1 = order_index_ b) as Eix
    by (unfold b1, write_level; by autorewrite with book).
  unfold PriceLevel_empty. rewrite Hh. case_bool_decide as E.
  - apply head_None in E as ->.
    destruct (deactivateLevel_spec b1 Q s p) as (b' & E' & H1 & H2 & H3 & H4 & H5).
    + intros. rewrite Ebm. apply (rel_words _ _ _ _ _ R).
    + intros. rewrite Ebm. apply (rel_active _ _ _ _ _ R).
    + intros. rewrite Ebe. apply (rel_best _ _ _ _ _ R).
    + apply (rel_valid _ _ _ _ _ R).
    + done.
    + exists b'. rewrite H2, Eix. done.
  - assert (forall s' q, queues_upd Q s p l' s' q <> [] <-> Q s' q <> []) as Hiff.
    { intros s' q. unfold queues_upd. case_decide as E'; [|done]. destruct E' as [-> ->].
      split; [done|]. intros _ ->. done. }
    exists b1. split; [done|]. split; [done|]. split; [done|].
    split; [intros; rewrite Ebm; apply (rel_words _ _ _ _ _ R)|]. split.
    + intros. rewrite Ebm, (rel_active _ _ _ _ _ R). by apply bool_decide_ext.
    + intros s'. rewrite Ebe. destruct (rel_best _ _ _ _ _ R s') as [[-> Hnone]|(H1 & H2 & H3)].
      * left. split; [done|]. intros q.
        destruct (decide (queues_upd Q s p l' s' q = [])) as [|Hq]; [done|].
        apply Hiff in Hq. by rewrite Hnone in Hq.
      * right. split; [done|]. split; [by apply Hiff|]. intros q Hq. apply H3. by apply Hiff.
Qed.

Lemma cancelOrder_spec b h Q Idx id o ord l1 l2 :
  book_rel b h Q Idx -> Idx !! id = Some (Some o) -> h !! o = Some ord ->
  let s := ord_side ord in let p := ord_price ord in
  Q s p = l1 ++ o :: l2 ->
  exists b' h', cancelOrder b h id = Some (Some o, b', h') /\
    book_rel b' h' (queues_upd Q s p (l1 ++ l2)) (delete id Idx) /\
    same_data h h' /\
    lvl_total_quantity (level b' s p) = u32 (lvl_total_quantity (level b s p) - ord_quantity ord) /\
    (forall s' p', ~ (s' = s /\ p' = p) -> level b' s' p' = level b s' p') /\
    h' !! o = Some (set_links None None None ord) /\
    (forall x, x ∉ Q s p -> h' !! x = h !! x).
Proof.
  intros R Hid Ho s p HQ.
  assert (Q s p <> []) as HQne by (rewrite HQ; by destruct l1).
  pose proof (rel_valid _ _ _ _ _ R s p HQne) as Hv. unfold valid_price in Hv.
  pose proof (rel_levels _ _ _ _ _ R s p ltac:(lia)) as Hrepr. rewrite HQ in Hrepr.
  destruct (repr_linked _ _ _ _ Hrepr l1 o l2 eq_refl) as (ord0 & Ho0 & Hlvl & _ & _). simplify_eq.
  destruct (remove_spec _ _ _ _ _ _ _ Hrepr Ho)
    as (lvl' & h' & Erem & Hrepr' & SD & Hprice & Htot & Ho' & Hframe).
  destruct (cancel_level_spec b h Q Idx s p (l1 ++ l2) lvl' R HQne (repr_head _ _ _ _ Hrepr'))
    as (b2 & Ede & Hlev2 & Hix2 & Hwf2 & Hact2 & Hbest2).
  destruct (erase_represents _ std_hash capacity_pos capacity_u64 (order_index_ b2) Idx id)
    as (idx' & Eer & Hrep'); [rewrite Hix2; apply (rel_index _ _ _ _ _ R)|].
  assert (forall s' q, level (set_index b2 idx') s' q =
            if decide (s' = s /\ q = p) then lvl' else level b s' q) as Hlevel.
  { intros s' q. rewrite level_set_index, Hlev2. apply level_write. }
  exists (set_index b2 idx'), h'. split.
  { unfold ArrayOrderBook_cancelOrder. rewrite (rel_find _ _ _ _ _ R), Hid.
    cbn [mbind option_bind]. rewrite Ho. cbn [mbind option_bind]. rewrite Hlvl.
    cbn [mbind option_bind]. rewrite read_level_valid by lia. cbn [mbind option_bind].
    rewrite Erem. cbn [mbind option_bind]. rewrite Ho'. cbn [mbind option_bind].
    change (ord_side (set_links None None None ord)) with s.
    change (ord_price (set_links None None None ord)) with p.
    rewrite Ede. cbn [mbind option_bind]. by rewrite Eer. }
  split; [|split; [done|split; [|split; [|split; [done|]]]]].
  - eapply book_rel_update; [exact R|done|..].
    + by rewrite Hlevel, decide_True.
    + rewrite Hlevel, decide_True, Hprice by done. by apply (rel_price _ _ _ _ _ R).
    + intros s' q Hne. by rewrite Hlevel, decide_False.
    + done.
    + intros s' q x Hne Hx. apply Hframe. rewrite <- HQ. intros Hx'. apply Hne.
      by eapply rel_same_queue.
    + intros x Hx. apply (rel_orders _ _ _ _ _ R). rewrite HQ. set_solver.
    + intros s'. rewrite bitmap_set_index. apply Hwf2.
    + intros s' q. rewrite bitmap_set_index. apply Hact2.
    + intros s'. rewrite best_set_index. apply Hbest2.
    + done.
    + by eapply ids_remove.
  - by rewrite Hlevel, decide_True.
  - intros s' q Hne. by rewrite Hlevel, decide_False.
  - intros x Hx. apply Hframe. by rewrite <- HQ.
Qed.

Lemma cancelOrder_absent b h Q Idx id :
  book_rel b h Q Idx -> Idx !! id = None -> cancelOrder b h id = Some (None, b, h).
Proof. intros R Hid. unfold ArrayOrderBook_cancelOrder. by rewrite (rel_find _ _ _ _ _ R), Hid. Qed.

(** ** Changes of the store that the relation allows *)

Lemma book_rel_new h : book_rel ArrayOrderBook_new h (fun _ _ => []) ∅.
Proof.
  constructor.
  - intros s p _. unfold level. destruct s; cbn; rewrite arr_get_empty; apply level_repr_default.
  - done.
  - intros s p o Ho. by apply elem_of_nil in Ho.
  - done.
  - intros s i. destruct s; cbn; rewrite arr_get_empty; lia.
  - intros s p. rewrite bool_decide_false by naive_solver. unfold active.
    destruct s; cbn; rewrite arr_get_empty; apply Z.testbit_0_l.
  - intros s. left. by destruct s.
  - apply new_represents.
  - intros id q. rewrite lookup_empty. split; [done|].
    intros (o & ord & s & p & _ & Ho & _). by apply elem_of_nil in Ho.
Qed.

(** The relation sees the queues pointwise. *)
#[export] Instance book_rel_proper b h :
  Proper (pointwise_relation Side (pointwise_relation Z eq) ==> eq ==> iff) (book_rel b h).
Proof.
  assert (forall Q Q' Idx, (forall s p, Q s p = Q' s p) -> book_rel b h Q Idx -> book_rel b h Q' Idx)
    as Himp.
  { intros Q Q' Idx E [H1 H2 H3 H4 H5 H6 H7 H8 H9].
    constructor; [| | | |exact H5| | |exact H8|]; intros *; rewrite <- ?E.
    - apply H1.
    - apply H2.
    - apply H3.
    - apply H4.
    - apply H6.
    - unfold is_best. destruct (H7 s) as [[Hx Hn]|(Hx & Hn & Hm)]; [left|right]; rewrite <- ?E.
      + split; [done|]. intros q. by rewrite <- E.
      + split; [done|]. split; [done|]. intros q. rewrite <- E. apply Hm.
    - rewrite H9. by setoid_rewrite E. }
  intros Q Q' E Idx ? <-. split; apply Himp; intros s p; [|symmetry]; apply E.
Qed.

Lemma book_rel_ext b h Q Q' Idx :
  (forall s p, Q s p = Q' s p) -> book_rel b h Q' Idx -> book_rel b h Q Idx.
Proof. intros E. by apply book_rel_proper. Qed.

(** Orders that do not rest may change at will. *)
Lemma book_rel_frame b h h' Q Idx :
  (forall s p x, x ∈ Q s p -> h' !! x = h !! x) -> book_rel b h Q Idx -> book_rel b h' Q Idx.
Proof.
  intros F [H1 H2 H3 H4 H5 H6 H7 H8 H9]. constructor; try done.
  - intros s p Hp. eapply level_repr_frame; [by apply F|by apply H1].
  - intros s p o Ho. rewrite (F s p) by done. by apply H3.
  - intros id q. rewrite H9. split; intros (o & ord & s & p & ? & Hin & Ho & ?);
      exists o, ord, s, p; [rewrite (F s p)|rewrite <- (F s p)]; done.
Qed.

(** The quantity of an order may change, resting or not. *)
Lemma book_rel_set_quantity b h Q Idx o ord q :
  h !! o = Some ord -> book_rel b h Q Idx -> book_rel b (<[o := set_quantity q ord]> h) Q Idx.
Proof.
  intros Ho [H1 H2 H3 H4 H5 H6 H7 H8 H9].
  assert (forall x, exists f : Order -> Order, <[o := set_quantity q ord]> h !! x = f <$> h !! x /\
    forall y, ord_side (f y) = ord_side y /\ ord_price (f y) = ord_price y /\ ord_id (f y) = ord_id y)
    as Hx.
  { intros x. rewrite lookup_insert. case_decide; [subst|].
    - exists (set_quantity q). by rewrite Ho.
    - exists id. by destruct (h !! x). }
  constructor; try done.
  - intros s p Hp. eapply level_repr_insert_same; [done..|by apply H1].
  - intros s p x Hin. destruct (H3 _ _ _ Hin) as (xord & E & <- & <-).
    destruct (Hx x) as (f & -> & Hf). rewrite E. cbn. exists (f xord). split; [done|]. by split; apply Hf.
  - intros i r. rewrite H9. split; intros (x & xord & s & p & -> & Hin & E & <-).
    + destruct (Hx x) as (f & E' & Hf). rewrite E in E'. exists x, (f xord), s, p.
      rewrite E'. split_and!; [done..|apply Hf].
    + destruct (Hx x) as (f & E' & Hf). rewrite E in E'. symmetry in E'.
      apply fmap_Some in E' as (y & Hy & ->). exists x, y, s, p. split_and!; [done..|].
      symmetry. apply Hf.
Qed.

(** The total of a level does not matter to the relation. *)
Lemma book_rel_set_total b h Q Idx s p t :
  book_rel b h Q Idx ->
  book_rel (write_level b (s, p)
    (mkPriceLevel (lvl_price (level b s p)) (lvl_head (level b s p)) (lvl_tail (level b s p)) t))
    h Q Idx.
Proof.
  intros [H1 H2 H3 H4 H5 H6 H7 H8 H9].
  constructor; try done.
  - intros s' p' Hp'. rewrite level_write. case_decide as E; [|by apply H1].
    destruct E as [-> ->]. destruct (H1 s p Hp'). by constructor.
  - intros s' p' Hne. rewrite level_write. case_decide as E; [|by apply H4].
    destruct E as [-> ->]. by apply H4.
  - intros s'. unfold write_level. autorewrite with book. apply H5.
  - intros s' p'. unfold write_level. autorewrite with book. apply H6.
  - intros s'. unfold write_level. autorewrite with book. apply H7.
  - unfold write_level. by autorewrite with book.
Qed.


End order_book_proofs.
