(* ===== verification/BookStore.v ===== *)
(** * Books that share their orders with a pool

    Both clients of the order book, [MatchingEngine] and [MarketDataBookConsumer],
    keep their orders in an [OrderPool] and let the book link them.  [store_rel]
    is the relation the two clients share: the resting orders, oldest first, are
    a list [L] of addresses; the queue of each side and price is the sublist of
    the orders with that side and price; exactly the resting orders and the
    orders a client currently holds are acquired from the pool.

    The abstract book is the list of the resting orders' contents, [abs h L].
    The lemmas say how each step of a client acts on it. *)

From S2P Require Import Prelude Types FixedHashMap OrderPool PriceLevel Bitmap OrderBook.
From S2P Require Import OrderBookProofs.

(** ** Contents of an order *)

Record LimitOrder : Type := mkLimit {
  lo_id : OrderId;
  lo_account : AccountId;
  lo_side : Side;
  lo_price : Price;
  lo_quantity : Quantity
}.

#[global] Instance LimitOrder_eq_dec : EqDecision LimitOrder.
Proof. solve_decision. Defined.

Definition view (o : Order) : LimitOrder :=
  mkLimit (ord_id o) (ord_account_id o) (ord_side o) (ord_price o) (ord_quantity o).

Definition view_of (h : heap) (o : loc) : LimitOrder := view (default Order_init (h !! o)).

(** The abstract book: the resting orders, oldest first. *)
Definition abs (h : heap) (L : list loc) : list LimitOrder := view_of h <$> L.

Definition in_queue (s : Side) (p : Price) (x : LimitOrder) : Prop := lo_side x = s /\ lo_price x = p.

#[global] Instance in_queue_dec s p x : Decision (in_queue s p x).
Proof. unfold in_queue. apply _. Defined.

Definition queue_of (h : heap) (L : list loc) : queues :=
  fun s p => filter (fun o => in_queue s p (view_of h o)) L.

Lemma view_of_lookup h o ord : h !! o = Some ord -> view_of h o = view ord.
Proof. intros H. unfold view_of. by rewrite H. Qed.

Lemma view_data o o' : view o = view o' <-> ord_data o = ord_data o'.
Proof.
  unfold view. rewrite ord_data_inj. split; [by intros [= -> -> -> -> ->]|].
  by intros (-> & -> & -> & -> & ->).
Qed.

Lemma view_of_same_data h h' o : same_data h h' -> view_of h' o = view_of h o.
Proof.
  intros SD. specialize (SD o). unfold view_of.
  destruct (h !! o) as [x|], (h' !! o) as [y|]; cbn in *; try done.
  apply view_data. congruence.
Qed.

Lemma abs_same_data h h' L : same_data h h' -> abs h' L = abs h L.
Proof. intros SD. apply list_fmap_ext. intros i o _. by apply view_of_same_data. Qed.

(** A change of the heap that keeps the side and price of the orders of [L]. *)
Lemma queue_of_ext h h' L s p :
  (forall o, o ∈ L -> lo_side (view_of h' o) = lo_side (view_of h o) /\
                      lo_price (view_of h' o) = lo_price (view_of h o)) ->
  queue_of h' L s p = queue_of h L s p.
Proof.
  intros H. apply filter_ext_all. intros o Ho. unfold in_queue. by destruct (H o Ho) as [-> ->].
Qed.

Lemma queue_of_same_data h h' L s p : same_data h h' -> queue_of h' L s p = queue_of h L s p.
Proof. intros SD. apply queue_of_ext. intros o _. by rewrite (view_of_same_data _ _ _ SD). Qed.

Lemma elem_of_queue h L s p o : o ∈ queue_of h L s p <-> o ∈ L /\ in_queue s p (view_of h o).
Proof. unfold queue_of. rewrite list_elem_of_filter. tauto. Qed.

Lemma queue_of_snoc h L o s p :
  queue_of h (L ++ [o]) s p =
  queues_upd (queue_of h L) (lo_side (view_of h o)) (lo_price (view_of h o))
    (queue_of h L (lo_side (view_of h o)) (lo_price (view_of h o)) ++ [o]) s p.
Proof.
  unfold queues_upd. unfold queue_of at 1. rewrite filter_app, filter_cons, filter_nil.
  unfold in_queue at 2. repeat case_decide; try naive_solver.
  by rewrite app_nil_r.
Qed.

Lemma queue_of_split h L1 o L2 s p :
  lo_side (view_of h o) = s -> lo_price (view_of h o) = p ->
  queue_of h (L1 ++ o :: L2) s p = queue_of h L1 s p ++ o :: queue_of h L2 s p.
Proof.
  intros Hs Hp. unfold queue_of. rewrite filter_app, filter_cons. by rewrite decide_True.
Qed.

Lemma queue_of_remove h L1 o L2 s p :
  queue_of h (L1 ++ L2) s p =
  queues_upd (queue_of h (L1 ++ o :: L2)) (lo_side (view_of h o)) (lo_price (view_of h o))
    (queue_of h L1 (lo_side (view_of h o)) (lo_price (view_of h o)) ++
     queue_of h L2 (lo_side (view_of h o)) (lo_price (view_of h o))) s p.
Proof.
  unfold queues_upd. case_decide as E.
  - destruct E as [-> ->]. apply filter_app.
  - unfold queue_of. rewrite !filter_app, filter_cons, decide_False; [done|].
    unfold in_queue. naive_solver.
Qed.

(** ** Operations of the abstract book *)

Definition lo_set_quantity (q : Quantity) (x : LimitOrder) : LimitOrder :=
  mkLimit (lo_id x) (lo_account x) (lo_side x) (lo_price x) q.

Definition spec_find (id : OrderId) (A : list LimitOrder) : option LimitOrder :=
  List.find (fun x => lo_id x =? id) A.

Definition spec_delete (id : OrderId) (A : list LimitOrder) : list LimitOrder :=
  filter (fun x => lo_id x <> id) A.

Definition spec_set_quantity (id : OrderId) (q : Quantity) (A : list LimitOrder)
    : list LimitOrder :=
  (fun x => if lo_id x =? id then lo_set_quantity q x else x) <$> A.

(** Take [q] off an order; the order leaves when nothing is left of it. *)
Definition spec_reduce (id : OrderId) (q : Quantity) (A : list LimitOrder) : list LimitOrder :=
  match spec_find id A with
  | None => A
  | Some x =>
      if (q =? 0) || (q >? lo_quantity x) then A
      else if q =? lo_quantity x then spec_delete id A
      else spec_set_quantity id (lo_quantity x - q) A
  end.

(** The new order keeps the side and account and goes to the end of its queue. *)
Definition spec_replace (oid nid : OrderId) (q : Quantity) (p : Price) (A : list LimitOrder)
    : list LimitOrder :=
  if (nid =? 0) || (q =? 0) || (nid =? oid) then A
  else match spec_find nid A, spec_find oid A with
       | None, Some x => spec_delete oid A ++ [mkLimit nid (lo_account x) (lo_side x) p q]
       | _, _ => A
       end.

(** The best price of a side, 0 when the side is empty. *)
Definition spec_best (s : Side) (A : list LimitOrder) : Price :=
  let prices := lo_price <$> filter (fun x => lo_side x = s) A in
  match s with
  | Buy => foldr Z.max 0 prices
  | Sell => match prices with [] => 0 | p :: prices => foldr Z.min p prices end
  end.

(** The orders met when following [next] from a pointer. *)
Fixpoint follow (fuel : nat) (h : heap) (q : ptr) : option (list loc) :=
  match q with
  | None => Some []
  | Some o =>
      match fuel with
      | O => None
      | S fuel => ord ← h !! o; l ← follow fuel h (ord_next ord); Some (o :: l)
      end
  end.

(** What a client can see of a book: the best prices, the list linked from each
    level and the order the index gives for an id.  The orders of [A] have prices inside
    the level arrays and different ids, so that the book determines them ([shows_unique]). *)
Record shows (std_hash : Z -> Z) (b : ArrayOrderBook) (h : heap) (A : list LimitOrder) : Prop := {
  shows_bid : best_bid_ b = spec_best Buy A;
  shows_ask : best_ask_ b = spec_best Sell A;
  shows_level : forall s p, valid_price p ->
    exists l, follow (Z.to_nat DefaultOrderCapacity) h (PriceLevel_front (level b s p)) = Some l /\
      view_of h <$> l = filter (in_queue s p) A;
  shows_id : forall id,
    spec_find id A = match index_find std_hash b id with
                     | Some (Some o) => view <$> h !! o
                     | _ => None
                     end;
  shows_prices : Forall (fun x => valid_price (lo_price x)) A;
  shows_ids : NoDup (lo_id <$> A)
}.

Lemma spec_find_app id A1 x A2 :
  (forall y, y ∈ A1 -> lo_id y <> id) -> lo_id x = id -> spec_find id (A1 ++ x :: A2) = Some x.
Proof.
  intros H Hx. induction A1 as [|y A1 IH]; cbn.
  - by rewrite (proj2 (Z.eqb_eq _ _)).
  - rewrite (proj2 (Z.eqb_neq _ _)) by (apply H; by left). apply IH. intros z Hz. apply H. by right.
Qed.

Lemma spec_find_member A x : NoDup (lo_id <$> A) -> x ∈ A -> spec_find (lo_id x) A = Some x.
Proof.
  intros Hnd (A1 & A2 & ->)%list_elem_of_split. apply spec_find_app; [|done].
  intros y Hy E. rewrite fmap_app in Hnd. apply NoDup_app in Hnd as (_ & Hd & _).
  apply (Hd (lo_id y)); [by apply list_elem_of_fmap_2|]. rewrite E. cbn. set_solver.
Qed.

(** A book shows one set of orders only. *)
Lemma shows_incl std_hash b h A A' x : shows std_hash b h A -> shows std_hash b h A' -> x ∈ A -> x ∈ A'.
Proof.
  intros S S' Hx%(spec_find_member _ _ (shows_ids _ _ _ _ S)).
  rewrite (shows_id _ _ _ _ S), <- (shows_id _ _ _ _ S') in Hx.
  apply List.find_some in Hx as [Hx _]. by apply list_elem_of_In.
Qed.

Lemma shows_unique std_hash b h A A' : shows std_hash b h A -> shows std_hash b h A' -> A ≡ₚ A'.
Proof.
  intros S S'. apply NoDup_Permutation; [eapply NoDup_fmap_1, shows_ids, S|eapply NoDup_fmap_1, shows_ids, S'|].
  intros x. split; by apply shows_incl with (std_hash := std_hash) (b := b) (h := h).
Qed.

Lemma spec_find_none id A : (forall y, y ∈ A -> lo_id y <> id) -> spec_find id A = None.
Proof.
  intros H. induction A as [|y A IH]; cbn; [done|].
  rewrite (proj2 (Z.eqb_neq _ _)) by (apply H; by left). apply IH. intros z Hz. apply H. by right.
Qed.

Lemma spec_delete_none id A : (forall y, y ∈ A -> lo_id y <> id) -> spec_delete id A = A.
Proof.
  intros H. unfold spec_delete. induction A as [|y A IH]; [done|].
  rewrite filter_cons_True by (apply H; by left). f_equal. apply IH. intros z Hz. apply H. by right.
Qed.

Lemma spec_delete_app id A1 x A2 :
  (forall y, y ∈ A1 -> lo_id y <> id) -> (forall y, y ∈ A2 -> lo_id y <> id) -> lo_id x = id ->
  spec_delete id (A1 ++ x :: A2) = A1 ++ A2.
Proof.
  intros H1 H2 Hx. rewrite <- (spec_delete_none id A1) at 2 by done.
  rewrite <- (spec_delete_none id A2) at 2 by done.
  unfold spec_delete. rewrite filter_app, filter_cons_False by naive_solver. done.
Qed.

Lemma elem_of_abs h L x : x ∈ abs h L <-> exists o, x = view_of h o /\ o ∈ L.
Proof. apply list_elem_of_fmap. Qed.

Lemma abs_write_held h L o ord : o ∉ L -> abs (<[o := ord]> h) L = abs h L.
Proof.
  intros Ho. apply list_fmap_ext. intros i x Hx. unfold view_of.
  rewrite lookup_insert_ne; [done|]. intros ->. by apply list_elem_of_lookup_2 in Hx.
Qed.

Lemma follow_linked this h l1 l2 fuel :
  linked this h (l1 ++ l2) -> (length l2 <= fuel)%nat -> follow fuel h (head l2) = Some l2.
Proof.
  revert l1 fuel. induction l2 as [|o l2 IH]; intros l1 fuel Hl Hf; [by destruct fuel|].
  destruct fuel as [|fuel]; cbn in Hf; [lia|].
  destruct (Hl l1 o l2 eq_refl) as (ord & Ho & _ & _ & Hn).
  cbn. rewrite Ho. cbn. rewrite Hn, (IH (l1 ++ [o])); [done| |lia]. by rewrite <- app_assoc.
Qed.

Lemma foldr_max_spec l : Forall (fun p => 0 < p) l ->
  (l = [] /\ foldr Z.max 0 l = 0) \/ (foldr Z.max 0 l ∈ l /\ Forall (fun p => p <= foldr Z.max 0 l) l).
Proof.
  induction 1 as [|p l Hp _ IH]; [by left|]. right. cbn.
  destruct IH as [[-> E]|[Hin HF]].
  - cbn. rewrite Z.max_l by lia. split; [set_solver|]. by constructor.
  - destruct (Z.max_spec p (foldr Z.max 0 l)) as [[Hle ->]|[Hle ->]].
    + split; [by right|]. constructor; [lia|done].
    + split; [by left|]. constructor; [lia|]. eapply Forall_impl; [done|]. cbn. lia.
Qed.

Lemma foldr_min_spec p l :
  foldr Z.min p l ∈ p :: l /\ Forall (fun q => foldr Z.min p l <= q) (p :: l).
Proof.
  induction l as [|q l [Hin HF]]; cbn; [split; [set_solver|by constructor]|].
  apply Forall_cons in HF as [H0 HF].
  destruct (Z.min_spec q (foldr Z.min p l)) as [[Hle ->]|[Hle ->]].
  - split; [set_solver|]. constructor; [lia|]. constructor; [lia|].
    eapply Forall_impl; [done|]. cbn. lia.
  - split; [set_solver|]. by repeat constructor.
Qed.

(** The prices of one side of the abstract book. *)
Lemma elem_of_side_prices s (A : list LimitOrder) p :
  p ∈ lo_price <$> filter (fun x => lo_side x = s) A <-> exists x, x ∈ A /\ in_queue s p x.
Proof.
  rewrite list_elem_of_fmap. setoid_rewrite list_elem_of_filter. unfold in_queue. split.
  - intros (x & -> & ? & ?). by exists x.
  - intros (x & ? & ? & <-). by exists x.
Qed.

Lemma queue_nonempty h L s p :
  queue_of h L s p <> [] <-> exists x, x ∈ abs h L /\ in_queue s p x.
Proof.
  setoid_rewrite elem_of_abs. split.
  - intros Hne. destruct (queue_of h L s p) as [|o l] eqn:E; [done|].
    assert (o ∈ queue_of h L s p) as [Ho Hq]%elem_of_queue by (rewrite E; set_solver).
    exists (view_of h o). split; [by exists o|done].
  - intros (x & (o & -> & Ho) & Hq) E.
    assert (o ∈ queue_of h L s p) as Hin by (by apply elem_of_queue). rewrite E in Hin. set_solver.
Qed.

Lemma is_best_spec h L s x :
  is_best (queue_of h L) s x -> (forall q, queue_of h L s q <> [] -> valid_price q) ->
  x = spec_best s (abs h L).
Proof.
  intros Hb Hv. unfold spec_best.
  set (prices := lo_price <$> filter (fun y => lo_side y = s) (abs h L)).
  assert (forall q, q ∈ prices <-> queue_of h L s q <> []) as Hp.
  { intros q. unfold prices. by rewrite elem_of_side_prices, queue_nonempty. }
  assert (Forall (fun p => 0 < p) prices) as Hpos.
  { apply Forall_forall. intros q Hq%Hp%Hv. unfold valid_price in Hq. lia. }
  destruct Hb as [[-> Hnone]|(Hx & Hne & Hbest)].
  - assert (prices = []) as ->; [|by destruct s].
    destruct prices as [|q l]; [done|]. destruct (proj1 (Hp q)); [set_solver|done].
  - apply Hp in Hne. destruct s.
    + destruct (foldr_max_spec prices Hpos) as [[E _]|[Hin HF]]; [rewrite E in Hne; set_solver|].
      rewrite Forall_forall in HF. specialize (HF _ Hne). specialize (Hbest _ (proj1 (Hp _) Hin)).
      cbn in Hbest. lia.
    + destruct prices as [|q l]; [set_solver|]. destruct (foldr_min_spec q l) as [Hin HF].
      rewrite Forall_forall in HF. specialize (HF _ Hne). specialize (Hbest _ (proj1 (Hp _) Hin)).
      cbn in Hbest. lia.
Qed.

Lemma filter_abs h L s p : view_of h <$> queue_of h L s p = filter (in_queue s p) (abs h L).
Proof.
  unfold queue_of, abs. induction L as [|o L IH]; [done|].
  rewrite fmap_cons, !filter_cons. case_decide; [|done]. by rewrite fmap_cons, IH.
Qed.

(** ** The store relation *)

Section book_store.

Context (std_hash : Z -> Z).

Abbreviation book_rel := (book_rel std_hash).
Abbreviation addOrder := (ArrayOrderBook_addOrder std_hash).
Abbreviation cancelOrder := (ArrayOrderBook_cancelOrder std_hash).

Record store_rel (b : ArrayOrderBook) (p : OrderPool) (h : heap) (held L : list loc) : Prop := {
  st_book : exists Idx, book_rel b h (queue_of h L) Idx;
  st_nodup : NoDup (held ++ L);
  st_pool : pool_inv p;
  st_capacity : storage_size p = DefaultOrderCapacity;
  st_acquired : forall o, acquired p o <-> o ∈ held ++ L;
  st_heap : forall o, in_storage p o -> is_Some (h !! o)
}.

(** The totals of the levels: [ph s p] is what the total of a level exceeds the quantities
    of its orders by. *)
Definition store_excess (ph : Side -> Z -> Z) (b : ArrayOrderBook) (h : heap) (L : list loc) : Prop :=
  totals_ok ph b h (queue_of h L).

Definition no_excess (s : Side) (p : Z) : Z := 0.

Definition store_totals : ArrayOrderBook -> heap -> list loc -> Prop := store_excess no_excess.

Lemma store_excess_ext ph ph' b h L :
  (forall s p, ph s p = ph' s p) -> store_excess ph b h L -> store_excess ph' b h L.
Proof. intros E H s p. by rewrite <- E. Qed.

Lemma total_of_set_quantity h l o ord q :
  NoDup l -> h !! o = Some ord ->
  total_of (<[o := set_quantity q ord]> h) l =
    if decide (o ∈ l) then total_of h l - ord_quantity ord + q else total_of h l.
Proof.
  intros Hnd Ho.
  assert (forall k, o ∉ k -> total_of (<[o := set_quantity q ord]> h) k = total_of h k) as Hk.
  { intros k Hok. apply total_of_ext. intros x Hx. unfold quantity_of.
    rewrite lookup_insert_ne; [done|]. by intros ->. }
  case_decide as Hin; [|by apply Hk].
  apply list_elem_of_split in Hin as (l1 & l2 & ->).
  destruct (nodup_middle _ _ _ Hnd) as (_ & H1 & H2 & _).
  rewrite !total_of_app, !total_of_cons, !Hk by done. unfold quantity_of.
  rewrite lookup_insert_eq, Ho. cbn. lia.
Qed.

Lemma store_lookup b p h held L o :
  store_rel b p h held L -> o ∈ held ++ L -> exists ord, h !! o = Some ord.
Proof.
  intros R Ho. apply (st_heap _ _ _ _ _ R). by apply (st_acquired _ _ _ _ _ R) in Ho as [? _].
Qed.

(** Every slot of the pool is free, held or resting. *)
Lemma store_available b p h held L :
  store_rel b p h held L ->
  OrderPool_available p + Z.of_nat (length (held ++ L)) = DefaultOrderCapacity.
Proof.
  intros R. assert (free_list_ p ++ (held ++ L) ≡ₚ
    (fun i => storage_data p + i) <$> seqZ 0 DefaultOrderCapacity) as Hp.
  { apply NoDup_Permutation.
    - apply NoDup_app. split; [apply (pool_nodup _ (st_pool _ _ _ _ _ R))|].
      split; [|apply (st_nodup _ _ _ _ _ R)].
      intros o [_ Hz]%(pool_free _ (st_pool _ _ _ _ _ R)) [_ Hu]%(st_acquired _ _ _ _ _ R). done.
    - apply NoDup_fmap_2; [intros i j; lia|apply NoDup_seqZ].
    - intros o. rewrite elem_of_app, (pool_free _ (st_pool _ _ _ _ _ R)).
      rewrite <- (st_acquired _ _ _ _ _ R). unfold acquired, in_storage.
      rewrite (st_capacity _ _ _ _ _ R), list_elem_of_fmap. setoid_rewrite elem_of_seqZ. split.
      + intros Ho. exists (o - storage_data p). cbn beta. lia.
      + intros (i & -> & Hi). cbn beta. replace (storage_data p + i - storage_data p) with i by lia.
        destruct (Z.eq_dec (OrderPool_in_use p i) 0); [left|right]; (split; [lia|done]). }
  apply Permutation_length in Hp. rewrite length_app, length_fmap, length_seqZ in Hp.
  unfold OrderPool_available. pose proof capacity_pos. lia.
Qed.

(** The index has one entry per resting order at most. *)
Lemma store_index_size b h L Idx :
  book_rel b h (queue_of h L) Idx -> (size Idx <= length L)%nat.
Proof.
  intros R. assert ((map_to_list Idx).*1 ⊆+ ((fun o => lo_id (view_of h o)) <$> L)) as Hsub.
  { apply NoDup_submseteq; [apply NoDup_fst_map_to_list|].
    intros id ([id' q] & -> & Hq%elem_of_map_to_list)%list_elem_of_fmap. cbn [fst] in *.
    apply (rel_ids _ _ _ _ _ R) in Hq as (o & ord & s & p & _ & Hin & Ho & <-).
    apply list_elem_of_fmap. exists o. cbn beta. rewrite (view_of_lookup _ _ _ Ho).
    by apply elem_of_queue in Hin as [? _]. }
  apply submseteq_length in Hsub. rewrite !length_fmap, length_map_to_list in Hsub. done.
Qed.

(** An order the client holds does not rest. *)
Lemma store_held_fresh b p h o held L :
  store_rel b p h (o :: held) L -> o ∉ L /\ forall s q, o ∉ queue_of h L s q.
Proof.
  intros R. pose proof (st_nodup _ _ _ _ _ R) as Hnd. cbn in Hnd. apply NoDup_cons in Hnd as [Hn _].
  assert (o ∉ L) by set_solver. split; [done|]. intros s q [? _]%elem_of_queue. done.
Qed.

Lemma store_index_ids b h L Idx id :
  book_rel b h (queue_of h L) Idx -> (forall x, x ∈ L -> lo_id (view_of h x) <> id) ->
  Idx !! id = None.
Proof.
  intros R Hf. destruct (Idx !! id) as [q|] eqn:E; [|done].
  apply (rel_ids _ _ _ _ _ R) in E as (o & ord & s & p & _ & [Hin _]%elem_of_queue & Ho & Hid).
  exfalso. apply (Hf o Hin). by rewrite (view_of_lookup _ _ _ Ho).
Qed.

(** The id of a resting order finds it. *)
Lemma store_index_lookup b p h held L Idx o :
  store_rel b p h held L -> book_rel b h (queue_of h L) Idx -> o ∈ L ->
  Idx !! lo_id (view_of h o) = Some (Some o).
Proof.
  intros R RB Ho. destruct (store_lookup _ _ _ _ _ o R) as [ord Hord]; [set_solver|].
  apply (rel_ids _ _ _ _ _ RB). exists o, ord, (lo_side (view_of h o)), (lo_price (view_of h o)).
  split; [done|]. split; [by apply elem_of_queue|]. by rewrite (view_of_lookup _ _ _ Hord).
Qed.

(** Live ids are unique. *)
Lemma store_ids_inj b p h held L o o' :
  store_rel b p h held L -> o ∈ L -> o' ∈ L -> lo_id (view_of h o) = lo_id (view_of h o') -> o = o'.
Proof.
  intros R Ho Ho' E. destruct (st_book _ _ _ _ _ R) as [Idx RB].
  pose proof (store_index_lookup _ _ _ _ _ _ _ R RB Ho) as H1.
  pose proof (store_index_lookup _ _ _ _ _ _ _ R RB Ho') as H2. rewrite E in H1. congruence.
Qed.

(** A held order joins the book. *)
Lemma store_add b p h o held L ord :
  store_rel b p h (o :: held) L -> h !! o = Some ord -> valid_price (ord_price ord) ->
  (forall x, x ∈ L -> lo_id (view_of h x) <> ord_id ord) ->
  exists b' h', addOrder b h (Some o) = Some (b', h') /\
    store_rel b' p h' held (L ++ [o]) /\ same_data h h' /\
    (forall ph, store_excess ph b h L -> store_excess ph b' h' (L ++ [o])).
Proof.
  intros R Ho Hv Hids. destruct (store_held_fresh _ _ _ _ _ _ R) as [HoL HoQ].
  destruct (st_book _ _ _ _ _ R) as [Idx RB]. pose proof (store_index_size _ _ _ _ RB) as Hsz.
  pose proof (store_available _ _ _ _ _ R) as Hav. unfold OrderPool_available in Hav.
  cbn [length app] in Hav. rewrite length_app in Hav.
  destruct (addOrder_spec std_hash b h (queue_of h L) Idx o ord) as (b' & h' & E & RB' & SD & Ht & Hl & _);
    try done; [by eapply store_index_ids|lia|].
  assert (forall s q, queue_of h' (L ++ [o]) s q =
    queues_upd (queue_of h L) (ord_side ord) (ord_price ord)
      (queue_of h L (ord_side ord) (ord_price ord) ++ [o]) s q) as HQ.
  { intros s q. rewrite (queue_of_same_data _ _ _ _ _ SD), queue_of_snoc.
    by rewrite (view_of_lookup _ _ _ Ho). }
  exists b', h'. split; [done|]. split; [|split; [done|]].
  - destruct R as [_ Hnd Hp Hc Hac Hh]. constructor; try done.
    + eexists. by eapply book_rel_ext.
    + cbn in Hnd. rewrite app_assoc. by rewrite (Permutation_app_comm _ [o]).
    + intros x. rewrite Hac. set_solver.
    + intros x [y Hy]%Hh. destruct (same_data_lookup _ _ _ _ SD Hy) as (y' & -> & _). done.
  - intros ph Htot s q. rewrite HQ. unfold queues_upd. case_decide as Eq.
    + destruct Eq as [-> ->]. rewrite Ht, Htot, total_of_app, (total_of_same_data _ _ _ SD).
      rewrite wrap_add_l. cbn. rewrite (quantity_of_same_data _ _ _ SD). unfold quantity_of at 1.
      rewrite Ho. cbn. f_equal. lia.
    + rewrite Hl by done. rewrite Htot. by rewrite (total_of_same_data _ _ _ SD).
Qed.

(** A resting order leaves the book and is held. *)
Lemma store_cancel b p h o held L1 L2 :
  store_rel b p h held (L1 ++ o :: L2) ->
  exists b' h', cancelOrder b h (lo_id (view_of h o)) = Some (Some o, b', h') /\
    store_rel b' p h' (o :: held) (L1 ++ L2) /\ same_data h h' /\
    (forall ph, store_excess ph b h (L1 ++ o :: L2) -> store_excess ph b' h' (L1 ++ L2)).
Proof.
  intros R. destruct (store_lookup _ _ _ _ _ o R) as [ord Ho]; [set_solver|].
  destruct (st_book _ _ _ _ _ R) as [Idx RB].
  assert (Idx !! lo_id (view_of h o) = Some (Some o)) as Hid
    by (eapply store_index_lookup; [done..|set_solver]).
  pose proof (view_of_lookup _ _ _ Ho) as Hview.
  destruct (cancelOrder_spec std_hash b h _ Idx _ o ord (queue_of h L1 (ord_side ord) (ord_price ord))
    (queue_of h L2 (ord_side ord) (ord_price ord)) RB Hid Ho)
    as (b' & h' & E & RB' & SD & Ht & Hl & _ & _).
  { apply queue_of_split; by rewrite Hview. }
  assert (forall s q, queue_of h' (L1 ++ L2) s q =
    queues_upd (queue_of h (L1 ++ o :: L2)) (ord_side ord) (ord_price ord)
      (queue_of h L1 (ord_side ord) (ord_price ord) ++ queue_of h L2 (ord_side ord) (ord_price ord))
      s q) as HQ.
  { intros s q. rewrite (queue_of_same_data _ _ _ _ _ SD), (queue_of_remove _ _ o).
    by rewrite Hview. }
  exists b', h'. split; [done|]. split; [|split; [done|]].
  - destruct R as [_ Hnd Hp Hc Hac Hh]. constructor; try done.
    + eexists. by eapply book_rel_ext.
    + assert ((o :: held) ++ L1 ++ L2 ≡ₚ held ++ L1 ++ o :: L2) as ->; [|done].
      cbn. rewrite !app_assoc. apply Permutation_middle.
    + intros x. rewrite Hac. set_solver.
    + intros x [y Hy]%Hh. destruct (same_data_lookup _ _ _ _ SD Hy) as (y' & -> & _). done.
  - intros ph Htot s q. rewrite HQ. unfold queues_upd. case_decide as Eq.
    + destruct Eq as [-> ->]. rewrite Ht, Htot, (total_of_same_data _ _ _ SD), wrap_sub_l.
      rewrite queue_of_split by (by rewrite Hview). rewrite !total_of_app, total_of_cons.
      unfold quantity_of at 1. rewrite Ho. cbn. f_equal. lia.
    + rewrite Hl by done. rewrite Htot. by rewrite (total_of_same_data _ _ _ SD).
Qed.

Lemma store_cancel_absent b p h held L id :
  store_rel b p h held L -> (forall x, x ∈ L -> lo_id (view_of h x) <> id) ->
  cancelOrder b h id = Some (None, b, h).
Proof.
  intros R Hf. destruct (st_book _ _ _ _ _ R) as [Idx RB].
  eapply cancelOrder_absent; [done|]. by eapply store_index_ids.
Qed.


(** An id names a resting order or none. *)
Lemma store_cases b p h held L id :
  store_rel b p h held L ->
  (exists L1 o L2 ord, L = L1 ++ o :: L2 /\ h !! o = Some ord /\ ord_id ord = id /\
     index_find std_hash b id = Some (Some o) /\
     spec_find id (abs h L) = Some (view ord) /\ spec_delete id (abs h L) = abs h (L1 ++ L2)) \/
  ((forall x, x ∈ L -> lo_id (view_of h x) <> id) /\ index_find std_hash b id = None /\
     spec_find id (abs h L) = None).
Proof.
  intros R. destruct (st_book _ _ _ _ _ R) as [Idx RB]. rewrite (rel_find _ _ _ _ _ _ RB).
  destruct (decide (Exists (fun o => lo_id (view_of h o) = id) L)) as [HE|HE].
  - left. apply Exists_exists in HE as (o & Hin & Hid).
    destruct (store_lookup _ _ _ _ _ o R) as [ord Ho]; [set_solver|].
    pose proof Hin as Hin'. apply list_elem_of_split in Hin' as (L1 & L2 & HL).
    assert (forall y, y ∈ abs h L1 \/ y ∈ abs h L2 -> lo_id y <> id) as Hother.
    { pose proof (st_nodup _ _ _ _ _ R) as Hnd. rewrite NoDup_app, HL in Hnd.
      destruct Hnd as (_ & _ & Hnd). apply nodup_middle in Hnd as (_ & Hn1 & Hn2 & _).
      intros y Hy Ey. rewrite !elem_of_abs in Hy.
      assert (exists o', y = view_of h o' /\ o' ∈ L /\ o' <> o) as (o' & -> & Ho' & Hne).
      { destruct Hy as [(o' & -> & Ho')|(o' & -> & Ho')]; exists o';
          (split; [done|split; [rewrite HL; set_solver|congruence]]). }
      apply Hne. eapply store_ids_inj; [done..|congruence]. }
    exists L1, o, L2, ord. rewrite (view_of_lookup _ _ _ Ho) in Hid.
    split; [done|]. split; [done|]. split; [done|].
    split.
    { rewrite <- Hid. change (lo_id (view ord)) with (ord_id ord).
      pose proof (store_index_lookup _ _ _ _ _ _ _ R RB Hin) as E.
      by rewrite (view_of_lookup _ _ _ Ho) in E. }
    unfold abs in *. rewrite HL, !fmap_app, fmap_cons, (view_of_lookup _ _ _ Ho).
    split; [apply spec_find_app|apply spec_delete_app]; naive_solver.
  - right. assert (forall x, x ∈ L -> lo_id (view_of h x) <> id) as Hf.
    { intros x Hx E. apply HE, Exists_exists. by exists x. }
    split; [done|]. split; [by eapply store_index_ids|].
    apply spec_find_none. intros y (o & -> & Ho)%elem_of_abs. by apply Hf.
Qed.

(** ** Steps of the clients *)

Lemma store_set_quantity b p h held L o ord q :
  store_rel b p h held L -> h !! o = Some ord ->
  store_rel b p (<[o := set_quantity q ord]> h) held L.
Proof.
  intros [[Idx RB] Hnd Hp Hc Hac Hh] Ho. constructor; try done.
  - exists Idx. eapply book_rel_ext; [|by apply book_rel_set_quantity].
    intros s r. apply queue_of_ext. intros x _. unfold view_of. rewrite lookup_insert.
    case_decide; [subst; by rewrite Ho|done].
  - intros x Hx. rewrite lookup_insert_is_Some'. right. by apply Hh.
Qed.

Lemma abs_set_quantity b p h held L o ord q :
  store_rel b p h held L -> o ∈ L -> h !! o = Some ord ->
  abs (<[o := set_quantity q ord]> h) L = spec_set_quantity (ord_id ord) q (abs h L).
Proof.
  intros R Hin Ho. unfold abs, spec_set_quantity. rewrite <- list_fmap_compose.
  apply list_fmap_ext. intros i x Hx%list_elem_of_lookup_2. unfold compose. unfold view_of at 1.
  rewrite lookup_insert. case_decide as E.
  - subst x. rewrite (view_of_lookup _ _ _ Ho). change (lo_id (view ord)) with (ord_id ord).
    by rewrite Z.eqb_refl.
  - rewrite (proj2 (Z.eqb_neq _ _)); [done|]. intros Eid. apply E.
    eapply (store_ids_inj _ _ _ _ _ _ _ R Hin Hx). by rewrite (view_of_lookup _ _ _ Ho).
Qed.


Lemma store_write_held b p h held L o ord :
  store_rel b p h held L -> o ∈ held -> store_rel b p (<[o := ord]> h) held L.
Proof.
  intros [[Idx RB] Hnd Hp Hc Hac Hh] Ho.
  assert (forall x, x ∈ L -> <[o:=ord]> h !! x = h !! x) as F.
  { intros x Hx. rewrite lookup_insert_ne; [done|]. intros ->. apply NoDup_app in Hnd. naive_solver. }
  constructor; try done.
  - exists Idx. eapply book_rel_ext; [|eapply book_rel_frame; [|exact RB]].
    + intros s r. apply queue_of_ext. intros x Hx. unfold view_of. by rewrite F.
    + intros s r x [Hx _]%elem_of_queue. by apply F.
  - intros x Hx. rewrite lookup_insert_is_Some'. right. by apply Hh.
Qed.

(** Changing a held order keeps the totals. *)
Lemma store_excess_held ph b p h held L o ord ord' :
  store_rel b p h held L -> store_excess ph b h L -> o ∈ held -> h !! o = Some ord ->
  store_excess ph b (<[o := ord']> h) L.
Proof.
  intros R Ht Hin Ho s q.
  assert (forall x, x ∈ L -> <[o := ord']> h !! x = h !! x) as F.
  { intros x Hx. rewrite lookup_insert_ne; [done|]. intros ->.
    pose proof (st_nodup _ _ _ _ _ R) as Hnd. apply NoDup_app in Hnd. naive_solver. }
  rewrite (queue_of_ext h) by (intros x Hx; unfold view_of; by rewrite F).
  rewrite (total_of_ext h); [apply Ht|]. intros x [Hx _]%elem_of_queue.
  unfold quantity_of. by rewrite F.
Qed.

Lemma store_release b p h o held L :
  store_rel b p h (o :: held) L -> store_rel b (releaseIfOwned p (Some o)) h held L.
Proof.
  intros [RB Hnd Hp Hc Hac Hh].
  assert (acquired p o) as Ho by (apply Hac; set_solver).
  rewrite releaseIfOwned_release.
  destruct (release_spec p o Hp Ho) as (Hp' & _ & Hd & Hs & Ha).
  cbn in Hnd. apply NoDup_cons in Hnd as [Hn Hnd].
  constructor; try done.
  - by rewrite Hs.
  - intros x. rewrite Ha, Hac. cbn. rewrite elem_of_cons. naive_solver.
  - intros x Hx. apply Hh. unfold in_storage in *. by rewrite Hd, Hs in Hx.
Qed.

Lemma store_acquire b p h held L :
  store_rel b p h held L ->
  match OrderPool_acquire p with
  | (None, p') => p' = p /\ Z.of_nat (length (held ++ L)) = DefaultOrderCapacity
  | (Some o, p') => store_rel b p' h (o :: held) L /\ is_Some (h !! o) /\
      Z.of_nat (length (held ++ L)) < DefaultOrderCapacity
  end.
Proof.
  intros R. pose proof (store_available _ _ _ _ _ R) as Hav. unfold OrderPool_available in Hav.
  pose proof (acquire_spec p (st_pool _ _ _ _ _ R)) as Hs.
  destruct (OrderPool_acquire p) as [[o|] p'].
  - destruct Hs as (Hp & Hf & Hd & Hsz & Hin & Ha & Hna). destruct R as [RB Hnd _ Hc Hac Hh].
    split; [|split; [by apply Hh|rewrite Hf in Hav; cbn in Hav; lia]]. constructor; try done.
    + cbn. apply NoDup_cons. split; [by rewrite <- Hac|done].
    + by rewrite Hsz.
    + intros x. rewrite Ha, Hac. cbn. by rewrite elem_of_cons.
    + intros x Hx. apply Hh. unfold in_storage in *. by rewrite Hd, Hsz in Hx.
  - destruct Hs as [-> Hf]. split; [done|]. rewrite Hf in Hav. cbn in Hav. lia.
Qed.

Lemma store_new base :
  store_rel ArrayOrderBook_new (OrderPool_new base DefaultOrderCapacity)
    (storage_orders base DefaultOrderCapacity) [] [].
Proof.
  constructor.
  - exists ∅. apply book_rel_new.
  - constructor.
  - by apply pool_inv_new.
  - done.
  - intros o. unfold acquired, OrderPool_in_use. cbn. rewrite arr_get_empty.
    split; [naive_solver|intros Ho; by apply elem_of_nil in Ho].
  - intros o Ho. unfold in_storage in Ho. cbn in Ho. unfold storage_orders.
    apply elem_of_dom. rewrite dom_list_to_map_L, elem_of_list_to_set.
    apply list_elem_of_fmap. exists (o, Order_init). split; [done|].
    apply list_elem_of_fmap. exists (o - base). split; [f_equal; lia|]. apply elem_of_seqZ. lia.
Qed.


(** ** Observations *)

Lemma store_queue_nodup b p h held L s q : store_rel b p h held L -> NoDup (queue_of h L s q).
Proof.
  intros R. destruct (st_book _ _ _ _ _ R) as [Idx RB]. apply (rel_nodup _ _ _ _ _ s q RB).
Qed.

Definition total_quantity (A : list LimitOrder) : Z := foldr Z.add 0 (lo_quantity <$> A).

Lemma total_quantity_perm A A' : A ≡ₚ A' -> total_quantity A = total_quantity A'.
Proof. unfold total_quantity. induction 1; cbn in *; lia. Qed.

(** The sum of a level's orders, on the abstract book. *)
Lemma total_of_queue b p h held L s q :
  store_rel b p h held L -> total_of h (queue_of h L s q) = total_quantity (filter (in_queue s q) (abs h L)).
Proof.
  intros R. rewrite <- filter_abs. unfold total_of, total_quantity.
  rewrite <- list_fmap_compose. f_equal. apply list_fmap_ext. intros i o Ho%list_elem_of_lookup_2.
  apply elem_of_queue in Ho as [Ho _]. destruct (store_lookup _ _ _ _ _ o R) as [ord Hord];
    [set_solver|]. unfold compose, quantity_of. by rewrite (view_of_lookup _ _ _ Hord), Hord.
Qed.

(** Following [next] from a level lists its queue. *)
Lemma store_follow b p h held L s q :
  store_rel b p h held L -> valid_price q ->
  follow (Z.to_nat DefaultOrderCapacity) h (PriceLevel_front (level b s q)) = Some (queue_of h L s q).
Proof.
  intros R Hq. destruct (st_book _ _ _ _ _ R) as [Idx RB]. unfold valid_price in Hq.
  pose proof (rel_levels _ _ _ _ _ RB s q ltac:(lia)) as [_ Hh _ Hl]. unfold PriceLevel_front.
  rewrite Hh. apply (follow_linked (s, q) h []); [done|].
  pose proof (store_available _ _ _ _ _ R) as Hav. rewrite length_app in Hav.
  unfold OrderPool_available in Hav.
  pose proof (length_filter (fun o => in_queue s q (view_of h o)) L). unfold queue_of. lia.
Qed.

Lemma store_ids_nodup b p h held L : store_rel b p h held L -> NoDup (lo_id <$> abs h L).
Proof.
  intros R. unfold abs. rewrite <- list_fmap_compose. apply NoDup_fmap_2_strong.
  - intros x y Hx Hy. by eapply store_ids_inj.
  - pose proof (st_nodup _ _ _ _ _ R) as Hnd. by apply NoDup_app in Hnd as (_ & _ & ?).
Qed.

Lemma store_shows b p h held L :
  store_rel b p h held L -> shows std_hash b h (abs h L).
Proof.
  intros R. destruct (st_book _ _ _ _ _ R) as [Idx RB]. constructor.
  - by apply (is_best_spec _ _ Buy), (rel_valid _ _ _ _ _ RB); apply (rel_best _ _ _ _ _ RB Buy).
  - by apply (is_best_spec _ _ Sell), (rel_valid _ _ _ _ _ RB); apply (rel_best _ _ _ _ _ RB Sell).
  - intros s q Hq. exists (queue_of h L s q). split; [by eapply store_follow|apply filter_abs].
  - intros id. destruct (store_cases _ _ _ _ _ id R)
      as [(L1 & o & L2 & ord & _ & Ho & _ & -> & -> & _)|(_ & -> & ->)]; [by rewrite Ho|done].
  - apply Forall_forall. intros x (o & -> & Ho)%elem_of_abs. eapply (rel_valid _ _ _ _ _ RB (lo_side (view_of h o))).
    intros E. apply (not_elem_of_nil o). rewrite <- E. by apply elem_of_queue.
  - by eapply store_ids_nodup.
Qed.

End book_store.
