(* ===== verification/Consumer.v ===== *)
(** * The market-data book consumer

    [pipeline/market_data_event.hpp] and
    [pipeline/market_data_book_consumer.{hpp,cpp}]: normalised market-data events
    are applied to an order book whose orders live in a pool of 4096 slots.

    The abstract consumer applies the events to the list of resting orders;
    [consume_refines] is the refinement for one event, the property at the end
    of the file extends it to every admissible sequence of events. *)

From S2P Require Import Prelude Types FixedHashMap OrderPool PriceLevel Bitmap OrderBook.
From S2P Require Import OrderBookProofs BookStore.

Inductive MarketDataEventType : Type :=
  AddOrder | CancelOrder | DeleteOrder | ExecuteOrder | ReplaceOrder.

#[global] Instance MarketDataEventType_eq_dec : EqDecision MarketDataEventType.
Proof. solve_decision. Defined.

Record MarketDataEvent : Type := mkEvent {
  ev_type : MarketDataEventType;
  ev_orderId : OrderId;
  ev_newOrderId : OrderId;
  ev_accountId : AccountId;
  ev_side : Side;
  ev_symbol : Symbol;
  ev_price : Price;
  ev_quantity : Quantity
}.

Definition MarketDataEvent_default : MarketDataEvent :=
  mkEvent AddOrder 0 0 0 Buy (replicate 8 0) 0 0.

(** The consumer, the book it refers to and the heap of the orders. *)
Record BookConsumer : Type := mkConsumer {
  con_book : ArrayOrderBook;
  con_pool : OrderPool;
  con_heap : heap
}.

Section consumer.

Variable std_hash : Z -> Z.

Definition MarketDataBookConsumer_new (base : Z) : BookConsumer :=
  mkConsumer ArrayOrderBook_new (OrderPool_new base DefaultOrderCapacity)
    (storage_orders base DefaultOrderCapacity).

Definition MarketDataBookConsumer_consume (c : BookConsumer) (event : MarketDataEvent)
    : option BookConsumer :=
  match ev_type event with
  | AddOrder =>
      let '(order, pool) := OrderPool_acquire (con_pool c) in
      match order with
      | None => Some (mkConsumer (con_book c) pool (con_heap c))
      | Some o =>
          _ ← con_heap c !! o;
          let h := <[o := mkOrder (ev_orderId event) (ev_accountId event) (ev_side event)
                            (ev_price event) (ev_quantity event) None None None]> (con_heap c) in
          '(book, h) ← ArrayOrderBook_addOrder std_hash (con_book c) h order;
          Some (mkConsumer book pool h)
      end
  | CancelOrder =>
      '(result, book, h) ← ArrayOrderBook_reduceOrder std_hash (con_book c) (con_heap c)
                              (ev_orderId event) (ev_quantity event);
      Some (mkConsumer book (releaseIfOwned (con_pool c) (upd_removed_order result)) h)
  | DeleteOrder =>
      '(removedOrder, book, h) ← ArrayOrderBook_cancelOrder std_hash (con_book c) (con_heap c)
                                   (ev_orderId event);
      Some (mkConsumer book (releaseIfOwned (con_pool c) removedOrder) h)
  | ExecuteOrder =>
      '(result, book, h) ← ArrayOrderBook_executeOrder std_hash (con_book c) (con_heap c)
                              (ev_orderId event) (ev_quantity event);
      Some (mkConsumer book (releaseIfOwned (con_pool c) (upd_removed_order result)) h)
  | ReplaceOrder =>
      '(_, book, h) ← ArrayOrderBook_replaceOrder std_hash (con_book c) (con_heap c)
                        (ev_orderId event) (ev_newOrderId event) (ev_quantity event)
                        (ev_price event);
      Some (mkConsumer book (con_pool c) h)
  end.

(** Consuming a sequence of events. *)
Definition consume_all (c : BookConsumer) (events : list MarketDataEvent) : option BookConsumer :=
  foldl (fun c event => c ← c; MarketDataBookConsumer_consume c event) (Some c) events.

(** ** Specification *)

Definition event_order (event : MarketDataEvent) : LimitOrder :=
  mkLimit (ev_orderId event) (ev_accountId event) (ev_side event) (ev_price event)
    (ev_quantity event).

(** The effect of an event on the abstract book; an order that finds the pool
    empty is dropped. *)
Definition spec_consume (A : list LimitOrder) (event : MarketDataEvent) : list LimitOrder :=
  match ev_type event with
  | AddOrder =>
      if Z.of_nat (length A) =? DefaultOrderCapacity then A else A ++ [event_order event]
  | CancelOrder | ExecuteOrder => spec_reduce (ev_orderId event) (ev_quantity event) A
  | DeleteOrder => spec_delete (ev_orderId event) A
  | ReplaceOrder =>
      spec_replace (ev_orderId event) (ev_newOrderId event) (ev_quantity event) (ev_price event) A
  end.

(** What the feed must respect: quantities of 32 bits, prices inside the level
    arrays and not 0, and new orders with ids that are not live. *)
Definition admissible (A : list LimitOrder) (event : MarketDataEvent) : Prop :=
  is_uint 32 (ev_quantity event) /\
  match ev_type event with
  | AddOrder => valid_price (ev_price event) /\ spec_find (ev_orderId event) A = None
  | ReplaceOrder => valid_price (ev_price event)
  | _ => True
  end.

Fixpoint admissible_run (A : list LimitOrder) (events : list MarketDataEvent) : Prop :=
  match events with
  | [] => True
  | event :: events => admissible A event /\ admissible_run (spec_consume A event) events
  end.

(** What a partial reduction leaves in the total of the order's level, although the order
    no longer has it. *)
Definition stale_reduce (id : OrderId) (q : Quantity) (A : list LimitOrder) (s : Side) (p : Z) : Z :=
  match spec_find id A with
  | Some x => if bool_decide (0 < q < lo_quantity x) && bool_decide (in_queue s p x) then q else 0
  | None => 0
  end.

Definition stale_event (A : list LimitOrder) (event : MarketDataEvent) (s : Side) (p : Z) : Z :=
  match ev_type event with
  | CancelOrder | ExecuteOrder => stale_reduce (ev_orderId event) (ev_quantity event) A s p
  | _ => 0
  end.

(** All that partial cancels and executions have taken from orders of a level. *)
Fixpoint stale (A : list LimitOrder) (events : list MarketDataEvent) (s : Side) (p : Z) : Z :=
  match events with
  | [] => 0
  | event :: events => stale_event A event s p + stale (spec_consume A event) events s p
  end.

(** The consumer's state stands for the abstract book [A]. *)
Definition consumer_rel (c : BookConsumer) (A : list LimitOrder) : Prop :=
  exists L, store_rel std_hash (con_book c) (con_pool c) (con_heap c) [] L /\
    abs (con_heap c) L = A /\ Forall (fun x => is_uint 32 (lo_quantity x)) A.

(** ** Refinement *)

(** Taking [q] from an order and not from its level. *)
Lemma store_excess_reduce ph b p h held L o ord q :
  store_rel std_hash b p h held L -> store_excess ph b h L -> o ∈ L -> h !! o = Some ord ->
  store_excess (fun s r => ph s r + if true && bool_decide (in_queue s r (view ord)) then q else 0) b
    (<[o := set_quantity (ord_quantity ord - q) ord]> h) L.
Proof.
  intros R Ht Hin Ho s r. rewrite (queue_of_ext h).
  2:{ intros x _. unfold view_of. rewrite lookup_insert. case_decide; [subst; by rewrite Ho|done]. }
  rewrite total_of_set_quantity by (done || by eapply store_queue_nodup). rewrite (Ht s r). f_equal.
  assert (o ∈ queue_of h L s r <-> in_queue s r (view ord)) as Hiff
    by (rewrite elem_of_queue, (view_of_lookup _ _ _ Ho); naive_solver).
  cbn [andb]. case_decide as Ein; case_bool_decide as Eb; try lia; by destruct Hiff; tauto.
Qed.

Lemma reduce_refines b p h L id q :
  store_rel std_hash b p h [] L -> Forall (fun x => is_uint 32 (lo_quantity x)) (abs h L) ->
  is_uint 32 q ->
  exists r b' h', ArrayOrderBook_reduceOrder std_hash b h id q = Some (r, b', h') /\
    exists L', store_rel std_hash b' (releaseIfOwned p (upd_removed_order r)) h' [] L' /\
      abs h' L' = spec_reduce id q (abs h L) /\
      forall ph, store_excess ph b h L -> store_excess (fun s p => ph s p + stale_reduce id q (abs h L) s p) b' h' L'.
Proof.
  intros R HF Hq. unfold ArrayOrderBook_reduceOrder, spec_reduce, stale_reduce.
  destruct (store_cases _ _ _ _ _ _ id R)
    as [(L1 & o & L2 & ord & -> & Ho & <- & -> & -> & Hdel)|(_ & -> & ->)].
  2:{ do 3 eexists. split; [done|]. exists L. split; [done|]. split; [done|]. intros ph. apply store_excess_ext. lia. }
  cbn [mbind option_bind]. rewrite Ho. cbn [mbind option_bind lo_quantity view].
  destruct ((q =? 0) || (q >? ord_quantity ord)) eqn:E1; bprop.
  { do 3 eexists. split; [done|]. exists (L1 ++ o :: L2). split; [done|]. split; [done|].
    intros ph. apply store_excess_ext. intros s' p'. rewrite (bool_decide_false (0 < q < _)) by lia. cbn. lia. }
  destruct (Z.eqb_spec q (ord_quantity ord)) as [Eq|Eq].
  - destruct (store_cancel _ _ _ _ _ _ _ _ R) as (b' & h' & E & R' & SD & Hx).
    rewrite (view_of_lookup _ _ _ Ho) in E. cbn [lo_id view] in E. rewrite E. cbn [mbind option_bind].
    do 3 eexists. split; [done|]. exists (L1 ++ L2). split; [by apply store_release|].
    split; [by rewrite (abs_same_data _ _ _ SD)|]. intros ph Hph. eapply store_excess_ext; [|by apply Hx].
    intros s' p'. rewrite (bool_decide_false (0 < q < _)) by lia. cbn. lia.
  - assert (is_uint 32 (ord_quantity ord)) as Hu.
    { rewrite Forall_forall in HF. specialize (HF (view_of h o)).
      rewrite (view_of_lookup _ _ _ Ho) in HF. apply HF. apply elem_of_abs. exists o.
      rewrite (view_of_lookup _ _ _ Ho). set_solver. }
    unfold is_uint in *. do 3 eexists. split; [done|]. exists (L1 ++ o :: L2).
    split; [by apply store_set_quantity|]. rewrite wrap_small by lia.
    split; [eapply abs_set_quantity; [done|set_solver|done]|].
    intros ph Hph. rewrite (bool_decide_true (0 < q < _)) by lia. eapply store_excess_reduce; [done|done|set_solver|done].
Qed.

Lemma contains_find b id :
  FixedHashMap_contains DefaultOrderCapacity std_hash (order_index_ b) id =
  bool_decide (is_Some (index_find std_hash b id)).
Proof.
  unfold FixedHashMap_contains, index_find. by destruct FixedHashMap_find.
Qed.

Lemma replace_refines b p h L oid nid q price :
  store_rel std_hash b p h [] L -> valid_price price ->
  exists r b' h', ArrayOrderBook_replaceOrder std_hash b h oid nid q price = Some (r, b', h') /\
    exists L', store_rel std_hash b' p h' [] L' /\
      abs h' L' = spec_replace oid nid q price (abs h L) /\
      forall ph, store_excess ph b h L -> store_excess ph b' h' L'.
Proof.
  intros R Hv. unfold ArrayOrderBook_replaceOrder, spec_replace.
  destruct ((nid =? 0) || (q =? 0) || (nid =? oid)) eqn:E0.
  { do 3 eexists. split; [done|]. by exists L. }
  rewrite contains_find.
  destruct (store_cases _ _ _ _ _ _ nid R)
    as [(N1 & n & N2 & nord & _ & _ & _ & -> & -> & _)|(Hnew & -> & ->)].
  { do 3 eexists. split; [done|]. by exists L. }
  destruct (store_cases _ _ _ _ _ _ oid R)
    as [(L1 & o & L2 & ord & -> & Ho & <- & -> & -> & Hdel)|(_ & -> & ->)].
  2:{ do 3 eexists. split; [done|]. by exists L. }
  cbn [mbind option_bind bool_decide is_Some]. rewrite bool_decide_false by (by intros []).
  rewrite Ho. cbn [mbind option_bind].
  destruct (store_cancel _ _ _ _ _ _ _ _ R) as (b' & h' & E & R' & SD & Hexc).
  rewrite (view_of_lookup _ _ _ Ho) in E. cbn [lo_id view] in E. rewrite E. cbn [mbind option_bind].
  destruct (store_lookup _ _ _ _ _ _ o R') as [ord' Ho']; [set_solver|]. rewrite Ho'.
  cbn [mbind option_bind].
  set (new := mkOrder nid (ord_account_id ord) (ord_side ord) price q None None None).
  pose proof (store_write_held _ _ _ _ _ _ o new R' (list_elem_of_here _ _)) as R2.
  destruct (store_held_fresh _ _ _ _ _ _ _ R') as [HoL _].
  assert (abs (<[o:=new]> h') (L1 ++ L2) = abs h (L1 ++ L2)) as Eabs
    by (by rewrite abs_write_held, (abs_same_data _ _ _ SD)).
  destruct (store_add _ _ _ _ _ _ _ new R2) as (b3 & h3 & E3 & R3 & SD3 & Hx3);
    [apply lookup_insert_eq|done| |].
  { intros x Hx. assert (view_of (<[o:=new]> h') x ∈ abs h (L1 ++ L2)) as Hin.
    { rewrite <- Eabs. apply elem_of_abs. by exists x. }
    apply elem_of_abs in Hin as (x' & -> & Hx'). apply Hnew. set_solver. }
  rewrite E3. cbn [mbind option_bind]. do 3 eexists. split; [done|].
  exists ((L1 ++ L2) ++ [o]). split; [done|].
  split; [|intros ph Hph; apply Hx3; eapply store_excess_held; [exact R'|by apply Hexc|by left|done]].
  rewrite (abs_same_data _ _ _ SD3). rewrite Hdel, <- Eabs. unfold abs. rewrite (fmap_app _ (L1 ++ L2)). f_equal.
  cbn [fmap list_fmap]. by rewrite (view_of_lookup _ _ new) by apply lookup_insert_eq.
Qed.


Lemma spec_reduce_quantities id q A :
  Forall (fun x => is_uint 32 (lo_quantity x)) A -> is_uint 32 q ->
  Forall (fun x => is_uint 32 (lo_quantity x)) (spec_reduce id q A).
Proof.
  intros HF Hq. unfold spec_reduce. destruct (spec_find id A) as [x|] eqn:E; [|done].
  apply List.find_some in E as [Hx%list_elem_of_In _].
  rewrite Forall_forall in HF. pose proof (HF x Hx) as Hu. unfold is_uint in *.
  repeat bcase; apply Forall_forall.
  - done.
  - intros y [_ Hy]%list_elem_of_filter. by apply HF.
  - intros y (z & -> & Hz)%list_elem_of_fmap. pose proof (HF z Hz). bcase; cbn; lia.
Qed.

Lemma spec_consume_quantities A event :
  Forall (fun x => is_uint 32 (lo_quantity x)) A -> is_uint 32 (ev_quantity event) ->
  Forall (fun x => is_uint 32 (lo_quantity x)) (spec_consume A event).
Proof.
  intros HF Hq. unfold spec_consume. destruct (ev_type event).
  - bcase; [done|]. apply Forall_app. split; [done|]. by constructor.
  - by apply spec_reduce_quantities.
  - by apply Forall_filter_keep.
  - by apply spec_reduce_quantities.
  - unfold spec_replace. bcase; [done|]. repeat case_match; try done.
    apply Forall_app. split; [by apply Forall_filter_keep|by constructor].
Qed.

Lemma add_refines c L event :
  store_rel std_hash (con_book c) (con_pool c) (con_heap c) [] L ->
  ev_type event = AddOrder -> admissible (abs (con_heap c) L) event ->
  exists c' L', MarketDataBookConsumer_consume c event = Some c' /\
    store_rel std_hash (con_book c') (con_pool c') (con_heap c') [] L' /\
    abs (con_heap c') L' = spec_consume (abs (con_heap c) L) event /\
    (forall ph, store_excess ph (con_book c) (con_heap c) L -> store_excess ph (con_book c') (con_heap c') L').
Proof.
  intros R Ht [Hq Hadm]. unfold MarketDataBookConsumer_consume, spec_consume. rewrite Ht in *.
  destruct Hadm as [Hv Hfresh]. unfold abs at 2. rewrite length_fmap.
  pose proof (store_acquire _ _ _ _ _ _ R) as Ha. cbn [app] in Ha.
  destruct (OrderPool_acquire (con_pool c)) as [[o|] p'].
  2:{ destruct Ha as [-> ->]. exists c, L. destruct c. done. }
  destruct Ha as (R1 & [ord0 Hord0] & Hroom). rewrite Hord0. rewrite (proj2 (Z.eqb_neq _ _)) by lia.
  cbn [mbind option_bind].
  set (new := mkOrder _ _ _ _ _ _ _ _).
  pose proof (store_write_held _ _ _ _ _ _ o new R1 (list_elem_of_here _ _)) as R2.
  destruct (store_held_fresh _ _ _ _ _ _ _ R1) as [HoL _].
  pose proof (abs_write_held (con_heap c) L o new HoL) as Eabs.
  destruct (store_add _ _ _ _ _ _ _ new R2) as (b' & h' & E & R' & SD & Ht');
    [apply lookup_insert_eq|done| |].
  { intros x Hx Hid. assert (view_of (<[o:=new]> (con_heap c)) x ∈ abs (con_heap c) L) as Hin.
    { rewrite <- Eabs. apply elem_of_abs. by exists x. }
    apply list_elem_of_In in Hin. eapply List.find_none in Hin; [|exact Hfresh].
    apply Z.eqb_neq in Hin. by apply Hin. }
  rewrite E. cbn [mbind option_bind]. do 2 eexists. split; [done|]. split; [exact R'|].
  cbn [con_heap con_book]. split.
  - rewrite (abs_same_data _ _ _ SD), <- Eabs. unfold abs. rewrite fmap_app. f_equal.
    cbn [fmap list_fmap]. by rewrite (view_of_lookup _ _ new) by apply lookup_insert_eq.
  - intros ph Htot. apply Ht'. by eapply store_excess_held; [| |by left|].
Qed.

(** One event, the totals included. *)
Lemma consume_store c L event :
  store_rel std_hash (con_book c) (con_pool c) (con_heap c) [] L ->
  Forall (fun x => is_uint 32 (lo_quantity x)) (abs (con_heap c) L) -> admissible (abs (con_heap c) L) event ->
  exists c' L', MarketDataBookConsumer_consume c event = Some c' /\
    store_rel std_hash (con_book c') (con_pool c') (con_heap c') [] L' /\
    abs (con_heap c') L' = spec_consume (abs (con_heap c) L) event /\
    forall ph, store_excess ph (con_book c) (con_heap c) L ->
      store_excess (fun s p => ph s p + stale_event (abs (con_heap c) L) event s p) (con_book c') (con_heap c') L'.
Proof.
  intros R HF Hadm. pose proof Hadm as [Hq _].
  assert (forall ph b h L0, store_excess ph b h L0 -> store_excess (fun s p => ph s p + 0) b h L0) as H0.
  { intros ph b h L0. apply store_excess_ext. lia. }
  unfold stale_event. destruct (ev_type event) eqn:Ht;
    [destruct (add_refines c L event R Ht Hadm) as (c' & L' & ? & ? & ? & Hx); exists c', L';
     split_and!; [done..|intros ph Hph; by apply H0, Hx]|..];
    unfold MarketDataBookConsumer_consume, spec_consume; rewrite Ht.
  - destruct (reduce_refines _ _ _ _ (ev_orderId event) _ R HF Hq) as (r & b & h & -> & L' & R' & EA & Hx).
    cbn [mbind option_bind]. by exists (mkConsumer b (releaseIfOwned (con_pool c) (upd_removed_order r)) h), L'.
  - destruct (store_cases _ _ _ _ _ _ (ev_orderId event) R)
      as [(L1 & o & L2 & ord & -> & Ho & Hid & _ & _ & Hdel)|(Hf & _ & _)].
    + destruct (store_cancel _ _ _ _ _ _ _ _ R) as (b & h & E & R' & SD & Hx).
      rewrite (view_of_lookup _ _ _ Ho) in E. cbn [lo_id view] in E. rewrite Hid in E.
      rewrite E. cbn [mbind option_bind].
      exists (mkConsumer b (releaseIfOwned (con_pool c) (Some o)) h), (L1 ++ L2).
      split; [done|]. split; [by apply store_release|]. split; [by rewrite Hdel, (abs_same_data _ _ _ SD)|].
      intros ph Hph. by apply H0, Hx.
    + rewrite (store_cancel_absent _ _ _ _ _ _ _ R Hf). cbn [mbind option_bind].
      exists c, L. destruct c. split; [done|]. split; [done|]. split; [|auto]. symmetry. apply spec_delete_none.
      intros y (o & -> & Ho)%elem_of_abs. by apply Hf.
  - destruct (reduce_refines _ _ _ _ (ev_orderId event) _ R HF Hq) as (r & b & h & E & L' & R' & EA & Hx).
    unfold ArrayOrderBook_executeOrder. rewrite E.
    cbn [mbind option_bind]. by exists (mkConsumer b (releaseIfOwned (con_pool c) (upd_removed_order r)) h), L'.
  - destruct (replace_refines _ _ _ _ (ev_orderId event) (ev_newOrderId event) (ev_quantity event)
      (ev_price event) R) as (r & b & h & -> & L' & R' & EA & Hx).
    { destruct Hadm as [_ Hv]. by rewrite Ht in Hv. }
    cbn [mbind option_bind]. exists (mkConsumer b (con_pool c) h), L'. split_and!; [done..|].
    intros ph Hph. by apply H0, Hx.
Qed.

Lemma consume_refines c A event :
  consumer_rel c A -> admissible A event ->
  exists c', MarketDataBookConsumer_consume c event = Some c' /\
    consumer_rel c' (spec_consume A event).
Proof.
  intros (L & R & <- & HF) Hadm. destruct (consume_store c L event R HF Hadm) as (c' & L' & E & R' & EA & _).
  exists c'. split; [done|]. exists L'. split; [done|]. split; [done|].
  apply spec_consume_quantities; [done|apply Hadm].
Qed.

Lemma consume_all_none events :
  foldl (fun c event => c ← c; MarketDataBookConsumer_consume c event) None events = None.
Proof. by induction events. Qed.

Lemma consume_all_refines c A events :
  consumer_rel c A -> admissible_run A events ->
  exists c', consume_all c events = Some c' /\ consumer_rel c' (foldl spec_consume A events).
Proof.
  revert c A. induction events as [|event events IH]; intros c A R Hadm; [by exists c|].
  destruct Hadm as [Hadm Hrun]. destruct (consume_refines _ _ _ R Hadm) as (c1 & E & R1).
  destruct (IH _ _ R1 Hrun) as (c' & E' & R'). exists c'. split; [|done].
  unfold consume_all. cbn. by rewrite E.
Qed.

(** ** The totals of the levels *)

(** The total a level shows when [ph] has been left behind there. *)
Definition shown (A : list LimitOrder) (ph : Side -> Z -> Z) (s : Side) (p : Z) : Z :=
  u32 (total_quantity (filter (in_queue s p) A) + ph s p).

(** The consumer's state stands for [A], and [ph] is what the totals of its levels have
    too much. *)
Definition consumer_at (c : BookConsumer) (A : list LimitOrder) (ph : Side -> Z -> Z) : Prop :=
  exists L, store_rel std_hash (con_book c) (con_pool c) (con_heap c) [] L /\
    abs (con_heap c) L = A /\ Forall (fun x => is_uint 32 (lo_quantity x)) A /\
    store_excess ph (con_book c) (con_heap c) L.

Lemma consumer_at_new base : consumer_at (MarketDataBookConsumer_new base) [] no_excess.
Proof.
  exists []. split; [apply store_new|]. split; [done|]. split; [constructor|]. intros s p. unfold level.
  destruct s; cbn [levels MarketDataBookConsumer_new con_book ArrayOrderBook_new bid_levels_ ask_levels_];
    rewrite arr_get_empty; reflexivity.
Qed.

Lemma consumer_at_rel c A ph : consumer_at c A ph -> consumer_rel c A.
Proof. intros (L & R & EA & HF & _). by exists L. Qed.

Lemma consumer_at_total c A ph s p :
  consumer_at c A ph -> lvl_total_quantity (level (con_book c) s p) = shown A ph s p.
Proof. intros (L & R & <- & _ & Hx). unfold shown. by rewrite (Hx s p), (total_of_queue _ _ _ _ _ _ _ _ R). Qed.

Lemma consumer_at_ext c A ph ph' :
  (forall s p, ph s p = ph' s p) -> consumer_at c A ph -> consumer_at c A ph'.
Proof. intros E (L & R & EA & HF & Hx). exists L. split_and!; [done..|]. by eapply store_excess_ext. Qed.

Lemma consume_at c A ph event :
  consumer_at c A ph -> admissible A event ->
  exists c', MarketDataBookConsumer_consume c event = Some c' /\
    consumer_at c' (spec_consume A event) (fun s p => ph s p + stale_event A event s p).
Proof.
  intros (L & R & <- & HF & Hx) Hadm. destruct (consume_store c L event R HF Hadm) as (c' & L' & E & R' & EA & Hx').
  exists c'. split; [done|]. exists L'. split_and!; [done|done| |by apply Hx'].
  apply spec_consume_quantities; [done|apply Hadm].
Qed.

Lemma consume_all_at events : forall c A ph,
  consumer_at c A ph -> admissible_run A events ->
  exists c', consume_all c events = Some c' /\
    consumer_at c' (foldl spec_consume A events) (fun s p => ph s p + stale A events s p).
Proof.
  induction events as [|event events IH]; intros c A ph R Hadm.
  { exists c. split; [done|]. eapply consumer_at_ext; [|exact R]. cbn. lia. }
  destruct Hadm as [Hadm Hrun]. destruct (consume_at _ _ _ _ R Hadm) as (c1 & E & R1).
  destruct (IH _ _ _ R1 Hrun) as (c' & E' & R'). exists c'. split.
  - unfold consume_all. cbn [foldl mbind option_bind]. by rewrite E.
  - eapply consumer_at_ext; [|exact R']. intros s p. cbn [stale]. lia.
Qed.

End consumer.

(** ** Properties *)

(** C4: the book consumer implements the abstract book.  From a fresh book, any
    admissible sequence of market-data events (adds, partial and full cancels,
    deletes, executions, replaces, for live and for unknown ids, also with the
    pool exhausted) is consumed without undefined behaviour, and what the book
    then shows is the abstract book that results from the same events: the best
    bid is the highest resting buy price and the best ask the lowest resting
    sell price (0 for an empty side), following [next] from each level lists
    exactly the orders of that side and price, oldest first, the index finds
    exactly the live ids, and the pool has one slot less for each resting
    order. *)
Theorem book_consumer_refines_abstract_book :
  forall (std_hash : Z -> Z) (base : Z) (events : list MarketDataEvent),
  admissible_run [] events ->
  exists c, consume_all std_hash (MarketDataBookConsumer_new base) events = Some c /\
    let A := foldl spec_consume [] events in
    shows std_hash (con_book c) (con_heap c) A /\
    OrderPool_available (con_pool c) + Z.of_nat (length A) = DefaultOrderCapacity.
Proof.
  intros std_hash base events Hrun.
  destruct (consume_all_refines std_hash (MarketDataBookConsumer_new base) [] events)
    as (c & E & L & R & EA & _); [|done|].
  { exists []. split; [apply store_new|done]. }
  exists c. split; [done|]. cbn zeta. rewrite <- EA. split; [by eapply store_shows|].
  rewrite <- (store_available _ _ _ _ _ _ R). cbn [app]. unfold abs. by rewrite length_fmap.
Qed.

Definition demo_event (t : MarketDataEventType) (id nid : Z) (s : Side) (p q : Z) : MarketDataEvent :=
  mkEvent t id nid 7 s (replicate 8 32) p q.

(** Two bids at one price and one below, a partial execution of the first, a
    replacement that moves it behind the second, and a delete. *)
Definition demo_events : list MarketDataEvent :=
  [ demo_event AddOrder 1 0 Buy 100 10; demo_event AddOrder 2 0 Buy 100 20;
    demo_event AddOrder 3 0 Buy 99 30; demo_event ExecuteOrder 1 0 Buy 0 4;
    demo_event ReplaceOrder 1 4 Buy 100 8; demo_event DeleteOrder 3 0 Buy 0 0 ].

Lemma book_consumer_witness :
  foldl spec_consume [] demo_events = [mkLimit 2 7 Buy 100 20; mkLimit 4 7 Buy 100 8] /\
  exists c, consume_all (fun k => k) (MarketDataBookConsumer_new 0) demo_events = Some c /\
    let A := foldl spec_consume [] demo_events in
    shows (fun k => k) (con_book c) (con_heap c) A /\
    OrderPool_available (con_pool c) + Z.of_nat (length A) = DefaultOrderCapacity.
Proof.
  split; [vm_compute; reflexivity|].
  apply (book_consumer_refines_abstract_book (fun k => k) 0 demo_events).
  unfold demo_events, admissible_run, admissible, is_uint, valid_price. cbn.
  repeat split; lia.
Defined.

(** The totals a fresh consumer shows. *)
Lemma totals_after std_hash base events :
  admissible_run [] events ->
  exists c, consume_all std_hash (MarketDataBookConsumer_new base) events = Some c /\
    consumer_rel std_hash c (foldl spec_consume [] events) /\
    forall s p, lvl_total_quantity (level (con_book c) s p) =
      u32 (total_quantity (filter (in_queue s p) (foldl spec_consume [] events)) + stale [] events s p).
Proof.
  intros Hadm. destruct (consume_all_at std_hash events _ _ _ (consumer_at_new std_hash base) Hadm) as (c & E & R).
  exists c. split; [exact E|]. split; [by eapply consumer_at_rel|].
  intros s p. by rewrite (consumer_at_total _ _ _ _ s p R).
Qed.

(** An order that is added, partially reduced and deleted, on the abstract book. *)
Definition add_reduce_delete (t : MarketDataEventType) (id : Z) (s : Side) (p Q q : Z) : list MarketDataEvent :=
  [demo_event AddOrder id 0 s p Q; demo_event t id 0 s p q; demo_event DeleteOrder id 0 s p 0].

Lemma add_reduce_delete_spec t id s p Q q :
  t = CancelOrder \/ t = ExecuteOrder -> valid_price p -> 0 < q < Q -> Q < 2 ^ 32 ->
  admissible_run [] (add_reduce_delete t id s p Q q) /\
  foldl spec_consume [] (add_reduce_delete t id s p Q q) = [] /\
  stale [] (add_reduce_delete t id s p Q q) s p = q.
Proof.
  intros Ht Hv Hq HQ. set (x := mkLimit id 7 s p Q).
  assert (spec_find id [x] = Some x) as Ef by (unfold spec_find; cbn; by rewrite Z.eqb_refl).
  assert (spec_consume [] (demo_event AddOrder id 0 s p Q) = [x]) as Ea by reflexivity.
  assert (spec_consume [x] (demo_event t id 0 s p q) = [lo_set_quantity (Q - q) x]) as Er.
  { destruct Ht as [-> | ->]; unfold spec_consume; cbn [demo_event ev_type ev_orderId ev_quantity];
      unfold spec_reduce; rewrite Ef; cbn [lo_quantity x];
      rewrite (proj2 (Z.eqb_neq q 0)), Z.gtb_ltb, (proj2 (Z.ltb_ge _ _)), (proj2 (Z.eqb_neq q Q)) by lia;
      cbn; by rewrite Z.eqb_refl. }
  assert (spec_consume [lo_set_quantity (Q - q) x] (demo_event DeleteOrder id 0 s p 0) = []) as Ed.
  { unfold spec_consume, spec_delete. cbn [demo_event ev_type ev_orderId]. by rewrite filter_cons_False by (cbn; tauto). }
  assert (stale_event [x] (demo_event t id 0 s p q) s p = q) as Es.
  { destruct Ht as [-> | ->]; unfold stale_event, stale_reduce; cbn [demo_event ev_type ev_orderId ev_quantity];
      rewrite Ef; by rewrite !bool_decide_eq_true_2. }
  unfold add_reduce_delete. cbn [foldl admissible_run stale]. rewrite Ea, Er, Ed, Es.
  split; [|split; [done|cbn; lia]].
  unfold admissible, is_uint. destruct Ht as [-> | ->]; cbn [demo_event ev_type ev_quantity ev_price ev_orderId];
    split_and!; first [done|lia].
Qed.

(** C9: partial cancels and executions leave the totals of the levels behind.  After any
    admissible sequence of events the total quantity of each level is, modulo 2^32, the
    sum of the orders resting there plus everything partial cancels and executions have
    ever taken from orders of that level: [reduceOrder] updates the order and not its level.
    In particular an order of [Q] that is cancelled or executed by [0 < q < Q] and then
    deleted leaves an empty side behind whose level still shows a total of [q]. *)
Theorem partial_reduce_leaves_level_total :
  (forall (std_hash : Z -> Z) (base : Z) (events : list MarketDataEvent),
     admissible_run [] events ->
     exists c, consume_all std_hash (MarketDataBookConsumer_new base) events = Some c /\
       forall s p, lvl_total_quantity (level (con_book c) s p) =
         u32 (total_quantity (filter (in_queue s p) (foldl spec_consume [] events)) + stale [] events s p)) /\
  (forall (std_hash : Z -> Z) (base : Z) (t : MarketDataEventType) (id : Z) (s : Side) (p Q q : Z),
     t = CancelOrder \/ t = ExecuteOrder -> valid_price p -> 0 < q < Q -> Q < 2 ^ 32 ->
     exists c,
       consume_all std_hash (MarketDataBookConsumer_new base)
         (add_reduce_delete t id s p Q q) = Some c /\
       best (con_book c) s = 0 /\ lvl_total_quantity (level (con_book c) s p) = q).
Proof.
  split.
  - intros std_hash base events Hadm. destruct (totals_after std_hash base events Hadm) as (c & E & _ & Ht).
    by exists c.
  - intros std_hash base t id s p Q q Ht Hv Hq HQ.
    destruct (add_reduce_delete_spec t id s p Q q Ht Hv Hq HQ) as (Hadm & EA & Es).
    destruct (totals_after std_hash base _ Hadm) as (c & E & (L & R & EL & _) & Htot).
    exists c. split; [exact E|]. rewrite Htot, EA, Es. split; [|cbn; apply wrap_small; lia].
    apply store_shows in R. rewrite EL, EA in R. destruct s; apply R.
Qed.

Lemma partial_reduce_witness :
  (exists c, consume_all (fun k => k) (MarketDataBookConsumer_new 0) demo_events = Some c /\
     forall s p, lvl_total_quantity (level (con_book c) s p) =
       u32 (total_quantity (filter (in_queue s p) (foldl spec_consume [] demo_events)) + stale [] demo_events s p)) /\
  stale [] demo_events Buy 100 = 4 /\
  exists c,
    consume_all (fun k => k) (MarketDataBookConsumer_new 0) (add_reduce_delete CancelOrder 1 Buy 100 10 4) = Some c /\
    best (con_book c) Buy = 0 /\ lvl_total_quantity (level (con_book c) Buy 100) = 4.
Proof.
  split; [|split; [vm_compute; reflexivity|]].
  - apply (proj1 partial_reduce_leaves_level_total (fun k => k) 0 demo_events).
    unfold demo_events, admissible_run, admissible, is_uint, valid_price. cbn. repeat split; lia.
  - apply (proj2 partial_reduce_leaves_level_total (fun k => k) 0 CancelOrder 1 Buy 100 10 4);
      [by left|by vm_compute|lia|lia].
Defined.
