(* ===== verification/MatchingEngine.v ===== *)
(** * The matching engine

    [orderbook/software/matching_engine.{hpp,cpp}], [sequencer/sequencer.{hpp,cpp}]
    and [dispatcher/event_dispatcher.{hpp,cpp}].

    The engine owns a book, a pool and a sequencer; the orders live in the shared
    heap.  [EventDispatcher::publish] is a parameter of the engine's section: a
    function on the state [E] of whatever listens; [EventDispatcher_publish]
    below is the dispatcher's own loop over its listeners. *)

From S2P Require Import Prelude Types FixedHashMap OrderPool PriceLevel Bitmap OrderBook.

(** ** Sequencer *)

Definition Sequencer_init : Z := 1000.

(** [++sequence_], and the value returned. *)
Definition Sequencer_next (sequence_ : Z) : Z := u64 (sequence_ + 1).

(** ** Event dispatcher *)

Section event_dispatcher.

(** The listeners share a state [E]; a listener is its [onTrade]. *)
Context {E : Type}.

Definition EventDispatcher_addListener (listeners_ : list (Trade -> E -> E))
    (listener : option (Trade -> E -> E)) : list (Trade -> E -> E) :=
  match listener with
  | Some l => listeners_ ++ [l]
  | None => listeners_
  end.

Definition EventDispatcher_publish (listeners_ : list (Trade -> E -> E)) (trade : Trade) (e : E) : E :=
  foldl (fun e listener => listener trade e) e listeners_.

End event_dispatcher.

(** ** Engine *)

Record Engine (E : Type) : Type := mkEngine {
  eng_book : ArrayOrderBook;
  eng_pool : OrderPool;
  eng_sequence : Z;
  eng_heap : heap;
  eng_env : E
}.
Arguments mkEngine {E}.
Arguments eng_book {E}.
Arguments eng_pool {E}.
Arguments eng_sequence {E}.
Arguments eng_heap {E}.
Arguments eng_env {E}.

Section matching_engine.

Variable std_hash : Z -> Z.

Context {E : Type}.

Variable publish : Trade -> E -> E.

(** The storage of the pool is allocated at address [base]. *)
Definition MatchingEngine_new (base : Z) (e : E) : Engine E :=
  mkEngine ArrayOrderBook_new (OrderPool_new base DefaultOrderCapacity) Sequencer_init
    (storage_orders base DefaultOrderCapacity) e.

Definition MatchingEngine_prepareOrder (g : Engine E) (accountId : AccountId) (side : Side)
    (price : Price) (quantity : Quantity) : option (ptr * Engine E) :=
  let '(order, pool) := OrderPool_acquire (eng_pool g) in
  match order with
  | None => Some (None, mkEngine (eng_book g) pool (eng_sequence g) (eng_heap g) (eng_env g))
  | Some o =>
      _ ← eng_heap g !! o;
      let seq := Sequencer_next (eng_sequence g) in
      Some (Some o,
            mkEngine (eng_book g) pool seq
              (<[o := mkOrder seq accountId side price quantity None None None]> (eng_heap g))
              (eng_env g))
  end.

Definition MatchingEngine_canCross (g : Engine E) (order : ptr) : option bool :=
  o ← order;
  ord ← eng_heap g !! o;
  match ord_side ord with
  | Buy =>
      match ArrayOrderBook_bestAsk (eng_book g) with
      | None => Some false
      | Some r => lvl ← read_level (eng_book g) r; Some (ord_price ord >=? lvl_price lvl)
      end
  | Sell =>
      match ArrayOrderBook_bestBid (eng_book g) with
      | None => Some false
      | Some r => lvl ← read_level (eng_book g) r; Some (ord_price ord <=? lvl_price lvl)
      end
  end.

(** The trade and the sequencer after [sequencer_.next()]. *)
Definition MatchingEngine_createTrade (sequence : Z) (incoming resting : Order)
    (tradedQuantity : Quantity) : Trade * Z :=
  let seq := Sequencer_next sequence in
  (match ord_side incoming with
   | Buy => mkTrade seq (ord_id incoming) (ord_id resting)
              (ord_account_id incoming) (ord_account_id resting) (ord_price resting) tradedQuantity
   | Sell => mkTrade seq (ord_id resting) (ord_id incoming)
              (ord_account_id resting) (ord_account_id incoming) (ord_price resting) tradedQuantity
   end, seq).

(** [resting->level->total_quantity -= tradedQuantity] when the pointer is set. *)
Definition reduce_level_total (b : ArrayOrderBook) (r : level_ptr) (q : Quantity)
    : option ArrayOrderBook :=
  match r with
  | None => Some b
  | Some r =>
      lvl ← read_level b r;
      Some (write_level b r (mkPriceLevel (lvl_price lvl) (lvl_head lvl) (lvl_tail lvl)
                               (u32 (lvl_total_quantity lvl - q))))
  end.

Definition MatchingEngine_matchOne (g : Engine E) (incoming : ptr) : option (bool * Engine E) :=
  i ← incoming;
  iord ← eng_heap g !! i;
  match (match ord_side iord with
         | Buy => ArrayOrderBook_bestAsk (eng_book g)
         | Sell => ArrayOrderBook_bestBid (eng_book g)
         end) with
  | None => Some (false, g)
  | Some level =>
      lvl ← read_level (eng_book g) level;
      match PriceLevel_front lvl with
      | None => Some (false, g)
      | Some r =>
          rord ← eng_heap g !! r;
          let tradedQuantity :=
            if ord_quantity iord <? ord_quantity rord then ord_quantity iord
            else ord_quantity rord in
          let '(trade, seq) :=
            MatchingEngine_createTrade (eng_sequence g) iord rord tradedQuantity in
          let env := publish trade (eng_env g) in
          let h := <[i := set_quantity (u32 (ord_quantity iord - tradedQuantity)) iord]>
                     (eng_heap g) in
          rord ← h !! r;
          let h := <[r := set_quantity (u32 (ord_quantity rord - tradedQuantity)) rord]> h in
          rord ← h !! r;
          book ← reduce_level_total (eng_book g) (ord_level rord) tradedQuantity;
          if ord_quantity rord =? 0 then
            '(removedOrder, book, h) ← ArrayOrderBook_cancelOrder std_hash book h (ord_id rord);
            let pool := releaseIfOwned (eng_pool g) removedOrder in
            Some (tradedQuantity >? 0, mkEngine book pool seq h env)
          else Some (tradedQuantity >? 0, mkEngine book (eng_pool g) seq h env)
      end
  end.

(** The [while] loop of [executeTrade]; [fuel] bounds the iterations. *)
Fixpoint executeTrade_loop (fuel : nat) (g : Engine E) (incoming : ptr) : option (Engine E) :=
  match fuel with
  | O => None
  | S fuel =>
      i ← incoming;
      iord ← eng_heap g !! i;
      if ord_quantity iord >? 0 then
        cross ← MatchingEngine_canCross g incoming;
        if (cross : bool) then
          '(matched, g) ← MatchingEngine_matchOne g incoming;
          if (matched : bool) then executeTrade_loop fuel g incoming else Some g
        else Some g
      else Some g
  end.

(** One iteration per resting order and a last test are enough. *)
Definition executeTrade_fuel : nat := Z.to_nat (DefaultOrderCapacity + 2).

Definition MatchingEngine_executeTrade (g : Engine E) (incoming : ptr) : option (Engine E) :=
  g ← executeTrade_loop executeTrade_fuel g incoming;
  i ← incoming;
  iord ← eng_heap g !! i;
  if ord_quantity iord >? 0 then
    '(book, h) ← ArrayOrderBook_addOrder std_hash (eng_book g) (eng_heap g) incoming;
    Some (mkEngine book (eng_pool g) (eng_sequence g) h (eng_env g))
  else
    Some (mkEngine (eng_book g) (releaseIfOwned (eng_pool g) incoming) (eng_sequence g)
            (eng_heap g) (eng_env g)).

Definition MatchingEngine_process (g : Engine E) (order : ptr) : option (Engine E) :=
  match order with
  | None => Some g
  | Some _ =>
      cross ← MatchingEngine_canCross g order;
      if (cross : bool) then MatchingEngine_executeTrade g order
      else
        '(book, h) ← ArrayOrderBook_addOrder std_hash (eng_book g) (eng_heap g) order;
        Some (mkEngine book (eng_pool g) (eng_sequence g) h (eng_env g))
  end.

Definition MatchingEngine_submitOrder (g : Engine E) (accountId : AccountId) (side : Side)
    (price : Price) (quantity : Quantity) : option (OrderId * Engine E) :=
  '(order, g) ← MatchingEngine_prepareOrder g accountId side price quantity;
  match order with
  | None => Some (0, g)
  | Some o =>
      ord ← eng_heap g !! o;
      g ← MatchingEngine_process g order;
      Some (ord_id ord, g)
  end.

End matching_engine.
