(* ===== verification/MatchingSpec.v ===== *)
(** * Price-time priority matching, abstractly

    The specification of the matching engine on the abstract book, the list of
    resting orders oldest first, and its consequences: which resting orders an
    incoming order meets and in which order ([priority]), how much it takes from
    each ([fills]), and the book, the trades and the sequence numbers after it
    ([spec_submit]).  [MatchingProofs] shows that the engine computes it. *)

From Stdlib Require Import Sorted.
From S2P Require Import Prelude Types PriceLevel Bitmap OrderBook BookStore.

(** ** Specification *)

(** The orders of one side, best price first and oldest first within a price:
    a stable insertion sort. *)
Fixpoint prio_insert (s : Side) (x : LimitOrder) (l : list LimitOrder) : list LimitOrder :=
  match l with
  | [] => [x]
  | y :: l' =>
      if bool_decide (better_eq s (lo_price x) (lo_price y)) then x :: l else y :: prio_insert s x l'
  end.

Fixpoint priority (s : Side) (A : list LimitOrder) : list LimitOrder :=
  match A with
  | [] => []
  | x :: A => if bool_decide (lo_side x = s) then prio_insert s x (priority s A) else priority s A
  end.

(** A resting order [r] is acceptable to an order of side [s] and limit [p]. *)
Definition crosses (s : Side) (p : Price) (r : LimitOrder) : bool :=
  bool_decide (better_eq s p (lo_price r)).

(** What an order of side [s], limit [p] and quantity [q] takes from the resting
    orders [l], met in this order. *)
Fixpoint fills (s : Side) (p : Price) (q : Quantity) (l : list LimitOrder)
    : list (LimitOrder * Quantity) :=
  match l with
  | [] => []
  | r :: l =>
      if (0 <? q) && crosses s p r then
        let t := Z.min q (lo_quantity r) in (r, t) :: fills s p (q - t) l
      else []
  end.

Definition filled (F : list (LimitOrder * Quantity)) : Z := foldr Z.add 0 F.*2.

Definition apply_fills (A : list LimitOrder) (F : list (LimitOrder * Quantity)) : list LimitOrder :=
  foldl (fun A f => spec_reduce (lo_id f.1) f.2 A) A F.

(** A trade is at the price of the resting order. *)
Definition spec_trade (seq : Z) (x r : LimitOrder) (t : Quantity) : Trade :=
  match lo_side x with
  | Buy => mkTrade seq (lo_id x) (lo_id r) (lo_account x) (lo_account r) (lo_price r) t
  | Sell => mkTrade seq (lo_id r) (lo_id x) (lo_account r) (lo_account x) (lo_price r) t
  end.

Fixpoint spec_trades (seq : Z) (x : LimitOrder) (F : list (LimitOrder * Quantity)) : list Trade :=
  match F with
  | [] => []
  | f :: F => spec_trade (seq + 1) x f.1 f.2 :: spec_trades (seq + 1) x F
  end.

Record spec_state : Type := mkSpec {
  sp_book : list LimitOrder;
  sp_sequence : Z
}.

(** Submitting an order: its id (0 when the pool is exhausted), the trades and
    the state after. *)
Definition spec_submit (st : spec_state) (account : AccountId) (s : Side) (p : Price) (q : Quantity)
    : OrderId * list Trade * spec_state :=
  if Z.of_nat (length (sp_book st)) =? DefaultOrderCapacity then (0, [], st)
  else
    let id := sp_sequence st + 1 in
    let x := mkLimit id account s p q in
    let F := fills s p q (priority (opposite s) (sp_book st)) in
    let A := apply_fills (sp_book st) F in
    let rest := q - filled F in
    (id, spec_trades id x F,
     mkSpec (if 0 <? rest then A ++ [lo_set_quantity rest x] else A) (id + Z.of_nat (length F))).

(** ** Priority *)

Lemma better_eq_trans s p q r : better_eq s p q -> better_eq s q r -> better_eq s p r.
Proof. destruct s; cbn; lia. Qed.

Lemma better_eq_total s p q : ~ better_eq s p q -> better_eq s q p /\ p <> q.
Proof. destruct s; cbn; lia. Qed.

Lemma better_eq_refl s p : better_eq s p p.
Proof. destruct s; cbn; lia. Qed.

#[export] Hint Resolve better_eq_refl better_eq_trans : hft.

Lemma elem_of_prio_insert s x y l : y ∈ prio_insert s x l <-> y = x \/ y ∈ l.
Proof. induction l as [|z l IH]; cbn; [set_solver|]. bcase; set_solver. Qed.

Lemma elem_of_priority s A x : x ∈ priority s A <-> x ∈ A /\ lo_side x = s.
Proof.
  induction A as [|y A IH]; cbn; [set_solver|]. bcase.
  - rewrite elem_of_prio_insert, IH. set_solver.
  - rewrite IH. set_solver.
Qed.

Lemma priority_nil s A : priority s A = [] -> forall x, x ∈ A -> lo_side x <> s.
Proof.
  intros E x Hx Hs. assert (x ∈ priority s A) as H by (by apply elem_of_priority).
  rewrite E in H. set_solver.
Qed.

(** The first order of the list is the oldest one at the best price. *)
Lemma priority_head s A r l :
  priority s A = r :: l ->
  (forall x, x ∈ A -> lo_side x = s -> better_eq s (lo_price r) (lo_price x)) /\
  head (filter (in_queue s (lo_price r)) A) = Some r.
Proof.
  revert r l. induction A as [|x A IH]; cbn [priority]; intros r l E; [done|].
  rewrite filter_cons. case_bool_decide as Hs.
  2:{ destruct (IH _ _ E) as [H1 H2]. rewrite decide_False by (unfold in_queue; tauto).
      split; [set_solver|done]. }
  destruct (priority s A) as [|y m] eqn:EA; cbn in E.
  - injection E as <- <-. rewrite decide_True by done. split; [|done].
    intros z [->|Hz]%elem_of_cons Hzs; eauto with hft.
    by destruct (priority_nil _ _ EA z Hz).
  - destruct (IH y m eq_refl) as [H1 H2]. case_bool_decide as Hb; injection E as <- <-.
    + rewrite decide_True by done. split; [|done].
      intros z [->|Hz]%elem_of_cons Hzs; eauto with hft.
    + apply better_eq_total in Hb as [Hb Hne]. rewrite decide_False by (unfold in_queue; naive_solver).
      split; [|done]. intros z [->|Hz]%elem_of_cons Hzs; eauto with hft.
Qed.

(** The head of the list decides whether an order crosses. *)
Lemma no_cross_head s p A :
  (forall r, r ∈ A -> lo_side r = opposite s -> crosses s p r = false) ->
  (match priority (opposite s) A with [] => false | r :: _ => crosses s p r end) = false.
Proof.
  intros Hc. destruct (priority (opposite s) A) as [|r l] eqn:Ep; [done|].
  assert (r ∈ A /\ lo_side r = opposite s) as [Hr Hrs]; [|by apply Hc].
  apply elem_of_priority. rewrite Ep. by left.
Qed.

(** Sorted by priority. *)
Definition prio_sorted (s : Side) : list LimitOrder -> Prop :=
  StronglySorted (fun x y => better_eq s (lo_price x) (lo_price y)).

Lemma prio_insert_sorted s x l : prio_sorted s l -> prio_sorted s (prio_insert s x l).
Proof.
  induction 1 as [|y l Hl IH HF]; cbn; [by repeat constructor|]. bcase.
  - constructor; [by constructor|]. constructor; [done|].
    eapply Forall_impl; [exact HF|]. intros z ?. cbn. eauto with hft.
  - constructor; [done|]. apply Forall_forall. intros z [->|Hz]%elem_of_prio_insert.
    + by apply better_eq_total.
    + rewrite Forall_forall in HF. by apply HF.
Qed.

Lemma priority_sorted s A : prio_sorted s (priority s A).
Proof. induction A as [|x A IH]; cbn; [constructor|]. bcase; [by apply prio_insert_sorted|done]. Qed.

Lemma prio_insert_first s x l :
  (forall y, y ∈ l -> better_eq s (lo_price x) (lo_price y)) -> prio_insert s x l = x :: l.
Proof.
  destruct l as [|y l]; intros H; cbn; [done|]. rewrite bool_decide_true; [done|]. apply H. by left.
Qed.

Lemma filter_prio_insert (P : LimitOrder -> Prop) `{!forall x, Decision (P x)} s x l :
  prio_sorted s l ->
  filter P (prio_insert s x l) = if decide (P x) then prio_insert s x (filter P l) else filter P l.
Proof.
  induction 1 as [|y l Hl IH HF]; cbn [prio_insert].
  - rewrite filter_cons, filter_nil. by case_decide.
  - case_bool_decide as Hb.
    + rewrite (filter_cons _ x). case_decide; [|done]. symmetry. apply prio_insert_first.
      intros z [_ [->|Hz]%elem_of_cons]%list_elem_of_filter; [done|].
      rewrite Forall_forall in HF. eauto with hft.
    + rewrite !filter_cons. rewrite IH. repeat case_decide; cbn; try done.
      by rewrite bool_decide_false.
Qed.

Lemma priority_filter (P : LimitOrder -> Prop) `{!forall x, Decision (P x)} s A :
  priority s (filter P A) = filter P (priority s A).
Proof.
  induction A as [|x A IH]; [done|]. rewrite filter_cons. cbn [priority]. case_decide as HP.
  - cbn [priority]. case_bool_decide; [|done].
    rewrite filter_prio_insert by apply priority_sorted. by rewrite decide_True, IH.
  - case_bool_decide; [|done]. rewrite filter_prio_insert by apply priority_sorted.
    by rewrite decide_False.
Qed.

(** Changing a quantity does not change the order. *)
Lemma priority_set_quantity id q s A :
  priority s (spec_set_quantity id q A) = spec_set_quantity id q (priority s A).
Proof.
  unfold spec_set_quantity.
  set (f := fun y => if lo_id y =? id then lo_set_quantity q y else y).
  induction A as [|x A IH]; [done|]. rewrite fmap_cons. cbn [priority].
  assert (forall y, lo_side (f y) = lo_side y /\ lo_price (f y) = lo_price y) as Hf
    by (intros y; unfold f; by bcase).
  destruct (Hf x) as [-> Hp]. case_bool_decide; [|done]. rewrite IH.
  generalize (priority s A). intros l. induction l as [|y l IHl]; [done|].
  cbn [prio_insert fmap list_fmap]. destruct (Hf y) as [_ Hpy]. rewrite Hp, Hpy.
  case_bool_decide; [done|]. cbn [fmap list_fmap]. by rewrite IHl.
Qed.

Lemma prio_insert_perm s x l : prio_insert s x l ≡ₚ x :: l.
Proof.
  induction l as [|y l IH]; cbn; [done|]. case_bool_decide; [done|]. rewrite IH. constructor.
Qed.

Lemma priority_perm s A : priority s A ≡ₚ filter (fun x => lo_side x = s) A.
Proof.
  induction A as [|x A IH]; [done|]. cbn [priority]. rewrite filter_cons. case_bool_decide.
  - by rewrite decide_True, prio_insert_perm, IH.
  - by rewrite decide_False.
Qed.

(** ** Well-formed abstract books *)

(** Live ids are unique and quantities are positive values of 32 bits. *)
Record book_wf (A : list LimitOrder) : Prop := {
  wf_ids : NoDup (lo_id <$> A);
  wf_quantities : Forall (fun x => 0 < lo_quantity x < 2 ^ 32) A
}.

Lemma nodup_ids_sublist (P : LimitOrder -> Prop) `{!forall x, Decision (P x)} A :
  NoDup (lo_id <$> A) -> NoDup (lo_id <$> filter P A).
Proof.
  intros Hnd. eapply sublist_NoDup; [exact Hnd|]. apply fmap_sublist. apply sublist_filter.
Qed.

Lemma spec_set_quantity_other id q A :
  (forall y, y ∈ A -> lo_id y <> id) -> spec_set_quantity id q A = A.
Proof.
  intros HA. unfold spec_set_quantity. rewrite <- (list_fmap_id A) at 2. apply list_fmap_ext.
  intros i y Hy%list_elem_of_lookup_2. by rewrite (proj2 (Z.eqb_neq _ _)) by (by apply HA).
Qed.

(** Taking [t] from the first order of the list. *)
Lemma priority_reduce s A r l t :
  NoDup (lo_id <$> A) -> priority s A = r :: l -> 0 < t <= lo_quantity r ->
  priority s (spec_reduce (lo_id r) t A) =
    if t =? lo_quantity r then l else lo_set_quantity (lo_quantity r - t) r :: l.
Proof.
  intros Hnd El Ht.
  assert (r ∈ A) as Hr by (apply (elem_of_priority s); rewrite El; by left).
  assert (NoDup (lo_id <$> r :: l)) as Hndl.
  { rewrite <- El, priority_perm. by apply nodup_ids_sublist. }
  cbn in Hndl. apply NoDup_cons in Hndl as [Hnl _].
  assert (forall y, y ∈ l -> lo_id y <> lo_id r) as Hne.
  { intros y Hy E. apply Hnl. rewrite <- E. by apply list_elem_of_fmap_2. }
  unfold spec_reduce. rewrite (spec_find_member _ _ Hnd Hr).
  rewrite (proj2 (Z.eqb_neq t 0)) by lia. rewrite Z.gtb_ltb, (proj2 (Z.ltb_ge _ _)) by lia.
  cbn [orb]. bcase.
  - unfold spec_delete. rewrite priority_filter, El, filter_cons_False by naive_solver.
    apply spec_delete_none, Hne.
  - rewrite priority_set_quantity, El.
    change (spec_set_quantity ?id ?q (r :: l)) with
      ((if lo_id r =? id then lo_set_quantity q r else r) :: spec_set_quantity id q l).
    by rewrite Z.eqb_refl, spec_set_quantity_other.
Qed.

Lemma spec_reduce_member id t A x :
  x ∈ spec_reduce id t A -> exists y, y ∈ A /\ lo_id x = lo_id y /\ lo_account x = lo_account y /\
    lo_side x = lo_side y /\ lo_price x = lo_price y.
Proof.
  unfold spec_reduce. case_match; [|by exists x]. bcase; [by exists x|]. bcase.
  - intros [_ Hx]%list_elem_of_filter. by exists x.
  - intros (y & -> & Hy)%list_elem_of_fmap. exists y. by bcase.
Qed.

Lemma spec_reduce_wf id t A : book_wf A -> 0 < t -> book_wf (spec_reduce id t A).
Proof.
  intros [Hnd HF] Ht. unfold spec_reduce. destruct (spec_find id A) as [x|] eqn:E; [|done].
  apply List.find_some in E as [Hx%list_elem_of_In _]. rewrite Forall_forall in HF.
  pose proof (HF x Hx) as Hq. bcase; [by split; [|apply Forall_forall]|]. bcase; split.
  - by apply nodup_ids_sublist.
  - apply Forall_filter_keep. by apply Forall_forall.
  - unfold spec_set_quantity. rewrite <- list_fmap_compose.
    rewrite (list_fmap_ext _ lo_id A); [done|]. intros i y _. cbn. by bcase.
  - apply Forall_forall. intros y (z & -> & Hz)%list_elem_of_fmap.
    pose proof (HF z Hz). bcase; cbn; lia.
Qed.

Lemma total_quantity_app A1 A2 : total_quantity (A1 ++ A2) = total_quantity A1 + total_quantity A2.
Proof. unfold total_quantity. induction A1 as [|x A1 IH]; cbn in *; lia. Qed.

Lemma total_quantity_cons x A : total_quantity (x :: A) = lo_quantity x + total_quantity A.
Proof. done. Qed.

(** Taking [t] from an order changes nothing else. *)
Lemma spec_reduce_split A x t :
  book_wf A -> x ∈ A -> 0 < t <= lo_quantity x ->
  exists A1 A2, A = A1 ++ x :: A2 /\
    spec_reduce (lo_id x) t A =
    A1 ++ (if t =? lo_quantity x then [] else [lo_set_quantity (lo_quantity x - t) x]) ++ A2.
Proof.
  intros [Hnd HF] Hx Ht. unfold spec_reduce. rewrite (spec_find_member _ _ Hnd Hx).
  rewrite (proj2 (Z.eqb_neq t 0)) by lia. rewrite Z.gtb_ltb, (proj2 (Z.ltb_ge _ _)) by lia.
  cbn [orb]. apply list_elem_of_split in Hx as (A1 & A2 & ->). exists A1, A2. split; [done|].
  assert (forall y, y ∈ A1 \/ y ∈ A2 -> lo_id y <> lo_id x) as Hne.
  { rewrite fmap_app, fmap_cons in Hnd. apply nodup_middle in Hnd as (_ & H1 & H2 & _).
    intros y [Hy|Hy] E; [apply H1|apply H2]; rewrite <- E; by apply list_elem_of_fmap_2. }
  bcase; [by apply spec_delete_app; naive_solver|].
  unfold spec_set_quantity at 1. rewrite fmap_app, fmap_cons, Z.eqb_refl.
  change ((fun y => if lo_id y =? lo_id x then lo_set_quantity (lo_quantity x - t) y else y) <$> ?B)
    with (spec_set_quantity (lo_id x) (lo_quantity x - t) B).
  by rewrite !spec_set_quantity_other by naive_solver.
Qed.

Lemma spec_reduce_total A x t :
  book_wf A -> x ∈ A -> 0 < t <= lo_quantity x ->
  total_quantity (spec_reduce (lo_id x) t A) = total_quantity A - t.
Proof.
  intros Hwf Hx Ht. destruct (spec_reduce_split A x t Hwf Hx Ht) as (A1 & A2 & -> & ->).
  rewrite !total_quantity_app, total_quantity_cons. bcase; cbn [total_quantity]; unfold total_quantity;
    cbn [fmap list_fmap foldr lo_quantity lo_set_quantity]; lia.
Qed.

(** ** What is left of the other side *)

Fixpoint leftover (s : Side) (p : Price) (q : Quantity) (l : list LimitOrder) : list LimitOrder :=
  match l with
  | [] => []
  | r :: l' =>
      if (0 <? q) && crosses s p r then
        let t := Z.min q (lo_quantity r) in
        if t =? lo_quantity r then leftover s p (q - t) l'
        else lo_set_quantity (lo_quantity r - t) r :: l'
      else l
  end.

Lemma fills_zero s p l : fills s p 0 l = [].
Proof. by destruct l. Qed.

Lemma fills_spec s p q A :
  book_wf A ->
  let l := priority (opposite s) A in let F := fills s p q l in
  book_wf (apply_fills A F) /\
  priority (opposite s) (apply_fills A F) = leftover s p q l /\
  total_quantity (apply_fills A F) = total_quantity A - filled F /\
  (0 <= q -> 0 <= filled F <= q) /\
  (length F <= length l)%nat /\
  (forall x, x ∈ apply_fills A F -> exists y, y ∈ A /\ lo_id x = lo_id y /\ lo_account x = lo_account y /\
     lo_side x = lo_side y /\ lo_price x = lo_price y).
Proof.
  intros Hwf l. remember l as l0 eqn:El. subst l. revert q A Hwf El.
  induction l0 as [|r l IH]; intros q A Hwf El; cbn [fills leftover].
  - unfold apply_fills, filled. cbn [foldl foldr fmap list_fmap length].
    split_and!; [done..|lia|lia|lia|naive_solver].
  - bcase; [|unfold apply_fills, filled; cbn [foldl foldr fmap list_fmap length];
      split_and!; [done..|lia|lia|lia|naive_solver]].
    set (t := Z.min q (lo_quantity r)).
    assert (r ∈ A) as Hr by (apply (elem_of_priority (opposite s)); rewrite <- El; by left).
    pose proof (wf_quantities _ Hwf) as HF. rewrite Forall_forall in HF. specialize (HF r Hr).
    assert (0 < t <= lo_quantity r) as Ht by lia.
    pose proof (spec_reduce_wf (lo_id r) t A Hwf ltac:(lia)) as Hwf1.
    pose proof (priority_reduce _ _ _ _ _ (wf_ids _ Hwf) (eq_sym El) Ht) as Hp1.
    pose proof (spec_reduce_total _ _ _ Hwf Hr Ht) as Ht1.
    destruct (Z.eqb_spec t (lo_quantity r)) as [Et|Et].
    + destruct (IH (q - t) _ Hwf1 (eq_sym Hp1)) as (H1 & H2 & H3 & H4 & H5 & H6).
      unfold apply_fills, filled in *. cbn [foldl foldr fmap list_fmap length fst snd].
      split_and!; [done|done|rewrite H3; lia|lia|lia|].
      intros x (y & Hy & E1 & E2 & E3 & E4)%H6. apply spec_reduce_member in Hy as (z & ? & ? & ? & ? & ?).
      exists z. split_and!; congruence.
    + replace (q - t) with 0 by lia. rewrite fills_zero. unfold apply_fills, filled.
      cbn [foldl foldr fmap list_fmap length fst snd].
      split_and!; [done|done|lia|lia|lia|]. intros x Hx%spec_reduce_member. done.
Qed.

(** An order that is not fully filled crosses nothing that is left. *)
Lemma leftover_uncrossed s p q l :
  prio_sorted (opposite s) l -> 0 < q - filled (fills s p q l) ->
  forall r, r ∈ leftover s p q l -> crosses s p r = false.
Proof.
  intros Hs. revert q. induction Hs as [|r l Hl IH HF]; intros q Hq x; cbn [fills leftover] in *;
    [set_solver|].
  bcase.
  - set (t := Z.min q (lo_quantity r)) in *. unfold filled in Hq. cbn [fmap list_fmap foldr snd] in Hq.
    destruct (Z.eqb_spec t (lo_quantity r)).
    + apply IH. unfold filled. lia.
    + replace (q - t) with 0 in Hq by lia. rewrite fills_zero in Hq. cbn in Hq. lia.
  - assert (0 < q) by (cbn in Hq; lia). destruct E as [E|E]; bprop; [lia|].
    unfold crosses in *. bprop. rewrite Forall_forall in HF.
    intros [->|Hx]%elem_of_cons; apply bool_decide_eq_false; [done|].
    specialize (HF x Hx). destruct s; cbn in *; lia.
Qed.

(** ** Invariant of the abstract engine *)

(** No buy order rests at or above a resting sell order. *)
Definition uncrossed (A : list LimitOrder) : Prop :=
  forall x y, x ∈ A -> y ∈ A -> lo_side x = Buy -> lo_side y = Sell -> lo_price x < lo_price y.

Record spec_inv (st : spec_state) : Prop := {
  si_wf : book_wf (sp_book st);
  si_ids : Forall (fun x => 0 < lo_id x <= sp_sequence st) (sp_book st);
  si_seq : 0 <= sp_sequence st;
  si_uncrossed : uncrossed (sp_book st)
}.

Lemma uncrossed_add s A x :
  uncrossed A -> lo_side x = s ->
  (forall r, r ∈ A -> lo_side r = opposite s -> crosses s (lo_price x) r = false) ->
  uncrossed (A ++ [x]).
Proof.
  intros HA Hs Hx a b Ha Hb Has Hbs. rewrite elem_of_app, elem_of_cons in Ha, Hb.
  destruct Ha as [Ha|[->|Ha]]; [| |set_solver]; (destruct Hb as [Hb|[->|Hb]]; [| |set_solver]).
  - by apply HA.
  - specialize (Hx a Ha). subst s. rewrite Hbs in Hx. specialize (Hx Has).
    unfold crosses in Hx. bprop. cbn in Hx. lia.
  - specialize (Hx b Hb). subst s. rewrite Has in Hx. specialize (Hx Hbs).
    unfold crosses in Hx. bprop. cbn in Hx. lia.
  - congruence.
Qed.

Lemma spec_submit_inv st account s p q :
  spec_inv st -> 0 < q < 2 ^ 32 -> spec_inv (spec_submit st account s p q).2.
Proof.
  intros [Hwf Hids Hseq Hun] Hq. unfold spec_submit. bcase; [by constructor|]. cbn [snd].
  destruct (fills_spec s p q (sp_book st) Hwf) as (Hwf' & Hleft & _ & Hfill & _ & Hmem).
  pose proof (leftover_uncrossed s p q _ (priority_sorted (opposite s) (sp_book st))) as Hrest.
  rewrite <- Hleft in Hrest.
  set (F := fills s p q _) in *. set (A := apply_fills _ F) in *.
  set (x := mkLimit (sp_sequence st + 1) account s p q).
  rewrite Forall_forall in Hids.
  assert (uncrossed A) as HunA.
  { intros a b Ha Hb. destruct (Hmem _ Ha) as (a' & Ha' & _ & _ & -> & ->).
    destruct (Hmem _ Hb) as (b' & Hb' & _ & _ & -> & ->). by apply Hun. }
  assert (forall y, y ∈ A -> 0 < lo_id y <= sp_sequence st) as HidsA.
  { intros y Hy. destruct (Hmem _ Hy) as (y' & Hy' & -> & _). by apply Hids. }
  constructor; cbn [sp_book sp_sequence].
  - bcase; [|done]. destruct Hwf' as [Hnd HFq]. constructor.
    + rewrite fmap_app. apply NoDup_app. split; [done|]. split; [|apply NoDup_singleton].
      intros i (y & -> & Hy)%list_elem_of_fmap Hx. cbn in Hx. apply list_elem_of_singleton in Hx.
      specialize (HidsA y Hy). lia.
    + apply Forall_app. split; [done|]. constructor; [cbn; lia|constructor].
  - apply Forall_forall. intros y Hy.
    assert (y ∈ A \/ lo_id y = sp_sequence st + 1) as [Hy'| ->]; [|specialize (HidsA y Hy')|]; [|lia..].
    revert Hy. bcase; [|by left]. intros [|Hy%list_elem_of_singleton]%elem_of_app; [by left|].
    right. by subst.
  - lia.
  - bcase; [|done]. apply (uncrossed_add s); [done|done|]. intros r Hr Hrs. apply Hrest; [lia|].
    by apply elem_of_priority.
Qed.

(** ** Which orders are filled *)

(** The orders met are a prefix of the priority list; each gives a positive
    quantity within its limit price, and all but the last give all they have. *)
Lemma fills_prefix s p q l : (fills s p q l).*1 `prefix_of` l.
Proof.
  revert q. induction l as [|r l IH]; intros q; cbn [fills]; [done|]. bcase.
  - cbn. apply prefix_cons, IH.
  - apply prefix_nil.
Qed.

Lemma fills_each s p q l :
  Forall (fun x => 0 < lo_quantity x) l ->
  Forall (fun f => 0 < f.2 <= lo_quantity f.1 /\ better_eq s p (lo_price f.1)) (fills s p q l).
Proof.
  intros HF. revert q. induction HF as [|r l Hr HF IH]; intros q; cbn [fills]; [constructor|].
  bcase; [|constructor]. constructor; [|apply IH]. unfold crosses in *. bprop. cbn. split; [lia|done].
Qed.

Lemma fills_full s p q l F f :
  Forall (fun x => 0 < lo_quantity x) l -> fills s p q l = F ++ [f] ->
  Forall (fun f => f.2 = lo_quantity f.1) F.
Proof.
  intros HF. revert q F. induction HF as [|r l Hr HF IH]; intros q F EF; cbn [fills] in EF.
  { by destruct F. }
  destruct ((0 <? q) && _) eqn:E; [|by destruct F]. bprop.
  destruct F as [|f1 F]; [constructor|]. cbn in EF. injection EF as <- EF.
  constructor; [|by eapply IH]. cbn. destruct (Z.le_gt_cases (lo_quantity r) q); [lia|].
  rewrite Z.min_l, Z.sub_diag, fills_zero in EF by lia. by destruct F.
Qed.

(** Two trades of one order: the earlier one is at the better price. *)
Lemma fills_sorted s p q A :
  StronglySorted (fun f1 f2 => better_eq (opposite s) (lo_price f1.1) (lo_price f2.1))
    (fills s p q (priority (opposite s) A)).
Proof.
  pose proof (priority_sorted (opposite s) A) as Hs. revert q.
  induction Hs as [|r l Hl IH HF]; intros q; cbn [fills]; [constructor|]. bcase; [|constructor].
  constructor; [apply IH|]. apply Forall_forall. intros f Hf. rewrite Forall_forall in HF. apply HF.
  apply (list_elem_of_fmap_2 fst) in Hf.
  destruct (fills_prefix s p (q - Z.min q (lo_quantity r)) l) as [k Hk]. rewrite Hk.
  apply elem_of_app. by left.
Qed.

Lemma spec_trades_quantities seq x F : trade_quantity <$> spec_trades seq x F = F.*2.
Proof.
  revert seq. induction F as [|f F IH]; intros seq; [done|]. cbn. rewrite IH.
  unfold spec_trade. by destruct (lo_side x).
Qed.

Lemma spec_trades_prices seq x F : trade_price <$> spec_trades seq x F = (fun f => lo_price f.1) <$> F.
Proof.
  revert seq. induction F as [|f F IH]; intros seq; [done|]. cbn. rewrite IH.
  unfold spec_trade. by destruct (lo_side x).
Qed.

Lemma spec_trades_sequences seq x F :
  trade_sequence <$> spec_trades seq x F = seqZ (seq + 1) (Z.of_nat (length F)).
Proof.
  revert seq. induction F as [|f F IH]; intros seq; [done|].
  cbn [spec_trades fmap list_fmap length]. rewrite IH, (seqZ_cons (seq + 1)) by lia.
  f_equal; [unfold spec_trade; by destruct (lo_side x)|]. f_equal; lia.
Qed.

(** Every fill takes part of a resting order of the other side. *)
Lemma fills_members s p q A :
  book_wf A ->
  Forall (fun f => f.1 ∈ A /\ lo_side f.1 = opposite s /\ 0 < f.2 <= lo_quantity f.1)
    (fills s p q (priority (opposite s) A)).
Proof.
  intros Hwf. pose proof (wf_quantities _ Hwf) as HF. rewrite Forall_forall in HF.
  assert (Forall (fun x => 0 < lo_quantity x) (priority (opposite s) A)) as Hp.
  { apply Forall_forall. intros y [Hy _]%elem_of_priority. apply HF in Hy. lia. }
  pose proof (fills_each s p q _ Hp) as He. rewrite Forall_forall in He.
  pose proof (fills_prefix s p q (priority (opposite s) A)) as [l' El].
  apply Forall_forall. intros f Hf.
  assert (f.1 ∈ priority (opposite s) A) as [Hb Hs]%elem_of_priority.
  { rewrite El, elem_of_app. left. by apply list_elem_of_fmap_2. }
  destruct (He f Hf) as [? _]. done.
Qed.

Lemma spec_trades_forall (P : Quantity -> Price -> Prop) seq x F :
  Forall (fun f => P f.2 (lo_price f.1)) F ->
  Forall (fun t => P (trade_quantity t) (trade_price t)) (spec_trades seq x F).
Proof.
  intros HF. revert seq. induction HF as [|f F Hf HF IH]; intros seq; cbn; constructor; [|apply IH].
  unfold spec_trade. by destruct (lo_side x).
Qed.

Lemma spec_trades_sorted s seq x F :
  StronglySorted (fun f1 f2 => better_eq s (lo_price f1.1) (lo_price f2.1)) F ->
  StronglySorted (better_eq s) (trade_price <$> spec_trades seq x F).
Proof.
  rewrite spec_trades_prices. induction 1 as [|f F HS IH HF]; cbn; [constructor|].
  constructor; [done|]. by apply Forall_fmap.
Qed.

(** The trades of a submission. *)
Lemma spec_submit_trades st account s p q :
  spec_inv st -> 0 < q < 2 ^ 32 ->
  let '(id, trades, st') := spec_submit st account s p q in
  trade_sequence <$> trades = seqZ (id + 1) (Z.of_nat (length trades)) /\
  Forall (fun t => 0 < trade_quantity t /\ better_eq s p (trade_price t)) trades /\
  StronglySorted (better_eq (opposite s)) (trade_price <$> trades) /\
  (id <> 0 -> foldr Z.add 0 (trade_quantity <$> trades) < q ->
   forall r, r ∈ sp_book st' -> lo_side r = opposite s -> ~ better_eq s p (lo_price r)).
Proof.
  intros I Hq. unfold spec_submit. bcase.
  { split; [done|]. split; [constructor|]. split; [constructor|done]. }
  set (x := mkLimit _ _ _ _ _). set (F := fills _ _ _ _).
  assert (length (spec_trades (sp_sequence st + 1) x F) = length F) as Hl.
  { rewrite <- (length_fmap trade_quantity), spec_trades_quantities. apply length_fmap. }
  split; [by rewrite Hl, spec_trades_sequences|]. split; [|split].
  - apply (spec_trades_forall (fun t r => 0 < t /\ better_eq s p r)).
    eapply Forall_impl; [apply fills_each|cbn; naive_solver].
    apply Forall_forall. intros y [Hy _]%elem_of_priority.
    pose proof (wf_quantities _ (si_wf _ I)) as HF. rewrite Forall_forall in HF.
    by apply HF in Hy as [? _].
  - apply spec_trades_sorted, fills_sorted.
  - intros _ Hlt r Hr Hrs. rewrite spec_trades_quantities in Hlt. cbn [sp_book] in Hr.
    destruct (fills_spec s p q _ (si_wf _ I)) as (_ & Hleft & _). fold F in Hleft.
    assert (crosses s p r = false) as Hc; [|unfold crosses in Hc; by bprop].
    apply (leftover_uncrossed s p q _ (priority_sorted (opposite s) (sp_book st)));
      [unfold filled; fold F; lia|]. rewrite <- Hleft. apply elem_of_priority. split; [|done].
    revert Hr. bcase; [|done]. intros [?|Hr%list_elem_of_singleton]%elem_of_app; [done|].
    subst r. cbn in Hrs. by destruct s.
Qed.

(** The quantities of a submission. *)
Lemma spec_submit_quantities st account s p q :
  spec_inv st -> 0 < q ->
  let '(id, trades, st') := spec_submit st account s p q in
  (id = 0 /\ Z.of_nat (length (sp_book st)) = DefaultOrderCapacity /\ st' = st /\ trades = []) \/
  (0 < id /\ Z.of_nat (length (sp_book st)) <> DefaultOrderCapacity /\
   let T := foldr Z.add 0 (trade_quantity <$> trades) in
   0 <= T <= q /\ total_quantity (sp_book st') = total_quantity (sp_book st) + q - 2 * T).
Proof.
  intros I Hq. unfold spec_submit. bcase; [by left|right]. pose proof (si_seq _ I).
  split; [lia|]. split; [done|].
  destruct (fills_spec s p q _ (si_wf _ I)) as (_ & _ & Ht & Hf & _ & _).
  cbn zeta. rewrite spec_trades_quantities. unfold filled in *. cbn [sp_book].
  split; [apply Hf; lia|].
  bcase; rewrite ?total_quantity_app, ?total_quantity_cons, Ht; [|lia].
  cbn [lo_set_quantity lo_quantity]. unfold total_quantity at 2. cbn. lia.
Qed.
