(* ===== verification/MatchingProofs.v ===== *)
(** * The matching engine implements price-time priority

    The engine of [MatchingEngine] computes the specification of [MatchingSpec]:
    one iteration of the matching loop takes one fill, the loop terminates within
    its fuel, and a submitted order leaves the engine in the state the
    specification gives, with each trade published once and in order. *)

From Stdlib Require Import Sorted.
From S2P Require Import Prelude Types FixedHashMap OrderPool PriceLevel Bitmap OrderBook.
From S2P Require Import OrderBookProofs BookStore MatchingEngine MatchingSpec.

Section matching_proofs.

Context (std_hash : Z -> Z) {E : Type} (publish : Trade -> E -> E).

Abbreviation store_rel := (store_rel std_hash).
Abbreviation matchOne := (MatchingEngine_matchOne std_hash publish).
Abbreviation loop := (executeTrade_loop std_hash publish).

(** [publish] applied to the trades in order. *)
Definition publish_all (trades : list Trade) (e : E) : E := foldl (fun e t => publish t e) e trades.

(** ** More about the store *)

Lemma abs_delete b p h held L1 o L2 :
  store_rel b p h held (L1 ++ o :: L2) ->
  spec_delete (lo_id (view_of h o)) (abs h (L1 ++ o :: L2)) = abs h (L1 ++ L2).
Proof.
  intros R. pose proof (store_ids_nodup _ _ _ _ _ _ R) as Hnd. unfold abs in *.
  rewrite !fmap_app, !fmap_cons in *. apply nodup_middle in Hnd as (_ & H1 & H2 & _).
  apply spec_delete_app; [| |done]; intros y Hy Ey; [apply H1|apply H2]; rewrite <- Ey;
    by apply list_elem_of_fmap_2.
Qed.

Lemma store_set_total b p h held L s q t :
  store_rel b p h held L ->
  store_rel (write_level b (s, q)
    (mkPriceLevel (lvl_price (level b s q)) (lvl_head (level b s q)) (lvl_tail (level b s q)) t))
    p h held L.
Proof.
  intros [[Idx RB] Hnd Hp Hc Hac Hh]. constructor; try done. exists Idx. by apply book_rel_set_total.
Qed.

(** Taking [t] from the total of the level and from the order keeps the totals. *)
Lemma store_totals_fill b p h held L o ord t :
  store_rel b p h held L -> store_totals b h L -> o ∈ L -> h !! o = Some ord ->
  let s := ord_side ord in let q := ord_price ord in
  store_totals
    (write_level b (s, q)
       (mkPriceLevel (lvl_price (level b s q)) (lvl_head (level b s q)) (lvl_tail (level b s q))
          (u32 (lvl_total_quantity (level b s q) - t))))
    (<[o := set_quantity (ord_quantity ord - t) ord]> h) L.
Proof.
  intros R Ht Hin Ho s q s' q'. rewrite level_write. cbn [fst snd].
  rewrite (queue_of_ext h).
  2:{ intros x _. unfold view_of. rewrite lookup_insert. case_decide; [subst; by rewrite Ho|done]. }
  rewrite total_of_set_quantity by (done || by eapply store_queue_nodup).
  assert (o ∈ queue_of h L s' q' <-> s' = s /\ q' = q) as Hiff.
  { rewrite elem_of_queue, (view_of_lookup _ _ _ Ho). unfold in_queue. cbn. naive_solver. }
  case_decide as Eq; case_decide as Ein; try naive_solver.
  destruct Eq as [-> ->]. cbn. rewrite Ht, wrap_sub_l. f_equal. unfold no_excess. lia.
Qed.

(** ** The best order of the other side *)

Definition best_ptr (b : ArrayOrderBook) (s : Side) : level_ptr :=
  match s with Buy => ArrayOrderBook_bestBid b | Sell => ArrayOrderBook_bestAsk b end.

Lemma best_ptr_eq b s :
  best_ptr b s = if best b s =? 0 then None else Some (s, priceToIndex (best b s)).
Proof. by destruct s. Qed.

Lemma best_of_priority b p h held L s :
  store_rel b p h held L ->
  match priority s (abs h L) with
  | [] => best_ptr b s = None
  | r :: _ =>
      exists o ord, best_ptr b s = Some (s, lo_price r) /\
        read_level b (s, lo_price r) = Some (level b s (lo_price r)) /\
        lvl_price (level b s (lo_price r)) = lo_price r /\
        PriceLevel_front (level b s (lo_price r)) = Some o /\
        o ∈ L /\ h !! o = Some ord /\ view ord = r /\
        ord_side ord = s /\ ord_level ord = Some (s, lo_price r)
  end.
Proof.
  intros R. destruct (st_book _ _ _ _ _ _ R) as [Idx RB]. rewrite best_ptr_eq.
  destruct (priority s (abs h L)) as [|r l] eqn:El.
  - destruct (rel_best _ _ _ _ _ RB s) as [[-> _]|(_ & Hne & _)]; [done|].
    apply queue_nonempty in Hne as (x & Hx & Hs & _). by destruct (priority_nil _ _ El x Hx).
  - destruct (priority_head _ _ _ _ El) as [Hbest Hhead].
    assert (r ∈ abs h L /\ lo_side r = s) as [HrA Hrs]
      by (apply elem_of_priority; rewrite El; by left).
    assert (queue_of h L s (lo_price r) <> []) as HQ by (apply queue_nonempty; by exists r).
    pose proof (rel_valid _ _ _ _ _ RB _ _ HQ) as Hv. unfold valid_price in Hv.
    assert (best b s = lo_price r) as Eb.
    { destruct (rel_best _ _ _ _ _ RB s) as [[_ Hn]|(_ & Hne & Hmax)]; [by rewrite Hn in HQ|].
      specialize (Hmax _ HQ). apply queue_nonempty in Hne as (x & Hx & Hxs & Hxp).
      specialize (Hbest x Hx Hxs). rewrite Hxp in Hbest. destruct s; cbn in *; lia. }
    rewrite <- filter_abs in Hhead.
    destruct (queue_of h L s (lo_price r)) as [|o m] eqn:EQ; [done|].
    cbn in Hhead. apply (inj Some) in Hhead.
    assert (o ∈ L) as Hin.
    { assert (o ∈ queue_of h L s (lo_price r)) as [? _]%elem_of_queue; [|done].
      rewrite EQ. by left. }
    pose proof (rel_levels _ _ _ _ _ RB s (lo_price r) ltac:(lia)) as [_ Hh _ Hl].
    rewrite EQ in Hh, Hl. destruct (Hl [] o m eq_refl) as (ord & Ho & Hlv & _ & _).
    exists o, ord. rewrite Eb, (proj2 (Z.eqb_neq _ _)) by lia.
    rewrite priceToIndex_id by lia. rewrite (view_of_lookup _ _ _ Ho) in Hhead.
    split; [done|]. split; [by apply read_level_valid; lia|].
    split; [apply (rel_price _ _ _ _ _ RB); by rewrite EQ|]. split; [done|]. split; [done|].
    split; [done|]. split; [done|]. split; [|done]. rewrite <- Hrs, <- Hhead. done.
Qed.

Lemma canCross_spec (g : Engine E) i iord held L :
  store_rel (eng_book g) (eng_pool g) (eng_heap g) held L -> eng_heap g !! i = Some iord ->
  MatchingEngine_canCross g (Some i) =
    Some (match priority (opposite (ord_side iord)) (abs (eng_heap g) L) with
          | [] => false
          | r :: _ => crosses (ord_side iord) (ord_price iord) r
          end).
Proof.
  intros R Hi. unfold MatchingEngine_canCross. cbn [mbind option_bind]. rewrite Hi.
  cbn [mbind option_bind].
  pose proof (best_of_priority _ _ _ _ _ (opposite (ord_side iord)) R) as Hb.
  destruct (priority (opposite (ord_side iord)) (abs (eng_heap g) L)) as [|r l].
  - destruct (ord_side iord); cbn [opposite best_ptr] in Hb; by rewrite Hb.
  - destruct Hb as (o & ord & Hb & Hread & Hp & _).
    destruct (ord_side iord); cbn [opposite best_ptr] in *; rewrite Hb, Hread;
      cbn [mbind option_bind]; rewrite Hp; unfold crosses; f_equal; apply eq_true_iff_eq;
      rewrite bool_decide_eq_true; cbn; [rewrite Z.geb_leb|]; apply Z.leb_le.
Qed.

Lemma createTrade_spec seq iord rord t :
  0 <= seq < 2 ^ 64 - 1 ->
  MatchingEngine_createTrade seq iord rord t =
    (spec_trade (seq + 1) (view iord) (view rord) t, seq + 1).
Proof.
  intros Hs. unfold MatchingEngine_createTrade, Sequencer_next, spec_trade.
  rewrite wrap_small by lia. by destruct iord as [? ? [] ? ? ? ? ?].
Qed.

(** The incoming order after a fill, and the books before the cancellation of an
    exhausted resting order. *)
Lemma fill_store b p h i L o iord ord t :
  store_rel b p h [i] L -> store_totals b h L -> h !! i = Some iord -> o ∈ L -> h !! o = Some ord ->
  let h1 := <[i := set_quantity (ord_quantity iord - t) iord]> h in
  let h2 := <[o := set_quantity (ord_quantity ord - t) ord]> h1 in
  let lvl := level b (ord_side ord) (ord_price ord) in
  let b2 := write_level b (ord_side ord, ord_price ord)
              (mkPriceLevel (lvl_price lvl) (lvl_head lvl) (lvl_tail lvl)
                 (u32 (lvl_total_quantity lvl - t))) in
  i <> o /\ h1 !! o = Some ord /\ store_rel b2 p h2 [i] L /\ store_totals b2 h2 L /\
  abs h2 L = spec_set_quantity (ord_id ord) (ord_quantity ord - t) (abs h L) /\
  h2 !! i = Some (set_quantity (ord_quantity iord - t) iord).
Proof.
  intros R Ht Hi Hin Ho h1 h2 lvl b2.
  destruct (store_held_fresh _ _ _ _ _ _ _ R) as [HiL _].
  assert (i <> o) as Hne by (intros ->; done).
  assert (h1 !! o = Some ord) as Ho1 by (unfold h1; by rewrite lookup_insert_ne).
  pose proof (store_set_quantity _ _ _ _ _ _ _ _ (ord_quantity iord - t) R Hi) as R1. fold h1 in R1.
  pose proof (store_set_quantity _ _ _ _ _ _ _ _ (ord_quantity ord - t) R1 Ho1) as R2. fold h2 in R2.
  split; [done|]. split; [done|]. split; [by apply store_set_total|].
  split; [|split].
  - eapply store_totals_fill; [done| |done|done].
    eapply store_excess_held; [done..|by left|done].
  - unfold h2. erewrite abs_set_quantity by done. f_equal. by apply abs_write_held.
  - unfold h2. rewrite lookup_insert_ne by done. apply lookup_insert_eq.
Qed.

(** [matchOne] when there is an order to match, step by step. *)
Lemma matchOne_eval (g : Engine E) i iord o ord :
  let s := ord_side ord in let q := ord_price ord in
  let t := Z.min (ord_quantity iord) (ord_quantity ord) in
  let h1 := <[i := set_quantity (ord_quantity iord - t) iord]> (eng_heap g) in
  let h2 := <[o := set_quantity (ord_quantity ord - t) ord]> h1 in
  let lvl := level (eng_book g) s q in
  let b2 := write_level (eng_book g) (s, q)
              (mkPriceLevel (lvl_price lvl) (lvl_head lvl) (lvl_tail lvl)
                 (u32 (lvl_total_quantity lvl - t))) in
  let env := publish (spec_trade (eng_sequence g + 1) (view iord) (view ord) t) (eng_env g) in
  eng_heap g !! i = Some iord -> i <> o -> eng_heap g !! o = Some ord ->
  s = opposite (ord_side iord) -> best_ptr (eng_book g) s = Some (s, q) ->
  read_level (eng_book g) (s, q) = Some lvl -> PriceLevel_front lvl = Some o ->
  ord_level ord = Some (s, q) ->
  0 < ord_quantity iord < 2 ^ 32 -> 0 <= ord_quantity ord < 2 ^ 32 ->
  0 <= eng_sequence g < 2 ^ 64 - 1 ->
  matchOne g (Some i) =
    if ord_quantity ord - t =? 0 then
      '(removed, b, h) ← ArrayOrderBook_cancelOrder std_hash b2 h2 (ord_id ord);
      Some (0 <? t, mkEngine b (releaseIfOwned (eng_pool g) removed) (eng_sequence g + 1) h env)
    else Some (0 <? t, mkEngine b2 (eng_pool g) (eng_sequence g + 1) h2 env).
Proof.
  intros s q t h1 h2 lvl b2 env Hi Hne Ho Hs Hb Hread Hfront Hlv Hiq Hrq Hseq.
  assert (h1 !! o = Some ord) as Ho1 by (unfold h1; by rewrite lookup_insert_ne).
  unfold MatchingEngine_matchOne. cbn [mbind option_bind]. rewrite Hi. cbn [mbind option_bind].
  assert ((match ord_side iord with
     | Buy => ArrayOrderBook_bestAsk (eng_book g) | Sell => ArrayOrderBook_bestBid (eng_book g) end)
     = Some (s, q)) as -> by (rewrite <- Hb, Hs; by destruct (ord_side iord)).
  rewrite Hread. cbn [mbind option_bind]. rewrite Hfront, Ho. cbn [mbind option_bind].
  replace (if ord_quantity iord <? ord_quantity ord then ord_quantity iord else ord_quantity ord)
    with t by (unfold t; bcase; lia).
  rewrite createTrade_spec by done. rewrite !(wrap_small 32 (ord_quantity iord - t)) by lia.
  fold h1. rewrite Ho1. cbn [mbind option_bind].
  rewrite !(wrap_small 32 (ord_quantity ord - t)) by lia. fold h2.
  replace (h2 !! o) with (Some (set_quantity (ord_quantity ord - t) ord))
    by (symmetry; apply lookup_insert_eq). cbn [mbind option_bind ord_level set_quantity].
  rewrite Hlv. unfold reduce_level_total. rewrite Hread. cbn [mbind option_bind].
  fold b2. by rewrite Z.gtb_ltb.
Qed.

(** A resting order that has been filled is cancelled and its slot released. *)
Lemma cancel_filled b p h i L o iord ord t :
  store_rel b p h [i] L -> store_totals b h L -> h !! i = Some iord -> o ∈ L -> h !! o = Some ord ->
  ord_quantity ord = t ->
  let h2 := <[o := set_quantity (ord_quantity ord - t) ord]>
              (<[i := set_quantity (ord_quantity iord - t) iord]> h) in
  let lvl := level b (ord_side ord) (ord_price ord) in
  let b2 := write_level b (ord_side ord, ord_price ord)
              (mkPriceLevel (lvl_price lvl) (lvl_head lvl) (lvl_tail lvl)
                 (u32 (lvl_total_quantity lvl - t))) in
  exists b3 h3 L' iord', ArrayOrderBook_cancelOrder std_hash b2 h2 (ord_id ord) = Some (Some o, b3, h3) /\
    store_rel b3 (releaseIfOwned p (Some o)) h3 [i] L' /\ store_totals b3 h3 L' /\
    abs h3 L' = spec_delete (ord_id ord) (abs h L) /\ h3 !! i = Some iord' /\
    view iord' = lo_set_quantity (ord_quantity iord - t) (view iord).
Proof.
  intros R Htot Hi Hin Ho Et h2 lvl b2.
  destruct (fill_store _ _ _ _ _ _ _ _ t R Htot Hi Hin Ho) as (Hne & Ho1 & R2 & Ht2 & EA & Hi2).
  fold h2 lvl b2 in R2, Ht2, EA, Hi2. apply list_elem_of_split in Hin as (L1 & L2 & ->).
  destruct (store_cancel _ _ _ _ _ _ _ _ R2) as (b3 & h3 & E3 & R3 & SD & Ht3).
  rewrite (view_of_lookup _ _ (set_quantity (ord_quantity ord - t) ord)) in E3 by apply lookup_insert_eq.
  cbn [lo_id view ord_id set_quantity] in E3.
  destruct (same_data_lookup _ _ _ _ SD Hi2) as (iord' & Hi3 & Ed).
  exists b3, h3, (L1 ++ L2), iord'. split; [done|]. split; [by apply store_release|]. split; [by apply Ht3|].
  split; [|split; [done|by apply view_data in Ed as ->]].
  rewrite (abs_same_data _ _ _ SD). symmetry.
  pose proof (abs_delete _ _ _ _ _ _ _ R) as Hd. rewrite (view_of_lookup _ _ _ Ho) in Hd.
  etrans; [exact Hd|]. symmetry. pose proof (st_nodup _ _ _ _ _ _ R) as Hnd.
  apply NoDup_cons in Hnd as [HiL Hnd]. apply nodup_middle in Hnd as (_ & Ho2 & Ho3 & _).
  unfold h2. by rewrite !abs_write_held by set_solver.
Qed.

(** One iteration of the loop takes one fill. *)
Lemma match_step (g : Engine E) i iord L r l :
  store_rel (eng_book g) (eng_pool g) (eng_heap g) [i] L ->
  store_totals (eng_book g) (eng_heap g) L -> book_wf (abs (eng_heap g) L) ->
  eng_heap g !! i = Some iord -> 0 < ord_quantity iord < 2 ^ 32 ->
  0 <= eng_sequence g < 2 ^ 64 - 1 ->
  priority (opposite (ord_side iord)) (abs (eng_heap g) L) = r :: l ->
  let t := Z.min (ord_quantity iord) (lo_quantity r) in
  exists g' L' iord', matchOne g (Some i) = Some (true, g') /\
    store_rel (eng_book g') (eng_pool g') (eng_heap g') [i] L' /\
    store_totals (eng_book g') (eng_heap g') L' /\
    abs (eng_heap g') L' = spec_reduce (lo_id r) t (abs (eng_heap g) L) /\
    eng_heap g' !! i = Some iord' /\
    view iord' = lo_set_quantity (ord_quantity iord - t) (view iord) /\
    eng_sequence g' = eng_sequence g + 1 /\
    eng_env g' = publish (spec_trade (eng_sequence g + 1) (view iord) r t) (eng_env g).
Proof.
  intros R Htot Hwf Hi Hq Hseq El t.
  pose proof (best_of_priority _ _ _ _ _ (opposite (ord_side iord)) R) as Hb. rewrite El in Hb.
  destruct Hb as (o & ord & Hb & Hread & _ & Hfront & Hin & Ho & <- & Hside & Hlv).
  assert (view ord ∈ abs (eng_heap g) L) as HrA
    by (apply (elem_of_priority (opposite (ord_side iord))); rewrite El; by left).
  pose proof (wf_quantities _ Hwf) as HF. rewrite Forall_forall in HF. specialize (HF _ HrA).
  pose proof (spec_find_member _ _ (wf_ids _ Hwf) HrA) as Hfind.
  cbn [view lo_quantity lo_id lo_price] in *. fold (view ord) in *. rewrite <- Hside in *.
  destruct (fill_store _ _ _ _ _ _ _ _ t R Htot Hi Hin Ho) as (Hne & Ho1 & R2 & Ht2 & EA & Hi2).
  rewrite (matchOne_eval g i iord o ord) by (done || lia). fold t. rewrite (proj2 (Z.ltb_lt 0 t)) by lia.
  set (h2 := <[o := _]> _) in *. set (b2 := write_level (eng_book g) _ _) in *.
  unfold spec_reduce. rewrite Hfind. cbn [view lo_quantity]. fold (view ord).
  rewrite (proj2 (Z.eqb_neq t 0)) by lia. rewrite Z.gtb_ltb, (proj2 (Z.ltb_ge _ _)) by lia.
  cbn [orb]. destruct (Z.eqb_spec (ord_quantity ord - t) 0) as [Ez|Ez].
  - rewrite (proj2 (Z.eqb_eq t (ord_quantity ord))) by lia.
    destruct (cancel_filled _ _ _ _ _ _ _ _ t R Htot Hi Hin Ho) as (b3 & h3 & L' & iord' & E3 & R3 & Ht3 & EA3 & Hi3 & Ev);
      [lia|]. fold h2 b2 in E3. rewrite E3. cbn [mbind option_bind]. do 3 eexists. split; [done|].
    cbn [eng_book eng_pool eng_heap eng_sequence eng_env]. by split_and!.
  - rewrite (proj2 (Z.eqb_neq t (ord_quantity ord))) by lia.
    do 3 eexists. split; [done|]. cbn [eng_book eng_pool eng_heap eng_sequence eng_env].
    split; [done|]. split; [done|]. by split.
Qed.

(** ** The matching loop *)

Lemma spec_trades_quantity seq q x F : spec_trades seq (lo_set_quantity q x) F = spec_trades seq x F.
Proof. revert seq. induction F as [|f F IH]; intros seq; cbn; [done|]. by rewrite IH. Qed.

Lemma lo_set_quantity_id x : lo_set_quantity (lo_quantity x) x = x.
Proof. by destruct x. Qed.

(** The state of an execution: the incoming order [i] is held by the engine. *)
Definition matching (g : Engine E) (i : loc) (x : LimitOrder) (A : list LimitOrder) : Prop :=
  exists L iord, store_rel (eng_book g) (eng_pool g) (eng_heap g) [i] L /\
    store_totals (eng_book g) (eng_heap g) L /\ abs (eng_heap g) L = A /\
    eng_heap g !! i = Some iord /\ view iord = x.

Lemma loop_stop fuel (g : Engine E) i x A :
  matching g i x A -> lo_quantity x = 0 \/ fills (lo_side x) (lo_price x) (lo_quantity x)
    (priority (opposite (lo_side x)) A) = [] ->
  loop (S fuel) g (Some i) = Some g.
Proof.
  intros (L & iord & R & _ & <- & Hi & <-) Hstop. cbn [executeTrade_loop mbind option_bind].
  rewrite Hi. cbn [mbind option_bind]. rewrite (canCross_spec g i iord [i] L R Hi).
  cbn [mbind option_bind]. rewrite Z.gtb_ltb.
  destruct (Z.ltb_spec 0 (ord_quantity iord)) as [Hq|Hq]; [|done].
  destruct Hstop as [Hz|Hf]; [cbn in Hz; lia|]. cbn [view lo_side lo_price lo_quantity] in Hf.
  destruct (priority _ _) as [|r l]; [done|]. cbn [fills] in Hf.
  rewrite (proj2 (Z.ltb_lt _ _) Hq) in Hf. cbn [andb] in Hf. by destruct (crosses _ _ _).
Qed.

(** An iteration that matches. *)
Lemma loop_match fuel (g g1 : Engine E) i iord L A r l :
  store_rel (eng_book g) (eng_pool g) (eng_heap g) [i] L -> abs (eng_heap g) L = A ->
  eng_heap g !! i = Some iord -> 0 < ord_quantity iord ->
  priority (opposite (ord_side iord)) A = r :: l -> crosses (ord_side iord) (ord_price iord) r = true ->
  MatchingEngine_matchOne std_hash publish g (Some i) = Some (true, g1) ->
  loop (S fuel) g (Some i) = loop fuel g1 (Some i).
Proof.
  intros R EA Hi Hq El Hcr E1. cbn [executeTrade_loop mbind option_bind]. rewrite Hi. cbn [mbind option_bind].
  rewrite Z.gtb_ltb, (proj2 (Z.ltb_lt _ _)) by lia.
  rewrite (canCross_spec g i iord [i] L R Hi), EA, El, Hcr. cbn [mbind option_bind]. by rewrite E1.
Qed.

Lemma loop_spec l : forall fuel (g : Engine E) i x A,
  matching g i x A -> book_wf A -> 0 <= lo_quantity x < 2 ^ 32 ->
  priority (opposite (lo_side x)) A = l -> (length l < fuel)%nat ->
  0 <= eng_sequence g -> eng_sequence g + Z.of_nat (length l) < 2 ^ 64 ->
  let F := fills (lo_side x) (lo_price x) (lo_quantity x) l in
  exists g', loop fuel g (Some i) = Some g' /\
    matching g' i (lo_set_quantity (lo_quantity x - filled F) x) (apply_fills A F) /\
    eng_sequence g' = eng_sequence g + Z.of_nat (length F) /\
    eng_env g' = publish_all (spec_trades (eng_sequence g) x F) (eng_env g).
Proof.
  induction l as [|r l IH]; intros fuel g i x A M Hwf Hq El Hfuel Hseq0 Hseq F.
  all: destruct fuel as [|fuel]; [cbn in Hfuel; lia|].
  all: destruct (decide (F = [])) as [EF|EF];
    [exists g; rewrite EF, (loop_stop _ _ _ _ _ M) by (right; by rewrite El);
     unfold filled; cbn [fmap list_fmap foldr length]; rewrite Z.sub_0_r, lo_set_quantity_id;
     split; [done|]; split; [done|]; split; [lia|done]|].
  { done. }
  unfold F in *. cbn [fills] in *. destruct ((0 <? lo_quantity x) && _) eqn:Ec; [|done]. bprop.
  rename H into Hpos, H0 into Hcr. set (t := Z.min (lo_quantity x) (lo_quantity r)) in *.
  destruct M as (L & iord & R & Ht & EA & Hi & Ex).
  assert (r ∈ A) as HrA by (apply (elem_of_priority (opposite (lo_side x))); rewrite El; by left).
  pose proof (wf_quantities _ Hwf) as HF. rewrite Forall_forall in HF. specialize (HF _ HrA).
  assert (0 < t <= lo_quantity r) as Htb by lia.
  destruct (match_step g i iord L r l) as (g1 & L1 & iord1 & E1 & R1 & Ht1 & EA1 & Hi1 & Ex1 & Es1 & Ee1);
    [done|done|by rewrite EA|done|rewrite <- Ex in *; cbn in *; lia|cbn in Hseq; lia
    |rewrite EA, <- El, <- Ex; done|].
  assert (ord_quantity iord = lo_quantity x) as Eiq by (by rewrite <- Ex).
  rewrite Eiq, Ex, EA in *. fold t in Ex1, EA1, Ee1.
  set (x1 := lo_set_quantity (lo_quantity x - t) x) in *. set (A1 := spec_reduce (lo_id r) t A) in *.
  assert (matching g1 i x1 A1) as M1 by (by exists L1, iord1).
  assert (loop (S fuel) g (Some i) = loop fuel g1 (Some i)) as ->.
  { rewrite <- Ex in El, Hcr. by apply (loop_match fuel g g1 i iord L A r l); try done; rewrite Eiq. }
  assert (book_wf A1) as Hwf1 by (apply spec_reduce_wf; [done|lia]).
  pose proof (priority_reduce _ _ _ _ _ (wf_ids _ Hwf) El Htb) as Hp1.
  assert (exists g', loop fuel g1 (Some i) = Some g' /\
    let F1 := fills (lo_side x) (lo_price x) (lo_quantity x - t) l in
    matching g' i (lo_set_quantity (lo_quantity x - t - filled F1) x1) (apply_fills A1 F1) /\
    eng_sequence g' = eng_sequence g1 + Z.of_nat (length F1) /\
    eng_env g' = publish_all (spec_trades (eng_sequence g1) x1 F1) (eng_env g1))
    as (g' & Eg & M' & Es' & Ee').
  { destruct (Z.eqb_spec t (lo_quantity r)) as [Et|Et].
    - apply (IH fuel g1 i x1 A1); cbn in *; try done; lia.
    - assert (lo_quantity x - t = 0) as Ez by lia. rewrite Ez, fills_zero. exists g1.
      destruct fuel as [|fuel]; [cbn in Hfuel; lia|].
      rewrite (loop_stop _ _ _ _ _ M1) by (by left). split; [done|].
      unfold filled. cbn [fmap list_fmap foldr length]. split; [|split; [lia|done]].
      unfold x1 in M1 |- *. rewrite Ez in M1 |- *. exact M1. }
  exists g'. split; [done|]. unfold filled in *. cbn [fmap list_fmap foldr length snd] in *.
  rewrite Z.sub_add_distr. split; [done|]. split; [lia|].
  rewrite Ee', Ee1, Es1. unfold x1. rewrite spec_trades_quantity. done.
Qed.


(** ** Submitting an order *)

(** The engine's state stands for the state [st] of the specification. *)
Definition engine_rel (g : Engine E) (st : spec_state) : Prop :=
  exists L, store_rel (eng_book g) (eng_pool g) (eng_heap g) [] L /\
    store_totals (eng_book g) (eng_heap g) L /\
    abs (eng_heap g) L = sp_book st /\ eng_sequence g = sp_sequence st.

Lemma priority_length s A : (length (priority s A) <= length A)%nat.
Proof. rewrite priority_perm. apply length_filter. Qed.

(** The remainder of the incoming order rests, or its slot is released. *)
Definition settle (g : Engine E) (i : loc) (rest : Quantity) : option (Engine E) :=
  if rest >? 0 then
    '(book, h) ← ArrayOrderBook_addOrder std_hash (eng_book g) (eng_heap g) (Some i);
    Some (mkEngine book (eng_pool g) (eng_sequence g) h (eng_env g))
  else
    Some (mkEngine (eng_book g) (releaseIfOwned (eng_pool g) (Some i)) (eng_sequence g)
            (eng_heap g) (eng_env g)).

Lemma settle_spec (g : Engine E) i x A :
  matching g i x A -> valid_price (lo_price x) -> (forall y, y ∈ A -> lo_id y <> lo_id x) ->
  exists g', settle g i (lo_quantity x) = Some g' /\
    engine_rel g' (mkSpec (if 0 <? lo_quantity x then A ++ [x] else A) (eng_sequence g)) /\
    eng_env g' = eng_env g.
Proof.
  intros (L & iord & R & Ht & <- & Hi & <-) Hv Hids. unfold settle. rewrite Z.gtb_ltb.
  cbn [view lo_quantity]. bcase.
  - destruct (store_add _ _ _ _ _ _ _ iord R Hi Hv) as (b' & h' & -> & R' & SD & Ht').
    { intros y Hy. apply Hids. apply elem_of_abs. by exists y. }
    cbn [mbind option_bind]. eexists. split; [done|]. split; [|done]. exists (L ++ [i]).
    cbn. split; [done|]. split; [by apply Ht'|]. split; [|done].
    rewrite (abs_same_data _ _ _ SD). unfold abs. rewrite fmap_app. cbn.
    by rewrite (view_of_lookup _ _ _ Hi).
  - eexists. split; [done|]. split; [|done]. exists L. cbn. split; [by apply store_release|done].
Qed.

Lemma execute_spec (g : Engine E) i x A :
  matching g i x A -> book_wf A -> 0 < lo_quantity x < 2 ^ 32 -> valid_price (lo_price x) ->
  (forall y, y ∈ A -> lo_id y <> lo_id x) ->
  0 <= eng_sequence g -> eng_sequence g + DefaultOrderCapacity < 2 ^ 64 ->
  let F := fills (lo_side x) (lo_price x) (lo_quantity x) (priority (opposite (lo_side x)) A) in
  let rest := lo_quantity x - filled F in
  exists g', MatchingEngine_process std_hash publish g (Some i) = Some g' /\
    engine_rel g' (mkSpec (if 0 <? rest then apply_fills A F ++ [lo_set_quantity rest x]
                           else apply_fills A F) (eng_sequence g + Z.of_nat (length F))) /\
    eng_env g' = publish_all (spec_trades (eng_sequence g) x F) (eng_env g).
Proof.
  intros M Hwf Hq Hv Hids Hs0 Hs F rest.
  assert (Z.of_nat (length (priority (opposite (lo_side x)) A)) < DefaultOrderCapacity) as Hlen.
  { pose proof (priority_length (opposite (lo_side x)) A). destruct M as (L & iord & R & _ & <- & _).
    pose proof (store_available _ _ _ _ _ _ R) as Hav. unfold OrderPool_available in Hav.
    unfold abs in *. rewrite length_fmap in *. cbn [length app] in Hav. lia. }
  destruct (loop_spec _ executeTrade_fuel g i x A M Hwf ltac:(lia) eq_refl) as (g1 & E1 & M1 & Es & Ee);
    [unfold executeTrade_fuel; lia|lia|lia|]. fold F in E1, M1, Es, Ee.
  destruct (fills_spec (lo_side x) (lo_price x) (lo_quantity x) A Hwf) as (_ & _ & _ & _ & _ & Hmem).
  destruct (settle_spec g1 i _ _ M1) as (g' & E' & R' & Ee').
  { done. }
  { intros y (z & Hz & -> & _)%Hmem. cbn. by apply Hids. }
  cbn [lo_set_quantity lo_quantity] in E', R'. exists g'. rewrite Es in R'. split.
  2:{ split; [done|]. by rewrite Ee', Ee. }
  pose proof M as (L & iord & R & _ & EA & Hi & Ex). unfold MatchingEngine_process.
  rewrite (canCross_spec g i iord [i] L R Hi), EA. cbn [mbind option_bind].
  destruct M1 as (L1 & iord1 & _ & _ & _ & Hi1 & Ex1).
  assert (ord_quantity iord1 = rest) as Eq1 by (change (lo_quantity (view iord1) = rest); by rewrite Ex1).
  bcase.
  - unfold MatchingEngine_executeTrade. rewrite E1. cbn [mbind option_bind]. rewrite Hi1.
    cbn [mbind option_bind]. rewrite Eq1. exact E'.
  - assert (F = []) as EF.
    { unfold F. clear - E0 Ex. subst x. cbn [view lo_side lo_price lo_quantity].
      destruct (priority (opposite (ord_side iord)) A) as [|r l]; [done|]. cbn [fills].
      by rewrite E0, andb_false_r. }
    assert (g1 = g) as ->.
    { replace executeTrade_fuel with (S (Z.to_nat (DefaultOrderCapacity + 1))) in E1
        by (unfold executeTrade_fuel, DefaultOrderCapacity; lia).
      rewrite (loop_stop _ _ _ x A) in E1; [by injection E1 as ->| |by right].
      done. }
    rewrite EF in E'. unfold settle, filled in E'. cbn [fmap list_fmap foldr] in E'.
    rewrite Z.gtb_ltb, (proj2 (Z.ltb_lt _ _)) in E' by lia. exact E'.
Qed.


(** A submission is admissible when its price lies inside the level arrays and is
    not 0, and its quantity is a positive value of 32 bits. *)
Definition admissible_order (p : Price) (q : Quantity) : Prop := valid_price p /\ 0 < q < 2 ^ 32.

Lemma engine_rel_length g st :
  engine_rel g st -> OrderPool_available (eng_pool g) + Z.of_nat (length (sp_book st)) =
    DefaultOrderCapacity.
Proof.
  intros (L & R & _ & <- & _). rewrite <- (store_available _ _ _ _ _ _ R).
  unfold abs. by rewrite length_fmap.
Qed.

(** A submission with a free slot: the order is in the heap, and processed. *)
Lemma submit_process (g : Engine E) st account s p q :
  engine_rel g st -> Z.of_nat (length (sp_book st)) < DefaultOrderCapacity ->
  let id := Sequencer_next (sp_sequence st) in
  exists g1 o, matching g1 o (mkLimit id account s p q) (sp_book st) /\
    eng_sequence g1 = id /\ eng_env g1 = eng_env g /\
    MatchingEngine_submitOrder std_hash publish g account s p q =
      (g' ← MatchingEngine_process std_hash publish g1 (Some o); Some (id, g')).
Proof.
  intros (L & R & Ht & EA & Es) Hlen id. unfold MatchingEngine_submitOrder, MatchingEngine_prepareOrder.
  assert (length (sp_book st) = length L) as El by (rewrite <- EA; apply length_fmap).
  pose proof (store_acquire _ _ _ _ _ _ R) as Ha. cbn [app] in Ha.
  destruct (OrderPool_acquire (eng_pool g)) as [[o|] pool]; [|destruct Ha; lia].
  destruct Ha as (R1 & [ord0 Ho] & _). rewrite Ho. cbn [mbind option_bind]. rewrite Es. fold id.
  set (ord := mkOrder id account s p q None None None).
  exists (mkEngine (eng_book g) pool id (<[o := ord]> (eng_heap g)) (eng_env g)), o.
  destruct (store_held_fresh _ _ _ _ _ _ _ R1) as [HoL _]. split.
  { exists L, ord. cbn. split; [by apply store_write_held; [|by left]|].
    split; [by eapply store_excess_held; [| |by left|]|].
    rewrite abs_write_held by done. split; [done|]. split; [apply lookup_insert_eq|done]. }
  split; [done|]. split; [done|]. cbn [eng_heap]. by rewrite lookup_insert_eq.
Qed.

Lemma submit_refines (g : Engine E) st account s p q :
  engine_rel g st -> spec_inv st -> admissible_order p q ->
  sp_sequence st + 1 + DefaultOrderCapacity < 2 ^ 64 ->
  let '(id, trades, st') := spec_submit st account s p q in
  exists g', MatchingEngine_submitOrder std_hash publish g account s p q = Some (id, g') /\
    engine_rel g' st' /\ eng_env g' = publish_all trades (eng_env g).
Proof.
  intros Rel I [Hv Hq] Hseq. unfold spec_submit. pose proof (si_seq _ I) as Hs0.
  pose proof (engine_rel_length _ _ Rel) as Hlen. unfold OrderPool_available in Hlen. bcase.
  { exists g. split; [|by split]. destruct Rel as (L & R & _). unfold MatchingEngine_submitOrder,
      MatchingEngine_prepareOrder. pose proof (store_acquire _ _ _ _ _ _ R) as Ha. cbn [app] in Ha.
    destruct (OrderPool_acquire (eng_pool g)) as [[o|] pool]; [|destruct Ha as [-> _]; by destruct g].
    pose proof (store_available _ _ _ _ _ _ R) as Hav. unfold OrderPool_available in Hav. cbn [app] in Hav.
    destruct Ha as (_ & _ & Ha). lia. }
  destruct (submit_process g st account s p q Rel) as (g1 & o & M & Es1 & Ee1 & ->); [lia|].
  unfold Sequencer_next in *. rewrite wrap_small in * by (unfold DefaultOrderCapacity in *; lia).
  set (x := mkLimit (sp_sequence st + 1) account s p q) in *.
  pose proof (si_ids _ I) as Hids. rewrite Forall_forall in Hids.
  destruct (execute_spec g1 o x (sp_book st) M) as (g' & E' & R' & Ee); try done.
  { apply I. }
  { intros y Hy. specialize (Hids y Hy). cbn. lia. }
  { lia. } { lia. }
  exists g'. rewrite E'. split; [done|]. rewrite Es1, Ee1 in *. by split.
Qed.

(** ** Runs *)

Record submission : Type := mkSubmission {
  sub_account : AccountId;
  sub_side : Side;
  sub_price : Price;
  sub_quantity : Quantity
}.

Fixpoint engine_run (g : Engine E) (subs : list submission) : option (list OrderId * Engine E) :=
  match subs with
  | [] => Some ([], g)
  | m :: subs =>
      '(id, g) ← MatchingEngine_submitOrder std_hash publish g (sub_account m) (sub_side m)
                   (sub_price m) (sub_quantity m);
      '(ids, g) ← engine_run g subs;
      Some (id :: ids, g)
  end.

Fixpoint spec_run (st : spec_state) (subs : list submission)
    : list OrderId * list Trade * spec_state :=
  match subs with
  | [] => ([], [], st)
  | m :: subs =>
      let '(id, trades, st) := spec_submit st (sub_account m) (sub_side m) (sub_price m)
                                 (sub_quantity m) in
      let '(ids, trades', st) := spec_run st subs in
      (id :: ids, trades ++ trades', st)
  end.

Definition admissible_subs (subs : list submission) : Prop :=
  Forall (fun m => admissible_order (sub_price m) (sub_quantity m)) subs.

Lemma spec_submit_sequence st account s p q :
  book_wf (sp_book st) -> Z.of_nat (length (sp_book st)) <= DefaultOrderCapacity ->
  sp_sequence st <= sp_sequence (spec_submit st account s p q).2 <=
    sp_sequence st + 1 + DefaultOrderCapacity.
Proof.
  intros Hwf Hlen. unfold spec_submit. bcase; cbn [snd sp_sequence]; [unfold DefaultOrderCapacity; lia|].
  destruct (fills_spec s p q _ Hwf) as (_ & _ & _ & _ & Hl & _).
  pose proof (priority_length (opposite s) (sp_book st)). lia.
Qed.

Lemma run_refines subs : forall (g : Engine E) st,
  engine_rel g st -> spec_inv st -> admissible_subs subs ->
  sp_sequence st + (1 + DefaultOrderCapacity) * Z.of_nat (length subs) < 2 ^ 64 ->
  let '(ids, trades, st') := spec_run st subs in
  exists g', engine_run g subs = Some (ids, g') /\ engine_rel g' st' /\ spec_inv st' /\
    sp_sequence st' <= sp_sequence st + (1 + DefaultOrderCapacity) * Z.of_nat (length subs) /\
    eng_env g' = publish_all trades (eng_env g).
Proof.
  induction subs as [|m subs IH]; intros g st R I Hadm Hseq; cbn [spec_run engine_run].
  { exists g. split; [done|]. split; [done|]. split; [done|]. split; [cbn; lia|done]. }
  apply Forall_cons in Hadm as [Hm Hadm]. cbn [length] in Hseq.
  pose proof (submit_refines g st (sub_account m) (sub_side m) _ _ R I Hm) as H1.
  pose proof (spec_submit_inv st (sub_account m) (sub_side m) (sub_price m) _ I (proj2 Hm)) as I1.
  pose proof (spec_submit_sequence st (sub_account m) (sub_side m) (sub_price m) (sub_quantity m)
    (si_wf _ I)) as Hs.
  pose proof (engine_rel_length _ _ R) as Hlen. unfold OrderPool_available in Hlen.
  destruct (spec_submit st _ _ _ _) as [[id trades] st1]. cbn [snd] in *.
  destruct H1 as (g1 & E1 & R1 & Ee1); [unfold DefaultOrderCapacity in *; lia|].
  specialize (Hs ltac:(lia)). specialize (IH g1 st1 R1 I1 Hadm).
  destruct (spec_run st1 subs) as [[ids trades'] st2].
  destruct IH as (g2 & E2 & R2 & I2 & Hs2 & Ee2); [unfold DefaultOrderCapacity in *; lia|].
  exists g2. rewrite E1. cbn [mbind option_bind]. rewrite E2. split; [done|]. split; [done|].
  split; [done|]. split; [cbn [length]; unfold DefaultOrderCapacity in *; lia|].
  rewrite Ee2, Ee1. unfold publish_all. by rewrite foldl_app.
Qed.

Definition spec_new : spec_state := mkSpec [] Sequencer_init.

Lemma engine_rel_new base e : engine_rel (MatchingEngine_new base e) spec_new.
Proof.
  exists []. cbn. split; [apply store_new|]. split; [|done].
  intros s p. unfold level. destruct s; cbn; by rewrite arr_get_empty.
Qed.

Lemma spec_inv_new : spec_inv spec_new.
Proof.
  constructor; cbn; [|constructor|done|].
  - constructor; cbn; constructor.
  - intros x y Hx. by apply elem_of_nil in Hx.
Qed.


End matching_proofs.

(** ** Properties *)

(** C5: the matching engine implements price-time priority.  From a new engine,
    every admissible sequence of submissions runs without undefined behaviour
    and within the fuel of the matching loop; the ids returned are those of the
    specification (0 when the 4096 slots of the pool are all taken), the
    listeners have been given exactly the trades of the specification, once each
    and in order, the book shows the specified resting orders, each level's total
    is the sum of its orders, and no slot of the pool leaks.  The specification
    fills an incoming order from the opposite orders in price-time priority, each
    at the resting price, and lets the remainder rest. *)
Theorem matching_engine_refines_price_time_priority :
  forall (std_hash : Z -> Z) (E : Type) (publish : Trade -> E -> E) (base : Z) (e : E)
    (subs : list submission),
  admissible_subs subs ->
  Sequencer_init + (1 + DefaultOrderCapacity) * Z.of_nat (length subs) < 2 ^ 64 ->
  let '(ids, trades, st) := spec_run spec_new subs in
  exists g, engine_run std_hash publish (MatchingEngine_new base e) subs = Some (ids, g) /\
    shows std_hash (eng_book g) (eng_heap g) (sp_book st) /\
    (forall s p, valid_price p ->
       lvl_total_quantity (level (eng_book g) s p) =
       u32 (total_quantity (filter (in_queue s p) (sp_book st)))) /\
    eng_sequence g = sp_sequence st /\
    OrderPool_available (eng_pool g) + Z.of_nat (length (sp_book st)) = DefaultOrderCapacity /\
    eng_env g = foldl (fun e t => publish t e) e trades.
Proof.
  intros std_hash E publish base e subs Hadm Hseq.
  pose proof (run_refines std_hash publish subs _ spec_new (engine_rel_new std_hash base e)
    spec_inv_new Hadm Hseq) as H.
  destruct (spec_run spec_new subs) as [[ids trades] st]. destruct H as (g & Eg & R & _ & _ & Ee).
  exists g. split; [done|]. pose proof (engine_rel_length _ _ _ R) as Hlen.
  destruct R as (L & R & Ht & EA & Es). rewrite <- EA.
  split; [by eapply store_shows|]. split; [|by rewrite EA].
  intros s p _. rewrite (Ht s p), (total_of_queue _ _ _ _ _ _ _ _ R). unfold no_excess. by rewrite Z.add_0_r.
Qed.

(** Two asks and one bid that takes the first and part of the second, a second bid
    that rests, and a sell order that takes it. *)
Definition demo_subs : list submission :=
  [ mkSubmission 1 Sell 100 30; mkSubmission 2 Sell 101 50; mkSubmission 3 Buy 101 40;
    mkSubmission 4 Buy 99 5; mkSubmission 5 Sell 98 20 ].

Lemma matching_engine_witness :
  spec_run spec_new demo_subs =
    ([1001; 1002; 1003; 1006; 1007],
     [mkTrade 1004 1003 1001 3 1 100 30; mkTrade 1005 1003 1002 3 2 101 10;
      mkTrade 1008 1006 1007 4 5 99 5],
     mkSpec [mkLimit 1002 2 Sell 101 40; mkLimit 1007 5 Sell 98 15] 1008) /\
  exists g, engine_run (fun k => k) (fun t log => log ++ [t]) (MatchingEngine_new 0 []) demo_subs =
      Some ([1001; 1002; 1003; 1006; 1007], g) /\
    length (eng_env g) = 3%nat.
Proof.
  assert (spec_run spec_new demo_subs =
    ([1001; 1002; 1003; 1006; 1007],
     [mkTrade 1004 1003 1001 3 1 100 30; mkTrade 1005 1003 1002 3 2 101 10;
      mkTrade 1008 1006 1007 4 5 99 5],
     mkSpec [mkLimit 1002 2 Sell 101 40; mkLimit 1007 5 Sell 98 15] 1008)) as Es
    by (vm_compute; reflexivity).
  split; [exact Es|].
  pose proof (matching_engine_refines_price_time_priority (fun k => k) (list Trade)
    (fun t log => log ++ [t]) 0 [] demo_subs) as H.
  rewrite Es in H. destruct H as (g & Eg & _ & _ & _ & _ & Ee).
  - unfold admissible_subs, demo_subs, admissible_order, valid_price, MaxPriceLevels.
    repeat constructor; cbn; lia.
  - vm_compute. reflexivity.
  - exists g. split; [exact Eg|]. rewrite Ee. reflexivity.
Defined.

(** C6: the book is never left crossed.  After every admissible sequence of
    submissions to a new engine, one of the sides is empty or the best bid is
    below the best ask. *)
Theorem matching_engine_book_uncrossed :
  forall (std_hash : Z -> Z) (E : Type) (publish : Trade -> E -> E) (base : Z) (e : E)
    (subs : list submission),
  admissible_subs subs ->
  Sequencer_init + (1 + DefaultOrderCapacity) * Z.of_nat (length subs) < 2 ^ 64 ->
  exists ids g, engine_run std_hash publish (MatchingEngine_new base e) subs = Some (ids, g) /\
    (best_bid_ (eng_book g) = 0 \/ best_ask_ (eng_book g) = 0 \/
     best_bid_ (eng_book g) < best_ask_ (eng_book g)).
Proof.
  intros std_hash E publish base e subs Hadm Hseq.
  pose proof (run_refines std_hash publish subs _ spec_new (engine_rel_new std_hash base e)
    spec_inv_new Hadm Hseq) as H.
  destruct (spec_run spec_new subs) as [[ids trades] st]. destruct H as (g & Eg & R & I & _).
  exists ids, g. split; [done|]. destruct R as (L & R & _ & EA & _).
  destruct (st_book _ _ _ _ _ _ R) as [Idx RB].
  destruct (rel_best _ _ _ _ _ RB Buy) as [[Hb _]|(_ & Hb & _)]; [by left|].
  destruct (rel_best _ _ _ _ _ RB Sell) as [[Ha _]|(_ & Ha & _)]; [by right; left|].
  right. right. apply queue_nonempty in Hb as (x & Hx & Hxs & Hxp).
  apply queue_nonempty in Ha as (y & Hy & Hys & Hyp). cbn in Hxp, Hyp. rewrite <- Hxp, <- Hyp.
  rewrite EA in Hx, Hy. by apply (si_uncrossed _ I).
Qed.

Lemma matching_engine_uncrossed_witness :
  exists ids g, engine_run (fun k => k) (fun _ n => S n) (MatchingEngine_new 0 0%nat) demo_subs =
      Some (ids, g) /\
    (best_bid_ (eng_book g) = 0 \/ best_ask_ (eng_book g) = 0 \/
     best_bid_ (eng_book g) < best_ask_ (eng_book g)).
Proof.
  apply (matching_engine_book_uncrossed (fun k => k) nat (fun _ n => S n) 0 0%nat demo_subs).
  - unfold admissible_subs, demo_subs, admissible_order, valid_price, MaxPriceLevels.
    repeat constructor; cbn; lia.
  - vm_compute. reflexivity.
Defined.

(** A submission to an engine reached by a run, with the trades in a log. *)
Definition log_trade (t : Trade) (log : list Trade) : list Trade := log ++ [t].

Lemma publish_all_log trades log : publish_all log_trade trades log = log ++ trades.
Proof.
  revert log. induction trades as [|t trades IH]; intros log; cbn; [by rewrite app_nil_r|].
  unfold publish_all in IH. rewrite IH. unfold log_trade. by rewrite <- app_assoc.
Qed.

Lemma reach_submit std_hash base subs m :
  admissible_subs (subs ++ [m]) ->
  Sequencer_init + (1 + DefaultOrderCapacity) * Z.of_nat (length (subs ++ [m])) < 2 ^ 64 ->
  exists ids g st g', let '(id, trades, st') :=
      spec_submit st (sub_account m) (sub_side m) (sub_price m) (sub_quantity m) in
    engine_run std_hash log_trade (MatchingEngine_new base []) subs = Some (ids, g) /\
    spec_inv st /\ shows std_hash (eng_book g) (eng_heap g) (sp_book st) /\
    MatchingEngine_submitOrder std_hash log_trade g (sub_account m) (sub_side m) (sub_price m)
      (sub_quantity m) = Some (id, g') /\
    shows std_hash (eng_book g') (eng_heap g') (sp_book st') /\ eng_env g' = eng_env g ++ trades.
Proof.
  intros [Hadm Hm]%Forall_app Hseq. apply Forall_cons in Hm as [Hm _].
  rewrite length_app in Hseq. cbn [length] in Hseq.
  pose proof (run_refines std_hash log_trade subs _ spec_new (engine_rel_new std_hash base [])
    spec_inv_new Hadm) as H.
  destruct (spec_run spec_new subs) as [[ids trades] st].
  destruct H as (g & Eg & R & I & Hs & _);
    [unfold DefaultOrderCapacity in *; cbn [sp_sequence spec_new]; lia|].
  cbn [sp_sequence spec_new] in Hs.
  pose proof (submit_refines std_hash log_trade g st (sub_account m) (sub_side m) _ _ R I Hm) as H.
  exists ids, g, st. destruct (spec_submit st _ _ _ _) as [[id trades'] st'].
  destruct H as (g' & Eg' & R' & Ee); [unfold DefaultOrderCapacity in *; lia|].
  exists g'. destruct R as (L & R & _ & <- & _). destruct R' as (L' & R' & _ & <- & _).
  split; [done|]. split; [done|]. split; [by eapply store_shows|]. split; [done|].
  split; [by eapply store_shows|]. by rewrite Ee, publish_all_log.
Qed.

(** C7: a submission trades at the best prices first and loses nothing.  In every
    reachable state, a submission of quantity [q] that finds the pool exhausted returns 0
    and changes neither the book nor the log.  Otherwise all of [q] either trades or
    rests: the trades it adds to the log sum to some [T] with [0 <= T <= q], and the
    quantity resting in the book changes by [q - 2 T] ([T] comes off the resting orders
    and [q - T] is added).  Its trades are numbered consecutively after the id of the
    order, have positive quantities, are at prices the limit accepts, and come in order of
    the resting prices, best first; and unless the order is filled completely, nothing
    acceptable to it is left on the other side of the book.  The books before and after
    show some abstract book, and this holds of every one they show: they show one set of
    orders only. *)
Theorem submission_trades_best_first_and_conserves :
  forall (std_hash : Z -> Z) (base : Z) (subs : list submission) (m : submission),
  admissible_subs (subs ++ [m]) ->
  Sequencer_init + (1 + DefaultOrderCapacity) * Z.of_nat (length (subs ++ [m])) < 2 ^ 64 ->
  exists ids g id g' trades,
    engine_run std_hash log_trade (MatchingEngine_new base []) subs = Some (ids, g) /\
    MatchingEngine_submitOrder std_hash log_trade g (sub_account m) (sub_side m) (sub_price m)
      (sub_quantity m) = Some (id, g') /\
    eng_env g' = eng_env g ++ trades /\
    (exists A A', shows std_hash (eng_book g) (eng_heap g) A /\ shows std_hash (eng_book g') (eng_heap g') A') /\
    forall A A', shows std_hash (eng_book g) (eng_heap g) A -> shows std_hash (eng_book g') (eng_heap g') A' ->
    let T := foldr Z.add 0 (trade_quantity <$> trades) in
    ((id = 0 /\ Z.of_nat (length A) = DefaultOrderCapacity /\ A' ≡ₚ A /\ trades = []) \/
     (0 < id /\ Z.of_nat (length A) <> DefaultOrderCapacity /\ 0 <= T <= sub_quantity m /\
      total_quantity A' = total_quantity A + sub_quantity m - 2 * T)) /\
    trade_sequence <$> trades = seqZ (id + 1) (Z.of_nat (length trades)) /\
    Forall (fun t => 0 < trade_quantity t /\ better_eq (sub_side m) (sub_price m) (trade_price t)) trades /\
    StronglySorted (better_eq (opposite (sub_side m))) (trade_price <$> trades) /\
    (id <> 0 -> T < sub_quantity m ->
     forall r, r ∈ A' -> lo_side r = opposite (sub_side m) ->
       ~ better_eq (sub_side m) (sub_price m) (lo_price r)).
Proof.
  intros std_hash base subs m Hadm Hseq.
  destruct (reach_submit std_hash base subs m Hadm Hseq) as (ids & g & st & g' & H).
  apply Forall_app in Hadm as [_ [[_ Hq] _]%Forall_cons].
  pose proof (spec_submit_quantities st (sub_account m) (sub_side m) (sub_price m) (sub_quantity m)) as HT.
  pose proof (spec_submit_trades st (sub_account m) (sub_side m) (sub_price m) (sub_quantity m)) as HP.
  destruct (spec_submit st _ _ _ _) as [[id trades] st'].
  destruct H as (Eg & I & Hshow & Eg' & Hshow' & Ee).
  exists ids, g, id, g', trades. do 3 (split; [done|]). split; [by eauto|]. intros A A' HA HA' T.
  pose proof (shows_unique _ _ _ _ _ HA Hshow) as P. pose proof (shows_unique _ _ _ _ _ HA' Hshow') as P'.
  destruct (HP I ltac:(lia)) as (H1 & H2 & H3 & H4). split; [|split; [done|]; split; [done|]; split; [done|]].
  - rewrite (Permutation_length P), (total_quantity_perm _ _ P), (total_quantity_perm _ _ P').
    destruct (HT I ltac:(lia)) as [(? & ? & Es & ?)|?]; [left|by right]. rewrite Es in P'.
    split_and!; [done..| |done]. by transitivity (sp_book st).
  - intros Hid Hlt r Hr. apply H4; [done..|]. by eapply elem_of_Permutation_proper.
Qed.

Lemma submission_trades_witness :
  exists ids g id g' trades,
    engine_run (fun k => k) log_trade (MatchingEngine_new 0 []) demo_subs = Some (ids, g) /\
    MatchingEngine_submitOrder (fun k => k) log_trade g 9 Buy 101 70 = Some (id, g') /\
    eng_env g' = eng_env g ++ trades /\
    exists A A', shows (fun k => k) (eng_book g) (eng_heap g) A /\ shows (fun k => k) (eng_book g') (eng_heap g') A' /\
      (0 < id -> total_quantity A' = total_quantity A + 70 - 2 * foldr Z.add 0 (trade_quantity <$> trades)).
Proof.
  destruct (submission_trades_best_first_and_conserves (fun k => k) 0 demo_subs (mkSubmission 9 Buy 101 70))
    as (ids & g & id & g' & trades & E & E' & Ee & (A & A' & HA & HA') & Hx).
  - unfold admissible_subs, demo_subs, admissible_order, valid_price, MaxPriceLevels.
    repeat constructor; cbn; lia.
  - vm_compute. reflexivity.
  - exists ids, g, id, g', trades. split; [exact E|]. split; [exact E'|]. split; [exact Ee|].
    exists A, A'. split; [exact HA|]. split; [exact HA'|]. intros Hid.
    destruct (Hx A A' HA HA') as ([(E0 & _)|(_ & _ & _ & Et)] & _); [lia|exact Et].
Defined.
