(* ===== verification/MatchingTypes.v ===== *)
(** * Ranges of the matching engine's data

    Every number the matching engine stores or publishes is kept in an unbounded [Z] by
    the model.  This file shows that each stays inside the C++ type that holds it, and
    that the identifiers are what they should be: sequence numbers grow strictly, an order
    id is older than every trade it takes part in, and a trade has two parties. *)

From Stdlib Require Import Sorted.
From S2P Require Import Prelude Types Bitmap OrderPool PriceLevel OrderBook BookStore MatchingEngine.
From S2P Require Import MatchingSpec MatchingProofs.

(** A resting order, its id given out by sequence number [last] at the latest. *)
Record order_typed (last : Z) (x : LimitOrder) : Prop := {
  ot_id : 0 < lo_id x <= last;
  ot_account : is_uint 64 (lo_account x);
  ot_price : valid_price (lo_price x);
  ot_quantity : 0 < lo_quantity x < 2 ^ 32
}.

(** A trade, numbered [last] at the latest. *)
Record trade_typed (last : Z) (t : Trade) : Prop := {
  tt_sequence : 0 < trade_sequence t <= last;
  tt_buy : 0 < trade_buy_order_id t < trade_sequence t;
  tt_sell : 0 < trade_sell_order_id t < trade_sequence t;
  tt_parties : trade_buy_order_id t <> trade_sell_order_id t;
  tt_buy_account : is_uint 64 (trade_buy_account_id t);
  tt_sell_account : is_uint 64 (trade_sell_account_id t);
  tt_price : valid_price (trade_price t);
  tt_quantity : 0 < trade_quantity t < 2 ^ 32
}.

Definition book_typed (st : spec_state) : Prop := Forall (order_typed (sp_sequence st)) (sp_book st).

Lemma order_typed_mono last last' x : last <= last' -> order_typed last x -> order_typed last' x.
Proof. intros Hl [? ? ? ?]. split; try done. lia. Qed.

Lemma trade_typed_mono last last' t : last <= last' -> trade_typed last t -> trade_typed last' t.
Proof. intros Hl []. split; try done. lia. Qed.

Lemma spec_trade_typed last seq x r t :
  0 < lo_id x -> lo_id x < seq <= last -> is_uint 64 (lo_account x) ->
  order_typed (seq - 1) r -> lo_id r <> lo_id x -> 0 < t <= lo_quantity r ->
  trade_typed last (spec_trade seq x r t).
Proof.
  intros Hx Hs Ha [Hi Hra Hp Hq] Hne Ht. unfold spec_trade.
  destruct (lo_side x); split; cbn; try done; lia.
Qed.

Lemma spec_trades_typed last x F : forall seq,
  0 < lo_id x <= seq -> is_uint 64 (lo_account x) -> seq + Z.of_nat (length F) <= last ->
  Forall (fun f => order_typed seq f.1 /\ lo_id f.1 <> lo_id x /\ 0 < f.2 <= lo_quantity f.1) F ->
  Forall (trade_typed last) (spec_trades seq x F).
Proof.
  induction F as [|f F IH]; intros seq Hx Ha Hl HF; cbn [spec_trades]; constructor; cbn [length] in Hl;
    apply Forall_cons in HF as [(Hf & Hne & Hq) HF].
  - apply spec_trade_typed; try done; [lia..|]. by replace (seq + 1 - 1) with seq by lia.
  - apply IH; [lia|done|lia|]. eapply Forall_impl; [exact HF|]. intros g (Hg & ?). split; [|done].
    eapply order_typed_mono; [|exact Hg]. lia.
Qed.

Lemma submit_typed st account s p q :
  spec_inv st -> book_typed st -> is_uint 64 account -> admissible_order p q ->
  let '(id, trades, st') := spec_submit st account s p q in
  Forall (trade_typed (sp_sequence st')) trades /\ book_typed st' /\ sp_sequence st <= sp_sequence st'.
Proof.
  intros I T Ha [Hp Hq]. unfold spec_submit. bcase; [split; [constructor|by split]|].
  pose proof (si_seq _ I) as Hs. set (x := mkLimit (sp_sequence st + 1) account s p q).
  unfold book_typed in *. rewrite Forall_forall in T.
  destruct (fills_spec s p q _ (si_wf _ I)) as (Hwf & _ & _ & Hfill & _ & Hmem).
  pose proof (fills_members s p q _ (si_wf _ I)) as HF. set (F := fills s p q _) in *.
  cbn [sp_sequence sp_book]. split; [|split; [|lia]].
  - apply spec_trades_typed; cbn; [lia|done|done|]. eapply Forall_impl; [exact HF|].
    intros f (Hf & _ & Hfq). specialize (T _ Hf). pose proof (ot_id _ _ T). split; [|split; [lia|done]].
    eapply order_typed_mono; [|exact T]. lia.
  - assert (Forall (order_typed (sp_sequence st + 1 + Z.of_nat (length F))) (apply_fills (sp_book st) F)) as HA.
    { apply Forall_forall. intros y Hy. destruct (Hmem _ Hy) as (z & Hz & Ei & Ea & _ & Ep).
      destruct (T _ Hz). pose proof (wf_quantities _ Hwf) as Hw. rewrite Forall_forall in Hw.
      split; rewrite ?Ei, ?Ea, ?Ep; try done; [lia|by apply Hw]. }
    specialize (Hfill ltac:(lia)). bcase; [|done]. apply Forall_app. split; [done|]. constructor; [|constructor].
    split; cbn; try done; lia.
Qed.

(** The trades of a run are numbered in the order they are published. *)
Definition numbered (trades : list Trade) : Prop := StronglySorted Z.lt (trade_sequence <$> trades).

Lemma numbered_app last t1 t2 :
  numbered t1 -> numbered t2 -> Forall (fun t => trade_sequence t <= last) t1 ->
  Forall (fun t => last < trade_sequence t) t2 -> numbered (t1 ++ t2).
Proof.
  unfold numbered. intros H1 H2 HF1 HF2. rewrite fmap_app.
  induction t1 as [|t t1 IH]; [done|]. cbn in *. apply StronglySorted_inv in H1 as [H1 Hlt].
  apply Forall_cons in HF1 as [Ht HF1]. constructor; [by apply IH|].
  apply Forall_app. split; [done|]. apply Forall_fmap. eapply Forall_impl; [exact HF2|]. cbn. lia.
Qed.

Lemma spec_trades_numbered seq x F :
  numbered (spec_trades seq x F) /\ Forall (fun t => seq < trade_sequence t) (spec_trades seq x F).
Proof.
  revert seq. induction F as [|f F IH]; intros seq; cbn [spec_trades]; [split; constructor|].
  destruct (IH (seq + 1)) as [H1 H2].
  assert (trade_sequence (spec_trade (seq + 1) x f.1 f.2) = seq + 1) as E by (unfold spec_trade; by destruct (lo_side x)).
  split.
  - unfold numbered. cbn [fmap list_fmap]. constructor; [done|]. rewrite E. by apply Forall_fmap.
  - constructor; [rewrite E; lia|]. eapply Forall_impl; [exact H2|]. cbn. lia.
Qed.

Lemma submit_numbered st account s p q :
  let '(id, trades, st') := spec_submit st account s p q in
  numbered trades /\ Forall (fun t => sp_sequence st < trade_sequence t) trades.
Proof.
  unfold spec_submit. bcase; [split; constructor|].
  destruct (spec_trades_numbered (sp_sequence st + 1) (mkLimit (sp_sequence st + 1) account s p q)
    (fills s p q (priority (opposite s) (sp_book st)))) as [H1 H2].
  split; [done|]. eapply Forall_impl; [exact H2|]. cbn. lia.
Qed.

Lemma run_typed subs : forall st,
  spec_inv st -> book_typed st -> admissible_subs subs ->
  Forall (fun m => is_uint 64 (sub_account m)) subs ->
  let '(ids, trades, st') := spec_run st subs in
  Forall (fun id => 0 <= id <= sp_sequence st') ids /\
  Forall (trade_typed (sp_sequence st')) trades /\ book_typed st' /\ sp_sequence st <= sp_sequence st' /\
  numbered trades /\ Forall (fun t => sp_sequence st < trade_sequence t) trades.
Proof.
  induction subs as [|m subs IH]; intros st I T Hadm Hac; cbn [spec_run].
  { split_and!; done || constructor. }
  apply Forall_cons in Hadm as [Hm Hadm]. apply Forall_cons in Hac as [Ha Hac].
  pose proof (submit_typed st _ (sub_side m) _ _ I T Ha Hm) as H1.
  pose proof (submit_numbered st (sub_account m) (sub_side m) (sub_price m) (sub_quantity m)) as H2.
  pose proof (spec_submit_inv st (sub_account m) (sub_side m) (sub_price m) _ I (proj2 Hm)) as I1.
  assert (0 <= (spec_submit st (sub_account m) (sub_side m) (sub_price m) (sub_quantity m)).1.1 <=
    sp_sequence (spec_submit st (sub_account m) (sub_side m) (sub_price m) (sub_quantity m)).2) as Hid.
  { pose proof (si_seq _ I). unfold spec_submit. bcase; cbn; lia. }
  destruct (spec_submit st _ _ _ _) as [[id trades] st1]. cbn [fst snd] in *.
  destruct H1 as (Ht1 & T1 & Hs1), H2 as (Hn1 & Hf1).
  specialize (IH st1 I1 T1 Hadm Hac). destruct (spec_run st1 subs) as [[ids trades'] st2].
  destruct IH as (Hids & Ht2 & T2 & Hs2 & Hn2 & Hf2). split_and!; [|..|done|lia| |].
  - constructor; [lia|done].
  - apply Forall_app. split; [|done]. eapply Forall_impl; [exact Ht1|]. intros t. by apply trade_typed_mono.
  - apply (numbered_app (sp_sequence st1)); [done..| |done].
    eapply Forall_impl; [exact Ht1|]. intros t [[_ ?] _ _ _ _ _ _ _]. done.
  - apply Forall_app. split; [done|]. eapply Forall_impl; [exact Hf2|]. cbn. lia.
Qed.

(** C8: every value of the engine stays in its C++ type.  After any admissible sequence of
    submissions by 64-bit accounts, the ids returned and the sequencer are 64-bit values;
    every resting order has a positive id, a 64-bit account, a price inside the level arrays
    and a positive 32-bit quantity; every trade published has a positive sequence number
    younger than the ids of its two, distinct, orders, 64-bit accounts, a price inside the
    level arrays and a positive 32-bit quantity; trades are published in strictly
    increasing sequence; and the total of every level is a 32-bit value. *)
Theorem engine_data_stays_in_range :
  forall (std_hash : Z -> Z) (base : Z) (subs : list submission),
  admissible_subs subs -> Forall (fun m => is_uint 64 (sub_account m)) subs ->
  Sequencer_init + (1 + DefaultOrderCapacity) * Z.of_nat (length subs) < 2 ^ 64 ->
  exists ids g A,
    engine_run std_hash log_trade (MatchingEngine_new base []) subs = Some (ids, g) /\
    shows std_hash (eng_book g) (eng_heap g) A /\
    is_uint 64 (eng_sequence g) /\
    Forall (fun id => 0 <= id <= eng_sequence g) ids /\
    Forall (order_typed (eng_sequence g)) A /\
    Forall (trade_typed (eng_sequence g)) (eng_env g) /\ numbered (eng_env g) /\
    (forall s p, valid_price p -> is_uint 32 (lvl_total_quantity (level (eng_book g) s p))).
Proof.
  intros std_hash base subs Hadm Hac Hseq.
  pose proof (run_refines std_hash log_trade subs _ spec_new (engine_rel_new std_hash base [])
    spec_inv_new Hadm Hseq) as H.
  pose proof (run_typed subs spec_new spec_inv_new (Forall_nil_2 _) Hadm Hac) as HT.
  destruct (spec_run spec_new subs) as [[ids trades] st].
  destruct H as (g & Eg & (L & R & Ht & EA & Es) & I & Hb & Ee).
  destruct HT as (Hids & Htr & T & Hs & Hn & _). rewrite publish_all_log in Ee. cbn [app] in Ee.
  exists ids, g, (sp_book st). rewrite Es. split; [done|].
  split; [rewrite <- EA; by eapply store_shows|]. cbn [sp_sequence spec_new] in *.
  change (eng_env (MatchingEngine_new base [])) with (@nil Trade) in Ee. cbn [app] in Ee. rewrite Ee.
  split; [pose proof (si_seq _ I); unfold is_uint; lia|]. split_and!; try done.
  intros s p _. rewrite (Ht s p). apply wrap_range. lia.
Qed.

Lemma engine_data_witness :
  exists ids g A,
    engine_run (fun k => k) log_trade (MatchingEngine_new 0 []) demo_subs = Some (ids, g) /\
    shows (fun k => k) (eng_book g) (eng_heap g) A /\
    is_uint 64 (eng_sequence g) /\
    Forall (fun id => 0 <= id <= eng_sequence g) ids /\
    Forall (order_typed (eng_sequence g)) A /\
    Forall (trade_typed (eng_sequence g)) (eng_env g) /\ numbered (eng_env g) /\
    (forall s p, valid_price p -> is_uint 32 (lvl_total_quantity (level (eng_book g) s p))).
Proof.
  apply (engine_data_stays_in_range (fun k => k) 0 demo_subs).
  - unfold admissible_subs, demo_subs, admissible_order, valid_price, MaxPriceLevels.
    repeat constructor; cbn; lia.
  - unfold demo_subs, is_uint. repeat constructor; cbn; lia.
  - vm_compute. reflexivity.
Defined.
