(* ===== verification/SpscRing.v ===== *)
(** * The single-producer single-consumer ring buffer

    [common/spsc_ring_buffer.hpp] and [common/spsc_queue_metrics.hpp].

    The operations are functions on the ring, as a single thread sees them; the
    file shows that they implement a bounded FIFO queue.  [SpscThreads] has the two threads. *)

From S2P Require Import Prelude.

Record SPSCQueueMetrics : Type := mkMetrics {
  pushCount : Z;
  popCount : Z;
  pushFailures : Z;
  popFailures : Z;
  highWaterMark : Z
}.

Definition SPSCQueueMetrics_init : SPSCQueueMetrics := mkMetrics 0 0 0 0 0.

Record SPSCRingBuffer (T : Type) : Type := mkRing {
  head_ : Z;
  tail_ : Z;
  buffer_ : gmap Z T;
  metrics_ : SPSCQueueMetrics
}.
Arguments mkRing {T}.
Arguments head_ {T}.
Arguments tail_ {T}.
Arguments buffer_ {T}.
Arguments metrics_ {T}.

Section ring.

Context {T : Type} (dflt : T).

Variable Capacity : Z.

Definition increment (index : Z) : Z := u64 (index + 1) mod Capacity.

Definition SPSCRingBuffer_new : SPSCRingBuffer T := mkRing 0 0 ∅ SPSCQueueMetrics_init.

(** The depth computed from two indices. *)
Definition depth (head tail : Z) : Z :=
  if head >=? tail then head - tail else Capacity - tail + head.

(** Metrics after a failed push, and after a successful one to depth [currentSize]. *)
Definition count_push_failure (m : SPSCQueueMetrics) : SPSCQueueMetrics :=
  mkMetrics (pushCount m) (popCount m) (u64 (pushFailures m + 1)) (popFailures m) (highWaterMark m).

Definition count_push (m : SPSCQueueMetrics) : SPSCQueueMetrics :=
  mkMetrics (u64 (pushCount m + 1)) (popCount m) (pushFailures m) (popFailures m) (highWaterMark m).

Definition raise_high_water (currentSize : Z) (m : SPSCQueueMetrics) : SPSCQueueMetrics :=
  if currentSize >? highWaterMark m then
    mkMetrics (pushCount m) (popCount m) (pushFailures m) (popFailures m) currentSize
  else m.

Definition count_pop_failure (m : SPSCQueueMetrics) : SPSCQueueMetrics :=
  mkMetrics (pushCount m) (popCount m) (pushFailures m) (u64 (popFailures m + 1)) (highWaterMark m).

Definition count_pop (m : SPSCQueueMetrics) : SPSCQueueMetrics :=
  mkMetrics (pushCount m) (u64 (popCount m + 1)) (pushFailures m) (popFailures m) (highWaterMark m).

Definition tryPush (r : SPSCRingBuffer T) (value : T) : bool * SPSCRingBuffer T :=
  let head := head_ r in
  let nextHead := increment head in
  let tail := tail_ r in
  if nextHead =? tail then
    (false, mkRing (head_ r) (tail_ r) (buffer_ r) (count_push_failure (metrics_ r)))
  else
    let buffer := <[head := value]> (buffer_ r) in
    let metrics := count_push (metrics_ r) in
    let currentSize := depth nextHead tail in
    (true, mkRing nextHead (tail_ r) buffer (raise_high_water currentSize metrics)).

(** The value popped, if any. *)
Definition tryPop (r : SPSCRingBuffer T) : option T * SPSCRingBuffer T :=
  let tail := tail_ r in
  let head := head_ r in
  if tail =? head then
    (None, mkRing (head_ r) (tail_ r) (buffer_ r) (count_pop_failure (metrics_ r)))
  else
    let value := arr_get dflt (buffer_ r) tail in
    (Some value, mkRing (head_ r) (increment tail) (buffer_ r) (count_pop (metrics_ r))).

Definition SPSCRingBuffer_empty (r : SPSCRingBuffer T) : bool := head_ r =? tail_ r.

Definition SPSCRingBuffer_full (r : SPSCRingBuffer T) : bool := increment (head_ r) =? tail_ r.

Definition SPSCRingBuffer_size (r : SPSCRingBuffer T) : Z := depth (head_ r) (tail_ r).

Definition SPSCRingBuffer_capacity : Z := Capacity - 1.

(** ** The bounded queue *)

Record bounded_queue : Type := mkQueue {
  q_items : list T;
  q_pushes : Z;
  q_pops : Z;
  q_push_failures : Z;
  q_pop_failures : Z;
  q_high : Z
}.

Definition queue_new : bounded_queue := mkQueue [] 0 0 0 0 0.

Definition queue_push (q : bounded_queue) (v : T) : bool * bounded_queue :=
  if Z.of_nat (length (q_items q)) =? Capacity - 1 then
    (false, mkQueue (q_items q) (q_pushes q) (q_pops q) (q_push_failures q + 1) (q_pop_failures q)
              (q_high q))
  else
    (true, mkQueue (q_items q ++ [v]) (q_pushes q + 1) (q_pops q) (q_push_failures q)
             (q_pop_failures q) (Z.max (q_high q) (Z.of_nat (length (q_items q)) + 1))).

Definition queue_pop (q : bounded_queue) : option T * bounded_queue :=
  match q_items q with
  | [] => (None, mkQueue [] (q_pushes q) (q_pops q) (q_push_failures q) (q_pop_failures q + 1)
                  (q_high q))
  | v :: items =>
      (Some v, mkQueue items (q_pushes q) (q_pops q + 1) (q_push_failures q) (q_pop_failures q)
                 (q_high q))
  end.

(** The ring holds the items of [q] from [tail_] on, modulo the capacity, and its
    counters are those of [q] modulo 2^64. *)
Record ring_rel (r : SPSCRingBuffer T) (q : bounded_queue) : Prop := {
  rr_tail : 0 <= tail_ r < Capacity;
  rr_room : Z.of_nat (length (q_items q)) <= Capacity - 1;
  rr_head : head_ r = (tail_ r + Z.of_nat (length (q_items q))) mod Capacity;
  rr_items : forall i v, q_items q !! i = Some v ->
    arr_get dflt (buffer_ r) ((tail_ r + Z.of_nat i) mod Capacity) = v;
  rr_metrics : metrics_ r = mkMetrics (u64 (q_pushes q)) (u64 (q_pops q)) (u64 (q_push_failures q))
                              (u64 (q_pop_failures q)) (q_high q)
}.

Hypothesis Capacity_range : 1 < Capacity < 2 ^ 64.

Lemma increment_mod i : 0 <= i < Capacity -> increment i = (i + 1) mod Capacity.
Proof. intros Hi. unfold increment. by rewrite wrap_small by lia. Qed.

(** The distance from [tail] to [tail + n] is [n]. *)
Lemma depth_mod t n :
  0 <= t < Capacity -> 0 <= n < Capacity -> depth ((t + n) mod Capacity) t = n.
Proof.
  intros Ht Hn. unfold depth. rewrite Z.geb_leb. destruct (Z.lt_ge_cases (t + n) Capacity).
  - rewrite Z.mod_small by lia. rewrite (proj2 (Z.leb_le _ _)) by lia. lia.
  - replace ((t + n) mod Capacity) with (t + n - Capacity).
    + rewrite (proj2 (Z.leb_gt _ _)) by lia. lia.
    + apply (Z.mod_unique_pos _ _ 1); lia.
Qed.

Lemma mod_eq_dist a n m :
  0 <= n < Capacity -> 0 <= m < Capacity -> (a + n) mod Capacity = (a + m) mod Capacity -> n = m.
Proof.
  intros Hn Hm E.
  assert ((n - m) mod Capacity = 0) as Ez.
  { replace (n - m) with ((a + n) - (a + m)) by lia. rewrite Zminus_mod, E, Z.sub_diag. apply Zmod_0_l. }
  apply Z.mod_divide in Ez; [|lia]. destruct Ez as [k Ek].
  assert (k <= -1 \/ k = 0 \/ 1 <= k) as [Hk|[->|Hk]] by lia; [|lia|].
  - pose proof (Z.mul_le_mono_nonneg_r k (-1) Capacity ltac:(lia) Hk). lia.
  - pose proof (Z.mul_le_mono_nonneg_r 1 k Capacity ltac:(lia) Hk). lia.
Qed.

(** The index [n] places after [t] is [t] itself only for nothing or a full turn. *)
Lemma mod_eq_start t n :
  0 <= t < Capacity -> 0 <= n <= Capacity ->
  ((t + n) mod Capacity =? t) = (n =? 0) || (n =? Capacity).
Proof.
  intros Ht Hn. destruct (Z.eqb_spec n 0) as [->|H0].
  { cbn. rewrite Z.add_0_r, Z.mod_small by lia. apply Z.eqb_refl. }
  destruct (Z.eqb_spec n Capacity) as [->|HC]; cbn [orb].
  - apply Z.eqb_eq. symmetry. apply (Z.mod_unique_pos _ _ 1); lia.
  - apply Z.eqb_neq. intros E. apply H0. apply (mod_eq_dist t); [lia..|].
    rewrite Z.add_0_r, (Z.mod_small t) by lia. exact E.
Qed.

Lemma ring_rel_new : ring_rel SPSCRingBuffer_new queue_new.
Proof.
  constructor; cbn; try done; try lia.
  all: by rewrite Zmod_0_l.
Qed.

Lemma rr_next_head r q :
  ring_rel r q -> increment (head_ r) = (tail_ r + (Z.of_nat (length (q_items q)) + 1)) mod Capacity.
Proof.
  intros R. rewrite increment_mod; rewrite (rr_head _ _ R); [|apply Z.mod_pos_bound; lia].
  rewrite Zplus_mod_idemp_l. f_equal. lia.
Qed.

Lemma tryPush_refines r q v :
  ring_rel r q ->
  (tryPush r v).1 = (queue_push q v).1 /\ ring_rel (tryPush r v).2 (queue_push q v).2.
Proof.
  intros R. pose proof (rr_next_head _ _ R) as Hn. destruct R as [Ht Hr Hh Hi Hm].
  unfold tryPush, queue_push. rewrite Hn.
  set (n := Z.of_nat (length (q_items q))) in *.
  assert (((tail_ r + (n + 1)) mod Capacity =? tail_ r) = (n =? Capacity - 1)) as ->.
  { rewrite mod_eq_start by lia. rewrite (proj2 (Z.eqb_neq (n + 1) 0)) by lia. cbn [orb].
    apply eq_true_iff_eq. rewrite !Z.eqb_eq. lia. }
  bcase; (split; [done|]); cbn [snd].
  - constructor; cbn; try done. rewrite Hm. cbn. unfold count_push_failure. cbn.
    by rewrite wrap_add_l.
  - constructor; cbn [head_ tail_ buffer_ metrics_ q_items].
    + done.
    + rewrite length_app. cbn. lia.
    + rewrite length_app. cbn. f_equal. lia.
    + intros i w Hw. rewrite Hh, arr_get_set. case_decide as E'.
      * assert (Z.of_nat i = n) as Ein.
        { assert (i < length (q_items q ++ [v]))%nat as Hlt by (by eapply lookup_lt_Some).
          rewrite length_app in Hlt. cbn in Hlt. apply mod_eq_dist in E'; lia. }
        rewrite lookup_app_r in Hw by lia. replace (i - length (q_items q))%nat with O in Hw by lia.
        by injection Hw.
      * apply Hi. rewrite lookup_app_l in Hw; [done|].
        assert (i < length (q_items q ++ [v]))%nat as Hlt by (by eapply lookup_lt_Some).
        rewrite length_app in Hlt. cbn in Hlt.
        assert (i <> length (q_items q)); [|lia]. intros ->. by apply E'.
    + rewrite depth_mod by lia. rewrite Hm. unfold count_push, raise_high_water. cbn.
      rewrite wrap_add_l, Z.gtb_ltb. unfold n.
      destruct (Z.ltb_spec (q_high q) (Z.of_nat (length (q_items q)) + 1)); f_equal; lia.
Qed.

Lemma tryPop_refines r q :
  ring_rel r q ->
  (tryPop r).1 = (queue_pop q).1 /\ ring_rel (tryPop r).2 (queue_pop q).2.
Proof.
  intros [Ht Hr Hh Hi Hm]. unfold tryPop, queue_pop. rewrite Hh.
  destruct (q_items q) as [|v items] eqn:Eq.
  - cbn [length Z.of_nat]. rewrite Z.add_0_r, Z.mod_small, Z.eqb_refl by lia. split; [done|].
    cbn [snd]. constructor; cbn; try done; [by rewrite Z.add_0_r, Z.mod_small by lia|].
    rewrite Hm. unfold count_pop_failure. cbn. by rewrite wrap_add_l.
  - cbn [length] in *. rewrite Z.eqb_sym, mod_eq_start, !(proj2 (Z.eqb_neq _ _)) by lia. cbn [orb].
    cbn [fst snd]. split.
    + f_equal. rewrite <- (Hi O v eq_refl). cbn [Z.of_nat]. by rewrite Z.add_0_r, Z.mod_small by lia.
    + constructor; cbn [head_ tail_ buffer_ metrics_ q_items].
      * unfold increment. apply Z.mod_pos_bound. lia.
      * lia.
      * rewrite increment_mod by lia. rewrite Zplus_mod_idemp_l. f_equal. lia.
      * intros i w Hw. rewrite increment_mod by lia. rewrite Zplus_mod_idemp_l.
        rewrite <- (Hi (S i) w Hw). do 2 f_equal. lia.
      * rewrite Hm. unfold count_pop. cbn. by rewrite wrap_add_l.
Qed.

Lemma size_refines r q :
  ring_rel r q -> SPSCRingBuffer_size r = Z.of_nat (length (q_items q)) /\
    SPSCRingBuffer_empty r = bool_decide (q_items q = []) /\
    SPSCRingBuffer_full r = (Z.of_nat (length (q_items q)) =? Capacity - 1).
Proof.
  intros R. pose proof (rr_next_head _ _ R) as Hn. destruct R as [Ht Hr Hh _ _].
  unfold SPSCRingBuffer_size, SPSCRingBuffer_empty, SPSCRingBuffer_full. rewrite Hn, Hh. split_and!.
  - apply depth_mod; lia.
  - rewrite mod_eq_start by lia. destruct (q_items q) as [|v items]; cbn [length] in *; [done|].
    rewrite bool_decide_false by done. rewrite !(proj2 (Z.eqb_neq _ _)) by lia. done.
  - rewrite mod_eq_start by lia. rewrite (proj2 (Z.eqb_neq _ 0)) by lia. cbn [orb].
    apply eq_true_iff_eq. rewrite !Z.eqb_eq. lia.
Qed.

(** ** Runs of one thread *)

Inductive ring_op : Type := Push (v : T) | Pop.

(** The results of a sequence of operations: success of the pushes, values of the
    pops, and [size] after each. *)
Definition ring_step (r : SPSCRingBuffer T) (op : ring_op) : (bool + option T) * SPSCRingBuffer T :=
  match op with
  | Push v => let '(ok, r) := tryPush r v in (inl ok, r)
  | Pop => let '(v, r) := tryPop r in (inr v, r)
  end.

Definition queue_step (q : bounded_queue) (op : ring_op) : (bool + option T) * bounded_queue :=
  match op with
  | Push v => let '(ok, q) := queue_push q v in (inl ok, q)
  | Pop => let '(v, q) := queue_pop q in (inr v, q)
  end.

Fixpoint ring_run (r : SPSCRingBuffer T) (ops : list ring_op)
    : list ((bool + option T) * Z) * SPSCRingBuffer T :=
  match ops with
  | [] => ([], r)
  | op :: ops =>
      let '(out, r) := ring_step r op in
      let '(outs, r') := ring_run r ops in
      ((out, SPSCRingBuffer_size r) :: outs, r')
  end.

Fixpoint queue_run (q : bounded_queue) (ops : list ring_op)
    : list ((bool + option T) * Z) * bounded_queue :=
  match ops with
  | [] => ([], q)
  | op :: ops =>
      let '(out, q) := queue_step q op in
      let '(outs, q') := queue_run q ops in
      ((out, Z.of_nat (length (q_items q))) :: outs, q')
  end.

Lemma step_refines r q op :
  ring_rel r q ->
  (ring_step r op).1 = (queue_step q op).1 /\ ring_rel (ring_step r op).2 (queue_step q op).2.
Proof.
  intros R. unfold ring_step, queue_step. destruct op as [v|].
  - destruct (tryPush_refines r q v R) as [E R']. destruct (tryPush r v), (queue_push q v).
    cbn in *. by subst.
  - destruct (tryPop_refines r q R) as [E R']. destruct (tryPop r), (queue_pop q). cbn in *. by subst.
Qed.

Lemma ring_run_refines r q ops :
  ring_rel r q -> (ring_run r ops).1 = (queue_run q ops).1 /\
    ring_rel (ring_run r ops).2 (queue_run q ops).2.
Proof.
  revert r q. induction ops as [|op ops IH]; intros r q R; [done|]. cbn.
  destruct (step_refines r q op R) as [E R1].
  destruct (ring_step r op) as [out r1], (queue_step q op) as [out' q1]. cbn in *. subst out'.
  destruct (IH r1 q1 R1) as [E2 R2]. destruct (size_refines r1 q1 R1) as [Es _].
  destruct (ring_run r1 ops), (queue_run q1 ops). cbn in *. by rewrite Es, E2.
Qed.


End ring.

(** C10: the ring buffer is a bounded FIFO queue.  For every capacity above one,
    every sequence of [tryPush] and [tryPop] on a new ring gives the results of a
    FIFO queue of at most [Capacity - 1] elements, with [size] its length after
    each operation, and the metrics end as the numbers of successful and failed
    pushes and pops (modulo 2^64) and the greatest length reached. *)
Theorem spsc_ring_refines_bounded_queue :
  forall (T : Type) (dflt : T) (Capacity : Z) (ops : list (ring_op (T := T))),
  1 < Capacity < 2 ^ 64 ->
  let '(outs, r) := ring_run dflt Capacity SPSCRingBuffer_new ops in
  let '(outs', q) := queue_run Capacity queue_new ops in
  outs = outs' /\
  metrics_ r = mkMetrics (u64 (q_pushes q)) (u64 (q_pops q)) (u64 (q_push_failures q))
                 (u64 (q_pop_failures q)) (q_high q).
Proof.
  intros T dflt Capacity ops HC.
  destruct (ring_run_refines dflt Capacity HC SPSCRingBuffer_new queue_new ops) as [E R].
  { by apply ring_rel_new. }
  destruct (ring_run _ _ _ _), (queue_run _ _ _). split; [done|]. apply (rr_metrics _ _ _ _ R).
Qed.

Lemma spsc_ring_witness :
  let ops := [Push 1; Push 2; Push 3; Pop; Push 4; Pop; Pop; Pop] in
  let '(outs, r) := ring_run 0 3 SPSCRingBuffer_new ops in
  let '(outs', q) := queue_run 3 queue_new ops in
  outs = outs' /\
  metrics_ r = mkMetrics (u64 (q_pushes q)) (u64 (q_pops q)) (u64 (q_push_failures q))
                 (u64 (q_pop_failures q)) (q_high q).
Proof. apply (spsc_ring_refines_bounded_queue Z 0 3 [Push 1; Push 2; Push 3; Pop; Push 4; Pop; Pop; Pop]). lia. Defined.
