(* ===== verification/SpscThreads.v ===== *)
(** * The ring buffer under two threads

    [tryPush] and [tryPop] of [common/spsc_ring_buffer.hpp] as a producer and a
    consumer thread that interleave.  Each access to shared memory is one step.
    An atomic index is its modification order, the list of the values stored so
    far; a load by the other thread returns any value of the list that is not
    older than the last one the thread has seen, which covers every execution
    that [acquire] and [relaxed] loads allow.  The slots of the buffer are not
    atomic: the invariant includes that the two threads never access the same
    slot at the same time. *)

From S2P Require Import Prelude SpscRing.

Section threads.

Context {T : Type} (dflt : T).

Variable Capacity : Z.

(** Where the producer stands inside [tryPush value]; the locals it holds are the
    arguments. *)
Inductive producer : Type :=
  | P_idle
  | P_load_tail (value : T) (head : Z)
  | P_test (value : T) (head tail : Z)
  | P_write (value : T) (head tail : Z)
  | P_store_head (value : T) (head tail : Z)
  | P_count (head tail : Z)
  | P_high (head tail : Z)
  | P_fail.

(** Where the consumer stands inside [tryPop]. *)
Inductive consumer : Type :=
  | C_idle
  | C_load_head (tail : Z)
  | C_test (tail head : Z)
  | C_read (tail : Z)
  | C_store_tail (tail : Z) (value : T)
  | C_count
  | C_fail.

Record threads : Type := mkThreads {
  heads : list Z;          (* modification order of [head_] *)
  tails : list Z;          (* modification order of [tail_] *)
  buf : gmap Z T;
  met : SPSCQueueMetrics;
  prod : producer;
  seen_tail : nat;         (* position of the tail the producer last loaded *)
  cons : consumer;
  seen_head : nat;         (* position of the head the consumer last loaded *)
  pushed : list T;         (* values published so far *)
  popped : list T          (* values handed out so far *)
}.

Definition threads_new : threads :=
  mkThreads [0] [0] ∅ SPSCQueueMetrics_init P_idle 0 C_idle 0 [] [].

(** The steps of the producer. *)
Inductive push_step : threads -> threads -> Prop :=
  | push_start hs ts b m kp c kc pu po value head :
      last hs = Some head ->
      push_step (mkThreads hs ts b m P_idle kp c kc pu po)
           (mkThreads hs ts b m (P_load_tail value head) kp c kc pu po)
  | push_load_tail hs ts b m kp c kc pu po value head kp' tail :
      (kp <= kp')%nat -> ts !! kp' = Some tail ->
      push_step (mkThreads hs ts b m (P_load_tail value head) kp c kc pu po)
           (mkThreads hs ts b m (P_test value head tail) kp' c kc pu po)
  | push_full hs ts b m kp c kc pu po value head tail :
      increment Capacity head = tail ->
      push_step (mkThreads hs ts b m (P_test value head tail) kp c kc pu po)
           (mkThreads hs ts b m P_fail kp c kc pu po)
  | push_fail hs ts b m kp c kc pu po :
      push_step (mkThreads hs ts b m P_fail kp c kc pu po)
           (mkThreads hs ts b (count_push_failure m) P_idle kp c kc pu po)
  | push_room hs ts b m kp c kc pu po value head tail :
      increment Capacity head <> tail ->
      push_step (mkThreads hs ts b m (P_test value head tail) kp c kc pu po)
           (mkThreads hs ts b m (P_write value head tail) kp c kc pu po)
  | push_write hs ts b m kp c kc pu po value head tail :
      push_step (mkThreads hs ts b m (P_write value head tail) kp c kc pu po)
           (mkThreads hs ts (<[head := value]> b) m (P_store_head value head tail) kp c kc pu po)
  | push_store_head hs ts b m kp c kc pu po value head tail :
      push_step (mkThreads hs ts b m (P_store_head value head tail) kp c kc pu po)
           (mkThreads (hs ++ [increment Capacity head]) ts b m (P_count head tail) kp c kc
              (pu ++ [value]) po)
  | push_count hs ts b m kp c kc pu po head tail :
      push_step (mkThreads hs ts b m (P_count head tail) kp c kc pu po)
           (mkThreads hs ts b (count_push m) (P_high head tail) kp c kc pu po)
  | push_high hs ts b m kp c kc pu po head tail :
      push_step (mkThreads hs ts b m (P_high head tail) kp c kc pu po)
           (mkThreads hs ts b
              (raise_high_water (depth Capacity (increment Capacity head) tail) m)
              P_idle kp c kc pu po).

(** The steps of the consumer. *)
Inductive pop_step : threads -> threads -> Prop :=
  | pop_start hs ts b m p kp kc pu po tail :
      last ts = Some tail ->
      pop_step (mkThreads hs ts b m p kp C_idle kc pu po)
           (mkThreads hs ts b m p kp (C_load_head tail) kc pu po)
  | pop_load_head hs ts b m p kp kc pu po tail kc' head :
      (kc <= kc')%nat -> hs !! kc' = Some head ->
      pop_step (mkThreads hs ts b m p kp (C_load_head tail) kc pu po)
           (mkThreads hs ts b m p kp (C_test tail head) kc' pu po)
  | pop_empty hs ts b m p kp kc pu po tail head :
      tail = head ->
      pop_step (mkThreads hs ts b m p kp (C_test tail head) kc pu po)
           (mkThreads hs ts b m p kp C_fail kc pu po)
  | pop_fail hs ts b m p kp kc pu po :
      pop_step (mkThreads hs ts b m p kp C_fail kc pu po)
           (mkThreads hs ts b (count_pop_failure m) p kp C_idle kc pu po)
  | pop_some hs ts b m p kp kc pu po tail head :
      tail <> head ->
      pop_step (mkThreads hs ts b m p kp (C_test tail head) kc pu po)
           (mkThreads hs ts b m p kp (C_read tail) kc pu po)
  | pop_read hs ts b m p kp kc pu po tail :
      pop_step (mkThreads hs ts b m p kp (C_read tail) kc pu po)
           (mkThreads hs ts b m p kp (C_store_tail tail (arr_get dflt b tail)) kc pu po)
  | pop_store_tail hs ts b m p kp kc pu po tail value :
      pop_step (mkThreads hs ts b m p kp (C_store_tail tail value) kc pu po)
           (mkThreads hs (ts ++ [increment Capacity tail]) b m p kp C_count kc pu (po ++ [value]))
  | pop_count hs ts b m p kp kc pu po :
      pop_step (mkThreads hs ts b m p kp C_count kc pu po)
           (mkThreads hs ts b (count_pop m) p kp C_idle kc pu po).

Definition step (s s' : threads) : Prop := push_step s s' \/ pop_step s s'.

Definition reachable : threads -> Prop := rtc step threads_new.

(** ** Invariant *)

(** The [i]-th index value, and the modification order after [n] stores. *)
Definition slot (i : nat) : Z := Z.of_nat i mod Capacity.

Definition slots (n : nat) : list Z := slot <$> seq 0 (S n).

(** What the producer's locals mean: [n] values are published and the tail was
    last seen at position [k]. *)
Definition producer_ok (p : producer) (b : gmap Z T) (n k : nat) : Prop :=
  match p with
  | P_idle | P_fail => True
  | P_load_tail _ head => head = slot n
  | P_test _ head tail => head = slot n /\ tail = slot k
  | P_write _ head tail =>
      head = slot n /\ tail = slot k /\ Z.of_nat n + 1 - Z.of_nat k < Capacity
  | P_store_head value head tail =>
      head = slot n /\ tail = slot k /\ Z.of_nat n + 1 - Z.of_nat k < Capacity /\
      arr_get dflt b head = value
  | P_count head tail | P_high head tail =>
      exists n', n = S n' /\ head = slot n' /\ tail = slot k
  end.

(** What the consumer's locals mean: [c] values are handed out and the head was
    last seen at position [k]. *)
Definition consumer_ok (q : consumer) (pushed : list T) (c k : nat) : Prop :=
  match q with
  | C_idle | C_fail | C_count => True
  | C_load_head tail => tail = slot c
  | C_test tail head => tail = slot c /\ head = slot k
  | C_read tail => tail = slot c /\ (c < k)%nat
  | C_store_tail tail value => tail = slot c /\ (c < k)%nat /\ pushed !! c = Some value
  end.

Record threads_inv (s : threads) : Prop := {
  ti_heads : heads s = slots (length (pushed s));
  ti_tails : tails s = slots (length (popped s));
  ti_fifo : popped s = take (length (popped s)) (pushed s);
  ti_seen_head : (length (popped s) <= seen_head s <= length (pushed s))%nat;
  ti_seen_tail : (seen_tail s <= length (popped s))%nat;
  ti_room : Z.of_nat (length (pushed s)) - Z.of_nat (seen_tail s) <= Capacity - 1;
  ti_buffer : forall i v, (length (popped s) <= i)%nat -> pushed s !! i = Some v ->
    arr_get dflt (buf s) (slot i) = v;
  ti_high : highWaterMark (met s) <= Capacity - 1;
  ti_prod : producer_ok (prod s) (buf s) (length (pushed s)) (seen_tail s);
  ti_cons : consumer_ok (cons s) (pushed s) (length (popped s)) (seen_head s)
}.

Hypothesis Capacity_range : 1 < Capacity < 2 ^ 64.

Lemma slot_next i : increment Capacity (slot i) = slot (S i).
Proof.
  unfold slot. rewrite increment_mod; [|done|apply Z.mod_pos_bound; lia].
  rewrite Zplus_mod_idemp_l. f_equal. lia.
Qed.

Lemma slot_inj i j :
  (i <= j)%nat -> Z.of_nat j - Z.of_nat i < Capacity -> slot i = slot j -> i = j.
Proof.
  intros Hij Hd E. unfold slot in E.
  assert (0 = Z.of_nat j - Z.of_nat i); [|lia].
  apply (mod_eq_dist Capacity Capacity_range (Z.of_nat i)); [lia..|].
  rewrite Z.add_0_r, E. f_equal. lia.
Qed.

Lemma slots_lookup n i x : slots n !! i = Some x <-> (i <= n)%nat /\ x = slot i.
Proof.
  unfold slots. rewrite list_lookup_fmap_Some. setoid_rewrite lookup_seq. split.
  - intros (j & -> & -> & ?). cbn. split; [lia|done].
  - intros [? ->]. exists i. split; [done|]. lia.
Qed.

Lemma slots_last n : last (slots n) = Some (slot n).
Proof.
  unfold slots. rewrite seq_S, fmap_app. cbn [fmap list_fmap]. apply last_snoc.
Qed.

Lemma slots_snoc n : slots n ++ [slot (S n)] = slots (S n).
Proof. unfold slots. by rewrite (seq_S (S n) 0), fmap_app. Qed.

Lemma threads_inv_new : threads_inv threads_new.
Proof.
  constructor; cbn; try done; lia.
Qed.

Ltac inv_intro :=
  match goal with I : threads_inv _ |- _ => destruct I as [Hh Ht Hf Hsh Hst Hr Hb Hw Hp Hc] end;
  cbn [heads tails buf met prod seen_tail cons seen_head pushed popped producer_ok consumer_ok] in *.

Lemma push_step_inv s s' : push_step s s' -> threads_inv s -> threads_inv s'.
Proof.
  intros Hstep I. destruct Hstep; inv_intro.
  - (* push_start *) constructor; cbn; try done. rewrite Hh, slots_last in *. congruence.
  - (* push_load_tail *) subst ts. apply slots_lookup in H0 as [? ->].
    constructor; cbn; try done; lia.
  - by constructor.
  - by constructor.
  - (* push_room *) destruct Hp as [-> ->]. constructor; cbn; try done. split_and!; [done..|].
    rewrite slot_next in *. destruct (Z.eq_dec (Z.of_nat (length pu) + 1 - Z.of_nat kp) Capacity) as [E|];
      [|lia]. destruct H. unfold slot.
    replace (Z.of_nat (S (length pu))) with (Z.of_nat kp + 1 * Capacity) by lia.
    apply Z_mod_plus_full.
  - (* push_write *) destruct Hp as (-> & -> & Hlt). constructor; cbn; try done.
    + intros i v Hi Hv. rewrite arr_get_set_ne; [by apply Hb|]. intros E. symmetry in E.
      assert (i < length pu)%nat by (by eapply lookup_lt_Some). apply slot_inj in E; lia.
    + split_and!; [done..|]. apply arr_get_set_eq.
  - (* push_store_head *) destruct Hp as (-> & -> & Hlt & Hv).
    rewrite slot_next. constructor; cbn [heads tails buf met prod seen_tail cons seen_head pushed popped];
      rewrite ?length_app; cbn [length]; rewrite ?Nat.add_1_r; try done; try lia.
    + by rewrite Hh, slots_snoc.
    + rewrite take_app_le by lia. done.
    + intros i v Hi [Hl|[Hl Hl']]%lookup_app_Some; [by apply Hb|].
      apply list_lookup_singleton_Some in Hl' as [E <-]. by replace i with (length pu) by lia.
    + by exists (length pu).
    + destruct c; cbn in *; try done. split_and!; try tauto. apply lookup_app_l_Some, Hc.
  - by constructor.
  - (* push_high *) constructor; cbn; try done. unfold raise_high_water.
    destruct Hp as (n & En & -> & ->). bcase; [cbn|done]. rewrite slot_next, <- En.
    unfold slot. replace (Z.of_nat (length pu)) with
      (Z.of_nat kp + (Z.of_nat (length pu) - Z.of_nat kp)) by lia.
    rewrite <- Zplus_mod_idemp_l, depth_mod by (done || lia || (apply Z.mod_pos_bound; lia)). lia.
Qed.

Lemma pop_step_inv s s' : pop_step s s' -> threads_inv s -> threads_inv s'.
Proof.
  intros Hstep I. destruct Hstep; inv_intro.
  - (* pop_start *) constructor; cbn; try done. rewrite Ht, slots_last in *. congruence.
  - (* pop_load_head *) subst hs. apply slots_lookup in H0 as [? ->].
    constructor; cbn; try done; lia.
  - by constructor.
  - by constructor.
  - (* pop_some *) destruct Hc as [-> ->]. constructor; cbn; try done. split; [done|].
    destruct (decide (kc = length po)) as [->|]; [done|lia].
  - (* pop_read *) destruct Hc as [-> Hlt]. constructor; cbn; try done. split_and!; [done..|].
    destruct (lookup_lt_is_Some_2 pu (length po)) as [v Hv]; [lia|].
    rewrite Hv. f_equal. symmetry. by apply Hb.
  - (* pop_store_tail *) destruct Hc as (-> & Hlt & Hv).
    assert (length po < length pu)%nat by lia.
    rewrite slot_next. constructor; cbn [heads tails buf met prod seen_tail cons seen_head pushed popped];
      rewrite ?length_app; cbn [length]; rewrite ?Nat.add_1_r; try done; try lia.
    + by rewrite Ht, slots_snoc.
    + rewrite (take_S_r _ _ _ Hv). by rewrite <- Hf.
    + intros i v Hi. apply Hb. lia.
  - by constructor.
Qed.

Lemma reachable_inv s : reachable s -> threads_inv s.
Proof.
  unfold reachable. intros H. revert s H. apply (rtc_ind_r (R := step) threads_inv).
  - apply threads_inv_new.
  - intros s1 s2 _ [Hs|Hs] I; [by eapply push_step_inv|by eapply pop_step_inv].
Qed.

End threads.

(** C11: the ring is a FIFO channel between two threads.  In every interleaving of
    a producer calling [tryPush] and a consumer calling [tryPop], with loads of
    the other thread's index as stale as the memory model allows: the values
    handed out are a prefix of the values published, in order, none lost and none
    duplicated; at most [Capacity - 1] published values are not yet handed out; the
    high-water mark never exceeds that; and the slot the producer is about to
    write is never the slot the consumer is about to read, so the accesses to the
    buffer do not race. *)
Theorem spsc_ring_is_fifo_and_race_free :
  forall (T : Type) (dflt : T) (Capacity : Z) (s : threads (T := T)),
  1 < Capacity < 2 ^ 64 -> reachable dflt Capacity s ->
  popped s `prefix_of` pushed s /\
  Z.of_nat (length (pushed s)) - Z.of_nat (length (popped s)) <= Capacity - 1 /\
  highWaterMark (met s) <= Capacity - 1 /\
  (forall value head tail tail', prod s = P_write value head tail -> cons s = C_read tail' ->
     head <> tail') /\
  (forall tail value, cons s = C_store_tail tail value ->
     pushed s !! length (popped s) = Some value).
Proof.
  intros T dflt Capacity s HC Hr. destruct (reachable_inv dflt Capacity HC s Hr)
    as [_ _ Hf Hsh Hst Hroom _ Hw Hp Hc].
  split; [rewrite Hf; apply prefix_take|]. split; [lia|]. split; [done|]. split.
  - intros value head tail tail' Ep Ec. rewrite Ep in Hp. rewrite Ec in Hc. cbn in Hp, Hc.
    destruct Hp as (-> & -> & Hlt), Hc as [-> Hck]. intros E. symmetry in E.
    apply slot_inj in E; [lia|done|lia|lia].
  - intros tail value Ec. rewrite Ec in Hc. by apply Hc.
Qed.

(** One push interleaved with one pop, in a ring of two slots. *)
Definition demo_threads : threads (T := Z) :=
  mkThreads [0; 1] [0] {[0 := 7]} SPSCQueueMetrics_init (P_count 0 0) 0 (C_read 0) 1 [7] [].

Lemma spsc_threads_witness :
  reachable 0 2 demo_threads /\ popped demo_threads `prefix_of` pushed demo_threads.
Proof.
  assert (reachable 0 2 demo_threads) as Hr.
  { unfold reachable, threads_new, demo_threads.
    eapply rtc_l; [left; by apply (push_start 2 _ _ _ _ _ _ _ _ _ 7 0)|].
    eapply rtc_l; [left; by apply (push_load_tail 2 _ _ _ _ _ _ _ _ _ _ _ 0 0)|].
    eapply rtc_l; [left; by apply push_room|].
    eapply rtc_l; [left; apply push_write|].
    eapply rtc_l; [right; by apply (pop_start 0 2 _ _ _ _ _ _ _ _ _ 0)|].
    eapply rtc_l; [left; apply push_store_head|].
    eapply rtc_l; [right; apply (pop_load_head 0 2 _ _ _ _ _ _ _ _ _ _ 1 1); [lia|done]|].
    eapply rtc_l; [right; by apply pop_some|].
    apply rtc_refl. }
  split; [exact Hr|].
  apply (spsc_ring_is_fifo_and_race_free Z 0 2 demo_threads); [lia|exact Hr].
Defined.
