(* ===== verification/Pipeline.v ===== *)
(** * The market-data pipeline

    [pipeline/event_consumer.hpp], [pipeline/dispatcher.{hpp,cpp}] and
    [pipeline/market_data_pipeline.{hpp,cpp}].

    A consumer is an instance of the class [EventConsumer].  [Dispatcher_dispatch]
    drains the ring into the consumer.  The pipeline itself has two threads, the
    one that calls [start], [submit] and [stop] and the worker that runs
    [processingLoop]; they are the step relation [pipeline_step].  The operations
    of the ring are single steps here: [SpscThreads] shows that the two threads
    see a FIFO queue. *)

From S2P Require Import Prelude Types Bitmap OrderPool OrderBook BookStore Consumer.
From S2P Require Import SpscRing.

(** ** Event consumers *)

Class EventConsumer (E : Type) : Type := consume : E -> MarketDataEvent -> E.

(** The book consumer; [None] is a state reached through undefined behaviour. *)
Definition book_event_consumer (std_hash : Z -> Z) : EventConsumer (option BookConsumer) :=
  fun c event => c ← c; MarketDataBookConsumer_consume std_hash c event.

Definition QueueCapacity : Z := 4096.

Section pipeline.

Context {E : Type} `{!EventConsumer E}.

Abbreviation EventQueue := (SPSCRingBuffer MarketDataEvent).
Abbreviation pop := (tryPop MarketDataEvent_default QueueCapacity).
Abbreviation push := (tryPush QueueCapacity).
Abbreviation ring_rel := (ring_rel MarketDataEvent_default QueueCapacity).

(** ** Dispatcher *)

(** The [while] loop of [dispatch]; [fuel] bounds the iterations. *)
Fixpoint dispatch_loop (fuel : nat) (queue : EventQueue) (consumer : E) (dispatchedCount : Z)
    : option (Z * EventQueue * E) :=
  match fuel with
  | O => None
  | S fuel =>
      match pop queue with
      | (None, queue) => Some (dispatchedCount, queue, consumer)
      | (Some event, queue) =>
          dispatch_loop fuel queue (consume consumer event) (u64 (dispatchedCount + 1))
      end
  end.

(** The ring holds at most [QueueCapacity - 1] events. *)
Definition Dispatcher_dispatch (queue : EventQueue) (consumer : E) : option (Z * EventQueue * E) :=
  dispatch_loop (Z.to_nat QueueCapacity) queue consumer 0.

Lemma queue_capacity_range : 1 < QueueCapacity < 2 ^ 64.
Proof. done. Qed.

(** Popping every item of a queue. *)
Definition queue_drained (q : bounded_queue (T := MarketDataEvent))
    : bounded_queue (T := MarketDataEvent) :=
  mkQueue [] (q_pushes q) (q_pops q + Z.of_nat (length (q_items q))) (q_push_failures q)
    (q_pop_failures q + 1) (q_high q).

Lemma dispatch_loop_spec fuel queue q consumer count :
  ring_rel queue q -> (length (q_items q) < fuel)%nat -> 0 <= count ->
  count + Z.of_nat (length (q_items q)) < 2 ^ 64 ->
  exists queue', dispatch_loop fuel queue consumer count =
      Some (count + Z.of_nat (length (q_items q)), queue', foldl consume consumer (q_items q)) /\
    ring_rel queue' (queue_drained q).
Proof.
  revert queue q consumer count. induction fuel as [|fuel IH]; intros queue q consumer count R Hf Hc Hb;
    [lia|]. cbn [dispatch_loop].
  destruct (tryPop_refines _ _ queue_capacity_range _ _ R) as [E1 R1].
  destruct (pop queue) as [out queue1]. unfold queue_pop in *. unfold queue_drained.
  destruct (q_items q) as [|event items] eqn:Eq; cbn [fst snd] in *; subst out.
  - exists queue1. cbn [length Z.of_nat foldl]. rewrite !Z.add_0_r. by split.
  - cbn [length] in *. rewrite wrap_small by lia.
    destruct (IH queue1 _ (consume consumer event) (count + 1) R1) as (queue' & E' & R').
    + cbn. lia. + lia. + cbn. lia.
    + exists queue'. cbn [q_items] in *. rewrite E'. split.
      * do 3 f_equal. lia.
      * unfold queue_drained in R'. cbn in R'.
        by replace (q_pops q + 1 + Z.of_nat (length items)) with
          (q_pops q + Z.of_nat (S (length items))) in R' by lia.
Qed.

(** ** Pipeline *)

(** The thread that owns the pipeline: free to call, or waiting in [join]. *)
Inductive caller : Type := M_ready | M_joining.

(** The worker thread: before the test of [running_], inside [dispatch] with the
    count so far, or before adding the count; [last] marks the [dispatch] after
    the loop, which drains the queue. *)
Inductive worker : Type :=
  | W_none
  | W_check
  | W_dispatch (last : bool) (processed : Z)
  | W_add (last : bool) (processed : Z)
  | W_exit.

(** The last three members are ghost state: the events [submit] has accepted, the
    events the worker has consumed, and how many it had consumed at [start]. *)
Record MarketDataPipeline : Type := mkPipeline {
  queue_ : EventQueue;
  consumer_ : E;
  running_ : bool;
  processedCount_ : Z;
  main_ : caller;
  worker_ : worker;
  accepted_ : list MarketDataEvent;
  consumed_ : list MarketDataEvent;
  started_at_ : nat
}.

Definition MarketDataPipeline_new (consumer : E) : MarketDataPipeline :=
  mkPipeline SPSCRingBuffer_new consumer false 0 M_ready W_none [] [] 0.

Definition MarketDataPipeline_submit (p : MarketDataPipeline) (event : MarketDataEvent)
    : bool * MarketDataPipeline :=
  let '(ok, queue) := push (queue_ p) event in
  (ok, mkPipeline queue (consumer_ p) (running_ p) (processedCount_ p) (main_ p) (worker_ p)
         (if ok then accepted_ p ++ [event] else accepted_ p) (consumed_ p) (started_at_ p)).

(** [exchange(true)]; a second start does nothing. *)
Definition MarketDataPipeline_start (p : MarketDataPipeline) : MarketDataPipeline :=
  if running_ p then p
  else mkPipeline (queue_ p) (consumer_ p) true 0 (main_ p) W_check (accepted_ p) (consumed_ p)
         (length (consumed_ p)).

(** [exchange(false)], then wait for the worker. *)
Definition MarketDataPipeline_stop (p : MarketDataPipeline) : MarketDataPipeline :=
  if running_ p
  then mkPipeline (queue_ p) (consumer_ p) false (processedCount_ p) M_joining (worker_ p)
         (accepted_ p) (consumed_ p) (started_at_ p)
  else p.

(** [join] returns. *)
Definition joined (p : MarketDataPipeline) : MarketDataPipeline :=
  mkPipeline (queue_ p) (consumer_ p) (running_ p) (processedCount_ p) M_ready W_none (accepted_ p)
    (consumed_ p) (started_at_ p).

Definition set_worker (p : MarketDataPipeline) (w : worker) : MarketDataPipeline :=
  mkPipeline (queue_ p) (consumer_ p) (running_ p) (processedCount_ p) (main_ p) w (accepted_ p)
    (consumed_ p) (started_at_ p).

(** One iteration of [dispatch] in the worker. *)
Definition worker_pop (p : MarketDataPipeline) (last : bool) (n : Z) : MarketDataPipeline :=
  match pop (queue_ p) with
  | (None, queue) =>
      mkPipeline queue (consumer_ p) (running_ p) (processedCount_ p) (main_ p) (W_add last n)
        (accepted_ p) (consumed_ p) (started_at_ p)
  | (Some event, queue) =>
      mkPipeline queue (consume (consumer_ p) event) (running_ p) (processedCount_ p) (main_ p)
        (W_dispatch last (u64 (n + 1))) (accepted_ p) (consumed_ p ++ [event]) (started_at_ p)
  end.

(** [if (processed > 0) processedCount_.fetch_add(processed)]. *)
Definition add_processed (p : MarketDataPipeline) (n : Z) (w : worker) : MarketDataPipeline :=
  mkPipeline (queue_ p) (consumer_ p) (running_ p)
    (if n >? 0 then u64 (processedCount_ p + n) else processedCount_ p) (main_ p) w (accepted_ p)
    (consumed_ p) (started_at_ p).

(** One step of [processingLoop]; [None] when there is no worker to step. *)
Definition worker_step (p : MarketDataPipeline) : option MarketDataPipeline :=
  match worker_ p with
  | W_none | W_exit => None
  | W_check => Some (set_worker p (W_dispatch (negb (running_ p)) 0))
  | W_dispatch last n => Some (worker_pop p last n)
  | W_add last n => Some (add_processed p n (if last then W_exit else W_check))
  end.

(** One thread submits, starts and stops; the worker runs between its calls. *)
Inductive pipeline_step : MarketDataPipeline -> MarketDataPipeline -> Prop :=
  | step_submit p event : main_ p = M_ready -> pipeline_step p (MarketDataPipeline_submit p event).2
  | step_start p : main_ p = M_ready -> pipeline_step p (MarketDataPipeline_start p)
  | step_stop p : main_ p = M_ready -> pipeline_step p (MarketDataPipeline_stop p)
  | step_join p : main_ p = M_joining -> worker_ p = W_exit -> pipeline_step p (joined p)
  | step_worker p p' : worker_step p = Some p' -> pipeline_step p p'.

Definition pipeline_reachable (consumer : E) : MarketDataPipeline -> Prop :=
  rtc pipeline_step (MarketDataPipeline_new consumer).

(** ** Invariant *)

(** Events counted by the worker but not yet added to [processedCount_]. *)
Definition pending (w : worker) : Z :=
  match w with
  | W_dispatch _ n | W_add _ n => n
  | _ => 0
  end.

(** The queue holds what was accepted and not consumed; the worker exits only
    with an empty queue, and only while the caller waits. *)
Record pipeline_inv (consumer : E) (p : MarketDataPipeline) : Prop := {
  pi_queue : exists q, ring_rel (queue_ p) q /\ accepted_ p = consumed_ p ++ q_items q /\
    match worker_ p with W_add true _ | W_exit => q_items q = [] | _ => True end;
  pi_consumer : consumer_ p = foldl consume consumer (consumed_ p);
  pi_started : (started_at_ p <= length (consumed_ p))%nat;
  pi_pending : is_uint 64 (pending (worker_ p));
  pi_count : worker_ p <> W_none ->
    u64 (processedCount_ p + pending (worker_ p)) =
    u64 (Z.of_nat (length (consumed_ p)) - Z.of_nat (started_at_ p));
  pi_running : running_ p = true <-> worker_ p <> W_none /\ main_ p = M_ready;
  pi_ending : match worker_ p with
              | W_dispatch true _ | W_add true _ | W_exit => running_ p = false
              | _ => True
              end;
  pi_joining : main_ p = M_joining -> worker_ p <> W_none;
  pi_range : is_uint 64 (processedCount_ p)
}.

Lemma pipeline_inv_new consumer : pipeline_inv consumer (MarketDataPipeline_new consumer).
Proof.
  constructor; cbn; try done.
  - exists queue_new. split; [apply ring_rel_new, queue_capacity_range|done].
  - split; [done|]. naive_solver.
Qed.

Lemma submit_inv consumer p event :
  pipeline_inv consumer p -> main_ p = M_ready ->
  pipeline_inv consumer (MarketDataPipeline_submit p event).2.
Proof.
  intros [(q & R & Ea & Eq) Hc Hs Hp Hcnt Hr He Hj Hrg] Hm. unfold MarketDataPipeline_submit.
  destruct (tryPush_refines _ _ queue_capacity_range _ _ event R) as [E1 R1].
  destruct (push (queue_ p) event) as [ok queue]. cbn [fst snd] in *.
  constructor; cbn; try done. exists (queue_push QueueCapacity q event).2. split; [done|].
  unfold queue_push in *. destruct (Z.of_nat (length (q_items q)) =? QueueCapacity - 1);
    cbn [fst snd q_items] in *; subst ok; (split; [rewrite Ea; by rewrite ?app_assoc|]); [done|].
  destruct (worker_ p) as [| |[]|[]|]; try done; rewrite He in Hr; naive_solver.
Qed.

Lemma worker_pop_inv consumer p last n :
  pipeline_inv consumer p -> worker_ p = W_dispatch last n ->
  pipeline_inv consumer (worker_pop p last n).
Proof.
  intros [(q & R & Ea & Eq) Hc Hs Hp Hcnt Hr He Hj Hrg] Hw. unfold worker_pop. rewrite Hw in *.
  destruct (tryPop_refines _ _ queue_capacity_range _ _ R) as [E1 R1].
  destruct (pop (queue_ p)) as [out queue]. unfold queue_pop in *. cbn [pending] in *.
  destruct (q_items q) as [|event items] eqn:Eqi; cbn [fst snd] in *; subst out.
  - constructor; cbn; try done.
    + eexists. split; [exact R1|]. split; [done|]. by destruct last.
    + intros _. by apply Hcnt.
    + rewrite Hr. naive_solver.
  - constructor; cbn; try done.
    + eexists. split; [exact R1|]. split; [|done]. by rewrite Ea, <- app_assoc.
    + by rewrite foldl_app, Hc.
    + rewrite length_app. lia.
    + apply wrap_range. lia.
    + intros _. specialize (Hcnt ltac:(done)).
      unfold wrap in *. rewrite Zplus_mod_idemp_r, length_app. cbn [length].
      replace (processedCount_ p + (n + 1)) with (processedCount_ p + n + 1) by lia.
      replace (Z.of_nat (length (consumed_ p) + 1) - Z.of_nat (started_at_ p)) with
        (Z.of_nat (length (consumed_ p)) - Z.of_nat (started_at_ p) + 1) by lia.
      by rewrite <- (Zplus_mod_idemp_l (processedCount_ p + n)), Hcnt, Zplus_mod_idemp_l.
    + rewrite Hr. naive_solver.
Qed.

Lemma worker_step_inv consumer p p' :
  pipeline_inv consumer p -> worker_step p = Some p' -> pipeline_inv consumer p'.
Proof.
  intros I. unfold worker_step. destruct (worker_ p) as [| |last n|last n|] eqn:Hw; try done;
    intros [= <-]; [|by apply worker_pop_inv|];
    destruct I as [(q & R & Ea & Eq) Hc Hs Hp Hcnt Hr He Hj Hrg]; rewrite Hw in *;
    cbn [pending] in *; constructor; cbn; try done.
  - by exists q.
  - intros _. by apply Hcnt.
  - rewrite Hr. naive_solver.
  - by destruct (running_ p).
  - exists q. split; [done|]. split; [done|]. by destruct last.
  - by destruct last.
  - intros _. rewrite <- Hcnt by done. replace (pending (if last then W_exit else W_check)) with 0
      by (by destruct last). rewrite Z.add_0_r. unfold is_uint in Hp.
    bcase; [apply wrap_wrap|f_equal; lia].
  - rewrite Hr. destruct last; naive_solver.
  - by destruct last.
  - by destruct last.
  - bcase; [apply wrap_range; lia|done].
Qed.

Lemma pipeline_reachable_inv consumer p : pipeline_reachable consumer p -> pipeline_inv consumer p.
Proof.
  unfold pipeline_reachable. revert p. apply (rtc_ind_r (R := pipeline_step) (pipeline_inv consumer)).
  { apply pipeline_inv_new. }
  intros p p' _ Hstep I. destruct Hstep as [p event Hm|p Hm|p Hm|p Hm Hw|p p' Hw].
  - by apply submit_inv.
  - unfold MarketDataPipeline_start. destruct (running_ p) eqn:Er; [done|].
    destruct I as [(q & R & Ea & Eq) Hc Hs Hp Hcnt Hr He Hj Hrg]. constructor; cbn; try done.
    + by exists q.
    + intros _. rewrite Z.sub_diag. done.
  - unfold MarketDataPipeline_stop. destruct (running_ p) eqn:Er; [|done].
    destruct I as [(q & R & Ea & Eq) Hc Hs Hp Hcnt Hr He Hj Hrg]. constructor; cbn; try done.
    + by exists q.
    + naive_solver.
    + by destruct (worker_ p) as [| |[]|[]|].
    + intros _. by apply Hr.
  - destruct I as [(q & R & Ea & Eq) Hc Hs Hp Hcnt Hr He Hj Hrg]. rewrite Hw in *.
    constructor; cbn; try done.
    + by exists q.
    + rewrite He. naive_solver.
  - by eapply worker_step_inv.
Qed.

(** ** [stop] returns *)

Definition worker_steps : MarketDataPipeline -> MarketDataPipeline -> Prop :=
  rtc (fun p p' => worker_step p = Some p').

(** The current [dispatch] ends with an empty queue. *)
Lemma dispatch_ends q : forall p last n,
  ring_rel (queue_ p) q -> worker_ p = W_dispatch last n ->
  exists p' m, worker_steps p p' /\ worker_ p' = W_add last m /\
    running_ p' = running_ p /\ main_ p' = main_ p /\ accepted_ p' = accepted_ p /\
    exists q', ring_rel (queue_ p') q' /\ q_items q' = [].
Proof.
  destruct q as [items a b c d e]. revert a b c d e.
  induction items as [|event items IH]; intros a b c d e p last n R Hw;
    destruct (tryPop_refines _ _ queue_capacity_range _ _ R) as [E1 R1];
    pose proof (eq_refl : worker_step p = worker_step p) as Estep;
    unfold worker_step at 2 in Estep; rewrite Hw in Estep; unfold worker_pop in Estep;
    destruct (pop (queue_ p)) as [out queue]; cbn in E1, R1; subst out.
  - do 2 eexists. split; [apply rtc_once; exact Estep|]. cbn. do 4 (split; [done|]).
    eexists. split; [exact R1|done].
  - match type of Estep with _ = Some ?p1 =>
      destruct (IH _ _ _ _ _ p1 last (u64 (n + 1)) R1 eq_refl) as (p' & m & Hs & Hrest) end.
    exists p', m. split; [|exact Hrest]. eapply rtc_l; [exact Estep|exact Hs].
Qed.

Lemma worker_steps_inv consumer p p' :
  pipeline_inv consumer p -> worker_steps p p' -> pipeline_inv consumer p'.
Proof. intros I H. induction H as [|p p1 p' Hs _ IH]; [done|]. apply IH. by eapply worker_step_inv. Qed.

(** With [running_] false, the worker drains the queue and exits. *)
Lemma worker_exits consumer p :
  pipeline_inv consumer p -> running_ p = false -> worker_ p <> W_none ->
  exists p', worker_steps p p' /\ worker_ p' = W_exit.
Proof.
  assert (forall last p, pipeline_inv consumer p -> running_ p = false ->
    (exists n, worker_ p = W_dispatch last n) ->
    exists p', worker_steps p p' /\ running_ p' = false /\
      worker_ p' = (if last then W_exit else W_check)) as Hdispatch.
  { intros last p0 I Hr [n Hw]. destruct (pi_queue _ _ I) as (q & R & _).
    destruct (dispatch_ends q p0 last n R Hw) as (p1 & m & Hs & Hw1 & Hr1 & _ & _).
    exists (add_processed p1 m (if last then W_exit else W_check)). split; [|split; cbn; congruence].
    eapply rtc_r; [exact Hs|]. unfold worker_step. by rewrite Hw1. }
  assert (forall p, pipeline_inv consumer p -> running_ p = false -> worker_ p = W_check ->
    exists p', worker_steps p p' /\ worker_ p' = W_exit) as Hcheck.
  { intros p0 I Hr Hw.
    assert (worker_step p0 = Some (set_worker p0 (W_dispatch true 0))) as Hs
      by (unfold worker_step; by rewrite Hw, Hr).
    destruct (Hdispatch true (set_worker p0 (W_dispatch true 0))) as (p' & Hs' & _ & Hw');
      [by eapply worker_step_inv|done|by exists 0|].
    exists p'. split; [|done]. by eapply rtc_l. }
  intros I Hr Hw. destruct (worker_ p) as [| |last n|last n|] eqn:Ew; [done| | | |].
  - by apply Hcheck.
  - destruct (Hdispatch last p I Hr) as (p1 & Hs1 & Hr1 & Hw1); [by exists n|].
    destruct last; [by exists p1|].
    destruct (Hcheck p1) as (p' & Hs' & Hw'); [by eapply worker_steps_inv|done..|].
    exists p'. split; [by etrans|done].
  - assert (worker_step p = Some (add_processed p n (if last then W_exit else W_check))) as Hs
      by (unfold worker_step; by rewrite Ew).
    destruct last; [eexists; split; [by apply rtc_once|done]|].
    destruct (Hcheck _ (worker_step_inv _ _ _ I Hs)) as (p' & Hs' & Hw'); [done..|].
    exists p'. split; [by eapply rtc_l|done].
  - exists p. split; [apply rtc_refl|done].
Qed.

(** The worker has run from [p] to [p'], has consumed everything accepted so far and has
    counted it. *)
Definition caught_up (p p' : MarketDataPipeline) : Prop :=
  worker_steps p p' /\ main_ p' = main_ p /\ accepted_ p' = accepted_ p /\ running_ p' = true /\
  consumed_ p' = accepted_ p /\ pending (worker_ p') = 0 /\ worker_ p' <> W_none.

Lemma caught_up_step p p1 p' :
  worker_step p = Some p1 -> main_ p1 = main_ p -> accepted_ p1 = accepted_ p ->
  caught_up p1 p' -> caught_up p p'.
Proof.
  intros Hs Em Ea (Hs' & Em' & Ea' & Hr & Hc & Hw). split; [by eapply rtc_l|].
  by rewrite Em', Ea', Hc, Em, Ea.
Qed.

Lemma dispatch_catches_up consumer p n :
  pipeline_inv consumer p -> running_ p = true -> worker_ p = W_dispatch false n ->
  exists p', caught_up p p'.
Proof.
  intros I Hr Hw. destruct (pi_queue _ _ I) as (q & R & _).
  destruct (dispatch_ends q p false n R Hw) as (p1 & m & Hs & Hw1 & Hr1 & Hm1 & Ha1 & q1 & R1 & Hq1).
  pose proof (worker_steps_inv _ _ _ I Hs) as I1.
  exists (add_processed p1 m W_check). split; [|cbn].
  { eapply rtc_r; [exact Hs|]. unfold worker_step. by rewrite Hw1. }
  split; [done|]. split; [done|]. split; [congruence|]. split; [|by split].
  destruct (pi_queue _ _ I1) as (q2 & R2 & Ea & _). rewrite <- Ha1, Ea.
  destruct (size_refines _ _ queue_capacity_range _ _ R2) as [E2 _].
  destruct (size_refines _ _ queue_capacity_range _ _ R1) as [E1 _].
  rewrite Hq1, E2 in E1. destruct (q_items q2); [by rewrite app_nil_r|done].
Qed.

Lemma check_catches_up consumer p :
  pipeline_inv consumer p -> running_ p = true -> worker_ p = W_check -> exists p', caught_up p p'.
Proof.
  intros I Hr Hw.
  assert (worker_step p = Some (set_worker p (W_dispatch false 0))) as Hs
    by (unfold worker_step; by rewrite Hw, Hr).
  destruct (dispatch_catches_up consumer (set_worker p (W_dispatch false 0)) 0) as (p' & Hc);
    [by eapply worker_step_inv|done..|].
  exists p'. by eapply caught_up_step.
Qed.

(** A worker that is kept running consumes everything accepted so far and counts it. *)
Lemma worker_catches_up consumer p :
  pipeline_inv consumer p -> running_ p = true -> exists p', caught_up p p'.
Proof.
  intros I Hr. pose proof (proj1 (pi_running _ _ I) Hr) as [Hw0 _]. pose proof (pi_ending _ _ I) as He.
  destruct (worker_ p) as [| |[] n|[] n|] eqn:Ew; try congruence.
  - by eapply check_catches_up.
  - by eapply dispatch_catches_up.
  - assert (worker_step p = Some (add_processed p n W_check)) as Hs by (unfold worker_step; by rewrite Ew).
    destruct (check_catches_up consumer _ (worker_step_inv _ _ _ I Hs)) as (p' & Hc); [done..|].
    exists p'. by eapply caught_up_step.
Qed.

End pipeline.

(** ** Properties *)

(** One call of [dispatch] drains the queue in order.  Whatever pushes and pops
    the ring has seen, [dispatch] terminates within the capacity of the ring,
    hands every queued event to the consumer in the order of the queue, returns
    their number and leaves the ring empty. *)
Theorem dispatch_drains_in_order :
  forall (E : Type) (EC : EventConsumer E) (consumer : E) (ops : list (ring_op (T := MarketDataEvent))),
  let queue := (ring_run MarketDataEvent_default QueueCapacity SPSCRingBuffer_new ops).2 in
  let items := q_items (queue_run QueueCapacity queue_new ops).2 in
  exists queue', Dispatcher_dispatch queue consumer =
      Some (Z.of_nat (length items), queue', foldl consume consumer items) /\
    SPSCRingBuffer_empty queue' = true.
Proof.
  intros E EC consumer ops.
  destruct (ring_run_refines MarketDataEvent_default _ queue_capacity_range SPSCRingBuffer_new queue_new ops)
    as [_ R]; [apply ring_rel_new, queue_capacity_range|]. cbn zeta.
  pose proof (rr_room _ _ _ _ R) as Hroom. pose proof queue_capacity_range as Hcap.
  destruct (dispatch_loop_spec (Z.to_nat QueueCapacity) _ _ consumer 0 R) as (queue' & Eq & R').
  - lia.
  - lia.
  - lia.
  - exists queue'. split; [exact Eq|].
    destruct (size_refines _ _ queue_capacity_range _ _ R') as (_ & -> & _). done.
Qed.

(** C13: no accepted event is lost.  In every reachable state of the pipeline, under
    all interleavings of [submit], [start], [stop] and the worker, the consumer has
    consumed a prefix of the events [submit] accepted, each once and in order; when
    the worker has exited, it has consumed all of them, and [processedCount] is the
    number consumed since the last [start] (modulo 2^64); and a caller waiting in
    [stop] is always released: the worker reaches its end in finitely many steps. *)
Theorem pipeline_delivers_accepted_events :
  forall (E : Type) (EC : EventConsumer E) (consumer : E) (p : MarketDataPipeline),
  pipeline_reachable consumer p ->
  (exists rest, accepted_ p = consumed_ p ++ rest) /\
  consumer_ p = foldl consume consumer (consumed_ p) /\
  (worker_ p = W_exit -> consumed_ p = accepted_ p /\
     u64 (processedCount_ p) = u64 (Z.of_nat (length (consumed_ p)) - Z.of_nat (started_at_ p))) /\
  (main_ p = M_joining -> exists p', worker_steps p p' /\ worker_ p' = W_exit).
Proof.
  intros E EC consumer p Hr. pose proof (pipeline_reachable_inv consumer p Hr) as I.
  split; [destruct (pi_queue _ _ I) as (q & _ & Ea & _); by exists (q_items q)|].
  split; [apply (pi_consumer _ _ I)|]. split.
  - intros Hw. destruct (pi_queue _ _ I) as (q & _ & Ea & Eq). rewrite Hw in Eq.
    rewrite Eq, app_nil_r in Ea. split; [done|].
    pose proof (pi_count _ _ I) as Hc. rewrite Hw in Hc. cbn in Hc.
    rewrite Z.add_0_r in Hc. by apply Hc.
  - intros Hm. apply (worker_exits consumer); [done| |by apply (pi_joining _ _ I)].
    destruct (running_ p) eqn:Er; [|done]. apply (pi_running _ _ I) in Er as [_ ?]. congruence.
Qed.

(** The whole market-data path.  With the book consumer behind the pipeline,
    once the worker has exited the book shows exactly the abstract book of the
    accepted events, provided these are admissible. *)
Theorem pipeline_builds_the_book :
  forall (std_hash : Z -> Z) (base : Z) (p : MarketDataPipeline),
  pipeline_reachable (EventConsumer0 := book_event_consumer std_hash)
    (Some (MarketDataBookConsumer_new base)) p ->
  worker_ p = W_exit -> admissible_run [] (accepted_ p) ->
  exists c, consumer_ p = Some c /\
    shows std_hash (con_book c) (con_heap c) (foldl spec_consume [] (accepted_ p)).
Proof.
  intros std_hash base p Hr Hw Hadm.
  pose proof (pipeline_reachable_inv (EventConsumer0 := book_event_consumer std_hash) _ p Hr) as I.
  destruct (pi_queue _ _ I) as (q & _ & Ea & Eq). rewrite Hw in Eq. rewrite Eq, app_nil_r in Ea.
  destruct (consume_all_refines std_hash (MarketDataBookConsumer_new base) [] (accepted_ p))
    as (c & Ec & L & R & <- & _); [|done|].
  { exists []. split; [apply store_new|done]. }
  exists c. split; [|by eapply store_shows].
  rewrite (pi_consumer _ _ I), <- Ea. exact Ec.
Qed.

(** A run of the pipeline: an event is submitted, the worker started, and [stop] is
    called before the worker's first test. *)
Definition demo_pipeline_event : MarketDataEvent := demo_event AddOrder 1 0 Buy 100 10.

Definition demo_pipeline {E} `{!EventConsumer E} (consumer : E) : option MarketDataPipeline :=
  let p := (MarketDataPipeline_submit (MarketDataPipeline_new consumer) demo_pipeline_event).2 in
  let p := MarketDataPipeline_stop (MarketDataPipeline_start p) in
  p ← worker_step p; p ← worker_step p; p ← worker_step p; worker_step p.

Lemma demo_pipeline_reachable {E} `{!EventConsumer E} (consumer : E) :
  exists p, demo_pipeline consumer = Some p /\ pipeline_reachable consumer p /\
    worker_ p = W_exit /\ accepted_ p = [demo_pipeline_event].
Proof.
  eexists. split; [reflexivity|]. split; [|by split].
  unfold pipeline_reachable.
  eapply rtc_l; [by apply (step_submit _ demo_pipeline_event)|].
  eapply rtc_l; [by apply step_start|].
  eapply rtc_l; [by apply step_stop|].
  do 4 (eapply rtc_l; [apply step_worker; reflexivity|]). apply rtc_refl.
Qed.

(** A consumer that keeps the events it is given. *)
Definition recording_consumer : EventConsumer (list MarketDataEvent) := fun log event => log ++ [event].

Lemma pipeline_delivers_witness :
  exists p, worker_ p = W_exit /\ accepted_ p = [demo_pipeline_event] /\
    consumed_ p = accepted_ p /\ consumer_ p = [demo_pipeline_event].
Proof.
  destruct (demo_pipeline_reachable (EventConsumer0 := recording_consumer) [])
    as (p & _ & Hr & Hw & Ha).
  destruct (pipeline_delivers_accepted_events _ recording_consumer [] p Hr) as (_ & Hc & He & _).
  destruct (He Hw) as [Hca _]. exists p. split; [exact Hw|]. split; [exact Ha|].
  split; [exact Hca|]. rewrite Hc, Hca, Ha. reflexivity.
Defined.

Lemma pipeline_builds_witness :
  exists p c, worker_ p = W_exit /\ consumer_ p = Some c /\
    shows (fun k => k) (con_book c) (con_heap c) [mkLimit 1 7 Buy 100 10].
Proof.
  destruct (demo_pipeline_reachable (EventConsumer0 := book_event_consumer (fun k => k))
    (Some (MarketDataBookConsumer_new 0))) as (p & _ & Hr & Hw & Ha).
  destruct (pipeline_builds_the_book (fun k => k) 0 p Hr Hw) as (c & Ec & Hs).
  - rewrite Ha. unfold admissible_run, admissible, is_uint, valid_price. cbn. repeat split; lia.
  - exists p, c. split; [exact Hw|]. split; [exact Ec|]. rewrite Ha in Hs. exact Hs.
Defined.
