(* ===== verification/Risk.v ===== *)
(** * Pre-trade risk checks and positions

    [risk/risk_result.hpp], [risk/risk_manager.{hpp,cpp}] and
    [position/position_manager.{hpp,cpp}].

    The maps of positions are finite maps; [operator[]] inserts a zero for a new
    key.  Sums are taken at the width of the source: [int64_t] for the risk
    manager's positions, [uint64_t] for the order value, [int] for the position
    manager's. *)

From S2P Require Import Prelude Types.

Inductive RiskResult : Type :=
  | Accepted
  | InvalidPrice
  | InvalidQuantity
  | MaxOrderQuantityExceeded
  | MaxOrderValueExceeded
  | MaxPositionExceeded.

#[global] Instance RiskResult_eq_dec : EqDecision RiskResult.
Proof. solve_decision. Defined.

Definition MaxOrderQuantity : Z := 100000.
Definition MaxOrderValue : Z := 10000000.
Definition MaxPosition : Z := 500.

(** [positions_] *)
Record RiskManager : Type := mkRisk { risk_positions_ : gmap Z Z }.

Definition RiskManager_new : RiskManager := mkRisk ∅.

(** [static_cast<std::uint64_t>(price) * static_cast<std::uint64_t>(quantity)]. *)
Definition orderValue (intent : OrderIntent) : Z :=
  u64 (u64 (int_price intent) * u64 (int_quantity intent)).

Definition currentPosition (r : RiskManager) (account : AccountId) : Z :=
  match risk_positions_ r !! account with Some p => p | None => 0 end.

(** The position after the whole intent is filled. *)
Definition signed_add (s : Side) (position quantity : Z) : Z :=
  match s with
  | Buy => i64 (position + i64 quantity)
  | Sell => i64 (position - i64 quantity)
  end.

Definition RiskManager_check (r : RiskManager) (intent : OrderIntent) : RiskResult :=
  if int_price intent <=? 0 then InvalidPrice
  else if int_quantity intent =? 0 then InvalidQuantity
  else if int_quantity intent >? MaxOrderQuantity then MaxOrderQuantityExceeded
  else if orderValue intent >? MaxOrderValue then MaxOrderValueExceeded
  else
    let newPosition :=
      signed_add (int_side intent) (currentPosition r (int_accountId intent)) (int_quantity intent) in
    if Z.abs newPosition >? MaxPosition then MaxPositionExceeded
    else Accepted.

Definition RiskManager_onAccepted (r : RiskManager) (intent : OrderIntent) : RiskManager :=
  let position := default 0 (risk_positions_ r !! int_accountId intent) in
  mkRisk (<[int_accountId intent := signed_add (int_side intent) position (int_quantity intent)]>
            (risk_positions_ r)).

(** ** Position manager *)

Record PositionManager : Type := mkPositions { pos_positions_ : gmap Z Z }.

Definition PositionManager_new : PositionManager := mkPositions ∅.

(** [positions_[account] += delta] at the width of [int]. *)
Definition position_add (m : gmap Z Z) (account : AccountId) (delta : Z) : gmap Z Z :=
  <[account := i32 (default 0 (m !! account) + delta)]> m.

Definition PositionManager_onTrade (p : PositionManager) (trade : Trade) : PositionManager :=
  let m := position_add (pos_positions_ p) (trade_buy_account_id trade) (trade_quantity trade) in
  let m := position_add m (trade_sell_account_id trade) (- trade_quantity trade) in
  mkPositions m.

Definition PositionManager_position (p : PositionManager) (account : AccountId) : Z :=
  match pos_positions_ p !! account with Some v => v | None => 0 end.

(** ** Lemmas *)

(** The invariant of the risk manager: no position beyond the limit. *)
Definition within_limits (r : RiskManager) : Prop :=
  forall account, Z.abs (currentPosition r account) <= MaxPosition.

Definition intent_wf (intent : OrderIntent) : Prop :=
  is_sint 64 (int_price intent) /\ is_uint 32 (int_quantity intent).

(** The signed quantity of an intent. *)
Definition signed_quantity (intent : OrderIntent) : Z :=
  match int_side intent with Buy => int_quantity intent | Sell => - int_quantity intent end.

Lemma signed_add_exact s p q :
  Z.abs p <= MaxPosition -> 0 <= q < 2 ^ 32 ->
  signed_add s p q = match s with Buy => p + q | Sell => p - q end.
Proof.
  intros Hp Hq. unfold signed_add, MaxPosition in *.
  destruct s; rewrite !sint_small by (rewrite ?sint_small; lia); lia.
Qed.

Lemma currentPosition_default r account :
  currentPosition r account = default 0 (risk_positions_ r !! account).
Proof. unfold currentPosition. by destruct (risk_positions_ r !! account). Qed.

Lemma onAccepted_position r intent account :
  within_limits r -> intent_wf intent ->
  currentPosition (RiskManager_onAccepted r intent) account =
    currentPosition r account +
    (if decide (account = int_accountId intent) then signed_quantity intent else 0).
Proof.
  intros Hw [_ Hq]. unfold RiskManager_onAccepted. rewrite <- currentPosition_default.
  unfold currentPosition at 1. cbn. rewrite lookup_insert. unfold signed_quantity.
  repeat case_decide; try naive_solver.
  - subst. rewrite signed_add_exact by (done || apply Hw). destruct (int_side intent); lia.
  - rewrite Z.add_0_r. done.
Qed.

Lemma within_limits_new : within_limits RiskManager_new.
Proof. intros account. unfold currentPosition. cbn. rewrite lookup_empty. done. Qed.

(** What acceptance means. *)
Lemma check_accepted r intent :
  within_limits r -> intent_wf intent ->
  RiskManager_check r intent = Accepted <->
  0 < int_price intent /\ 0 < int_quantity intent <= MaxOrderQuantity /\
  orderValue intent <= MaxOrderValue /\
  Z.abs (currentPosition r (int_accountId intent) + signed_quantity intent) <= MaxPosition.
Proof.
  intros Hw [Hp Hq]. unfold RiskManager_check, signed_quantity, is_uint in *.
  rewrite signed_add_exact by (done || apply Hw).
  destruct (int_side intent); repeat bcase; split; try done; intros; lia.
Qed.

Lemma onAccepted_limits r intent :
  within_limits r -> intent_wf intent -> RiskManager_check r intent = Accepted ->
  within_limits (RiskManager_onAccepted r intent).
Proof.
  intros Hw Hi Hc account. rewrite onAccepted_position by done.
  apply check_accepted in Hc as (_ & _ & _ & Hb); [|done..].
  case_decide; [by subst|]. rewrite Z.add_0_r. apply Hw.
Qed.

(** The order value is exact unless the product reaches 2^64. *)
Lemma orderValue_exact intent :
  intent_wf intent -> 0 < int_price intent -> int_price intent * int_quantity intent < 2 ^ 64 ->
  orderValue intent = int_price intent * int_quantity intent.
Proof.
  intros [Hp Hq] H0 Hv. unfold orderValue, is_uint, is_sint in *.
  rewrite (wrap_small 64 (int_price intent)), (wrap_small 64 (int_quantity intent)) by lia.
  apply wrap_small. nia.
Qed.

(** ** Positions after a sequence of trades *)

(** What a trade does to the position of an account. *)
Definition trade_delta (account : AccountId) (t : Trade) : Z :=
  (if decide (account = trade_buy_account_id t) then trade_quantity t else 0) -
  (if decide (account = trade_sell_account_id t) then trade_quantity t else 0).

Definition net_quantity (account : AccountId) (trades : list Trade) : Z :=
  foldr Z.add 0 (trade_delta account <$> trades).

Lemma position_add_lookup m account delta account' :
  i32 (default 0 (position_add m account delta !! account')) =
  i32 (default 0 (m !! account') + if decide (account' = account) then delta else 0).
Proof.
  unfold position_add. rewrite lookup_insert. repeat case_decide; try naive_solver.
  - subst. cbn. apply sint_sint.
  - by rewrite Z.add_0_r.
Qed.

Lemma position_default p account :
  PositionManager_position p account = default 0 (pos_positions_ p !! account).
Proof. unfold PositionManager_position. by destruct (pos_positions_ p !! account). Qed.

Lemma onTrade_position p t account :
  i32 (PositionManager_position (PositionManager_onTrade p t) account) =
  i32 (PositionManager_position p account + trade_delta account t).
Proof.
  rewrite !position_default. unfold PositionManager_onTrade. cbn [pos_positions_].
  rewrite position_add_lookup, <- sint_add_l, position_add_lookup, sint_add_l.
  unfold trade_delta. f_equal. repeat case_decide; lia.
Qed.

(** Positions are values of [int]. *)
Definition positions_wf (p : PositionManager) : Prop :=
  forall account, is_sint 32 (PositionManager_position p account).

Lemma onTrade_wf p t : positions_wf p -> positions_wf (PositionManager_onTrade p t).
Proof.
  intros H account. rewrite position_default. unfold PositionManager_onTrade, position_add.
  cbn [pos_positions_]. rewrite !lookup_insert. repeat case_decide; cbn;
    try (apply (sint_range 32); lia). rewrite <- position_default. apply H.
Qed.

Lemma onTrade_run trades : forall p,
  positions_wf p ->
  positions_wf (foldl PositionManager_onTrade p trades) /\
  forall account, i32 (PositionManager_position (foldl PositionManager_onTrade p trades) account) =
    i32 (PositionManager_position p account + net_quantity account trades).
Proof.
  induction trades as [|t trades IH]; intros p Hp; cbn [foldl].
  { split; [done|]. intros account. unfold net_quantity. cbn. by rewrite Z.add_0_r. }
  destruct (IH _ (onTrade_wf p t Hp)) as [Hw Hq]. split; [done|]. intros account.
  rewrite Hq, <- sint_add_l, onTrade_position, sint_add_l. f_equal.
  unfold net_quantity. cbn. lia.
Qed.

(** After any sequence of trades, the position of every account is the quantity it
    bought less the quantity it sold (an account trading with itself nets to zero), at
    the width of [int]. *)
Lemma positions_after_trades trades account :
  PositionManager_position (foldl PositionManager_onTrade PositionManager_new trades) account =
  i32 (net_quantity account trades).
Proof.
  destruct (onTrade_run trades PositionManager_new) as [Hw Hq]; [intros a; by unfold is_sint|].
  specialize (Hw account). specialize (Hq account).
  rewrite <- (sint_small 32) at 1 by (done || lia). by rewrite Hq.
Qed.

(** C16: the order-value limit can be bypassed.  An order of 4 units at price 2^62
    has a value of 2^64, far above the limit of 10,000,000, but the product wraps
    to 0 and the order is accepted for an account without a position; when the
    product stays below 2^64, the limit holds for every accepted order. *)
Theorem order_value_limit_wraps :
  (forall r intent, within_limits r -> intent_wf intent ->
     int_price intent * int_quantity intent < 2 ^ 64 -> RiskManager_check r intent = Accepted ->
     int_price intent * int_quantity intent <= MaxOrderValue) /\
  (let intent := mkOrderIntent 1 Buy (replicate 8 32) (2 ^ 62) 4 in
   intent_wf intent /\ MaxOrderValue < int_price intent * int_quantity intent /\
   RiskManager_check RiskManager_new intent = Accepted).
Proof.
  split.
  - intros r intent Hw Hi Hv Hc. apply check_accepted in Hc as (Hp & _ & Ho & _); [|done..].
    by rewrite orderValue_exact in Ho.
  - split; [|split]; [split; [unfold is_sint|unfold is_uint]; cbn; lia|cbn; unfold MaxOrderValue; lia|].
    vm_compute. reflexivity.
Qed.
