(* ===== verification/Gateway.v ===== *)
(** * The order gateway

    [gateway/order_execution_sink.hpp], [gateway/gateway.{hpp,cpp}],
    [gateway/gateway_result.hpp], [gateway/gateway_order_intent_sink.{hpp,cpp}] and
    [gateway/matching_engine_execution_sink.{hpp,cpp}].

    [OrderExecutionSink] is the interface between the gateway and what executes
    orders: a class over the sink's state, whose [sink_submit] returns whether the
    order was taken ([None] when the sink runs into undefined behaviour).  The
    gateway's theorems hold for every instance. *)

From S2P Require Import Prelude Types Bitmap OrderPool OrderBook BookStore MatchingEngine.
From S2P Require Import MatchingSpec MatchingProofs Risk.

Class OrderExecutionSink (S : Type) : Type :=
  sink_submit : S -> OrderIntent -> option (bool * S).

Record GatewayResult : Type := mkGatewayResult {
  riskResult : RiskResult;
  executionSucceeded : bool
}.

Definition GatewayResult_accepted (g : GatewayResult) : bool :=
  bool_decide (riskResult g = Accepted) && executionSucceeded g.

Section gateway.

Context {S : Type} `{!OrderExecutionSink S}.

Record Gateway : Type := mkGateway {
  riskManager_ : RiskManager;
  executionSink_ : S
}.

Definition Gateway_submit (g : Gateway) (intent : OrderIntent) : option (GatewayResult * Gateway) :=
  let result := RiskManager_check (riskManager_ g) intent in
  if bool_decide (result <> Accepted) then Some (mkGatewayResult result false, g)
  else
    '(ok, sink) ← sink_submit (executionSink_ g) intent;
    if negb ok then Some (mkGatewayResult Accepted false, mkGateway (riskManager_ g) sink)
    else Some (mkGatewayResult Accepted true,
               mkGateway (RiskManager_onAccepted (riskManager_ g) intent) sink).

Definition GatewayOrderIntentSink_submit (g : Gateway) (intent : OrderIntent)
    : option (bool * Gateway) :=
  '(result, g) ← Gateway_submit g intent;
  Some (GatewayResult_accepted result, g).

(** ** Runs *)

Fixpoint gateway_run (g : Gateway) (intents : list OrderIntent)
    : option (list GatewayResult * Gateway) :=
  match intents with
  | [] => Some ([], g)
  | intent :: intents =>
      '(result, g) ← Gateway_submit g intent;
      '(results, g) ← gateway_run g intents;
      Some (result :: results, g)
  end.

(** The quantity an account has had accepted, net of sides. *)
Fixpoint net_accepted (account : AccountId) (intents : list OrderIntent)
    (results : list GatewayResult) : Z :=
  match intents, results with
  | intent :: intents, result :: results =>
      (if GatewayResult_accepted result && bool_decide (account = int_accountId intent)
       then signed_quantity intent else 0) + net_accepted account intents results
  | _, _ => 0
  end.

Lemma gateway_submit_cases g intent result g' :
  Gateway_submit g intent = Some (result, g') ->
  (RiskManager_check (riskManager_ g) intent <> Accepted /\ g' = g /\
   result = mkGatewayResult (RiskManager_check (riskManager_ g) intent) false) \/
  (RiskManager_check (riskManager_ g) intent = Accepted /\ exists ok sink,
   sink_submit (executionSink_ g) intent = Some (ok, sink) /\ result = mkGatewayResult Accepted ok /\
   g' = mkGateway (if ok then RiskManager_onAccepted (riskManager_ g) intent else riskManager_ g) sink).
Proof.
  unfold Gateway_submit. case_bool_decide as Hc.
  - intros [= <- <-]. by left.
  - destruct (sink_submit _ _) as [[ok sink]|] eqn:Es; [|done].
    cbn. intros E. right. split; [done|]. exists ok, sink. split; [done|].
    destruct ok; cbn in E; by injection E as <- <-.
Qed.

Lemma gateway_submit_limits g intent result g' :
  within_limits (riskManager_ g) -> intent_wf intent -> Gateway_submit g intent = Some (result, g') ->
  within_limits (riskManager_ g') /\
  forall account, currentPosition (riskManager_ g') account =
    currentPosition (riskManager_ g) account +
    (if GatewayResult_accepted result && bool_decide (account = int_accountId intent)
     then signed_quantity intent else 0).
Proof.
  intros Hw Hi [(Hc & -> & ->)|(Hc & ok & sink & _ & -> & ->)]%gateway_submit_cases.
  - split; [done|]. intros account. unfold GatewayResult_accepted. cbn [riskResult].
    rewrite bool_decide_false by done. cbn. lia.
  - unfold GatewayResult_accepted. cbn [riskResult executionSucceeded riskManager_].
    rewrite bool_decide_true by done. cbn [andb]. destruct ok; cbn [andb].
    + split; [by apply onAccepted_limits|]. intros account. rewrite onAccepted_position by done.
      repeat case_decide; case_bool_decide; naive_solver.
    + split; [done|]. intros. lia.
Qed.

Lemma gateway_run_limits intents : forall g results g',
  within_limits (riskManager_ g) -> Forall intent_wf intents ->
  gateway_run g intents = Some (results, g') ->
  within_limits (riskManager_ g') /\
  forall account, currentPosition (riskManager_ g') account =
    currentPosition (riskManager_ g) account + net_accepted account intents results.
Proof.
  induction intents as [|intent intents IH]; intros g results g' Hw Hi E; cbn in E.
  { injection E as <- <-. split; [done|]. intros. cbn. lia. }
  apply Forall_cons in Hi as [Hi His].
  destruct (Gateway_submit g intent) as [[result g1]|] eqn:E1; [|done]. cbn in E.
  destruct (gateway_run g1 intents) as [[results1 g2]|] eqn:E2; [|done]. cbn in E.
  injection E as <- <-.
  destruct (gateway_submit_limits _ _ _ _ Hw Hi E1) as [Hw1 Hp1].
  destruct (IH _ _ _ Hw1 His E2) as [Hw2 Hp2]. split; [done|].
  intros account. rewrite Hp2, Hp1. cbn. lia.
Qed.

End gateway.

Arguments Gateway : clear implicits.

(** ** The matching engine as a sink *)

(** The id returned by [submitOrder], converted to [bool]. *)
#[export] Instance MatchingEngineExecutionSink {E} (std_hash : Z -> Z) (publish : Trade -> E -> E)
    : OrderExecutionSink (Engine E) :=
  fun engine intent =>
    '(id, engine) ← MatchingEngine_submitOrder std_hash publish engine (int_accountId intent)
                      (int_side intent) (int_price intent) (int_quantity intent);
    Some (negb (id =? 0), engine).

(** ** Properties *)

(** C17: the gateway enforces the position limit.  For every execution sink and every
    sequence of intents submitted through a new gateway, the risk manager's
    position of each account is the sum of the signed quantities of the intents
    that were accepted and executed for it, and never exceeds 500 in absolute
    value; intents that fail the checks or the execution leave it unchanged. *)
Theorem gateway_enforces_position_limit :
  forall (S : Type) (sink_class : OrderExecutionSink S) (sink : S) (intents : list OrderIntent)
    (results : list GatewayResult) (g : Gateway S),
  Forall intent_wf intents ->
  gateway_run (mkGateway RiskManager_new sink) intents = Some (results, g) ->
  forall account,
    currentPosition (riskManager_ g) account = net_accepted account intents results /\
    Z.abs (net_accepted account intents results) <= MaxPosition.
Proof.
  intros S SC sink intents results g Hi E account.
  destruct (gateway_run_limits intents (mkGateway RiskManager_new sink) results g within_limits_new Hi E)
    as [Hw Hp].
  specialize (Hw account). rewrite Hp in Hw |- *. cbn [riskManager_] in *.
  change (currentPosition RiskManager_new account) with 0 in *. by rewrite Z.add_0_l in *.
Qed.

(** A sink that takes every order. *)
Definition counting_sink : OrderExecutionSink nat := fun n _ => Some (true, Datatypes.S n).

Definition demo_intents : list OrderIntent :=
  [ mkOrderIntent 1 Buy (replicate 8 32) 100 300; mkOrderIntent 1 Buy (replicate 8 32) 100 300;
    mkOrderIntent 1 Sell (replicate 8 32) 100 400; mkOrderIntent 2 Sell (replicate 8 32) 100 500 ].

Lemma gateway_limit_witness :
  exists results g, gateway_run (OrderExecutionSink0 := counting_sink) (mkGateway RiskManager_new 0%nat)
      demo_intents = Some (results, g) /\
    currentPosition (riskManager_ g) 1 = -100 /\ net_accepted 1 demo_intents results = -100.
Proof.
  assert (Forall intent_wf demo_intents) as Hi.
  { unfold demo_intents, intent_wf, is_sint, is_uint. repeat constructor; cbn; lia. }
  eexists _, _. split; [vm_compute; reflexivity|].
  pose proof (gateway_enforces_position_limit nat counting_sink 0%nat demo_intents _ _ Hi
    ltac:(vm_compute; reflexivity) 1) as [H1 _].
  split; [vm_compute; reflexivity|vm_compute; reflexivity].
Defined.
