(* ===== verification/Floor.v ===== *)
(** * The trading floor: gateway, risk, matching and listeners in one process

    [journal/journal.{hpp,cpp}], [market_data/trade_publisher.{hpp,cpp}], the wiring of
    [apps/matching_engine_demo.cpp] and its [main].

    The listeners of the event dispatcher act on one environment: the text written to
    the console and the position manager.  [floor_spec] specifies a whole run on the
    abstract book: the intents that pass the risk checks are submitted to price-time
    priority matching.  [floor_refines] shows that the composed program computes it, and
    [account_balance] relates what an account was accepted, what it traded and what it
    has resting. *)

From Stdlib Require Import String Ascii.
From S2P Require Import Prelude Types Text Bitmap OrderPool OrderBook BookStore MatchingEngine.
From S2P Require Import MatchingSpec MatchingProofs MatchingTypes Risk Gateway.

(** ** Listeners *)

Record FloorEnv : Type := mkFloor {
  floor_cout : string;
  floor_positions : PositionManager
}.

Section text.

Local Open Scope string_scope.

Definition trade_fields (trade : Trade) : string :=
  "SEQ=" ++ decimal_string (trade_sequence trade) ++
  " BUY=" ++ decimal_string (trade_buy_order_id trade) ++
  " SELL=" ++ decimal_string (trade_sell_order_id trade) ++
  " PRICE=" ++ signed_string (trade_price trade) ++
  " QTY=" ++ decimal_string (trade_quantity trade) ++ newline.

Definition Journal_write (trade : Trade) (e : FloorEnv) : FloorEnv :=
  mkFloor (floor_cout e ++ "JOURNAL: " ++ trade_fields trade) (floor_positions e).

Definition Journal_onTrade (trade : Trade) (e : FloorEnv) : FloorEnv := Journal_write trade e.

Definition TradePublisher_publish (trade : Trade) (e : FloorEnv) : FloorEnv :=
  mkFloor (floor_cout e ++ "TRADE: " ++ trade_fields trade) (floor_positions e).

Definition TradePublisher_onTrade (trade : Trade) (e : FloorEnv) : FloorEnv :=
  TradePublisher_publish trade e.

(** The position manager as a listener. *)
Definition floor_position_onTrade (trade : Trade) (e : FloorEnv) : FloorEnv :=
  mkFloor (floor_cout e) (PositionManager_onTrade (floor_positions e) trade).

(** The listeners in the order [main] adds them. *)
Definition floor_listeners : list (Trade -> FloorEnv -> FloorEnv) :=
  EventDispatcher_addListener
    (EventDispatcher_addListener
      (EventDispatcher_addListener [] (Some Journal_onTrade))
      (Some TradePublisher_onTrade))
    (Some floor_position_onTrade).

Definition floor_publish : Trade -> FloorEnv -> FloorEnv := EventDispatcher_publish floor_listeners.

Definition floor_print (s : string) (e : FloorEnv) : FloorEnv :=
  mkFloor (floor_cout e ++ s) (floor_positions e).

(** What the console shows for a list of trades. *)
Fixpoint console_log (trades : list Trade) : string :=
  match trades with
  | [] => ""
  | t :: trades => "JOURNAL: " ++ trade_fields t ++ "TRADE: " ++ trade_fields t ++ console_log trades
  end.

(** Each trade is journalled, then published, then booked. *)
Lemma floor_publish_all trades e :
  publish_all floor_publish trades e =
  mkFloor (floor_cout e ++ console_log trades) (foldl PositionManager_onTrade (floor_positions e) trades).
Proof.
  revert e. induction trades as [|t trades IH]; intros e.
  { cbn. rewrite append_nil_r. by destruct e. }
  unfold publish_all in *. cbn [foldl]. rewrite IH. unfold floor_publish, EventDispatcher_publish. cbn.
  by rewrite !append_assoc.
Qed.

(** *** Reading the console back *)

Record trade_line : Type := mkLine {
  line_sequence : Z;
  line_buy : Z;
  line_sell : Z;
  line_price : Z;
  line_quantity : Z
}.

Definition line_of (t : Trade) : trade_line :=
  mkLine (trade_sequence t) (trade_buy_order_id t) (trade_sell_order_id t) (trade_price t) (trade_quantity t).

Definition read_line (title s : string) : trade_line * string :=
  let s := string_drop (String.length title) s in
  let '(sequence, s) := read_labelled "SEQ=" s in
  let '(buy, s) := read_labelled " BUY=" s in
  let '(sell, s) := read_labelled " SELL=" s in
  let '(price, s) := read_labelled " PRICE=" s in
  let '(quantity, s) := read_labelled " QTY=" s in
  (mkLine sequence buy sell price quantity, string_drop 1 s).

(** The journal's and the publisher's line of each of [n] trades. *)
Fixpoint read_console (n : nat) (s : string) : list (trade_line * trade_line) :=
  match n with
  | O => []
  | S n =>
      let '(journal, s) := read_line "JOURNAL: " s in
      let '(published, s) := read_line "TRADE: " s in
      (journal, published) :: read_console n s
  end.

Lemma read_line_of title t last rest :
  trade_typed last t -> last < 2 ^ 64 -> read_line title (title ++ trade_fields t ++ rest) = (line_of t, rest).
Proof.
  intros [Hs Hb Hse _ _ _ Hp Hq] Hl. unfold read_line, trade_fields. rewrite string_drop_append.
  unfold valid_price, MaxPriceLevels in Hp. rewrite signed_string_nonneg by lia. rewrite !append_assoc.
  do 5 (rewrite read_labelled_number; [|unfold is_uint; lia|done]). done.
Qed.

Lemma read_console_log last trades :
  Forall (trade_typed last) trades -> last < 2 ^ 64 ->
  read_console (length trades) (console_log trades) = (fun t => (line_of t, line_of t)) <$> trades.
Proof.
  intros HF Hl. induction HF as [|t trades Ht HF IH]; [done|].
  cbn [length read_console console_log fmap list_fmap]. rewrite !(read_line_of _ _ _ _ Ht Hl). by rewrite IH.
Qed.

End text.

(** ** The demo program *)

Definition no_symbol : Symbol := replicate 8 0.

Definition demo_sell1 : OrderIntent := mkOrderIntent 2001 Sell no_symbol 100 30.
Definition demo_sell2 : OrderIntent := mkOrderIntent 2001 Sell no_symbol 101 50.
Definition demo_buy : OrderIntent := mkOrderIntent 1001 Buy no_symbol 101 30.

Section floor.

Variable std_hash : Z -> Z.

Let floor_sink : OrderExecutionSink (Engine FloorEnv) := MatchingEngineExecutionSink std_hash floor_publish.

(** A new engine, its pool at address [base], behind a new gateway. *)
Definition floor_new (base : Z) : Gateway (Engine FloorEnv) :=
  mkGateway RiskManager_new (MatchingEngine_new base (mkFloor EmptyString PositionManager_new)).

Definition floor_submit : Gateway (Engine FloorEnv) -> OrderIntent ->
    option (GatewayResult * Gateway (Engine FloorEnv)) :=
  Gateway_submit (OrderExecutionSink0 := floor_sink).

Definition floor_run : Gateway (Engine FloorEnv) -> list OrderIntent ->
    option (list GatewayResult * Gateway (Engine FloorEnv)) :=
  gateway_run (OrderExecutionSink0 := floor_sink).

(** The text [main] has written when it returns. *)
Definition demo_main (base : Z) : option string :=
  '(_, gateway) ← floor_submit (floor_new base) demo_sell1;
  '(_, gateway) ← floor_submit gateway demo_sell2;
  '(_, gateway) ← floor_submit gateway demo_buy;
  let e := eng_env (executionSink_ gateway) in
  let e := floor_print ("Buyer Position: " ++ signed_string (PositionManager_position (floor_positions e) 1001) ++
             newline)%string e in
  let e := floor_print ("Seller Position: " ++ signed_string (PositionManager_position (floor_positions e) 2001) ++
             newline)%string e in
  Some (floor_cout e).

End floor.

(** ** Specification of a run *)

Fixpoint floor_spec (r : RiskManager) (st : spec_state) (intents : list OrderIntent)
    : list GatewayResult * list Trade * (RiskManager * spec_state) :=
  match intents with
  | [] => ([], [], (r, st))
  | intent :: intents =>
      let result := RiskManager_check r intent in
      if bool_decide (result <> Accepted) then
        let '(results, trades, last) := floor_spec r st intents in
        (mkGatewayResult result false :: results, trades, last)
      else
        let '(id, trades, st) := spec_submit st (int_accountId intent) (int_side intent)
                                   (int_price intent) (int_quantity intent) in
        let ok := negb (id =? 0) in
        let '(results, trades', last) :=
          floor_spec (if ok then RiskManager_onAccepted r intent else r) st intents in
        (mkGatewayResult Accepted ok :: results, trades ++ trades', last)
  end.

(** Intents whose prices lie below the end of the level arrays. *)
Definition floor_intent (intent : OrderIntent) : Prop :=
  intent_wf intent /\ int_price intent < MaxPriceLevels.

Lemma accepted_admissible r intent :
  within_limits r -> floor_intent intent -> RiskManager_check r intent = Accepted ->
  admissible_order (int_price intent) (int_quantity intent).
Proof.
  intros Hw [Hi Hp] Hc. apply check_accepted in Hc as (? & [? ?] & _); [|done..].
  unfold admissible_order, valid_price, MaxOrderQuantity in *. lia.
Qed.

Section refinement.

Context (std_hash : Z -> Z) {E : Type} (publish : Trade -> E -> E).

#[local] Instance sink : OrderExecutionSink (Engine E) := MatchingEngineExecutionSink std_hash publish.

Lemma floor_refines intents : forall (g : Gateway (Engine E)) st,
  engine_rel std_hash (executionSink_ g) st -> spec_inv st -> within_limits (riskManager_ g) ->
  Forall floor_intent intents ->
  sp_sequence st + (1 + DefaultOrderCapacity) * Z.of_nat (length intents) < 2 ^ 64 ->
  let '(results, trades, (r, st')) := floor_spec (riskManager_ g) st intents in
  exists engine, gateway_run g intents = Some (results, mkGateway r engine) /\
    engine_rel std_hash engine st' /\ spec_inv st' /\ within_limits r /\
    sp_sequence st' <= sp_sequence st + (1 + DefaultOrderCapacity) * Z.of_nat (length intents) /\
    eng_env engine = publish_all publish trades (eng_env (executionSink_ g)).
Proof.
  induction intents as [|i intents IH]; intros g st R I Hw Hadm Hseq; cbn [floor_spec gateway_run].
  { exists (executionSink_ g). split; [by destruct g|]. split_and!; try done. cbn; lia. }
  apply Forall_cons in Hadm as [Hi Hadm]. cbn [length] in Hseq |- *. unfold Gateway_submit.
  case_bool_decide as Hc.
  { specialize (IH g st R I Hw Hadm).
    destruct (floor_spec (riskManager_ g) st intents) as [[results trades] [r st']].
    destruct IH as (engine & Er & R' & I' & Hw' & Hb & Ee); [unfold DefaultOrderCapacity in *; lia|].
    exists engine. cbn [mbind option_bind]. rewrite Er. split_and!; try done.
    unfold DefaultOrderCapacity in *; lia. }
  pose proof (accepted_admissible _ _ Hw Hi Hc) as Ha.
  pose proof (submit_refines std_hash publish _ st (int_accountId i) (int_side i) _ _ R I Ha) as H1.
  pose proof (spec_submit_inv st (int_accountId i) (int_side i) (int_price i) _ I (proj2 Ha)) as I1.
  pose proof (spec_submit_sequence st (int_accountId i) (int_side i) (int_price i) (int_quantity i)
    (si_wf _ I)) as Hs.
  pose proof (engine_rel_length _ _ _ R) as Hlen. unfold OrderPool_available in Hlen.
  destruct (spec_submit st _ _ _ _) as [[id trades] st1]. cbn [snd] in *.
  destruct H1 as (g1 & E1 & R1 & Ee1); [unfold DefaultOrderCapacity in *; lia|].
  specialize (Hs ltac:(lia)). set (ok := negb (id =? 0)).
  set (r1 := if ok then RiskManager_onAccepted (riskManager_ g) i else riskManager_ g).
  assert (within_limits r1) as Hw1 by (unfold r1; destruct ok; [apply onAccepted_limits; [..|apply Hc]|]; apply Hi || done).
  specialize (IH (mkGateway r1 g1) st1 R1 I1 Hw1 Hadm). cbn [riskManager_ executionSink_] in IH.
  destruct (floor_spec r1 st1 intents) as [[results trades'] [r st']].
  destruct IH as (engine & Er & R' & I' & Hw' & Hb & Ee); [unfold DefaultOrderCapacity in *; lia|].
  exists engine. split; [|split_and!; try done; [unfold DefaultOrderCapacity in *; lia|];
    by rewrite Ee, Ee1; unfold publish_all; rewrite foldl_app].
  assert (sink_submit (executionSink_ g) i = Some (ok, g1)) as ->
    by (unfold sink_submit, sink, MatchingEngineExecutionSink; by rewrite E1).
  cbn [mbind option_bind]. unfold r1 in Er.
  destruct ok; cbn [negb mbind option_bind]; by rewrite Er.
Qed.

End refinement.

(** ** What an account owns, what it was promised and what it has resting *)

Definition side_sign (s : Side) : Z := match s with Buy => 1 | Sell => -1 end.

(** The sign an order has for an account. *)
Definition stake (account : AccountId) (x : LimitOrder) : Z :=
  if decide (account = lo_account x) then side_sign (lo_side x) else 0.

(** The signed quantity an account has resting in the book. *)
Definition resting (account : AccountId) (A : list LimitOrder) : Z :=
  foldr Z.add 0 ((fun x => stake account x * lo_quantity x) <$> A).

(** The signed quantity fills take from the orders of an account. *)
Definition taken (account : AccountId) (F : list (LimitOrder * Quantity)) : Z :=
  foldr Z.add 0 ((fun f => stake account f.1 * f.2) <$> F).

Lemma resting_app account A1 A2 : resting account (A1 ++ A2) = resting account A1 + resting account A2.
Proof. unfold resting. induction A1 as [|x A1 IH]; cbn in *; lia. Qed.

Lemma resting_cons account x A : resting account (x :: A) = stake account x * lo_quantity x + resting account A.
Proof. done. Qed.

Lemma taken_cons account f F : taken account (f :: F) = stake account f.1 * f.2 + taken account F.
Proof. done. Qed.

Lemma reduce_resting account A x t :
  book_wf A -> x ∈ A -> 0 < t <= lo_quantity x ->
  resting account (spec_reduce (lo_id x) t A) = resting account A - stake account x * t.
Proof.
  intros Hwf Hx Ht. destruct (spec_reduce_split A x t Hwf Hx Ht) as (A1 & A2 & -> & ->).
  rewrite !resting_app, resting_cons. bcase.
  - change (resting account []) with 0. replace (lo_quantity x) with t by lia. lia.
  - rewrite resting_cons. change (resting account []) with 0.
    change (stake account (lo_set_quantity _ x)) with (stake account x). cbn [lo_quantity lo_set_quantity]. lia.
Qed.

Lemma fills_resting account s p q A :
  book_wf A ->
  let F := fills s p q (priority (opposite s) A) in
  resting account (apply_fills A F) = resting account A - taken account F /\
  Forall (fun f => lo_side f.1 = opposite s) F.
Proof.
  intros Hwf. remember (priority (opposite s) A) as l eqn:El. revert q A Hwf El.
  assert (forall A, resting account (apply_fills A []) = resting account A - taken account [] /\
    Forall (fun f : LimitOrder * Z => lo_side f.1 = opposite s) []) as Hnil.
  { intros A. change (apply_fills A []) with A. change (taken account []) with 0. split; [lia|constructor]. }
  induction l as [|r l IH]; intros q A Hwf El; cbn [fills]; [apply Hnil|].
  bcase; [|apply Hnil]. set (t := Z.min q (lo_quantity r)).
  assert (r ∈ A /\ lo_side r = opposite s) as [Hr Hs].
  { apply (elem_of_priority (opposite s)). rewrite <- El. by left. }
  pose proof (wf_quantities _ Hwf) as HF. rewrite Forall_forall in HF. specialize (HF r Hr).
  assert (0 < t <= lo_quantity r) as Ht by lia.
  pose proof (spec_reduce_wf (lo_id r) t A Hwf ltac:(lia)) as Hwf1.
  pose proof (priority_reduce _ _ _ _ _ (wf_ids _ Hwf) (eq_sym El) Ht) as Hp1.
  pose proof (reduce_resting account _ _ _ Hwf Hr Ht) as Hr1.
  assert (resting account (apply_fills (spec_reduce (lo_id r) t A) (fills s p (q - t) l)) =
      resting account (spec_reduce (lo_id r) t A) - taken account (fills s p (q - t) l) /\
    Forall (fun f => lo_side f.1 = opposite s) (fills s p (q - t) l)) as [H1 H2].
  { destruct (Z.eqb_spec t (lo_quantity r)); [by apply IH|].
    replace (q - t) with 0 by lia. rewrite fills_zero. apply Hnil. }
  split; [|by constructor]. change (apply_fills A ((r, t) :: ?F)) with (apply_fills (spec_reduce (lo_id r) t A) F).
  rewrite H1, taken_cons. cbn [fst snd]. lia.
Qed.

(** Both parties of a trade gain what the other gives. *)
Lemma trade_stakes account seq x r t :
  lo_side r = opposite (lo_side x) ->
  trade_delta account (spec_trade seq x r t) = stake account x * t + stake account r * t.
Proof.
  intros Hs. unfold trade_delta, spec_trade, stake. rewrite Hs.
  destruct (lo_side x); cbn; repeat case_decide; lia.
Qed.

Lemma spec_trades_net account x F : forall seq,
  Forall (fun f => lo_side f.1 = opposite (lo_side x)) F ->
  net_quantity account (spec_trades seq x F) = stake account x * filled F + taken account F.
Proof.
  induction F as [|f F IH]; intros seq HF; [unfold net_quantity, filled, taken; cbn; lia|].
  apply Forall_cons in HF as [Hf HF]. cbn [spec_trades]. rewrite taken_cons.
  unfold net_quantity, filled in *. cbn [fmap list_fmap foldr]. rewrite IH, trade_stakes by done. lia.
Qed.

(** Submitting moves quantity between the book and the trades of each account and adds
    the quantity submitted to the account that submitted it. *)
Lemma submit_balance account st owner s p q :
  spec_inv st -> 0 < q < 2 ^ 32 ->
  let '(id, trades, st') := spec_submit st owner s p q in
  net_quantity account trades + resting account (sp_book st') =
  resting account (sp_book st) +
  (if id =? 0 then 0 else if decide (account = owner) then side_sign s * q else 0).
Proof.
  intros I Hq. unfold spec_submit. bcase; [cbn; lia|]. pose proof (si_seq _ I).
  rewrite (proj2 (Z.eqb_neq _ _)) by lia. set (x := mkLimit (sp_sequence st + 1) owner s p q).
  destruct (fills_resting account s p q _ (si_wf _ I)) as [Hr HF].
  destruct (fills_spec s p q _ (si_wf _ I)) as (_ & _ & _ & Hfill & _).
  set (F := fills s p q _) in *. rewrite (spec_trades_net account x) by done. cbn [sp_book].
  assert (stake account x * q = if decide (account = owner) then side_sign s * q else 0) as <-.
  { unfold stake. cbn. case_decide; lia. }
  specialize (Hfill ltac:(lia)). bcase; rewrite ?resting_app, ?resting_cons, Hr.
  - change (resting account []) with 0. change (stake account (lo_set_quantity _ x)) with (stake account x).
    cbn [lo_quantity lo_set_quantity]. lia.
  - replace (filled F) with q by lia. lia.
Qed.

Lemma net_quantity_app account ts1 ts2 :
  net_quantity account (ts1 ++ ts2) = net_quantity account ts1 + net_quantity account ts2.
Proof. unfold net_quantity. induction ts1 as [|t ts1 IH]; cbn in *; lia. Qed.

(** Over a run, the risk manager's position moves with what the account traded and what
    it has resting, taken together. *)
Lemma account_balance account intents : forall r st,
  spec_inv st -> within_limits r -> Forall floor_intent intents ->
  let '(_, trades, (r', st')) := floor_spec r st intents in
  net_quantity account trades + resting account (sp_book st') - currentPosition r' account =
  resting account (sp_book st) - currentPosition r account.
Proof.
  induction intents as [|i intents IH]; intros r st I Hw Hadm; cbn [floor_spec]; [by cbn; lia|].
  apply Forall_cons in Hadm as [Hi Hadm]. case_bool_decide as Hc.
  { specialize (IH r st I Hw Hadm). by destruct (floor_spec r st intents) as [[results trades] [r' st']]. }
  pose proof (accepted_admissible _ _ Hw Hi Hc) as [_ Hq].
  pose proof (submit_balance account st (int_accountId i) (int_side i) (int_price i) _ I Hq) as Hb.
  pose proof (spec_submit_inv st (int_accountId i) (int_side i) (int_price i) _ I Hq) as I1.
  destruct (spec_submit st _ _ _ _) as [[id trades] st1]. cbn [snd] in I1.
  set (r1 := if negb (id =? 0) then RiskManager_onAccepted r i else r).
  assert (within_limits r1) as Hw1.
  { unfold r1. destruct (id =? 0); [done|]. by apply onAccepted_limits; [|apply Hi|]. }
  assert (currentPosition r1 account = currentPosition r account +
    (if id =? 0 then 0 else if decide (account = int_accountId i) then side_sign (int_side i) * int_quantity i else 0))
    as Hr1.
  { unfold r1. destruct (id =? 0); [cbn; lia|]. cbn [negb]. rewrite onAccepted_position by (done || apply Hi).
    unfold signed_quantity, side_sign. case_decide; destruct (int_side i); lia. }
  specialize (IH r1 st1 I1 Hw1 Hadm). destruct (floor_spec r1 st1 intents) as [[results trades'] [r' st']].
  rewrite net_quantity_app. lia.
Qed.

(** A run of the floor is a run of the engine on the intents it lets through. *)
Lemma floor_spec_run intents : forall r st,
  spec_inv st -> within_limits r -> Forall floor_intent intents ->
  Forall (fun i => is_uint 64 (int_accountId i)) intents ->
  let '(_, trades, (_, st')) := floor_spec r st intents in
  exists subs ids, spec_run st subs = (ids, trades, st') /\ admissible_subs subs /\
    Forall (fun m => is_uint 64 (sub_account m)) subs.
Proof.
  induction intents as [|i intents IH]; intros r st I Hw Hadm Hac; cbn [floor_spec].
  { exists [], []. by repeat constructor. }
  apply Forall_cons in Hadm as [Hi Hadm]. apply Forall_cons in Hac as [Ha Hac]. case_bool_decide as Hc.
  { specialize (IH r st I Hw Hadm Hac). by destruct (floor_spec r st intents) as [[results trades] [r' st']]. }
  pose proof (accepted_admissible _ _ Hw Hi Hc) as Hm.
  pose proof (spec_submit_inv st (int_accountId i) (int_side i) (int_price i) _ I (proj2 Hm)) as I1.
  destruct (spec_submit st _ _ _ _) as [[id trades] st1] eqn:Es. cbn [snd] in I1.
  set (r1 := if negb (id =? 0) then RiskManager_onAccepted r i else r).
  assert (within_limits r1) as Hw1.
  { unfold r1. destruct (id =? 0); [done|]. by apply onAccepted_limits; [|apply Hi|]. }
  specialize (IH r1 st1 I1 Hw1 Hadm Hac). destruct (floor_spec r1 st1 intents) as [[results trades'] [r' st']].
  destruct IH as (subs & ids & Er & Hs & Hsa).
  exists (mkSubmission (int_accountId i) (int_side i) (int_price i) (int_quantity i) :: subs), (id :: ids).
  split; [cbn [spec_run sub_account sub_side sub_price sub_quantity]; by rewrite Es, Er|].
  split; by constructor.
Qed.

(** *** Trades are zero-sum *)

Definition net_total (accounts : list AccountId) (trades : list Trade) : Z :=
  foldr Z.add 0 ((fun a => net_quantity a trades) <$> accounts).

Lemma sum_if_member (accounts : list Z) a q :
  NoDup accounts -> a ∈ accounts ->
  foldr Z.add 0 ((fun x => if decide (x = a) then q else 0) <$> accounts) = q.
Proof.
  assert (forall l : list Z, a ∉ l -> foldr Z.add 0 ((fun x => if decide (x = a) then q else 0) <$> l) = 0) as H0.
  { induction l as [|x l IH]; intros Hn; [done|]. apply not_elem_of_cons in Hn as [Hx Hn]. cbn.
    rewrite decide_False by congruence. rewrite IH by done. done. }
  induction 1 as [|x l Hx Hnd IH]; intros Ha; [by apply elem_of_nil in Ha|]. cbn. case_decide; subst.
  - rewrite H0 by done. lia.
  - rewrite IH by set_solver. lia.
Qed.

Lemma net_total_cons accounts t trades :
  net_total accounts (t :: trades) =
  foldr Z.add 0 ((fun x => if decide (x = trade_buy_account_id t) then trade_quantity t else 0) <$> accounts) -
  foldr Z.add 0 ((fun x => if decide (x = trade_sell_account_id t) then trade_quantity t else 0) <$> accounts) +
  net_total accounts trades.
Proof.
  unfold net_total. induction accounts as [|a l IH]; [done|]. cbn [fmap list_fmap foldr] in *. rewrite IH.
  change (net_quantity a (t :: trades)) with (trade_delta a t + net_quantity a trades).
  unfold trade_delta. lia.
Qed.

Lemma net_total_zero accounts trades :
  NoDup accounts ->
  Forall (fun t => trade_buy_account_id t ∈ accounts /\ trade_sell_account_id t ∈ accounts) trades ->
  net_total accounts trades = 0.
Proof.
  intros Hnd HF. induction HF as [|t trades [Hb Hs] HF IH].
  { unfold net_total, net_quantity. cbn. clear. induction accounts; cbn; lia. }
  rewrite net_total_cons, IH, !sum_if_member by done. lia.
Qed.

(** What a run from a new floor leaves behind. *)
Lemma floor_run_new std_hash base intents :
  Forall floor_intent intents ->
  Sequencer_init + (1 + DefaultOrderCapacity) * Z.of_nat (length intents) < 2 ^ 64 ->
  let '(results, trades, (r, st)) := floor_spec RiskManager_new spec_new intents in
  exists engine,
    floor_run std_hash (floor_new base) intents = Some (results, mkGateway r engine) /\
    engine_rel std_hash engine st /\ within_limits r /\ sp_sequence st < 2 ^ 64 /\
    eng_env engine = mkFloor (console_log trades) (foldl PositionManager_onTrade PositionManager_new trades) /\
    forall account, currentPosition r account = net_quantity account trades + resting account (sp_book st).
Proof.
  intros Hi Hseq.
  pose proof (floor_refines std_hash floor_publish intents (floor_new base) spec_new
    (engine_rel_new std_hash base _) spec_inv_new within_limits_new Hi Hseq) as H.
  pose proof (fun account => account_balance account intents RiskManager_new spec_new spec_inv_new
    within_limits_new Hi) as HB.
  cbn [floor_new riskManager_] in H.
  destruct (floor_spec RiskManager_new spec_new intents) as [[results trades] [r st]].
  destruct H as (engine & Er & R & I & Hw & Hb & Ee). exists engine. split; [exact Er|].
  rewrite floor_publish_all in Ee. split; [done|]. split; [done|].
  split; [cbn [sp_sequence spec_new] in Hb; lia|]. split; [exact Ee|].
  intros account. specialize (HB account). change (currentPosition RiskManager_new account) with 0 in HB.
  change (resting account (sp_book spec_new)) with 0 in HB. lia.
Qed.

(** ** Properties *)

(** C14: the trading floor accounts for every unit.  The composed program, gateway and
    risk manager in front of the matching engine and journal, trade publisher and
    position manager behind it, runs every sequence of intents priced inside the level
    arrays without undefined behaviour and gives the results, the trades and the resting
    book of the specification.  The console shows a journal line and a publication line for
    each trade, in order, from which the trades can be read back; the position manager
    holds for every account what it bought less what it sold; the risk manager's position
    of every account is that executed position plus the signed quantity the account still
    has resting in the book, and stays within the limit; and the executed positions of all
    the accounts that traded sum to zero. *)
Theorem floor_accounts_for_every_unit :
  forall (std_hash : Z -> Z) (base : Z) (intents : list OrderIntent),
  Forall floor_intent intents -> Forall (fun i => is_uint 64 (int_accountId i)) intents ->
  Sequencer_init + (1 + DefaultOrderCapacity) * Z.of_nat (length intents) < 2 ^ 64 ->
  let '(results, trades, (r, st)) := floor_spec RiskManager_new spec_new intents in
  exists engine,
    floor_run std_hash (floor_new base) intents = Some (results, mkGateway r engine) /\
    shows std_hash (eng_book engine) (eng_heap engine) (sp_book st) /\
    floor_cout (eng_env engine) = console_log trades /\
    read_console (length trades) (floor_cout (eng_env engine)) =
      (fun t => (line_of t, line_of t)) <$> trades /\
    (forall account,
       PositionManager_position (floor_positions (eng_env engine)) account =
         i32 (net_quantity account trades) /\
       currentPosition r account = net_quantity account trades + resting account (sp_book st) /\
       Z.abs (currentPosition r account) <= MaxPosition) /\
    (forall accounts, NoDup accounts ->
       Forall (fun t => trade_buy_account_id t ∈ accounts /\ trade_sell_account_id t ∈ accounts) trades ->
       net_total accounts trades = 0).
Proof.
  intros std_hash base intents Hi Hac Hseq.
  pose proof (floor_run_new std_hash base intents Hi Hseq) as H.
  pose proof (floor_spec_run intents RiskManager_new spec_new spec_inv_new within_limits_new Hi Hac) as HR.
  destruct (floor_spec RiskManager_new spec_new intents) as [[results trades] [r st]].
  destruct H as (engine & Er & R & Hw & Hb & Ee & HB). exists engine. split; [exact Er|].
  split; [destruct R as (L & R & _ & <- & _); by eapply store_shows|]. rewrite Ee. split; [done|].
  split; [|split; [|intros accounts; apply net_total_zero]].
  - destruct HR as (subs & ids & Es & Hs & Hsa).
    pose proof (run_typed subs spec_new spec_inv_new (Forall_nil_2 _) Hs Hsa) as HT.
    rewrite Es in HT. destruct HT as (_ & HT & _). by apply (read_console_log _ _ HT).
  - intros account. split; [apply positions_after_trades|]. split; [apply HB|apply Hw].
Qed.

Definition demo_intents3 : list OrderIntent := [demo_sell1; demo_sell2; demo_buy].

Lemma demo_admissible : Forall floor_intent demo_intents3.
Proof.
  unfold demo_intents3, floor_intent, intent_wf, is_sint, is_uint, MaxPriceLevels.
  repeat constructor; cbn; lia.
Defined.

Definition demo_trade : Trade := mkTrade 1004 1003 1001 1001 2001 100 30.

Lemma floor_accounts_witness :
  exists r engine,
    floor_run (fun k => k) (floor_new 0) demo_intents3 =
      Some (replicate 3 (mkGatewayResult Accepted true), mkGateway r engine) /\
    read_console 1 (floor_cout (eng_env engine)) = [(line_of demo_trade, line_of demo_trade)] /\
    PositionManager_position (floor_positions (eng_env engine)) 2001 = -30 /\
    currentPosition r 2001 = -80.
Proof.
  pose proof (floor_accounts_for_every_unit (fun k => k) 0 demo_intents3 demo_admissible
    ltac:(unfold is_uint; repeat constructor; cbn; lia) ltac:(vm_compute; reflexivity)) as H.
  assert ((floor_spec RiskManager_new spec_new demo_intents3).1 =
    (replicate 3 (mkGatewayResult Accepted true), [demo_trade])) as E by (vm_compute; reflexivity).
  assert (resting 2001 (sp_book (floor_spec RiskManager_new spec_new demo_intents3).2.2) = -50) as Eb
    by (vm_compute; reflexivity).
  destruct (floor_spec RiskManager_new spec_new demo_intents3) as [[results trades] [r st]].
  cbn [fst snd] in E, Eb. injection E as -> ->. destruct H as (engine & Er & _ & _ & Hc & Ha & _).
  exists r, engine. split; [exact Er|]. split; [exact Hc|]. destruct (Ha 2001) as (Hp & Hr & _).
  split; [rewrite Hp; reflexivity|]. rewrite Hr, Eb. reflexivity.
Defined.

(** The demo program runs and prints its one trade twice and both positions. *)
Lemma demo_main_prints std_hash base :
  demo_main std_hash base =
  Some ("JOURNAL: SEQ=1004 BUY=1003 SELL=1001 PRICE=100 QTY=30" ++ newline ++
        "TRADE: SEQ=1004 BUY=1003 SELL=1001 PRICE=100 QTY=30" ++ newline ++
        "Buyer Position: 30" ++ newline ++ "Seller Position: -30" ++ newline)%string.
Proof.
  pose proof (floor_run_new std_hash base demo_intents3 demo_admissible ltac:(vm_compute; reflexivity)) as H.
  assert ((floor_spec RiskManager_new spec_new demo_intents3).1 =
    (replicate 3 (mkGatewayResult Accepted true), [demo_trade])) as E by (vm_compute; reflexivity).
  destruct (floor_spec RiskManager_new spec_new demo_intents3) as [[results trades] [r st]].
  cbn [fst] in E. injection E as -> ->. destruct H as (engine & Er & _ & _ & _ & Ee & _).
  unfold floor_run, demo_intents3 in Er. cbn [gateway_run] in Er. unfold demo_main, floor_submit.
  destruct (Gateway_submit _ demo_sell1) as [[r1 g1]|]; [|done]. cbn [mbind option_bind] in Er |- *.
  destruct (Gateway_submit g1 demo_sell2) as [[r2 g2]|]; [|done]. cbn [mbind option_bind] in Er |- *.
  destruct (Gateway_submit g2 demo_buy) as [[r3 g3]|]; [|done]. cbn [mbind option_bind] in Er |- *.
  injection Er as _ _ _ ->. cbn [executionSink_]. rewrite Ee. reflexivity.
Qed.

(** An account that lets a sell order of 500 units rest out of reach, and then buys twice
    500 units from two others. *)
Definition bypass_intents : list OrderIntent :=
  [ mkOrderIntent 1 Sell no_symbol 200 500; mkOrderIntent 2 Sell no_symbol 100 500;
    mkOrderIntent 3 Sell no_symbol 100 500; mkOrderIntent 1 Buy no_symbol 100 500;
    mkOrderIntent 1 Buy no_symbol 100 500 ].

(** C15: the position limit does not bound what an account owns.  The risk manager counts
    accepted orders, executed or not, so that orders resting on one side make room for
    trades on the other: in every run the executed position of an account is bounded only
    by the limit plus what the account has resting, and there is a run of five intents, all
    accepted, after which an account owns 1000 units, twice the limit, while the risk
    manager records 500. *)
Theorem position_limit_ignores_resting_orders :
  (forall std_hash base intents, Forall floor_intent intents ->
     Sequencer_init + (1 + DefaultOrderCapacity) * Z.of_nat (length intents) < 2 ^ 64 ->
     exists results r engine trades A,
       floor_run std_hash (floor_new base) intents = Some (results, mkGateway r engine) /\
       shows std_hash (eng_book engine) (eng_heap engine) A /\
       forall account,
         PositionManager_position (floor_positions (eng_env engine)) account =
           i32 (net_quantity account trades) /\
         Z.abs (net_quantity account trades) <= MaxPosition + Z.abs (resting account A)) /\
  (forall std_hash base, exists r engine,
     floor_run std_hash (floor_new base) bypass_intents =
       Some (replicate 5 (mkGatewayResult Accepted true), mkGateway r engine) /\
     PositionManager_position (floor_positions (eng_env engine)) 1 = 1000 /\ MaxPosition < 1000 /\
     currentPosition r 1 = 500).
Proof.
  split.
  - intros std_hash base intents Hi Hseq. pose proof (floor_run_new std_hash base intents Hi Hseq) as H.
    destruct (floor_spec RiskManager_new spec_new intents) as [[results trades] [r st]].
    destruct H as (engine & Er & R & Hw & _ & Ee & HB). exists results, r, engine, trades, (sp_book st).
    split; [exact Er|]. split; [destruct R as (L & R & _ & <- & _); by eapply store_shows|].
    intros account. rewrite Ee. split; [apply positions_after_trades|].
    specialize (HB account). specialize (Hw account). lia.
  - intros std_hash base. pose proof (floor_run_new std_hash base bypass_intents) as H.
    assert ((floor_spec RiskManager_new spec_new bypass_intents).1 =
      (replicate 5 (mkGatewayResult Accepted true),
       [mkTrade 1005 1004 1002 1 2 100 500; mkTrade 1007 1006 1003 1 3 100 500])) as E
      by (vm_compute; reflexivity).
    assert (resting 1 (sp_book (floor_spec RiskManager_new spec_new bypass_intents).2.2) = -500) as Eb
      by (vm_compute; reflexivity).
    destruct (floor_spec RiskManager_new spec_new bypass_intents) as [[results trades] [r st]].
    cbn [fst snd] in E, Eb. injection E as -> ->.
    destruct H as (engine & Er & _ & _ & _ & Ee & HB); [|vm_compute; reflexivity|].
    { unfold bypass_intents, floor_intent, intent_wf, is_sint, is_uint, MaxPriceLevels.
      repeat constructor; cbn; lia. }
    exists r, engine. split; [exact Er|]. rewrite Ee. split; [reflexivity|]. split; [done|].
    rewrite HB, Eb. reflexivity.
Qed.
