(* ===== verification/Double.v ===== *)
(** * Binary64

    The [double] of the strategies ([market_feature_extractor.cpp],
    [linear_signal_model.cpp]): IEEE 754 binary64, computed with the Standard Library's
    specification of floating-point arithmetic (rounding to nearest, ties to even).  The
    lemmas show that a quantity converted to [double] and a sum of two such quantities are
    0 only when the quantities are. *)

From Stdlib Require Import SpecFloat.
From S2P Require Import Prelude.

Abbreviation double := spec_float (only parsing).

Definition d_prec : Z := 53.
Definition d_emax : Z := 1024.

(** [static_cast<double>] of an integer. *)
Definition d_of_Z (z : Z) : double := binary_normalize d_prec d_emax z 0 false.
Definition d_add : double -> double -> double := SFadd d_prec d_emax.
Definition d_sub : double -> double -> double := SFsub d_prec d_emax.
Definition d_mul : double -> double -> double := SFmul d_prec d_emax.
Definition d_div : double -> double -> double := SFdiv d_prec d_emax.

(** The literals of the source. *)
Definition d_zero : double := d_of_Z 0.
Definition d_two : double := d_of_Z 2.
Definition d_half : double := d_div (d_of_Z 1) d_two.

(** ** Positive numbers stay positive *)

(** A finite positive number, or the positive infinity. *)
Definition d_positive (x : double) : Prop :=
  match x with
  | S754_finite false _ e => emin d_prec d_emax <= e
  | S754_infinity false => True
  | _ => False
  end.

Lemma iter_pos_iter {A} (f : A -> A) n : forall x, @SpecFloat.iter_pos A f n x = Nat.iter (Pos.to_nat n) f x.
Proof.
  induction n as [n IH|n IH|]; intros x; cbn [SpecFloat.iter_pos]; [..|done]; rewrite !IH.
  - rewrite Pos2Nat.inj_xI. cbn [Nat.mul]. rewrite Nat.add_0_r, <- Nat.iter_succ_r, <- Nat.iter_add.
    f_equal. lia.
  - rewrite Pos2Nat.inj_xO. cbn [Nat.mul]. by rewrite Nat.add_0_r, Nat.iter_add.
Qed.

(** Shifting out fewer bits than the mantissa has leaves a mantissa. *)
Lemma shr_1_positive k : forall r m, shr_m r = Zpos m -> (k < Pos.to_nat (digits2_pos m))%nat ->
  exists m', shr_m (Nat.iter k shr_1 r) = Zpos m' /\
    (Pos.to_nat (digits2_pos m') = Pos.to_nat (digits2_pos m) - k)%nat.
Proof.
  induction k as [|k IH]; intros r m Hm Hk; [exists m; cbn; split; [done|lia]|].
  destruct (IH r m Hm) as (m1 & E1 & D1); [lia|]. rewrite Nat.iter_succ.
  destruct (Nat.iter k shr_1 r) as [z br bs]. cbn in E1. subst z.
  destruct m1 as [p|p|]; cbn in D1 |- *; rewrite ?Pos2Nat.inj_succ in D1;
    [exists p; split; [done|lia]..|lia].
Qed.

Lemma shr_fexp_positive m e l : emin d_prec d_emax <= e ->
  exists m', shr_m (fst (shr_fexp d_prec d_emax (Zpos m) e l)) = Zpos m' /\
    emin d_prec d_emax <= snd (shr_fexp d_prec d_emax (Zpos m) e l).
Proof.
  intros He. unfold shr_fexp, shr, fexp. set (n := _ - e).
  assert (n <= Z.max (Zpos (digits2_pos m) - 53) 0) as Hn
    by (unfold n, d_prec; cbn [Zdigits2]; unfold d_prec in He; lia).
  assert (shr_m (shr_record_of_loc (Zpos m) l) = Zpos m) as Hr by (by destruct l as [|[]]).
  destruct n as [|n|n]; cbn [fst snd]; [by exists m| |by exists m].
  rewrite iter_pos_iter. destruct (shr_1_positive (Pos.to_nat n) _ m Hr) as (m' & E & _); [lia|].
  exists m'. split; [done|lia].
Qed.

Lemma round_nearest_even_positive m l : exists m', round_nearest_even (Zpos m) l = Zpos m'.
Proof. destruct l as [|[]]; cbn; try (by eexists). destruct m; by eexists. Qed.

Lemma binary_round_positive m e : emin d_prec d_emax <= e -> d_positive (binary_round d_prec d_emax false m e).
Proof.
  intros He. unfold binary_round.
  assert (emin d_prec d_emax <= snd (shl_align m e (fexp d_prec d_emax (Zpos (digits2_pos m) + e)))) as Hs.
  { unfold shl_align, fexp. destruct (_ - e); cbn [snd]; lia. }
  destruct (shl_align _ _ _) as [mz ez]. cbn [snd] in Hs. unfold binary_round_aux.
  destruct (shr_fexp_positive mz ez loc_Exact Hs) as (m1 & E1 & H1).
  destruct (shr_fexp _ _ (Zpos mz) ez loc_Exact) as [r1 e1]. cbn [fst snd] in E1, H1. rewrite E1.
  destruct (round_nearest_even_positive m1 (loc_of_shr_record r1)) as (m2 & ->).
  destruct (shr_fexp_positive m2 e1 loc_Exact H1) as (m3 & E3 & H3).
  destruct (shr_fexp _ _ (Zpos m2) e1 loc_Exact) as [r3 e3]. cbn [fst snd] in E3, H3. rewrite E3.
  by destruct (e3 <=? _).
Qed.

Lemma d_of_Z_positive z : 0 < z -> d_positive (d_of_Z z).
Proof. destruct z as [|m|m]; try lia. intros _. by apply binary_round_positive. Qed.

Lemma d_add_positive x y : d_positive x -> d_positive y -> d_positive (d_add x y).
Proof.
  destruct x as [|[]| |[] mx ex]; try done; destruct y as [|[]| |[] my ey]; try done.
  intros Hx Hy. cbn [d_add SFadd]. apply binary_round_positive. cbn in Hx, Hy. cbn. lia.
Qed.

(** The displayed liquidity is 0 exactly when both quantities are. *)
Lemma d_sum_zero a b : 0 <= a -> 0 <= b ->
  SFeqb (d_add (d_of_Z a) (d_of_Z b)) d_zero = (a =? 0) && (b =? 0).
Proof.
  assert (forall x, d_positive x -> SFeqb x d_zero = false) as Hf by (by intros [|[]| |[]]).
  intros Ha Hb. destruct (Z.eqb_spec a 0) as [-> |Hna]; [destruct (Z.eqb_spec b 0) as [-> |Hnb]; [done|]|];
    cbn [andb]; apply Hf.
  - assert (d_positive (d_of_Z b)) as Hp by (apply d_of_Z_positive; lia).
    revert Hp. by destruct (d_of_Z b) as [|[]| |[]].
  - assert (d_positive (d_of_Z a)) as Hp by (apply d_of_Z_positive; lia).
    destruct (Z.eqb_spec b 0) as [-> |Hnb]; [revert Hp; by destruct (d_of_Z a) as [|[]| |[]]|].
    apply d_add_positive; [done|apply d_of_Z_positive; lia].
Qed.
