(* ===== verification/Strategy.v ===== *)
(** * Strategies

    [strategy/market_view.hpp], [i_strategy.hpp], [order_intent_sink.hpp],
    [market_features.hpp], [market_feature_extractor.{hpp,cpp}],
    [linear_signal_model.{hpp,cpp}], [simple_threshold_strategy.{hpp,cpp}],
    [microstructure_strategy.{hpp,cpp}], [strategy_engine.{hpp,cpp}] and
    [market_data_strategy_consumer.{hpp,cpp}].

    [double] is the binary64 of [Double].  A strategy reads the book through a
    [MarketView]; [None] is again undefined behaviour. *)

From Stdlib Require Import SpecFloat.
From S2P Require Import Prelude Types FixedHashMap OrderPool PriceLevel Bitmap OrderBook.
From S2P Require Import OrderBookProofs BookStore Consumer Risk Gateway Double.

(** ** Market view *)

(** [bestBid()] and [bestAsk()]: the level pointed to, or a null pointer. *)
Record MarketView : Type := mkView {
  view_bestBid : option (option PriceLevel);
  view_bestAsk : option (option PriceLevel)
}.

Definition deref (b : ArrayOrderBook) (r : level_ptr) : option (option PriceLevel) :=
  match r with
  | None => Some None
  | Some r => lvl ← read_level b r; Some (Some lvl)
  end.

(** The book as a market view. *)
Definition book_view (b : ArrayOrderBook) : MarketView :=
  mkView (deref b (ArrayOrderBook_bestBid b)) (deref b (ArrayOrderBook_bestAsk b)).

(** ** Features *)

Record MarketFeatures : Type := mkFeatures {
  f_bestBidPrice : Price;
  f_bestAskPrice : Price;
  f_bestBidQuantity : Quantity;
  f_bestAskQuantity : Quantity;
  f_spread : double;
  f_midPrice : double;
  f_imbalance : double;
  f_microPrice : double
}.

Definition MarketFeatureExtractor_extract (v : MarketView) : option (option MarketFeatures) :=
  bestBid ← view_bestBid v;
  bestAsk ← view_bestAsk v;
  match bestBid, bestAsk with
  | Some bid, Some ask =>
      let bidPrice := d_of_Z (lvl_price bid) in
      let askPrice := d_of_Z (lvl_price ask) in
      let bidQuantity := d_of_Z (lvl_total_quantity bid) in
      let askQuantity := d_of_Z (lvl_total_quantity ask) in
      let totalQuantity := d_add bidQuantity askQuantity in
      if SFeqb totalQuantity d_zero then Some None
      else
        Some (Some (mkFeatures (lvl_price bid) (lvl_price ask)
          (lvl_total_quantity bid) (lvl_total_quantity ask)
          (d_sub askPrice bidPrice)
          (d_div (d_add bidPrice askPrice) d_two)
          (d_div bidQuantity totalQuantity)
          (d_div (d_add (d_mul askPrice bidQuantity) (d_mul bidPrice askQuantity)) totalQuantity)))
  | _, _ => Some None
  end.

(** ** Linear model *)

Record ModelWeights : Type := mkWeights {
  w_imbalance : double;
  w_microPrice : double;
  w_spread : double
}.

Definition LinearSignalModel_predict (weights_ : ModelWeights) (features : MarketFeatures) : double :=
  let imbalanceSignal := d_mul (d_sub (f_imbalance features) d_half) d_two in
  let microPriceSignal :=
    if SFltb d_zero (f_spread features) then
      d_div (d_sub (f_microPrice features) (f_midPrice features)) (f_spread features)
    else d_zero in
  let spreadSignal := f_spread features in
  d_add
    (d_add (d_mul (w_imbalance weights_) imbalanceSignal)
           (d_mul (w_microPrice weights_) microPriceSignal))
    (d_mul (w_spread weights_) spreadSignal).

(** ** Strategies *)

(** [IStrategy::onMarketData], given the view the strategy holds a reference to. *)
Class IStrategy (X : Type) : Type :=
  onMarketData : X -> MarketView -> MarketDataEvent -> option (option OrderIntent).

Record SimpleThresholdStrategy : Type := mkThreshold {
  st_accountId_ : AccountId;
  st_buyBelowPrice_ : Price;
  st_quantity_ : Quantity
}.

#[export] Instance SimpleThresholdStrategy_onMarketData : IStrategy SimpleThresholdStrategy :=
  fun st v event =>
    if bool_decide (ev_type event <> AddOrder) then Some None
    else if bool_decide (ev_side event <> Sell) then Some None
    else
      bestAsk ← view_bestAsk v;
      match bestAsk with
      | None => Some None
      | Some ask =>
          if lvl_price ask >? st_buyBelowPrice_ st then Some None
          else Some (Some (mkOrderIntent (st_accountId_ st) Buy (ev_symbol event) (lvl_price ask)
                             (st_quantity_ st)))
      end.

Record MicrostructureStrategy : Type := mkMicro {
  ms_signalModel_ : ModelWeights;
  ms_accountId_ : AccountId;
  ms_quantity_ : Quantity;
  ms_buyScoreThreshold_ : double;
  ms_sellScoreThreshold_ : double
}.

#[export] Instance MicrostructureStrategy_onMarketData : IStrategy MicrostructureStrategy :=
  fun st v event =>
    features ← MarketFeatureExtractor_extract v;
    match features with
    | None => Some None
    | Some market =>
        let score := LinearSignalModel_predict (ms_signalModel_ st) market in
        if SFleb (ms_buyScoreThreshold_ st) score then
          Some (Some (mkOrderIntent (ms_accountId_ st) Buy (ev_symbol event) (f_bestAskPrice market)
                        (ms_quantity_ st)))
        else if SFleb score (ms_sellScoreThreshold_ st) then
          Some (Some (mkOrderIntent (ms_accountId_ st) Sell (ev_symbol event) (f_bestBidPrice market)
                        (ms_quantity_ st)))
        else Some None
    end.

Definition StrategyEngine_onMarketData {X} `{!IStrategy X} (strategy_ : X) (v : MarketView)
    (event : MarketDataEvent) : option (option OrderIntent) :=
  onMarketData strategy_ v event.

(** ** The consumer that feeds the book and the strategy *)

Class OrderIntentSink (S : Type) : Type := intent_submit : S -> OrderIntent -> option (bool * S).

(** The gateway as an intent sink. *)
#[export] Instance gateway_intent_sink {S} `{!OrderExecutionSink S} : OrderIntentSink (Gateway S) :=
  GatewayOrderIntentSink_submit.

Section strategy_consumer.

Context (std_hash : Z -> Z) {X S : Type} `{!IStrategy X, !OrderIntentSink S}.

Record StrategyConsumer : Type := mkStrategyConsumer {
  sc_bookConsumer_ : BookConsumer;
  sc_strategy_ : X;
  sc_intentSink_ : S
}.

Definition MarketDataStrategyConsumer_consume (c : StrategyConsumer) (event : MarketDataEvent)
    : option StrategyConsumer :=
  book ← MarketDataBookConsumer_consume std_hash (sc_bookConsumer_ c) event;
  intent ← StrategyEngine_onMarketData (sc_strategy_ c) (book_view (con_book book)) event;
  match intent with
  | None => Some (mkStrategyConsumer book (sc_strategy_ c) (sc_intentSink_ c))
  | Some i =>
      '(_, sink) ← intent_submit (sc_intentSink_ c) i;
      Some (mkStrategyConsumer book (sc_strategy_ c) sink)
  end.

End strategy_consumer.

Arguments StrategyConsumer : clear implicits.

(** ** Lemmas *)

(** The view of a book that stands for the abstract book [A]: the levels pointed to
    have the best prices of [A]. *)
Lemma book_view_spec std_hash b p h held L s :
  store_rel std_hash b p h held L ->
  let ptr := match s with Buy => ArrayOrderBook_bestBid b | Sell => ArrayOrderBook_bestAsk b end in
  let best := spec_best s (abs h L) in
  (best = 0 /\ deref b ptr = Some None) \/
  (valid_price best /\ deref b ptr = Some (Some (level b s best)) /\ lvl_price (level b s best) = best).
Proof.
  intros R ptr best. destruct (st_book _ _ _ _ _ _ R) as [Idx RB].
  assert (OrderBook.best b s = best) as Eb
    by (apply is_best_spec; [apply (rel_best _ _ _ _ _ RB)|apply (rel_valid _ _ _ _ _ RB)]).
  assert (ptr = if best =? 0 then None else Some (s, priceToIndex best)) as ->
    by (unfold ptr; rewrite <- Eb; by destruct s).
  destruct (rel_best _ _ _ _ _ RB s) as [[E _]|(Hne & HQ & _)]; rewrite Eb in *.
  - left. split; [done|]. by rewrite E.
  - right. pose proof (rel_valid _ _ _ _ _ RB _ _ HQ) as Hv. split; [done|].
    rewrite (proj2 (Z.eqb_neq _ _)) by done. unfold valid_price in Hv.
    rewrite priceToIndex_id by lia. unfold deref. rewrite read_level_valid by lia.
    split; [done|]. by apply (rel_price _ _ _ _ _ RB).
Qed.

(** What the threshold strategy decides on an abstract book. *)
Definition threshold_decision (st : SimpleThresholdStrategy) (A : list LimitOrder)
    (event : MarketDataEvent) : option OrderIntent :=
  let ask := spec_best Sell A in
  if bool_decide (ev_type event = AddOrder) && bool_decide (ev_side event = Sell) &&
     negb (ask =? 0) && (ask <=? st_buyBelowPrice_ st)
  then Some (mkOrderIntent (st_accountId_ st) Buy (ev_symbol event) ask (st_quantity_ st))
  else None.

Lemma threshold_strategy_spec std_hash st b p h held L event :
  store_rel std_hash b p h held L ->
  onMarketData st (book_view b) event = Some (threshold_decision st (abs h L) event).
Proof.
  intros R. unfold onMarketData, SimpleThresholdStrategy_onMarketData, threshold_decision.
  rewrite bool_decide_not, (bool_decide_not (ev_side event = Sell)).
  destruct (bool_decide (ev_type event = AddOrder)); cbn [negb andb]; [|done].
  destruct (bool_decide (ev_side event = Sell)); cbn [negb andb]; [|done].
  cbn [view_bestAsk book_view].
  destruct (book_view_spec std_hash b p h held L Sell R) as [[E ->]|(Hv & -> & El)].
  - rewrite E. done.
  - cbn [mbind option_bind]. rewrite El. unfold valid_price in Hv.
    rewrite (proj2 (Z.eqb_neq _ 0)) by lia. cbn [negb andb]. rewrite Z.gtb_ltb, Z.leb_antisym.
    by destruct (st_buyBelowPrice_ st <? spec_best Sell (abs h L)).
Qed.

(** A sink that keeps the intents. *)
Definition recording_sink : OrderIntentSink (list OrderIntent) :=
  fun log intent => Some (true, log ++ [intent]).

Definition strategy_consume_all {X S} `{!IStrategy X, !OrderIntentSink S} (std_hash : Z -> Z)
    (c : StrategyConsumer X S) (events : list MarketDataEvent) : option (StrategyConsumer X S) :=
  foldl (fun c event => c ← c; MarketDataStrategyConsumer_consume std_hash c event) (Some c) events.

(** ** The intents of a run, from the abstract book *)

(** A decision on an abstract book, the totals its levels show and an event. *)
Abbreviation decision := (list LimitOrder -> (Side -> Z -> Z) -> MarketDataEvent -> option OrderIntent) (only parsing).

Fixpoint book_intents (decide : decision) (A : list LimitOrder) (ph : Side -> Z -> Z)
    (events : list MarketDataEvent) : list OrderIntent :=
  match events with
  | [] => []
  | event :: events =>
      let A' := spec_consume A event in
      let ph' := fun s p => ph s p + stale_event A event s p in
      option_list (decide A' (shown A' ph') event) ++ book_intents decide A' ph' events
  end.

Lemma book_intents_length decide events : forall A ph,
  (length (book_intents decide A ph events) <= length events)%nat.
Proof.
  induction events as [|event events IH]; intros A ph; [done|]. cbn [book_intents]. cbn zeta.
  rewrite length_app. destruct (decide _ _ _); cbn [option_list length]; etrans;
    [apply le_n_S, IH|done|apply IH|lia].
Qed.

(** The strategy decides as [decide] does on the book it sees. *)
Definition decides {X} `{!IStrategy X} (std_hash : Z -> Z) (st : X) (decide : decision) : Prop :=
  forall c A ph event, consumer_at std_hash c A ph ->
    onMarketData st (book_view (con_book c)) event = Some (decide A (shown A ph) event).

Lemma strategy_run {X} `{!IStrategy X} std_hash (st : X) decide events : decides std_hash st decide ->
  forall book A ph log, consumer_at std_hash book A ph -> admissible_run A events ->
  exists book', strategy_consume_all (OrderIntentSink0 := recording_sink) std_hash
      (mkStrategyConsumer book st log) events =
    Some (mkStrategyConsumer book' st (log ++ book_intents decide A ph events)).
Proof.
  intros Hdec. induction events as [|event events IH]; intros book A ph log R Hadm.
  { exists book. cbn. by rewrite app_nil_r. }
  destruct Hadm as [Hadm Hrun]. destruct (consume_at _ _ _ _ _ R Hadm) as (book1 & E1 & R1).
  destruct (IH _ _ _ (log ++ option_list (decide (spec_consume A event) (shown (spec_consume A event)
    (fun s p => ph s p + stale_event A event s p)) event)) R1 Hrun) as (book' & E').
  exists book'. cbn [book_intents]. cbn zeta. rewrite app_assoc, <- E'.
  unfold strategy_consume_all. cbn [foldl mbind option_bind].
  unfold MarketDataStrategyConsumer_consume, StrategyEngine_onMarketData.
  cbn [sc_bookConsumer_ sc_strategy_ sc_intentSink_]. rewrite E1. cbn [mbind option_bind].
  rewrite (Hdec _ _ _ event R1). cbn [mbind option_bind].
  destruct (decide _ _ _); cbn [option_list]; [done|]. by rewrite app_nil_r.
Qed.

(** The intents of a run of the threshold strategy, which does not look at the totals. *)
Fixpoint threshold_intents (st : SimpleThresholdStrategy) (A : list LimitOrder)
    (events : list MarketDataEvent) : list OrderIntent :=
  match events with
  | [] => []
  | event :: events =>
      let A := spec_consume A event in
      option_list (threshold_decision st A event) ++ threshold_intents st A events
  end.

Lemma threshold_book_intents st events : forall A ph,
  book_intents (fun A _ => threshold_decision st A) A ph events = threshold_intents st A events.
Proof. induction events as [|event events IH]; intros A ph; [done|]. cbn. by rewrite IH. Qed.

(** C19: the threshold strategy trades on the book as it is after each event.  For
    every admissible sequence of events consumed by the strategy consumer from an
    empty book, the intents handed to the sink are, in order, one for each added
    sell order after which the lowest resting sell price is at most the threshold;
    each is a buy of the configured quantity for the configured account at that
    lowest price, with the symbol of the event. *)
Theorem threshold_strategy_follows_the_book :
  forall (std_hash : Z -> Z) (base : Z) (st : SimpleThresholdStrategy) (events : list MarketDataEvent),
  admissible_run [] events ->
  exists book, strategy_consume_all (OrderIntentSink0 := recording_sink) std_hash
      (mkStrategyConsumer (MarketDataBookConsumer_new base) st []) events =
    Some (mkStrategyConsumer book st (threshold_intents st [] events)).
Proof.
  intros std_hash base st events Hadm.
  assert (decides std_hash st (fun A _ => threshold_decision st A)) as Hd
    by (intros c A ph event (L & R & <- & _); by eapply threshold_strategy_spec).
  destruct (strategy_run std_hash st _ events Hd _ _ _ [] (consumer_at_new std_hash base) Hadm) as (book & E).
  exists book. by rewrite E, threshold_book_intents.
Qed.

Definition demo_strategy_events : list MarketDataEvent :=
  [ demo_event AddOrder 1 0 Sell 105 10; demo_event AddOrder 2 0 Sell 99 20;
    demo_event AddOrder 3 0 Buy 90 20; demo_event AddOrder 4 0 Sell 120 5 ].

Lemma threshold_strategy_witness :
  threshold_intents (mkThreshold 42 100 7) [] demo_strategy_events =
    [mkOrderIntent 42 Buy (replicate 8 32) 99 7; mkOrderIntent 42 Buy (replicate 8 32) 99 7] /\
  exists book, strategy_consume_all (OrderIntentSink0 := recording_sink) (fun k => k)
      (mkStrategyConsumer (MarketDataBookConsumer_new 0) (mkThreshold 42 100 7) [])
      demo_strategy_events =
    Some (mkStrategyConsumer book (mkThreshold 42 100 7)
            (threshold_intents (mkThreshold 42 100 7) [] demo_strategy_events)).
Proof.
  split; [vm_compute; reflexivity|].
  apply (threshold_strategy_follows_the_book (fun k => k) 0 (mkThreshold 42 100 7) demo_strategy_events).
  unfold demo_strategy_events, admissible_run, admissible, is_uint, valid_price. cbn.
  repeat split; lia.
Defined.

(** ** The microstructure strategy *)

(** The score of a top of book, best prices [bid] and [ask] with [qb] and [qa] shown, in
    binary64: weighted, how far the share of the bids is from one half, how far the
    quantity-weighted price is from the middle, in spreads, and the spread. *)
Definition score_of (weights : ModelWeights) (bid ask qb qa : Z) : double :=
  let pb := d_of_Z bid in
  let pa := d_of_Z ask in
  let total := d_add (d_of_Z qb) (d_of_Z qa) in
  let spread := d_sub pa pb in
  let middle := d_div (d_add pb pa) (d_of_Z 2) in
  let micro := d_div (d_add (d_mul pa (d_of_Z qb)) (d_mul pb (d_of_Z qa))) total in
  let share := d_div (d_of_Z qb) total in
  let half := d_div (d_of_Z 1) (d_of_Z 2) in
  d_add (d_add (d_mul (w_imbalance weights) (d_mul (d_sub share half) (d_of_Z 2)))
           (d_mul (w_microPrice weights)
              (if SFltb (d_of_Z 0) spread then d_div (d_sub micro middle) spread else d_of_Z 0)))
    (d_mul (w_spread weights) spread).

Definition top_score (st : MicrostructureStrategy) (A : list LimitOrder) (totals : Side -> Z -> Z) : double :=
  let bid := spec_best Buy A in
  let ask := spec_best Sell A in
  score_of (ms_signalModel_ st) bid ask (totals Buy bid) (totals Sell ask).

(** Both sides rest and one of the best levels shows a quantity. *)
Definition quoted (A : list LimitOrder) (totals : Side -> Z -> Z) : bool :=
  let bid := spec_best Buy A in
  let ask := spec_best Sell A in
  negb (bid =? 0) && negb (ask =? 0) && negb ((totals Buy bid =? 0) && (totals Sell ask =? 0)).

(** What the microstructure strategy decides on an abstract book and the totals shown. *)
Definition micro_decision (st : MicrostructureStrategy) (A : list LimitOrder) (totals : Side -> Z -> Z)
    (event : MarketDataEvent) : option OrderIntent :=
  let order s := Some (mkOrderIntent (ms_accountId_ st) s (ev_symbol event) (spec_best (opposite s) A)
                         (ms_quantity_ st)) in
  if negb (quoted A totals) then None
  else if SFleb (ms_buyScoreThreshold_ st) (top_score st A totals) then order Buy
  else if SFleb (top_score st A totals) (ms_sellScoreThreshold_ st) then order Sell
  else None.

Lemma shown_nonneg A ph s p : 0 <= shown A ph s p.
Proof. apply wrap_range. lia. Qed.

Lemma micro_decides std_hash (st : MicrostructureStrategy) : decides std_hash st (micro_decision st).
Proof.
  intros c A ph event R. pose proof R as (L & RS & EA & _).
  unfold onMarketData, MicrostructureStrategy_onMarketData, MarketFeatureExtractor_extract, book_view.
  cbn [view_bestBid view_bestAsk]. unfold micro_decision, quoted.
  destruct (book_view_spec _ _ _ _ _ _ Buy RS) as [[E ->]|(Hvb & -> & Eb)]; rewrite EA in *.
  { rewrite E. cbn [mbind option_bind]. by destruct (deref _ _) as [[]|] eqn:Ed;
      destruct (book_view_spec _ _ _ _ _ _ Sell RS) as [[_ Ed']|(_ & Ed' & _)]; rewrite Ed in Ed'. }
  cbn [mbind option_bind].
  destruct (book_view_spec _ _ _ _ _ _ Sell RS) as [[E ->]|(Hva & -> & Ea)]; rewrite EA in *;
    cbn [mbind option_bind]; [by rewrite E, andb_false_r|].
  rewrite Eb, Ea, !(consumer_at_total _ _ _ _ _ _ R), d_sum_zero by apply shown_nonneg.
  unfold valid_price in *. rewrite !(proj2 (Z.eqb_neq (spec_best _ A) 0)) by lia. cbn [negb andb].
  destruct (_ && _); cbn [negb mbind option_bind]; [done|].
  set (score := LinearSignalModel_predict _ _). assert (score = top_score st A (shown A ph)) as -> by reflexivity.
  destruct (SFleb _ _); [done|]. by destruct (SFleb _ _).
Qed.

Lemma micro_decision_some st A totals event intent :
  micro_decision st A totals event = Some intent ->
  spec_best Buy A <> 0 /\ spec_best Sell A <> 0 /\
  intent = mkOrderIntent (ms_accountId_ st) (int_side intent) (ev_symbol event)
             (spec_best (opposite (int_side intent)) A) (ms_quantity_ st).
Proof.
  unfold micro_decision, quoted. destruct (Z.eqb_spec (spec_best Buy A) 0); [done|].
  destruct (Z.eqb_spec (spec_best Sell A) 0); [done|]. cbn [negb andb].
  destruct (_ && _); [done|]. cbn [negb]. destruct (SFleb _ _); [by intros [= <-]|].
  destruct (SFleb _ _); [by intros [= <-]|done].
Qed.

Lemma threshold_not_nan low high score :
  SFleb low score = true \/ SFleb score high = true -> score <> S754_nan.
Proof. intros H ->. destruct low, high; by destruct H. Qed.

(** C20: the microstructure strategy crosses the spread exactly when the score of the book
    it sees says so.  For every admissible sequence of events consumed from an empty book,
    the intents handed to the sink are, in order, one after each event that leaves both
    sides resting, with some quantity shown on a best level, and a score of the top of the
    book at or above the buy threshold (a buy at the lowest resting sell price) or else at
    or below the sell threshold (a sell at the highest resting buy price); nothing after the
    other events, in particular when the score is not a number.  The quantities in the score
    are the totals the levels show, that is, with what partial cancels and executions have
    left behind there. *)
Theorem microstructure_strategy_follows_the_book :
  forall (std_hash : Z -> Z) (base : Z) (st : MicrostructureStrategy) (events : list MarketDataEvent),
  (admissible_run [] events ->
   exists book, strategy_consume_all (OrderIntentSink0 := recording_sink) std_hash
       (mkStrategyConsumer (MarketDataBookConsumer_new base) st []) events =
     Some (mkStrategyConsumer book st (book_intents (micro_decision st) [] no_excess events))) /\
  forall A totals event,
    micro_decision st A totals event = None <->
    ~ (spec_best Buy A <> 0 /\ spec_best Sell A <> 0 /\
       (totals Buy (spec_best Buy A) <> 0 \/ totals Sell (spec_best Sell A) <> 0) /\
       top_score st A totals <> S754_nan /\
       (SFleb (ms_buyScoreThreshold_ st) (top_score st A totals) = true \/
        SFleb (top_score st A totals) (ms_sellScoreThreshold_ st) = true)).
Proof.
  intros std_hash base st events. split.
  - intros Hadm. exact (strategy_run std_hash st (micro_decision st) events (micro_decides std_hash st)
      _ _ _ [] (consumer_at_new std_hash base) Hadm).
  - intros A totals event. unfold micro_decision, quoted.
    destruct (Z.eqb_spec (spec_best Buy A) 0); [naive_solver|].
    destruct (Z.eqb_spec (spec_best Sell A) 0); [naive_solver|]. cbn [negb andb].
    destruct (Z.eqb_spec (totals Buy (spec_best Buy A)) 0), (Z.eqb_spec (totals Sell (spec_best Sell A)) 0);
      cbn [negb andb]; [naive_solver|..];
    (pose proof (threshold_not_nan (ms_buyScoreThreshold_ st) (ms_sellScoreThreshold_ st) (top_score st A totals));
     destruct (SFleb (ms_buyScoreThreshold_ st) _), (SFleb _ (ms_sellScoreThreshold_ st)); naive_solver).
Qed.

(** A book with a bid of 30 at 100 and an ask of 10 at 102. *)
Definition demo_quote : list MarketDataEvent :=
  [demo_event AddOrder 1 0 Buy 100 30; demo_event AddOrder 2 0 Sell 102 10].

Definition demo_micro : MicrostructureStrategy :=
  mkMicro (mkWeights (d_of_Z 1) (d_of_Z 1) d_zero) 42 5 d_half (d_sub d_zero d_half).

Lemma microstructure_witness :
  book_intents (micro_decision demo_micro) [] no_excess demo_quote =
    [mkOrderIntent 42 Buy (replicate 8 32) 102 5] /\
  exists book, strategy_consume_all (OrderIntentSink0 := recording_sink) (fun k => k)
      (mkStrategyConsumer (MarketDataBookConsumer_new 0) demo_micro []) demo_quote =
    Some (mkStrategyConsumer book demo_micro (book_intents (micro_decision demo_micro) [] no_excess demo_quote)).
Proof.
  split; [vm_compute; reflexivity|].
  apply (proj1 (microstructure_strategy_follows_the_book (fun k => k) 0 demo_micro demo_quote)).
  unfold demo_quote, admissible_run, admissible, is_uint, valid_price. cbn. repeat split; lia.
Defined.
