(* ===== verification/Wire.v ===== *)
(** * Bytes on the wire

    [common/endian.hpp] and [execution/ouch/ouch_wire_utils.hpp], and the memory
    accesses of the encoders and parsers.

    A buffer is a list of bytes ([0 <= b < 256]); reading or writing outside it is
    undefined ([None]).  Integers on the wire are big-endian. *)

From S2P Require Import Prelude.

Abbreviation bytes := (list Z) (only parsing).

Definition is_byte (b : Z) : Prop := is_uint 8 b.

(** ** Memory accesses *)

(** [data[off]] *)
Definition rd (data : bytes) (off : nat) : option Z := data !! off.

(** [n] bytes from [data + off], as [std::copy_n] and [memcpy] read them. *)
Definition rd_n (data : bytes) (off n : nat) : option bytes :=
  if bool_decide (off + n <= length data)%nat then Some (take n (drop off data)) else None.

(** Writing [bs] from [buffer + off]. *)
Definition wr (buffer : bytes) (off : nat) (bs : bytes) : option bytes :=
  if bool_decide (off + length bs <= length buffer)%nat
  then Some (take off buffer ++ bs ++ drop (off + length bs) buffer)
  else None.

(** ** Byte order *)

(** [std::byteswap] of an integer of [n] bytes. *)
Fixpoint byteswap (n : nat) (value : Z) : Z :=
  match n with
  | O => 0
  | S n => Z.lor (Z.shiftl (Z.land value 255) (8 * Z.of_nat n)) (byteswap n (Z.shiftr value 8))
  end.

(** The native byte order, little-endian or big-endian. *)
Definition fromBigEndian (little : bool) (n : nat) (value : Z) : Z :=
  if little then byteswap n value else value.

Definition toBigEndian (little : bool) (n : nat) (value : Z) : Z :=
  if little then byteswap n value else value.

(** The value of [n] bytes of memory, in the native order, as [memcpy] into an
    integer gives it. *)
Fixpoint little_value (bs : bytes) : Z :=
  match bs with
  | [] => 0
  | b :: bs => b + 256 * little_value bs
  end.

Definition big_value (bs : bytes) : Z := foldl (fun acc b => acc * 256 + b) 0 bs.

Definition native_value (little : bool) (bs : bytes) : Z :=
  if little then little_value bs else big_value bs.

(** ** [ouch::wire] *)

Definition readUint16 (source : bytes) (off : nat) : option Z :=
  b0 ← rd source off; b1 ← rd source (off + 1);
  Some (u16 (Z.lor (Z.shiftl b0 8) b1)).

Definition readUint32 (source : bytes) (off : nat) : option Z :=
  b0 ← rd source off; b1 ← rd source (off + 1); b2 ← rd source (off + 2); b3 ← rd source (off + 3);
  Some (Z.lor (Z.lor (Z.lor (u32 (Z.shiftl b0 24)) (u32 (Z.shiftl b1 16))) (u32 (Z.shiftl b2 8))) b3).

(** The loop [for (index = 0; index < 8; ++index) value = (value << 8) | source[index]]. *)
Fixpoint readUint64_loop (source : bytes) (off : nat) (n : nat) (value : Z) : option Z :=
  match n with
  | O => Some value
  | S n =>
      b ← rd source off;
      readUint64_loop source (S off) n (Z.lor (u64 (Z.shiftl value 8)) b)
  end.

Definition readUint64 (source : bytes) (off : nat) : option Z := readUint64_loop source off 8 0.

Definition byte_of (value shift : Z) : Z := u8 (Z.land (Z.shiftr value shift) 255).

Definition writeUint16 (destination : bytes) (off : nat) (value : Z) : option bytes :=
  wr destination off [byte_of value 8; byte_of value 0].

Definition writeUint32 (destination : bytes) (off : nat) (value : Z) : option bytes :=
  wr destination off [byte_of value 24; byte_of value 16; byte_of value 8; byte_of value 0].

Definition writeUint64 (destination : bytes) (off : nat) (value : Z) : option bytes :=
  wr destination off ((fun index => byte_of value ((7 - Z.of_nat index) * 8)) <$> seq 0 8).

(** ** Lemmas *)

Lemma land_255 v : Z.land v 255 = v mod 256.
Proof. change 255 with (Z.ones 8). by rewrite Z.land_ones by lia. Qed.

Lemma byte_of_eq v s : 0 <= s -> byte_of v s = (v / 2 ^ s) mod 256.
Proof.
  intros Hs. unfold byte_of, wrap. rewrite land_255, Z.shiftr_div_pow2 by done.
  apply Z.mod_small. change (2 ^ 8) with 256. apply Z.mod_pos_bound. lia.
Qed.

Lemma byte_of_byte v s : is_byte (byte_of v s).
Proof. unfold is_byte, is_uint, byte_of. apply wrap_range. lia. Qed.

(** A byte below a shifted value. *)
Lemma lor_shiftl_add a b k : 0 <= k -> 0 <= b < 2 ^ k -> Z.lor (Z.shiftl a k) b = a * 2 ^ k + b.
Proof.
  intros Hk Hb. rewrite <- Z.shiftl_mul_pow2 by done.
  pose proof (Z.add_lor_land (Z.shiftl a k) b) as E.
  assert (Z.land (Z.shiftl a k) b = 0) as Hland; [|rewrite Hland, Z.add_0_r in E; exact E].
  apply Z.bits_inj'. intros n Hn. rewrite Z.land_spec, Z.bits_0.
  destruct (Z.lt_ge_cases n k).
  - by rewrite Z.shiftl_spec_low.
  - destruct (Z.eq_dec b 0) as [->|]; [by rewrite Z.bits_0, andb_false_r|].
    rewrite (Z.bits_above_log2 b), andb_false_r; [done|lia|].
    apply Z.log2_lt_pow2; [lia|]. pose proof (Z.pow_le_mono_r 2 k n). lia.
Qed.

Lemma lor_shiftl_byte a b : is_byte b -> Z.lor (Z.shiftl a 8) b = a * 256 + b.
Proof. intros Hb. apply (lor_shiftl_add a b 8); [lia|exact Hb]. Qed.

(** Values that bytes read back. *)
Lemma read_bytes16 v : 0 <= v < 2 ^ 16 ->
  u16 (Z.lor (Z.shiftl (byte_of v 8) 8) (byte_of v 0)) = v.
Proof.
  intros Hv. rewrite lor_shiftl_byte by apply byte_of_byte. rewrite !byte_of_eq by lia.
  change (2 ^ 8) with 256. change (2 ^ 0) with 1. change (2 ^ 16) with 65536 in Hv.
  assert (v / 256 mod 256 * 256 + v / 1 mod 256 = v) as -> by zdm. apply wrap_small. lia.
Qed.

(** Shifting a byte inside a word does not wrap. *)
Lemma shift_byte_small b k w : is_byte b -> 0 <= k -> k + 8 <= w ->
  wrap w (Z.shiftl b k) = b * 2 ^ k.
Proof.
  intros Hb Hk Hw. rewrite Z.shiftl_mul_pow2 by done. apply wrap_small.
  unfold is_byte, is_uint in Hb.
  pose proof (Z.pow_le_mono_r 2 (k + 8) w ltac:(lia) Hw) as Hp. rewrite Z.pow_add_r in Hp by lia.
  change (2 ^ 8) with 256 in *. pose proof (Z.pow_pos_nonneg 2 k). nia.
Qed.

Lemma join_bytes32 b0 b1 b2 b3 : is_byte b0 -> is_byte b1 -> is_byte b2 -> is_byte b3 ->
  Z.lor (Z.lor (Z.lor (u32 (Z.shiftl b0 24)) (u32 (Z.shiftl b1 16))) (u32 (Z.shiftl b2 8))) b3 =
  ((b0 * 256 + b1) * 256 + b2) * 256 + b3.
Proof.
  intros B0 B1 B2 B3. rewrite !shift_byte_small by (lia || done).
  assert (forall a b k, 0 <= k -> 0 <= b < 2 ^ k -> Z.lor (a * 2 ^ k) b = a * 2 ^ k + b) as Hadd.
  { intros a b k Hk Hb. rewrite <- (Z.shiftl_mul_pow2 a k Hk) at 1. by apply lor_shiftl_add. }
  unfold is_byte, is_uint in *. rewrite (Hadd b0 (b1 * 2 ^ 16) 24) by lia.
  replace (b0 * 2 ^ 24 + b1 * 2 ^ 16) with ((b0 * 256 + b1) * 2 ^ 16) by lia.
  rewrite (Hadd _ (b2 * 2 ^ 8) 16) by lia.
  replace ((b0 * 256 + b1) * 2 ^ 16 + b2 * 2 ^ 8) with (((b0 * 256 + b1) * 256 + b2) * 2 ^ 8) by lia.
  rewrite (Hadd _ b3 8) by lia. lia.
Qed.

Lemma read_bytes32 v : 0 <= v < 2 ^ 32 ->
  Z.lor (Z.lor (Z.lor (u32 (Z.shiftl (byte_of v 24) 24)) (u32 (Z.shiftl (byte_of v 16) 16)))
    (u32 (Z.shiftl (byte_of v 8) 8))) (byte_of v 0) = v.
Proof.
  intros Hv. rewrite join_bytes32 by apply byte_of_byte. rewrite !byte_of_eq by lia.
  change (2 ^ 24) with 16777216. change (2 ^ 16) with 65536. change (2 ^ 8) with 256.
  change (2 ^ 0) with 1. change (2 ^ 32) with 4294967296 in Hv. zdm.
Qed.

(** One round of the 64-bit loop, below the top byte. *)
Lemma loop_round64 a b : 0 <= a < 2 ^ 56 -> is_byte b -> Z.lor (u64 (Z.shiftl a 8)) b = a * 256 + b.
Proof.
  intros Ha Hb. rewrite wrap_small; [by apply lor_shiftl_byte|].
  rewrite Z.shiftl_mul_pow2 by lia. change (2 ^ 56) with 72057594037927936 in Ha.
  change (2 ^ 64) with 18446744073709551616. change (2 ^ 8) with 256. lia.
Qed.

(** The prefix of a value read so far, and the next byte. *)
Lemma prefix_step v s : 0 <= v -> 0 <= s -> v / 2 ^ (s + 8) * 256 + byte_of v s = v / 2 ^ s.
Proof.
  intros Hv Hs. rewrite byte_of_eq by done. rewrite Z.pow_add_r, <- Z.div_div by lia.
  change (2 ^ 8) with 256. pose proof (Z.div_mod (v / 2 ^ s) 256). lia.
Qed.

Lemma read_bytes64 v : 0 <= v < 2 ^ 64 ->
  let round a s := Z.lor (u64 (Z.shiftl a 8)) (byte_of v s) in
  round (round (round (round (round (round (round (round 0 56) 48) 40) 32) 24) 16) 8) 0 = v.
Proof.
  intros Hv round.
  assert (forall t s, t = s + 8 -> 0 <= s -> t <= 64 -> round (v / 2 ^ t) s = v / 2 ^ s) as Hround.
  { intros t s -> Hs Hs8. unfold round.
    rewrite loop_round64; [by apply prefix_step; lia| |apply byte_of_byte].
    split; [apply Z.div_pos; lia|]. apply Z.div_lt_upper_bound; [lia|].
    rewrite <- Z.pow_add_r by lia. pose proof (Z.pow_le_mono_r 2 64 (s + 8 + 56)). lia. }
  replace 0 with (v / 2 ^ 64) at 1 by (apply Z.div_small; exact Hv).
  rewrite (Hround 64 56), (Hround 56 48), (Hround 48 40), (Hround 40 32), (Hround 32 24),
    (Hround 24 16), (Hround 16 8), (Hround 8 0) by lia.
  apply Z.div_1_r.
Qed.

(** ** Reads inside the buffer

    A read of a field inside the buffer is defined and gives a value of the field's
    width. *)

Definition all_bytes (data : bytes) : Prop := Forall is_byte data.

Lemma rd_inside data off : (off < length data)%nat -> exists b, rd data off = Some b.
Proof. intros H. destruct (lookup_lt_is_Some_2 data off H) as [b Hb]. by exists b. Qed.

Lemma rd_byte data off b : all_bytes data -> rd data off = Some b -> is_byte b.
Proof. intros Ha H. by apply (Forall_lookup_1 _ _ _ _ Ha H). Qed.

Lemma rd_n_inside data off n : (off + n <= length data)%nat ->
  exists l, rd_n data off n = Some l /\ length l = n.
Proof.
  intros H. unfold rd_n. rewrite bool_decide_true by done. eexists. split; [done|].
  rewrite length_take, length_drop. lia.
Qed.

Lemma readUint16_inside data off : (off + 2 <= length data)%nat ->
  exists v, readUint16 data off = Some v /\ is_uint 16 v.
Proof.
  intros H. unfold readUint16.
  destruct (rd_inside data off) as [b0 H0], (rd_inside data (off + 1)) as [b1 H1]; [lia..|].
  rewrite H0, H1. eexists. split; [done|]. apply wrap_range. lia.
Qed.

Lemma lor_uint w a b : 0 <= w -> is_uint w a -> is_uint w b -> is_uint w (Z.lor a b).
Proof.
  intros Hw [Ha0 Ha] [Hb0 Hb]. unfold is_uint. split; [by apply Z.lor_nonneg|].
  destruct (Z.eq_dec (Z.lor a b) 0) as [->|Hne]; [by apply Z.pow_pos_nonneg|].
  pose proof (proj2 (Z.lor_nonneg a b) (conj Ha0 Hb0)).
  apply Z.log2_lt_pow2; [lia|]. rewrite Z.log2_lor by done.
  destruct (Z.eq_dec a 0) as [->|], (Z.eq_dec b 0) as [->|]; [done|..].
  - rewrite Z.max_r by (cbn; apply Z.log2_nonneg). apply Z.log2_lt_pow2; lia.
  - rewrite Z.max_l by (cbn; apply Z.log2_nonneg). apply Z.log2_lt_pow2; lia.
  - apply Z.max_lub_lt; apply Z.log2_lt_pow2; lia.
Qed.

Lemma readUint32_inside data off : all_bytes data -> (off + 4 <= length data)%nat ->
  exists v, readUint32 data off = Some v /\ is_uint 32 v.
Proof.
  intros Ha H. unfold readUint32.
  destruct (rd_inside data off) as [b0 H0], (rd_inside data (off + 1)) as [b1 H1],
    (rd_inside data (off + 2)) as [b2 H2], (rd_inside data (off + 3)) as [b3 H3]; [lia..|].
  rewrite H0, H1, H2, H3. eexists. split; [done|]. apply (rd_byte _ _ _ Ha) in H3.
  assert (is_uint 32 b3) by (unfold is_byte, is_uint in *; lia).
  repeat apply lor_uint; try lia; try done; apply wrap_range; lia.
Qed.

Lemma readUint64_loop_inside data off n value :
  all_bytes data -> (off + n <= length data)%nat -> is_uint 64 value ->
  exists v, readUint64_loop data off n value = Some v /\ is_uint 64 v.
Proof.
  intros Ha. revert off value. induction n as [|n IH]; cbn; intros off value H Hv; [by eexists|].
  destruct (rd_inside data off) as [b Hb]; [lia|]. rewrite Hb. cbn. apply IH; [lia|].
  apply (rd_byte _ _ _ Ha) in Hb. apply lor_uint; [lia|apply wrap_range; lia|].
  unfold is_byte, is_uint in *. lia.
Qed.

Lemma readUint64_inside data off : all_bytes data -> (off + 8 <= length data)%nat ->
  exists v, readUint64 data off = Some v /\ is_uint 64 v.
Proof. intros Ha H. apply readUint64_loop_inside; [done..|]. unfold is_uint. lia. Qed.

(** Runs the next read of a decoder, inside the buffer. *)
Ltac read_inside :=
  match goal with
  | |- context [rd ?d ?o] =>
      let b := fresh "b" in let E := fresh "E" in
      destruct (rd_inside d o) as [b E]; [cbn; lia|rewrite E; cbn [mbind option_bind]]
  | |- context [rd_n ?d ?o ?n] =>
      let l := fresh "l" in let E := fresh "E" in let Hl := fresh "Hl" in
      destruct (rd_n_inside d o n) as (l & E & Hl); [cbn; lia|rewrite E; cbn [mbind option_bind]]
  | |- context [readUint16 ?d ?o] =>
      let v := fresh "v" in let E := fresh "E" in let Hv := fresh "Hv" in
      destruct (readUint16_inside d o) as (v & E & Hv); [cbn; lia|rewrite E; cbn [mbind option_bind]]
  | |- context [readUint32 ?d ?o] =>
      let v := fresh "v" in let E := fresh "E" in let Hv := fresh "Hv" in
      destruct (readUint32_inside d o) as (v & E & Hv);
        [assumption|cbn; lia|rewrite E; cbn [mbind option_bind]]
  | |- context [readUint64 ?d ?o] =>
      let v := fresh "v" in let E := fresh "E" in let Hv := fresh "Hv" in
      destruct (readUint64_inside d o) as (v & E & Hv);
        [assumption|cbn; lia|rewrite E; cbn [mbind option_bind]]
  end.

(** What a write leaves in front of its end. *)
Lemma wr_spec buffer off bs buffer' :
  wr buffer off bs = Some buffer' ->
  length buffer' = length buffer /\ (off + length bs <= length buffer)%nat /\
  take (off + length bs) buffer' = take off buffer ++ bs.
Proof.
  unfold wr. case_bool_decide as Hfit; [|done]. intros [= <-].
  assert (length (take off buffer) = off) as Ht by (rewrite length_take; lia).
  rewrite !length_app, Ht, length_drop. split; [lia|]. split; [done|].
  rewrite app_assoc. apply take_app_length'. rewrite length_app, Ht. done.
Qed.

(** ** Fields in network order *)

(** The value of [n] bytes at [off] in network order. *)
Definition be (mem : bytes) (off n : nat) : Z := big_value (take n (drop off mem)).

Lemma big_value_foldl acc bs :
  foldl (fun acc b => acc * 256 + b) acc bs = acc * 2 ^ (8 * Z.of_nat (length bs)) + big_value bs.
Proof.
  unfold big_value. revert acc. induction bs as [|b bs IH] using rev_ind; intros acc; [cbn; lia|].
  rewrite !foldl_app, length_app. cbn [foldl length]. rewrite IH.
  replace (8 * Z.of_nat (length bs + 1)) with (8 * Z.of_nat (length bs) + 8) by lia.
  rewrite Z.pow_add_r by lia. change (2 ^ 8) with 256. ring.
Qed.

Lemma big_value_cons b bs :
  big_value (b :: bs) = b * 2 ^ (8 * Z.of_nat (length bs)) + big_value bs.
Proof. unfold big_value at 1. cbn [foldl]. by rewrite big_value_foldl. Qed.

Lemma big_value_app xs ys :
  big_value (xs ++ ys) = big_value xs * 2 ^ (8 * Z.of_nat (length ys)) + big_value ys.
Proof. unfold big_value at 1. rewrite foldl_app. by rewrite big_value_foldl. Qed.

Lemma big_value_range bs : all_bytes bs -> 0 <= big_value bs < 2 ^ (8 * Z.of_nat (length bs)).
Proof.
  induction 1 as [|b bs Hb _ IH]; [cbn; lia|]. rewrite big_value_cons. cbn [length].
  replace (8 * Z.of_nat (S (length bs))) with (8 + 8 * Z.of_nat (length bs)) by lia.
  rewrite Z.pow_add_r by lia. unfold is_byte, is_uint in Hb. nia.
Qed.

Lemma all_bytes_slice mem off n : all_bytes mem -> all_bytes (take n (drop off mem)).
Proof. intros H. by apply Forall_take, Forall_drop. Qed.

Lemma be_range mem off n w :
  all_bytes mem -> (off + n <= length mem)%nat -> w = 8 * Z.of_nat n -> is_uint w (be mem off n).
Proof.
  intros Ha Hin ->. pose proof (big_value_range _ (all_bytes_slice mem off n Ha)) as H.
  rewrite length_take, length_drop in H. unfold is_uint, be.
  replace (n `min` (length mem - off))%nat with n in H by lia. exact H.
Qed.

(** The reads of the source are these fields. *)
Lemma slice_cons (bs : bytes) off b n :
  rd bs off = Some b -> take (S n) (drop off bs) = b :: take n (drop (S off) bs).
Proof. intros E. by rewrite (drop_S _ _ _ E). Qed.

Lemma rd_be bs off : (off < length bs)%nat -> rd bs off = Some (be bs off 1).
Proof.
  intros H. destruct (rd_inside bs off H) as [b E]. unfold be. rewrite (slice_cons _ _ _ _ E), take_0, E.
  unfold big_value. cbn [foldl]. by f_equal.
Qed.

Lemma readUint16_be bs off : all_bytes bs -> (off + 2 <= length bs)%nat -> readUint16 bs off = Some (be bs off 2).
Proof.
  intros Ha H. unfold readUint16, be.
  destruct (rd_inside bs off) as [b0 E0], (rd_inside bs (off + 1)) as [b1 E1]; [lia..|].
  rewrite E0, E1. rewrite Nat.add_1_r in E1. rewrite (slice_cons _ _ _ _ E0), (slice_cons _ _ _ _ E1), take_0.
  apply (rd_byte _ _ _ Ha) in E0, E1. cbn [mbind option_bind]. f_equal. rewrite lor_shiftl_byte by done.
  unfold big_value, is_byte, is_uint in *. cbn [foldl]. apply wrap_small. lia.
Qed.

Lemma readUint32_be bs off : all_bytes bs -> (off + 4 <= length bs)%nat -> readUint32 bs off = Some (be bs off 4).
Proof.
  intros Ha H. unfold readUint32, be.
  destruct (rd_inside bs off) as [b0 E0], (rd_inside bs (off + 1)) as [b1 E1],
    (rd_inside bs (off + 2)) as [b2 E2], (rd_inside bs (off + 3)) as [b3 E3]; [lia..|].
  rewrite E0, E1, E2, E3. cbn [mbind option_bind].
  replace (off + 1)%nat with (S off) in E1 by lia. replace (off + 2)%nat with (S (S off)) in E2 by lia.
  replace (off + 3)%nat with (S (S (S off))) in E3 by lia.
  rewrite (slice_cons _ _ _ _ E0), (slice_cons _ _ _ _ E1), (slice_cons _ _ _ _ E2), (slice_cons _ _ _ _ E3), take_0.
  apply (rd_byte _ _ _ Ha) in E0, E1, E2, E3. rewrite join_bytes32 by done. by unfold big_value; cbn [foldl].
Qed.

Lemma readUint64_loop_be bs n : forall off value,
  all_bytes bs -> (off + n <= length bs)%nat -> (n <= 8)%nat -> 0 <= value < 2 ^ (64 - 8 * Z.of_nat n) ->
  readUint64_loop bs off n value = Some (value * 2 ^ (8 * Z.of_nat n) + be bs off n).
Proof.
  induction n as [|n IH]; intros off value Ha H Hn Hv; cbn [readUint64_loop].
  { unfold be. rewrite take_0. cbn. f_equal. lia. }
  destruct (rd_inside bs off) as [b E]; [lia|]. rewrite E. cbn [mbind option_bind].
  pose proof (rd_byte _ _ _ Ha E) as Hb. replace (64 - 8 * Z.of_nat (S n)) with (56 - 8 * Z.of_nat n) in Hv by lia.
  pose proof (Z.pow_le_mono_r 2 (56 - 8 * Z.of_nat n) 56).
  assert (2 ^ (64 - 8 * Z.of_nat n) = 2 ^ (56 - 8 * Z.of_nat n) * 256) as E64.
  { replace (64 - 8 * Z.of_nat n) with (56 - 8 * Z.of_nat n + 8) by lia. by rewrite Z.pow_add_r by lia. }
  assert (2 ^ (8 * Z.of_nat (S n)) = 256 * 2 ^ (8 * Z.of_nat n)) as E8.
  { replace (8 * Z.of_nat (S n)) with (8 + 8 * Z.of_nat n) by lia. by rewrite Z.pow_add_r by lia. }
  unfold is_byte, is_uint in Hb. rewrite loop_round64, IH by (lia || done).
  f_equal. unfold be. rewrite (slice_cons _ _ _ _ E), big_value_cons, E8.
  rewrite length_take, length_drop. replace (n `min` (length bs - S off))%nat with n by lia. ring.
Qed.

Lemma readUint64_be bs off : all_bytes bs -> (off + 8 <= length bs)%nat -> readUint64 bs off = Some (be bs off 8).
Proof. intros Ha H. unfold readUint64. by rewrite readUint64_loop_be by (done || lia). Qed.

Lemma rd_n_slice bs off n : (off + n <= length bs)%nat -> rd_n bs off n = Some (take n (drop off bs)).
Proof. intros H. unfold rd_n. by rewrite bool_decide_true. Qed.

(** Runs the next reads of a decoder, as fields in network order. *)
Ltac read_fields :=
  repeat match goal with
  | |- context [readUint16 ?d ?o] => rewrite (readUint16_be d o) by (assumption || (cbn; lia))
  | |- context [readUint32 ?d ?o] => rewrite (readUint32_be d o) by (assumption || (cbn; lia))
  | |- context [readUint64 ?d ?o] => rewrite (readUint64_be d o) by (assumption || (cbn; lia))
  | |- context [rd_n ?d ?o ?n] => rewrite (rd_n_slice d o n) by (cbn; lia)
  | |- context [rd ?d ?o] => rewrite (rd_be d o) by (cbn; lia)
  end; cbn [mbind option_bind].
