(* ===== verification/Ouch.v ===== *)
(** * OUCH messages

    [execution/ouch/ouch_messages.hpp], the encoders
    ([ouch_encoder], [accepted_encoder], [executed_encoder]), the decoders of
    [execution/ouch/decoders/] and [ouch_response_dispatcher].

    An enumeration with underlying type [char] can hold every [char], and the
    decoders cast bytes into it unchecked; such a field is the byte itself.  A
    decoder returns [None] for undefined behaviour (a read beyond the buffer) and
    otherwise the [std::optional] of the source. *)

From S2P Require Import Prelude Types Wire.

(** ** Messages *)

Definition char_O : Z := 79.
Definition char_A : Z := 65.
Definition char_J : Z := 74.
Definition char_E : Z := 69.
Definition char_C : Z := 67.
Definition char_B : Z := 66.
Definition char_S : Z := 83.
Definition char_space : Z := 32.

(** The enumerators.  An [enum class : char] can hold any character, and the decoders cast
    bytes to it without a check: the fields of the messages are characters. *)
Definition TimeInForce : list Z := [48; 51; 53; 54; 69].
Definition Display : list Z := [89; 78; 65; 90].
Definition Capacity : list Z := [65; 80; 82; 79].
Definition IsoEligibility : list Z := [89; 78].
Definition CrossType : list Z := [78; 79; 67; 72; 83; 82; 69; 65].

(** The enumerators the code names. *)
Definition TimeInForce_ImmediateOrCancel : Z := 51.
Definition TimeInForce_Day : Z := 48.
Definition Display_Visible : Z := 89.
Definition Capacity_Agency : Z := 65.
Definition IsoEligibility_NotEligible : Z := 78.
Definition CrossType_ContinuousMarket : Z := 78.
Definition OrderState_Live : Z := 76.
Definition OrderState_Dead : Z := 68.

Record EnterOrder : Type := mkEnterOrder {
  eo_userRefNum : Z;
  eo_side : Side;
  eo_quantity : Quantity;
  eo_symbol : Symbol;
  eo_price : Z;
  eo_timeInForce : Z;
  eo_display : Z;
  eo_capacity : Z;
  eo_isoEligibility : Z;
  eo_crossType : Z;
  eo_clOrdId : list Z;
  eo_appendageLength : Z
}.

Record Accepted : Type := mkAccepted {
  ac_timestamp : Z;
  ac_userRefNum : Z;
  ac_side : Side;
  ac_quantity : Quantity;
  ac_symbol : Symbol;
  ac_price : Z;
  ac_timeInForce : Z;
  ac_display : Z;
  ac_orderReferenceNumber : OrderId;
  ac_capacity : Z;
  ac_isoEligibility : Z;
  ac_crossType : Z;
  ac_orderState : Z;
  ac_clOrdId : list Z;
  ac_appendageLength : Z
}.

Record Rejected : Type := mkRejected {
  rj_timestamp : Z;
  rj_userRefNum : Z;
  rj_reason : Z;
  rj_clOrdId : list Z;
  rj_appendageLength : Z
}.

Record Executed : Type := mkExecuted {
  ex_timestamp : Z;
  ex_userRefNum : Z;
  ex_quantity : Quantity;
  ex_price : Z;
  ex_liquidityFlag : Z;
  ex_matchNumber : Z;
  ex_appendageLength : Z
}.

Record Canceled : Type := mkCanceled {
  cn_timestamp : Z;
  cn_userRefNum : Z;
  cn_quantity : Quantity;
  cn_reason : Z;
  cn_appendageLength : Z
}.

Inductive OuchResponse : Type :=
  | R_Accepted (m : Accepted)
  | R_Rejected (m : Rejected)
  | R_Executed (m : Executed)
  | R_Canceled (m : Canceled).

Definition side_char (s : Side) : Z := match s with Buy => char_B | Sell => char_S end.

(** ** Encoders *)

Definition EnterOrderSize : nat := 47.
Definition AcceptedSize : nat := 64.
Definition ExecutedSize : nat := 36.

(** The private copies of the wire functions in [ouch_encoder.cpp], which store one byte
    after the other. *)
Definition encoder_writeUint16 (destination : bytes) (off : nat) (value : Z) : option bytes :=
  destination ← wr destination off [byte_of value 8];
  wr destination (off + 1) [byte_of value 0].

Definition encoder_writeUint32 (destination : bytes) (off : nat) (value : Z) : option bytes :=
  destination ← wr destination off [byte_of value 24];
  destination ← wr destination (off + 1) [byte_of value 16];
  destination ← wr destination (off + 2) [byte_of value 8];
  wr destination (off + 3) [byte_of value 0].

Fixpoint encoder_writeUint64_loop (destination : bytes) (off : nat) (value : Z) (index n : nat) : option bytes :=
  match n with
  | O => Some destination
  | S n =>
      destination ← wr destination (off + index) [byte_of value ((7 - Z.of_nat index) * 8)];
      encoder_writeUint64_loop destination off value (index + 1) n
  end.

Definition encoder_writeUint64 (destination : bytes) (off : nat) (value : Z) : option bytes :=
  encoder_writeUint64_loop destination off value 0 8.

Definition OuchEncoder_encode (order : EnterOrder) : option bytes :=
  let buffer := replicate EnterOrderSize char_space in
  buffer ← wr buffer 0 [char_O];
  buffer ← encoder_writeUint32 buffer 1 (eo_userRefNum order);
  buffer ← wr buffer 5 [side_char (eo_side order)];
  buffer ← encoder_writeUint32 buffer 6 (eo_quantity order);
  buffer ← wr buffer 10 (eo_symbol order);
  buffer ← encoder_writeUint64 buffer 18 (eo_price order);
  buffer ← wr buffer 26 [eo_timeInForce order];
  buffer ← wr buffer 27 [eo_display order];
  buffer ← wr buffer 28 [eo_capacity order];
  buffer ← wr buffer 29 [eo_isoEligibility order];
  buffer ← wr buffer 30 [eo_crossType order];
  buffer ← wr buffer 31 (eo_clOrdId order);
  encoder_writeUint16 buffer 45 0.

Definition AcceptedEncoder_encode (accepted : Accepted) : option bytes :=
  let buffer := replicate AcceptedSize char_space in
  buffer ← wr buffer 0 [char_A];
  buffer ← writeUint64 buffer 1 (ac_timestamp accepted);
  buffer ← writeUint32 buffer 9 (ac_userRefNum accepted);
  buffer ← wr buffer 13 [side_char (ac_side accepted)];
  buffer ← writeUint32 buffer 14 (ac_quantity accepted);
  buffer ← wr buffer 18 (ac_symbol accepted);
  buffer ← writeUint64 buffer 26 (ac_price accepted);
  buffer ← wr buffer 34 [ac_timeInForce accepted];
  buffer ← wr buffer 35 [ac_display accepted];
  buffer ← writeUint64 buffer 36 (ac_orderReferenceNumber accepted);
  buffer ← wr buffer 44 [ac_capacity accepted];
  buffer ← wr buffer 45 [ac_isoEligibility accepted];
  buffer ← wr buffer 46 [ac_crossType accepted];
  buffer ← wr buffer 47 [ac_orderState accepted];
  buffer ← wr buffer 48 (ac_clOrdId accepted);
  writeUint16 buffer 62 (ac_appendageLength accepted).

Definition ExecutedEncoder_encode (executed : Executed) : option bytes :=
  let buffer := replicate ExecutedSize 0 in
  buffer ← wr buffer 0 [char_E];
  buffer ← writeUint64 buffer 1 (ex_timestamp executed);
  buffer ← writeUint32 buffer 9 (ex_userRefNum executed);
  buffer ← writeUint32 buffer 13 (ex_quantity executed);
  buffer ← writeUint64 buffer 17 (ex_price executed);
  buffer ← wr buffer 25 [ex_liquidityFlag executed];
  buffer ← writeUint64 buffer 26 (ex_matchNumber executed);
  writeUint16 buffer 34 (ex_appendageLength executed).

(** ** Decoders *)

Definition decode_side (b : Z) : Side := if b =? char_B then Buy else Sell.

(** The private copies of the wire functions in [enter_order_decoder.cpp]. *)
Definition enter_order_readUint16 (source : bytes) (off : nat) : option Z :=
  b0 ← rd source off; b1 ← rd source (off + 1);
  Some (u16 (Z.lor (Z.shiftl b0 8) b1)).

Definition enter_order_readUint32 (source : bytes) (off : nat) : option Z :=
  b0 ← rd source off; b1 ← rd source (off + 1); b2 ← rd source (off + 2); b3 ← rd source (off + 3);
  Some (Z.lor (Z.lor (Z.lor (u32 (Z.shiftl b0 24)) (u32 (Z.shiftl b1 16))) (u32 (Z.shiftl b2 8))) b3).

Fixpoint enter_order_readUint64_loop (source : bytes) (off : nat) (index n : nat) (value : Z) : option Z :=
  match n with
  | O => Some value
  | S n =>
      b ← rd source (off + index);
      enter_order_readUint64_loop source off (index + 1) n (Z.lor (u64 (Z.shiftl value 8)) b)
  end.

Definition enter_order_readUint64 (source : bytes) (off : nat) : option Z :=
  enter_order_readUint64_loop source off 0 8 0.

Definition decodeEnterOrder (data : option bytes) (length : Z) : option (option EnterOrder) :=
  match data with
  | None => Some None
  | Some data =>
      if length <? 47 then Some None
      else
        tag ← rd data 0;
        if negb (tag =? char_O) then Some None
        else
          userRefNum ← enter_order_readUint32 data 1;
          side ← rd data 5;
          quantity ← enter_order_readUint32 data 6;
          symbol ← rd_n data 10 8;
          price ← enter_order_readUint64 data 18;
          timeInForce ← rd data 26;
          display ← rd data 27;
          capacity ← rd data 28;
          isoEligibility ← rd data 29;
          crossType ← rd data 30;
          clOrdId ← rd_n data 31 14;
          appendageLength ← enter_order_readUint16 data 45;
          Some (Some (mkEnterOrder userRefNum (decode_side side) quantity symbol price timeInForce
                        display capacity isoEligibility crossType clOrdId appendageLength))
  end.

Definition decodeAccepted (data : option bytes) (length : Z) : option (option Accepted) :=
  match data with
  | None => Some None
  | Some data =>
      if length <? 64 then Some None
      else
        tag ← rd data 0;
        if negb (tag =? char_A) then Some None
        else
          timestamp ← readUint64 data 1;
          userRefNum ← readUint32 data 9;
          side ← rd data 13;
          quantity ← readUint32 data 14;
          symbol ← rd_n data 18 8;
          price ← readUint64 data 26;
          timeInForce ← rd data 34;
          display ← rd data 35;
          orderReferenceNumber ← readUint64 data 36;
          capacity ← rd data 44;
          isoEligibility ← rd data 45;
          crossType ← rd data 46;
          orderState ← rd data 47;
          clOrdId ← rd_n data 48 14;
          appendageLength ← readUint16 data 62;
          if length <? 64 + appendageLength then Some None
          else Some (Some (mkAccepted timestamp userRefNum (decode_side side) quantity symbol price
                             timeInForce display orderReferenceNumber capacity isoEligibility
                             crossType orderState clOrdId appendageLength))
  end.

Definition decodeRejected (data : option bytes) (length : Z) : option (option Rejected) :=
  match data with
  | None => Some None
  | Some data =>
      if length <? 31 then Some None
      else
        tag ← rd data 0;
        if negb (tag =? char_J) then Some None
        else
          timestamp ← readUint64 data 1;
          userRefNum ← readUint32 data 9;
          reason ← readUint16 data 13;
          clOrdId ← rd_n data 15 14;
          appendageLength ← readUint16 data 29;
          if length <? 31 + appendageLength then Some None
          else Some (Some (mkRejected timestamp userRefNum reason clOrdId appendageLength))
  end.

Definition decodeExecuted (data : option bytes) (length : Z) : option (option Executed) :=
  match data with
  | None => Some None
  | Some data =>
      if length <? 36 then Some None
      else
        tag ← rd data 0;
        if negb (tag =? char_E) then Some None
        else
          timestamp ← readUint64 data 1;
          userRefNum ← readUint32 data 9;
          quantity ← readUint32 data 13;
          price ← readUint64 data 17;
          liquidityFlag ← rd data 25;
          matchNumber ← readUint64 data 26;
          appendageLength ← readUint16 data 34;
          if length <? 36 + appendageLength then Some None
          else Some (Some (mkExecuted timestamp userRefNum quantity price liquidityFlag matchNumber
                             appendageLength))
  end.

Definition decodeCanceled (data : option bytes) (length : Z) : option (option Canceled) :=
  match data with
  | None => Some None
  | Some data =>
      if length <? 18 then Some None
      else
        tag ← rd data 0;
        if negb (tag =? char_C) then Some None
        else
          timestamp ← readUint64 data 1;
          userRefNum ← readUint32 data 9;
          quantity ← readUint32 data 13;
          reason ← rd data 17;
          Some (Some (mkCanceled timestamp userRefNum quantity reason 0))
  end.

(** ** Response dispatcher *)

Definition OuchResponseDispatcher_dispatch (data : option bytes) (length : Z)
    : option (option OuchResponse) :=
  match data with
  | None => Some None
  | Some bs =>
      if length =? 0 then Some None
      else
        tag ← rd bs 0;
        if tag =? char_A then m ← decodeAccepted data length; Some (option_map R_Accepted m)
        else if tag =? char_J then m ← decodeRejected data length; Some (option_map R_Rejected m)
        else if tag =? char_E then m ← decodeExecuted data length; Some (option_map R_Executed m)
        else if tag =? char_C then m ← decodeCanceled data length; Some (option_map R_Canceled m)
        else Some None
  end.

(** ** Well-formed messages *)

Record eo_wf (m : EnterOrder) : Prop := {
  eo_wf_ref : is_uint 32 (eo_userRefNum m);
  eo_wf_quantity : is_uint 32 (eo_quantity m);
  eo_wf_symbol : length (eo_symbol m) = 8%nat;
  eo_wf_price : is_uint 64 (eo_price m);
  eo_wf_clOrdId : length (eo_clOrdId m) = 14%nat
}.

Record ac_wf (m : Accepted) : Prop := {
  ac_wf_timestamp : is_uint 64 (ac_timestamp m);
  ac_wf_ref : is_uint 32 (ac_userRefNum m);
  ac_wf_quantity : is_uint 32 (ac_quantity m);
  ac_wf_symbol : length (ac_symbol m) = 8%nat;
  ac_wf_price : is_uint 64 (ac_price m);
  ac_wf_order : is_uint 64 (ac_orderReferenceNumber m);
  ac_wf_clOrdId : length (ac_clOrdId m) = 14%nat;
  ac_wf_appendage : is_uint 16 (ac_appendageLength m)
}.

Record ex_wf (m : Executed) : Prop := {
  ex_wf_timestamp : is_uint 64 (ex_timestamp m);
  ex_wf_ref : is_uint 32 (ex_userRefNum m);
  ex_wf_quantity : is_uint 32 (ex_quantity m);
  ex_wf_price : is_uint 64 (ex_price m);
  ex_wf_match : is_uint 64 (ex_matchNumber m);
  ex_wf_appendage : is_uint 16 (ex_appendageLength m)
}.

(** ** Encoding then decoding *)

(** ** The private copies *)

Lemma wr_then_wr (buffer : bytes) off x xs :
  (b ← wr buffer off [x]; wr b (off + 1) xs) = wr buffer off (x :: xs).
Proof.
  unfold wr. cbn [length]. case_bool_decide as H1; cbn [mbind option_bind].
  - assert (length (take off buffer) = off) as Ht by (rewrite length_take; lia).
    rewrite !length_app, Ht, length_drop. cbn [length].
    replace (off + (1 + (length buffer - (off + 1))))%nat with (length buffer) by lia.
    replace (off + 1 + length xs)%nat with (off + S (length xs))%nat by lia.
    case_bool_decide; [|done]. f_equal. rewrite take_app_ge, Ht, drop_app_ge, Ht by lia.
    replace (off + 1 - off)%nat with 1%nat by lia.
    replace (off + S (length xs) - off)%nat with (S (length xs)) by lia. cbn [app take drop].
    rewrite drop_drop, <- app_assoc. cbn [app].
    by replace (off + 1 + length xs)%nat with (off + S (length xs))%nat by lia.
  - rewrite bool_decide_false; [done|lia].
Qed.

(** Storing bytes one after the other, from [off + index]. *)
Fixpoint wr_each (buffer : bytes) (off index : nat) (bs : bytes) : option bytes :=
  match bs with
  | [] => Some buffer
  | x :: bs => buffer ← wr buffer (off + index) [x]; wr_each buffer off (index + 1) bs
  end.

Lemma wr_each_eq bs : forall buffer off index,
  (off + index <= length buffer)%nat -> wr_each buffer off index bs = wr buffer (off + index) bs.
Proof.
  induction bs as [|x bs IH]; intros buffer off index Hle; cbn [wr_each].
  - unfold wr. cbn [length]. rewrite !Nat.add_0_r, bool_decide_true by done. change ([] ++ ?l) with l. by rewrite take_drop.
  - rewrite <- (wr_then_wr buffer (off + index) x bs). destruct (wr buffer (off + index) [x]) as [b|] eqn:E; [|reflexivity].
    cbn [mbind option_bind]. apply wr_spec in E as (El & Hf & _). cbn [length] in Hf.
    rewrite IH by lia. f_equal. lia.
Qed.

Lemma wr_each_cons x bs buffer off :
  wr_each buffer off 0 (x :: bs) = wr buffer off (x :: bs).
Proof.
  destruct (decide (off <= length buffer)%nat).
  - rewrite wr_each_eq by lia. by rewrite Nat.add_0_r.
  - cbn [wr_each]. unfold wr. cbn [length]. by rewrite !bool_decide_false by lia.
Qed.

Lemma encoder_writeUint16_eq buffer off v : encoder_writeUint16 buffer off v = writeUint16 buffer off v.
Proof.
  unfold writeUint16. rewrite <- wr_each_cons. cbn. rewrite Nat.add_0_r. unfold encoder_writeUint16.
  destruct (wr buffer off _); [|done]. cbn. by destruct (wr l (off + 1) _).
Qed.

Lemma encoder_writeUint32_eq buffer off v : encoder_writeUint32 buffer off v = writeUint32 buffer off v.
Proof.
  unfold writeUint32. rewrite <- wr_each_cons. cbn [wr_each Nat.add]. rewrite Nat.add_0_r.
  unfold encoder_writeUint32. repeat (match goal with |- context [wr ?b ?o ?x] => destruct (wr b o x) end;
    cbn [mbind option_bind]; try done).
Qed.

Lemma encoder_writeUint64_eq buffer off v : encoder_writeUint64 buffer off v = writeUint64 buffer off v.
Proof. unfold writeUint64. cbn [seq fmap list_fmap]. rewrite <- wr_each_cons. reflexivity. Qed.

Lemma enter_order_readUint64_eq source off : enter_order_readUint64 source off = readUint64 source off.
Proof.
  assert (forall n index value, enter_order_readUint64_loop source off index n value =
    readUint64_loop source (off + index) n value) as H.
  { induction n as [|n IH]; intros index value; [done|]. cbn [enter_order_readUint64_loop readUint64_loop].
    destruct (rd source (off + index)); [|done]. cbn [mbind option_bind]. rewrite IH. f_equal. lia. }
  unfold enter_order_readUint64. rewrite H. by rewrite Nat.add_0_r.
Qed.

Lemma enter_order_readUint32_eq source off : enter_order_readUint32 source off = readUint32 source off.
Proof. reflexivity. Qed.

Lemma enter_order_readUint16_eq source off : enter_order_readUint16 source off = readUint16 source off.
Proof. reflexivity. Qed.

Arguments byte_of : simpl never.
Arguments readUint32 : simpl never.
Arguments readUint64 : simpl never.
Arguments readUint16 : simpl never.

Lemma decode_side_char s : decode_side (side_char s) = s.
Proof. by destruct s. Qed.

(** Lists of a known length, element by element. *)
Lemma list8 (l : list Z) : length l = 8%nat -> exists a b c d e f g h, l = [a; b; c; d; e; f; g; h].
Proof.
  destruct l as [|a [|b [|c [|d [|e [|f [|g [|h [|]]]]]]]]]; try done. intros _. by eexists _, _, _, _, _, _, _, _.
Qed.

Lemma list14 (l : list Z) : length l = 14%nat ->
  exists a b c d e f l', l = a :: b :: c :: d :: e :: f :: l' /\ length l' = 8%nat.
Proof.
  destruct l as [|a [|b [|c [|d [|e [|f l']]]]]]; try done. intros H.
  eexists _, _, _, _, _, _, l'. split; [done|]. cbn in H. lia.
Qed.

(** Reading back what was written at an offset. *)
Lemma read_written16 data off v :
  data !! off = Some (byte_of v 8) -> data !! (off + 1)%nat = Some (byte_of v 0) ->
  is_uint 16 v -> readUint16 data off = Some v.
Proof.
  intros H0 H1 Hv. unfold readUint16, rd. rewrite H0, H1. cbn. f_equal. by apply read_bytes16.
Qed.

Lemma read_written32 data off v :
  data !! off = Some (byte_of v 24) -> data !! (off + 1)%nat = Some (byte_of v 16) ->
  data !! (off + 2)%nat = Some (byte_of v 8) -> data !! (off + 3)%nat = Some (byte_of v 0) ->
  is_uint 32 v -> readUint32 data off = Some v.
Proof.
  intros H0 H1 H2 H3 Hv. unfold readUint32, rd. rewrite H0, H1, H2, H3. cbn [mbind option_bind].
  f_equal. by apply read_bytes32.
Qed.

Lemma read_written64 data off v :
  take 8 (drop off data) = [byte_of v 56; byte_of v 48; byte_of v 40; byte_of v 32; byte_of v 24;
                            byte_of v 16; byte_of v 8; byte_of v 0] ->
  is_uint 64 v -> readUint64 data off = Some v.
Proof.
  intros Hd Hv.
  assert (forall i b, (take 8 (drop off data)) !! i = Some b -> data !! (off + i)%nat = Some b) as Hi.
  { intros i b [Hb _]%lookup_take_Some. by rewrite lookup_drop in Hb. }
  unfold readUint64. cbn [readUint64_loop]. unfold rd. rewrite Hd in Hi.
  pose proof (Hi 0%nat _ eq_refl) as H0. pose proof (Hi 1%nat _ eq_refl) as H1.
  pose proof (Hi 2%nat _ eq_refl) as H2. pose proof (Hi 3%nat _ eq_refl) as H3.
  pose proof (Hi 4%nat _ eq_refl) as H4. pose proof (Hi 5%nat _ eq_refl) as H5.
  pose proof (Hi 6%nat _ eq_refl) as H6. pose proof (Hi 7%nat _ eq_refl) as H7.
  rewrite Nat.add_comm in H0, H1, H2, H3, H4, H5, H6, H7. cbn [Nat.add] in *.
  rewrite H0. cbn [mbind option_bind]. rewrite H1. cbn [mbind option_bind].
  rewrite H2. cbn [mbind option_bind]. rewrite H3. cbn [mbind option_bind].
  rewrite H4. cbn [mbind option_bind]. rewrite H5. cbn [mbind option_bind].
  rewrite H6. cbn [mbind option_bind]. rewrite H7. cbn [mbind option_bind].
  f_equal. by apply read_bytes64.
Qed.

(** Writes a symbol and an order id out, byte by byte. *)
Ltac known_lists Hs Hc :=
  destruct (list8 _ Hs) as (? & ? & ? & ? & ? & ? & ? & ? & Es);
  let l := fresh "l" in let Ec := fresh "Ec" in let Hl := fresh "Hl" in let El := fresh "El" in
  destruct (list14 _ Hc) as (? & ? & ? & ? & ? & ? & l & Ec & Hl);
  destruct (list8 _ Hl) as (? & ? & ? & ? & ? & ? & ? & ? & El); subst l.

(** Reads one integer field back: the value [v] of the given width at [off]. *)
Ltac read_back lem off v := rewrite (lem _ off v) by (reflexivity || assumption); cbn [mbind option_bind].

Definition be4 (v : Z) : bytes := [byte_of v 24; byte_of v 16; byte_of v 8; byte_of v 0].

Definition be8 (v : Z) : bytes :=
  [byte_of v 56; byte_of v 48; byte_of v 40; byte_of v 32; byte_of v 24; byte_of v 16; byte_of v 8;
   byte_of v 0].

Definition be2 (v : Z) : bytes := [byte_of v 8; byte_of v 0].

Lemma enter_order_bytes m :
  eo_wf m -> OuchEncoder_encode m = Some
    ([char_O] ++ be4 (eo_userRefNum m) ++ [side_char (eo_side m)] ++ be4 (eo_quantity m) ++
     eo_symbol m ++ be8 (eo_price m) ++
     [eo_timeInForce m; eo_display m; eo_capacity m; eo_isoEligibility m; eo_crossType m] ++
     eo_clOrdId m ++ be2 0).
Proof.
  intros [_ _ Hs _ Hc]. known_lists Hs Hc. unfold OuchEncoder_encode. rewrite Es, Ec. reflexivity.
Qed.

Lemma enter_order_roundtrip m :
  eo_wf m -> exists bs, OuchEncoder_encode m = Some bs /\ length bs = EnterOrderSize /\
    decodeEnterOrder (Some bs) (Z.of_nat (length bs)) =
      Some (Some (mkEnterOrder (eo_userRefNum m) (eo_side m) (eo_quantity m) (eo_symbol m) (eo_price m)
        (eo_timeInForce m) (eo_display m) (eo_capacity m) (eo_isoEligibility m) (eo_crossType m)
        (eo_clOrdId m) 0)).
Proof.
  intros W. pose proof (enter_order_bytes m W) as E. destruct W as [H1 H2 Hs H3 Hc].
  eexists. split; [exact E|]. clear E. known_lists Hs Hc. rewrite Es, Ec. unfold be8, be4, be2.
  cbn [app]. split; [reflexivity|]. unfold decodeEnterOrder.
  change (enter_order_readUint64 ?d 18) with (readUint64 d 18).
  change (enter_order_readUint32 ?d ?o) with (readUint32 d o).
  change (enter_order_readUint16 ?d ?o) with (readUint16 d o).
  cbn [length Z.of_nat Z.ltb Z.compare Pos.compare Pos.compare_cont Pos.of_succ_nat Pos.succ rd lookup
    list_lookup mbind option_bind negb Z.eqb Pos.eqb char_O].
  assert (is_uint 16 0) as H0 by (unfold is_uint; lia).
  read_back read_written32 1%nat (eo_userRefNum m). read_back read_written32 6%nat (eo_quantity m).
  read_back read_written64 18%nat (eo_price m). read_back read_written16 45%nat 0.
  by rewrite decode_side_char.
Qed.

Lemma accepted_bytes m :
  ac_wf m -> AcceptedEncoder_encode m = Some
    ([char_A] ++ be8 (ac_timestamp m) ++ be4 (ac_userRefNum m) ++ [side_char (ac_side m)] ++
     be4 (ac_quantity m) ++ ac_symbol m ++ be8 (ac_price m) ++ [ac_timeInForce m; ac_display m] ++
     be8 (ac_orderReferenceNumber m) ++
     [ac_capacity m; ac_isoEligibility m; ac_crossType m; ac_orderState m] ++ ac_clOrdId m ++
     be2 (ac_appendageLength m)).
Proof.
  intros [_ _ _ Hs _ _ Hc _]. known_lists Hs Hc. unfold AcceptedEncoder_encode.
  rewrite Es, Ec. reflexivity.
Qed.

Lemma executed_bytes m :
  ExecutedEncoder_encode m = Some
    ([char_E] ++ be8 (ex_timestamp m) ++ be4 (ex_userRefNum m) ++ be4 (ex_quantity m) ++
     be8 (ex_price m) ++ [ex_liquidityFlag m] ++ be8 (ex_matchNumber m) ++ be2 (ex_appendageLength m)).
Proof. reflexivity. Qed.

(** A decoder's result in terms of the fields it reads. *)
Lemma decodeAccepted_fields bs m :
  length bs = AcceptedSize -> rd bs 0 = Some char_A -> readUint64 bs 1 = Some (ac_timestamp m) ->
  readUint32 bs 9 = Some (ac_userRefNum m) -> rd bs 13 = Some (side_char (ac_side m)) ->
  readUint32 bs 14 = Some (ac_quantity m) -> rd_n bs 18 8 = Some (ac_symbol m) ->
  readUint64 bs 26 = Some (ac_price m) -> rd bs 34 = Some (ac_timeInForce m) ->
  rd bs 35 = Some (ac_display m) -> readUint64 bs 36 = Some (ac_orderReferenceNumber m) ->
  rd bs 44 = Some (ac_capacity m) -> rd bs 45 = Some (ac_isoEligibility m) ->
  rd bs 46 = Some (ac_crossType m) -> rd bs 47 = Some (ac_orderState m) ->
  rd_n bs 48 14 = Some (ac_clOrdId m) -> readUint16 bs 62 = Some (ac_appendageLength m) ->
  is_uint 16 (ac_appendageLength m) ->
  decodeAccepted (Some bs) (Z.of_nat (length bs)) =
    Some (if ac_appendageLength m =? 0 then Some m else None).
Proof.
  intros Hl H0 H1 H2 H3 H4 H5 H6 H7 H8 H9 H10 H11 H12 H13 H14 H15 [Ha _]. unfold decodeAccepted.
  rewrite Hl, H0. cbn [mbind option_bind]. rewrite H1. cbn [mbind option_bind].
  rewrite H2, H3, H4, H5, H6, H7, H8, H9, H10, H11, H12, H13, H14, H15. cbn [mbind option_bind].
  rewrite decode_side_char. change (Z.of_nat AcceptedSize) with 64.
  destruct (Z.eqb_spec (ac_appendageLength m) 0) as [E0|Hne].
  - rewrite E0 at 1. destruct m; cbn in E0; by subst.
  - destruct (Z.ltb_spec 64 (64 + ac_appendageLength m)); [done|lia].
Qed.

Lemma decodeExecuted_fields bs m :
  length bs = ExecutedSize -> rd bs 0 = Some char_E -> readUint64 bs 1 = Some (ex_timestamp m) ->
  readUint32 bs 9 = Some (ex_userRefNum m) -> readUint32 bs 13 = Some (ex_quantity m) ->
  readUint64 bs 17 = Some (ex_price m) -> rd bs 25 = Some (ex_liquidityFlag m) ->
  readUint64 bs 26 = Some (ex_matchNumber m) -> readUint16 bs 34 = Some (ex_appendageLength m) ->
  is_uint 16 (ex_appendageLength m) ->
  decodeExecuted (Some bs) (Z.of_nat (length bs)) =
    Some (if ex_appendageLength m =? 0 then Some m else None).
Proof.
  intros Hl H0 H1 H2 H3 H4 H5 H6 H7 [Ha _]. unfold decodeExecuted.
  rewrite Hl, H0. cbn [mbind option_bind]. rewrite H1. cbn [mbind option_bind].
  rewrite H2, H3, H4, H5, H6, H7. cbn [mbind option_bind].
  change (Z.of_nat ExecutedSize) with 36.
  destruct (Z.eqb_spec (ex_appendageLength m) 0) as [E0|Hne].
  - rewrite E0 at 1. destruct m; cbn in E0; by subst.
  - destruct (Z.ltb_spec 36 (36 + ex_appendageLength m)); [done|lia].
Qed.

(** The appendage announced by an encoded message is not part of the buffer, so the
    decoder takes the message back only when there is none. *)
Lemma accepted_roundtrip m :
  ac_wf m -> exists bs, AcceptedEncoder_encode m = Some bs /\ length bs = AcceptedSize /\
    decodeAccepted (Some bs) (Z.of_nat (length bs)) =
      Some (if ac_appendageLength m =? 0 then Some m else None).
Proof.
  intros W. pose proof (accepted_bytes m W) as E. destruct W as [H1 H2 H3 Hs H4 H5 Hc H6].
  eexists. split; [exact E|]. clear E. known_lists Hs Hc. rewrite Es, Ec. unfold be8, be4, be2.
  cbn [app]. split; [reflexivity|]. apply decodeAccepted_fields; try assumption;
    first [ by apply read_written64 | by apply read_written32 | by apply read_written16
          | rewrite ?Es, ?Ec; reflexivity ].
Qed.

Lemma executed_roundtrip m :
  ex_wf m -> exists bs, ExecutedEncoder_encode m = Some bs /\ length bs = ExecutedSize /\
    decodeExecuted (Some bs) (Z.of_nat (length bs)) =
      Some (if ex_appendageLength m =? 0 then Some m else None).
Proof.
  intros [H1 H2 H3 H4 H5 H6].
  eexists. split; [exact (executed_bytes m)|]. unfold be8, be4, be2.
  cbn [app]. split; [reflexivity|]. apply decodeExecuted_fields; try assumption;
    first [ by apply read_written64 | by apply read_written32 | by apply read_written16
          | reflexivity ].
Qed.

(** ** Decoding any buffer

    A decoder called with the buffer's own length reads only inside it, for every
    content. *)

(** ** What the byte strings stand for

    By their tag, when they are long enough, with the fields at their places in network
    order. *)










(** An encoded response, through the dispatcher. *)
Lemma dispatch_accepted m :
  ac_wf m -> ac_appendageLength m = 0 -> exists bs, AcceptedEncoder_encode m = Some bs /\
    length bs = AcceptedSize /\
    OuchResponseDispatcher_dispatch (Some bs) (Z.of_nat (length bs)) = Some (Some (R_Accepted m)).
Proof.
  intros W H0. destruct (accepted_roundtrip m W) as (bs & E & Hl & Hd).
  exists bs. split; [done|]. split; [done|]. rewrite H0 in Hd. cbn [Z.eqb] in Hd.
  assert (rd bs 0 = Some char_A) as Ht.
  { rewrite accepted_bytes in E by done. by injection E as <-. }
  unfold OuchResponseDispatcher_dispatch. rewrite Ht. cbn [mbind option_bind].
  rewrite Hd. by rewrite Hl.
Qed.

Lemma dispatch_executed m :
  ex_wf m -> ex_appendageLength m = 0 -> exists bs, ExecutedEncoder_encode m = Some bs /\
    length bs = ExecutedSize /\
    OuchResponseDispatcher_dispatch (Some bs) (Z.of_nat (length bs)) = Some (Some (R_Executed m)).
Proof.
  intros W H0. destruct (executed_roundtrip m W) as (bs & E & Hl & Hd).
  exists bs. split; [done|]. split; [done|]. rewrite H0 in Hd. cbn [Z.eqb] in Hd.
  assert (rd bs 0 = Some char_E) as Ht.
  { rewrite executed_bytes in E. by injection E as <-. }
  unfold OuchResponseDispatcher_dispatch. rewrite Ht. cbn [mbind option_bind].
  rewrite Hd. by rewrite Hl.
Qed.






(** ** Claims *)

(** C21: Every well-formed OUCH message survives the wire.  An Enter Order decodes to
    itself, but that it announces no appendage; an Accepted and an Executed without
    appendage come back from the response dispatcher as themselves, and one that
    announces an appendage is rejected by its decoder, since the encoder does not
    write it. *)
Theorem ouch_messages_round_trip :
  (forall m, eo_wf m -> exists bs, OuchEncoder_encode m = Some bs /\ length bs = EnterOrderSize /\
     decodeEnterOrder (Some bs) (Z.of_nat (length bs)) =
       Some (Some (mkEnterOrder (eo_userRefNum m) (eo_side m) (eo_quantity m) (eo_symbol m) (eo_price m)
         (eo_timeInForce m) (eo_display m) (eo_capacity m) (eo_isoEligibility m) (eo_crossType m)
         (eo_clOrdId m) 0))) /\
  (forall m, ac_wf m -> exists bs, AcceptedEncoder_encode m = Some bs /\ length bs = AcceptedSize /\
     (ac_appendageLength m = 0 ->
      OuchResponseDispatcher_dispatch (Some bs) (Z.of_nat (length bs)) = Some (Some (R_Accepted m))) /\
     (ac_appendageLength m <> 0 -> decodeAccepted (Some bs) (Z.of_nat (length bs)) = Some None)) /\
  (forall m, ex_wf m -> exists bs, ExecutedEncoder_encode m = Some bs /\ length bs = ExecutedSize /\
     (ex_appendageLength m = 0 ->
      OuchResponseDispatcher_dispatch (Some bs) (Z.of_nat (length bs)) = Some (Some (R_Executed m))) /\
     (ex_appendageLength m <> 0 -> decodeExecuted (Some bs) (Z.of_nat (length bs)) = Some None)).
Proof.
  split; [apply enter_order_roundtrip|]. split; intros m W.
  - destruct (accepted_roundtrip m W) as (bs & E & Hl & Hd). exists bs. split; [done|]. split; [done|].
    split; intros H0.
    + destruct (dispatch_accepted m W H0) as (bs' & E' & _ & Hd'). congruence.
    + by rewrite Hd, (proj2 (Z.eqb_neq _ _) H0).
  - destruct (executed_roundtrip m W) as (bs & E & Hl & Hd). exists bs. split; [done|]. split; [done|].
    split; intros H0.
    + destruct (dispatch_executed m W H0) as (bs' & E' & _ & Hd'). congruence.
    + by rewrite Hd, (proj2 (Z.eqb_neq _ _) H0).
Qed.




