(* ===== verification/Net.v ===== *)
(** * System and TLS calls

    The network code calls the operating system and OpenSSL, which are not part of
    the repository.  A [World] is any state with a function that answers a call; the
    network components are written in a state monad over a world and the log of the
    calls made so far, and their theorems hold for every world.  What the code relies
    on is the class [WorldLaws] (documented return values) and, for termination only,
    [Quiescent] (a peer does not send for ever, and signals do not interrupt for ever).

    What a peer sees is read off the log: [sent_on] and [received_on] are the bytes
    that went out of and came in on a connection. *)

From S2P Require Import Prelude Wire.

(** ** Calls and replies *)

Record epoll_event : Type := mkEpollEvent { ev_events : Z; ev_fd : Z }.

Inductive Call : Type :=
  | c_socket
  | c_setsockopt (fd : Z)
  | c_fcntl_getfl (fd : Z)
  | c_fcntl_setfl (fd flags : Z)
  | c_inet_pton (host : list Z)
  | c_connect (fd : Z) (addr : bytes) (port : Z)
  | c_bind (fd port : Z)
  | c_getsockname (fd : Z)
  | c_listen (fd : Z)
  | c_accept4 (fd : Z)
  | c_send (fd : Z) (data : bytes)
  | c_recv (fd : Z) (n : Z)
  | c_close (fd : Z)
  | c_epoll_create1
  | c_epoll_ctl_add (epfd fd events : Z)
  | c_epoll_ctl_mod (epfd fd events : Z)
  | c_epoll_ctl_del (epfd fd : Z)
  | c_epoll_wait (epfd maxevents timeout : Z)
  | c_SSL_CTX_new
  | c_SSL_CTX_set_verify_peer (ctx : Z)
  | c_SSL_CTX_load_verify_locations (ctx : Z) (path : list Z)
  | c_SSL_CTX_use_certificate_file (ctx : Z) (path : list Z)
  | c_SSL_CTX_use_PrivateKey_file (ctx : Z) (path : list Z)
  | c_SSL_CTX_check_private_key (ctx : Z)
  | c_SSL_CTX_free (ctx : Z)
  | c_SSL_new (ctx : Z)
  | c_SSL_set_fd (ssl fd : Z)
  | c_SSL_get0_param (ssl : Z)
  | c_X509_VERIFY_PARAM_set1_ip_asc (param : Z) (host : list Z)
  | c_SSL_connect (ssl : Z)
  | c_SSL_get_verify_result (ssl : Z)
  | c_SSL_set_accept_state (ssl : Z)
  | c_SSL_accept (ssl : Z)
  | c_SSL_get_error (ssl ret : Z)
  | c_SSL_write (ssl : Z) (data : bytes) (num : Z)
  | c_SSL_read (ssl num : Z)
  | c_SSL_shutdown (ssl : Z)
  | c_SSL_free (ssl : Z).

(** A returned pointer is its address, [0] for [nullptr].  [rep_data] is what the call
    wrote through its pointer argument, [rep_events] what [epoll_wait] did. *)
Record Reply : Type := mkReply {
  rep_ret : Z;
  rep_errno : Z;
  rep_data : bytes;
  rep_events : list epoll_event
}.

(** [errno], [epoll] and OpenSSL constants. *)
Definition EINTR : Z := 4.
Definition EAGAIN : Z := 11.
Definition EWOULDBLOCK : Z := 11.
Definition EPOLLIN : Z := 1.
Definition EPOLLOUT : Z := 4.
Definition EPOLLERR : Z := 8.
Definition EPOLLHUP : Z := 16.
Definition O_NONBLOCK : Z := 2048.
Definition SSL_ERROR_WANT_READ : Z := 2.
Definition SSL_ERROR_WANT_WRITE : Z := 3.
Definition SSL_ERROR_ZERO_RETURN : Z := 6.
Definition X509_V_OK : Z := 0.

Class World (W : Type) : Type := world_call : W -> Call -> Reply * W.

(** ** The monad *)

Record Env (W : Type) : Type := mkEnv { env_world : W; env_log : list (Call * Reply) }.
Arguments mkEnv {W}.
Arguments env_world {W}.
Arguments env_log {W}.

(** [None]: undefined behaviour, or a loop that did not end within its fuel. *)
Definition IO (W A : Type) : Type := Env W -> option (A * Env W).

Section io.
Context {W : Type} `{!World W}.

Definition io_ret {A} (a : A) : IO W A := fun e => Some (a, e).

Definition io_bind {A B} (m : IO W A) (f : A -> IO W B) : IO W B := fun e =>
  match m e with
  | Some (a, e') => f a e'
  | None => None
  end.

Definition io_fail {A} : IO W A := fun _ => None.

(** Makes a call and logs it. *)
Definition call (c : Call) : IO W Reply := fun e =>
  let '(r, w) := world_call (env_world e) c in Some (r, mkEnv w (env_log e ++ [(c, r)])).

End io.

Notation "'let!' x := m 'in' k" := (io_bind m (fun x => k))
  (at level 10, x pattern, k at level 200) : hft_scope.

(** ** Connections and what they carried *)

Inductive Channel : Type := Tcp (fd : Z) | Tls (ssl : Z).

#[global] Instance Channel_eq_dec : EqDecision Channel.
Proof. solve_decision. Defined.

Definition sent_by (c : Call) (r : Reply) : option (Channel * bytes) :=
  match c with
  | c_send fd data => Some (Tcp fd, take (Z.to_nat (rep_ret r)) data)
  | c_SSL_write ssl data _ => Some (Tls ssl, take (Z.to_nat (rep_ret r)) data)
  | _ => None
  end.

Definition received_by (c : Call) (r : Reply) : option (Channel * bytes) :=
  match c with
  | c_recv fd _ => Some (Tcp fd, take (Z.to_nat (rep_ret r)) (rep_data r))
  | c_SSL_read ssl _ => Some (Tls ssl, take (Z.to_nat (rep_ret r)) (rep_data r))
  | _ => None
  end.

Definition on_channel (ch : Channel) (o : option (Channel * bytes)) : bytes :=
  match o with
  | Some (ch', bs) => if bool_decide (ch = ch') then bs else []
  | None => []
  end.

Definition sent_on (ch : Channel) (log : list (Call * Reply)) : bytes :=
  mjoin ((fun e => on_channel ch (sent_by e.1 e.2)) <$> log).

Definition received_on (ch : Channel) (log : list (Call * Reply)) : bytes :=
  mjoin ((fun e => on_channel ch (received_by e.1 e.2)) <$> log).

Lemma sent_on_app ch l1 l2 : sent_on ch (l1 ++ l2) = sent_on ch l1 ++ sent_on ch l2.
Proof. unfold sent_on. by rewrite fmap_app, join_app. Qed.

Lemma received_on_app ch l1 l2 : received_on ch (l1 ++ l2) = received_on ch l1 ++ received_on ch l2.
Proof. unfold received_on. by rewrite fmap_app, join_app. Qed.

Lemma sent_on_one ch c r : sent_on ch [(c, r)] = on_channel ch (sent_by c r).
Proof. unfold sent_on. cbn. by rewrite app_nil_r. Qed.

Lemma received_on_one ch c r : received_on ch [(c, r)] = on_channel ch (received_by c r).
Proof. unfold received_on. cbn. by rewrite app_nil_r. Qed.

#[export] Hint Rewrite sent_on_app received_on_app sent_on_one received_on_one : hft.

(** ** What the code relies on *)

(** Documented results: a send or a receive moves at most as many bytes as asked or
    fails, a receive fills what it reports, and [epoll_wait] reports at most [maxevents]. *)
Class WorldLaws (W : Type) `{!World W} : Prop := {
  send_count : forall w fd data,
    -1 <= rep_ret (world_call w (c_send fd data)).1 <= Z.of_nat (length data);
  write_count : forall w ssl data num,
    - 2 ^ 31 <= rep_ret (world_call w (c_SSL_write ssl data num)).1 <= Z.max 0 num;
  recv_count : forall w fd n,
    let r := (world_call w (c_recv fd n)).1 in
    -1 <= rep_ret r <= Z.max 0 n /\ (0 < rep_ret r -> Z.of_nat (length (rep_data r)) = rep_ret r);
  read_count : forall w ssl num,
    let r := (world_call w (c_SSL_read ssl num)).1 in
    - 2 ^ 31 <= rep_ret r <= Z.max 0 num /\ (0 < rep_ret r -> Z.of_nat (length (rep_data r)) = rep_ret r);
  epoll_count : forall w epfd maxevents timeout,
    let r := (world_call w (c_epoll_wait epfd maxevents timeout)).1 in
    rep_ret r <= Z.max 0 maxevents /\ (0 <= rep_ret r -> Z.of_nat (length (rep_events r)) = rep_ret r)
}.

(** A call that the code answers by calling again at once. *)
Definition retried (c : Call) (r : Reply) : bool :=
  match c with
  | c_send _ _ => (rep_ret r <=? 0) && (rep_errno r =? EINTR)
  | c_recv _ _ => (0 <? rep_ret r) || ((rep_ret r <? 0) && (rep_errno r =? EINTR))
  | c_SSL_read _ _ => 0 <? rep_ret r
  | c_accept4 _ => (0 <=? rep_ret r) || (rep_errno r =? EINTR)
  | _ => false
  end.

(** What is left to receive, to accept and to be interrupted is finite. *)
Class Quiescent (W : Type) `{!World W} : Type := {
  patience : W -> nat;
  patience_mono : forall w c, (patience (world_call w c).2 <= patience w)%nat;
  patience_retried : forall w c,
    retried c (world_call w c).1 = true -> (patience (world_call w c).2 < patience w)%nat
}.

(** ** Runs

    [io_run m e a e' new]: [m] run from [e] returns [a] and logs [new]. *)

Definition io_run {W A} (m : IO W A) (e : Env W) (a : A) (e' : Env W) (new : list (Call * Reply))
    : Prop :=
  m e = Some (a, e') /\ env_log e' = env_log e ++ new.

Section runs.
Context {W : Type} `{!World W}.

Lemma call_step c (e : Env W) : exists r w, world_call (env_world e) c = (r, w) /\
  call c e = Some (r, mkEnv w (env_log e ++ [(c, r)])).
Proof. unfold call. destruct (world_call _ _) as [r w]. by exists r, w. Qed.

Lemma io_bind_call {B} c (f : Reply -> IO W B) e :
  io_bind (call c) f e =
    f (world_call (env_world e) c).1
      (mkEnv (world_call (env_world e) c).2 (env_log e ++ [(c, (world_call (env_world e) c).1)])).
Proof. unfold io_bind, call. by destruct (world_call _ _). Qed.

Lemma io_bind_Some {A B} (m : IO W A) (f : A -> IO W B) e b e' :
  io_bind m f e = Some (b, e') -> exists a e1, m e = Some (a, e1) /\ f a e1 = Some (b, e').
Proof. unfold io_bind. destruct (m e) as [[a e1]|]; [|done]. eauto. Qed.

Lemma io_bind_eq {A B} (m : IO W A) (f : A -> IO W B) e a e1 :
  m e = Some (a, e1) -> io_bind m f e = f a e1.
Proof. unfold io_bind. by intros ->. Qed.

End runs.

Arguments world_call : simpl never.

(** ** Handles

    File descriptors, TLS contexts and TLS sessions that a log acquires and has not
    released. *)

Inductive Handle : Type := H_fd (fd : Z) | H_ctx (ctx : Z) | H_ssl (ssl : Z).

#[global] Instance Handle_eq_dec : EqDecision Handle.
Proof. solve_decision. Defined.

Definition acquired (c : Call) (r : Reply) : option Handle :=
  match c with
  | c_socket | c_accept4 _ | c_epoll_create1 => if 0 <=? rep_ret r then Some (H_fd (rep_ret r)) else None
  | c_SSL_CTX_new => if rep_ret r =? 0 then None else Some (H_ctx (rep_ret r))
  | c_SSL_new _ => if rep_ret r =? 0 then None else Some (H_ssl (rep_ret r))
  | _ => None
  end.

Definition released (c : Call) : option Handle :=
  match c with
  | c_close fd => Some (H_fd fd)
  | c_SSL_CTX_free ctx => Some (H_ctx ctx)
  | c_SSL_free ssl => Some (H_ssl ssl)
  | _ => None
  end.

Definition held_step (hs : list Handle) (e : Call * Reply) : list Handle :=
  let hs := match released e.1 with Some h => filter (fun h' => h' <> h) hs | None => hs end in
  match acquired e.1 e.2 with Some h => hs ++ [h] | None => hs end.

Definition held_from (hs : list Handle) (log : list (Call * Reply)) : list Handle :=
  foldl held_step hs log.

Lemma held_from_app hs l1 l2 : held_from hs (l1 ++ l2) = held_from (held_from hs l1) l2.
Proof. apply foldl_app. Qed.

(** ** A small world

    A peer that has queued [toy_in], a network that moves at most ten bytes per call
    and [toy_intr] signals to come.  It shows that the laws can hold; every other
    call succeeds with the value [1] (a connect, with [0]). *)

Record ToyWorld : Type := mkToyWorld { toy_in : bytes; toy_intr : nat }.

Definition toy_reply (n : Z) : Reply := mkReply n 0 [] [].

Definition toy_read (w : ToyWorld) (n : Z) : Reply * ToyWorld :=
  let k := Nat.min 10 (Nat.min (Z.to_nat n) (length (toy_in w))) in
  if (k =? 0)%nat then (mkReply (-1) EAGAIN [] [], w)
  else (mkReply (Z.of_nat k) 0 (take k (toy_in w)) [], mkToyWorld (drop k (toy_in w)) (toy_intr w)).

Definition toy_interrupt (w : ToyWorld) (k : Reply * ToyWorld) : Reply * ToyWorld :=
  match toy_intr w with
  | O => k
  | S i => (mkReply (-1) EINTR [] [], mkToyWorld (toy_in w) i)
  end.

#[export] Instance toy_world : World ToyWorld := fun w c =>
  match c with
  | c_send _ data => toy_interrupt w (toy_reply (Z.of_nat (Nat.min 10 (length data))), w)
  | c_recv _ n => toy_interrupt w (toy_read w n)
  | c_SSL_write _ data num => (toy_reply (Z.max (-1) (Z.min 10 num)), w)
  | c_SSL_read _ num => toy_read w num
  | c_accept4 _ => (mkReply (-1) EAGAIN [] [], w)
  | c_epoll_wait _ maxevents _ =>
      (if 0 <? maxevents then mkReply 1 0 [] [mkEpollEvent EPOLLIN 1] else mkReply (-1) 0 [] [], w)
  | c_SSL_get_error _ _ => (toy_reply SSL_ERROR_WANT_READ, w)
  | c_connect _ _ _ | c_bind _ _ | c_getsockname _ | c_listen _ | c_SSL_get_verify_result _
  | c_epoll_ctl_add _ _ _ | c_epoll_ctl_mod _ _ _ | c_epoll_ctl_del _ _ | c_fcntl_setfl _ _ =>
      (toy_reply 0, w)
  | _ => (toy_reply 1, w)
  end.

Lemma toy_read_count w n :
  let r := (toy_read w n).1 in
  -1 <= rep_ret r <= Z.max 0 n /\ (0 < rep_ret r -> Z.of_nat (length (rep_data r)) = rep_ret r).
Proof.
  unfold toy_read. destruct (Nat.eqb_spec (Nat.min 10 (Nat.min (Z.to_nat n) (length (toy_in w)))) 0);
    cbn [fst rep_ret rep_data]; [split; lia|]. rewrite length_take. lia.
Qed.

#[export] Instance toy_laws : WorldLaws ToyWorld.
Proof.
  split.
  - intros w fd data. unfold world_call, toy_world, toy_interrupt.
    destruct (toy_intr w); cbn [fst rep_ret toy_reply]; lia.
  - intros w ssl data num. unfold world_call, toy_world, toy_reply. cbn [fst rep_ret]. lia.
  - intros w fd n. unfold world_call, toy_world, toy_interrupt.
    destruct (toy_intr w); [apply toy_read_count|]. cbn [fst rep_ret]. lia.
  - intros w ssl num. destruct (toy_read_count w num) as [Hr Hd]. split; [|exact Hd].
    change (world_call w (c_SSL_read ssl num)) with (toy_read w num). lia.
  - intros w epfd maxevents timeout. unfold world_call, toy_world.
    destruct (Z.ltb_spec 0 maxevents); cbn [fst rep_ret rep_events length]; lia.
Qed.

Definition toy_patience (w : ToyWorld) : nat := (toy_intr w + length (toy_in w))%nat.

Lemma toy_read_patience w n :
  (toy_patience (toy_read w n).2 <= toy_patience w)%nat /\
  (0 < rep_ret (toy_read w n).1 -> (toy_patience (toy_read w n).2 < toy_patience w)%nat).
Proof.
  unfold toy_read, toy_patience.
  destruct (Nat.eqb_spec (Nat.min 10 (Nat.min (Z.to_nat n) (length (toy_in w)))) 0);
    cbn [fst snd rep_ret toy_in toy_intr]; [lia|]. rewrite length_drop. lia.
Qed.

Lemma toy_interrupt_patience w k :
  (toy_patience k.2 <= toy_patience w)%nat ->
  (toy_patience (toy_interrupt w k).2 <= toy_patience w)%nat /\
  (toy_intr w <> 0 -> toy_patience (toy_interrupt w k).2 < toy_patience w)%nat.
Proof.
  intros Hk. unfold toy_interrupt, toy_patience in *. destruct (toy_intr w); cbn [snd toy_in toy_intr]; lia.
Qed.

#[export] Instance toy_quiescent : Quiescent ToyWorld.
Proof.
  refine {| patience := toy_patience |}.
  - intros w c. unfold world_call, toy_world.
    destruct c; try done; try (by apply toy_interrupt_patience); try apply toy_read_patience.
    apply toy_interrupt_patience, toy_read_patience.
  - intros w c. unfold world_call, toy_world.
    destruct c as [| | | | | | | | | |fd data|fd n| | | | | | | | | | | | | | | | | | | | | | | |ssl num| |];
      try done; cbn [retried fst].
    + intros H. apply toy_interrupt_patience; [done|]. intros E. unfold toy_interrupt in H. rewrite E in H.
      cbn in H. bprop. lia.
    + intros H. destruct (toy_intr w) eqn:E.
      * unfold toy_interrupt in *. rewrite E in *. apply toy_read_patience.
        apply orb_prop in H as [H|H]; bprop; [done|]. unfold toy_read in *.
        destruct (_ =? _)%nat; cbn in *; unfold EAGAIN, EINTR in *; lia.
      * apply toy_interrupt_patience; [apply toy_read_patience|]. by rewrite E.
    + intros H. bprop. by apply toy_read_patience.
Defined.

(** ** Computations that do not use up more than they have

    No computation increases the patience of the world; the loops' fuel is measured
    against what is left of it. *)

Section patience.
Context {W : Type} `{!World W, !Quiescent W}.

Definition mono {A} (m : IO W A) : Prop := forall e a e',
  m e = Some (a, e') -> (patience (env_world e') <= patience (env_world e))%nat.

Lemma mono_ret {A} (a : A) : mono (io_ret a).
Proof. intros e a' e' [= <- <-]. done. Qed.

Lemma mono_fail {A} : mono (io_fail (A := A)).
Proof. by intros e a e'. Qed.

Lemma mono_call c : mono (call c).
Proof.
  intros e a e'. unfold call. pose proof (patience_mono (env_world e) c) as Hm.
  destruct (world_call _ _). by intros [= <- <-].
Qed.

Lemma mono_bind {A B} (m : IO W A) (f : A -> IO W B) : mono m -> (forall a, mono (f a)) -> mono (io_bind m f).
Proof.
  intros Hm Hf e b e' (a & e1 & E1 & E2)%io_bind_Some. apply Hm in E1. apply Hf in E2. lia.
Qed.

Lemma mono_if {A} (b : bool) (m1 m2 : IO W A) : mono m1 -> mono m2 -> mono (if b then m1 else m2).
Proof. by destruct b. Qed.

End patience.

#[export] Hint Resolve mono_ret mono_fail mono_call mono_bind mono_if : hft.
#[export] Hint Extern 5 (mono (match ?x with _ => _ end)) => destruct x : hft.

(** ** What a world may deliver

    The answers to a sequence of calls, and the bytes that such a sequence can receive on a
    connection: what a peer has put there, as far as it arrives. *)

Section traces.
Context {W : Type} `{!World W}.

Fixpoint perform (w : W) (cs : list Call) : list (Call * Reply) :=
  match cs with
  | [] => []
  | c :: cs => (c, (world_call w c).1) :: perform (world_call w c).2 cs
  end.

Fixpoint world_after (w : W) (cs : list Call) : W :=
  match cs with
  | [] => w
  | c :: cs => world_after (world_call w c).2 cs
  end.

Definition may_receive (w : W) (ch : Channel) (data : bytes) : Prop :=
  exists cs, data = received_on ch (perform w cs).

Lemma perform_app w cs1 cs2 : perform w (cs1 ++ cs2) = perform w cs1 ++ perform (world_after w cs1) cs2.
Proof. revert w. induction cs1 as [|c cs1 IH]; intros w; [done|]. cbn. by rewrite IH. Qed.

Lemma world_after_app w cs1 cs2 : world_after w (cs1 ++ cs2) = world_after (world_after w cs1) cs2.
Proof. revert w. induction cs1 as [|c cs1 IH]; intros w; [done|]. cbn. by rewrite IH. Qed.

(** A computation reaches the world through calls only. *)
Definition by_calls {A} (m : IO W A) : Prop := forall e a e', m e = Some (a, e') ->
  exists cs, env_log e' = env_log e ++ perform (env_world e) cs /\ env_world e' = world_after (env_world e) cs.

Lemma by_calls_ret {A} (a : A) : by_calls (io_ret a).
Proof. intros e a' e' [= <- <-]. exists []. cbn. by rewrite app_nil_r. Qed.

Lemma by_calls_fail {A} : by_calls (io_fail (A := A)).
Proof. by intros e a e'. Qed.

Lemma by_calls_call c : by_calls (call c).
Proof.
  intros e r e'. unfold call. destruct (world_call (env_world e) c) as [r0 w] eqn:E. intros [= <- <-].
  exists [c]. cbn. by rewrite E.
Qed.

Lemma by_calls_bind {A B} (m : IO W A) (f : A -> IO W B) :
  by_calls m -> (forall a, by_calls (f a)) -> by_calls (io_bind m f).
Proof.
  intros Hm Hf e b e' (a & e1 & E1 & E2)%io_bind_Some.
  destruct (Hm _ _ _ E1) as (cs1 & L1 & W1). destruct (Hf _ _ _ _ E2) as (cs2 & L2 & W2).
  exists (cs1 ++ cs2). rewrite perform_app, world_after_app, L2, L1, W2, W1. by rewrite app_assoc.
Qed.

Lemma by_calls_if {A} (b : bool) (m1 m2 : IO W A) : by_calls m1 -> by_calls m2 -> by_calls (if b then m1 else m2).
Proof. by destruct b. Qed.

(** What a run has received, the world may deliver. *)
Lemma by_calls_receives {A} (m : IO W A) e a e' new ch :
  by_calls m -> m e = Some (a, e') -> env_log e' = env_log e ++ new ->
  may_receive (env_world e) ch (received_on ch new).
Proof.
  intros Hm E Hl. destruct (Hm _ _ _ E) as (cs & Hl' & _). rewrite Hl in Hl'. apply app_inv_head in Hl' as ->.
  by exists cs.
Qed.

End traces.

#[export] Hint Resolve by_calls_ret by_calls_fail by_calls_call by_calls_bind by_calls_if : hft.
#[export] Hint Extern 5 (by_calls (match ?x with _ => _ end)) => destruct x : hft.

(** The small world, with a peer on one connection only: what it may deliver there is the
    peer's queue, in order. *)
Record PeerWorld : Type := mkPeerWorld { pw_channel : Channel; pw_toy : ToyWorld }.

Definition elsewhere (ch : Channel) (c : Call) : bool :=
  match c with
  | c_recv fd _ => negb (bool_decide (ch = Tcp fd))
  | c_SSL_read ssl _ => negb (bool_decide (ch = Tls ssl))
  | _ => false
  end.

#[export] Instance peer_world : World PeerWorld := fun w c =>
  if elsewhere (pw_channel w) c then (mkReply (-1) EAGAIN [] [], w)
  else ((toy_world (pw_toy w) c).1, mkPeerWorld (pw_channel w) (toy_world (pw_toy w) c).2).

#[export] Instance peer_laws : WorldLaws PeerWorld.
Proof.
  split.
  - intros w. apply (send_count (pw_toy w)).
  - intros w. apply (write_count (pw_toy w)).
  - intros w fd n. unfold world_call, peer_world.
    destruct (elsewhere (pw_channel w) (c_recv fd n)); [cbn; lia|apply (recv_count (pw_toy w))].
  - intros w ssl n. unfold world_call, peer_world.
    destruct (elsewhere (pw_channel w) (c_SSL_read ssl n)); [cbn; lia|apply (read_count (pw_toy w))].
  - intros w. apply (epoll_count (pw_toy w)).
Qed.

#[export] Instance peer_quiescent : Quiescent PeerWorld.
Proof.
  refine {| patience := fun w => toy_patience (pw_toy w) |}; intros w c; unfold world_call, peer_world;
    destruct (elsewhere (pw_channel w) c) eqn:E; cbn [fst snd pw_toy].
  - done.
  - exact (patience_mono (pw_toy w) c).
  - by destruct c.
  - exact (patience_retried (pw_toy w) c).
Defined.

Lemma toy_read_queue w n :
  take (Z.to_nat (rep_ret (toy_read w n).1)) (rep_data (toy_read w n).1) ++ toy_in (toy_read w n).2 = toy_in w.
Proof.
  unfold toy_read. destruct (_ =? 0)%nat; cbn [fst snd rep_ret rep_data toy_in]; [by rewrite take_nil|].
  rewrite Nat2Z.id, take_take, Nat.min_id. apply take_drop.
Qed.

Lemma peer_step (w : PeerWorld) c :
  pw_channel (world_call w c).2 = pw_channel w /\
  on_channel (pw_channel w) (received_by c (world_call w c).1) ++ toy_in (pw_toy (world_call w c).2) =
    toy_in (pw_toy w).
Proof.
  unfold world_call, peer_world. destruct (elsewhere (pw_channel w) c) eqn:E.
  - split; [done|]. destruct c; try done; cbn in E |- *; by destruct (bool_decide _).
  - split; [done|]. destruct c; try done; cbn [pw_toy snd fst toy_world received_by on_channel].
    + by destruct (toy_intr (pw_toy w)) eqn:Ei; unfold toy_interrupt; rewrite Ei.
    + cbn in E. destruct (bool_decide _); [|done]. unfold toy_interrupt.
      destruct (toy_intr (pw_toy w)); [apply toy_read_queue|by cbn; rewrite take_nil].
    + cbn in E. destruct (bool_decide _); [apply toy_read_queue|done].
Qed.

Lemma peer_delivers cs : forall (w : PeerWorld), received_on (pw_channel w) (perform w cs) `prefix_of` toy_in (pw_toy w).
Proof.
  induction cs as [|c cs IH]; intros w; [apply prefix_nil|].
  destruct (peer_step w c) as [Ech Eq]. specialize (IH (world_call w c).2). rewrite Ech in IH.
  cbn [perform]. change (?x :: ?l) with ([x] ++ l). rewrite received_on_app, received_on_one, <- Eq.
  by apply prefix_app.
Qed.
