(* ===== verification/NetLogic.v ===== *)
(** * Reasoning about the network code

    Two tools for the computations of [Net].  [wp m e Q]: the computation [m] returns
    from [e], with a result and an environment that satisfy [Q]; it is total, so undefined
    behaviour and a loop that runs out of fuel are excluded.  [owned hs e]: the handles
    acquired and not released so far are [hs], without duplicates and open in the world.

    [HandleLaws] is what the code relies on for its handles: the system does not hand out
    a descriptor or a session that is still open, and [epoll_wait] reports, once each,
    descriptors that were added to it and not closed. *)

From S2P Require Import Prelude Wire Net.

(** ** Total correctness *)

Definition wp {W A} (m : IO W A) (e : Env W) (Q : A -> Env W -> Prop) : Prop :=
  exists a e', m e = Some (a, e') /\ Q a e'.

(** [called c r e e']: the call [c] was made in [e], answered with [r]. *)
Definition called {W} `{!World W} (c : Call) (r : Reply) (e e' : Env W) : Prop :=
  world_call (env_world e) c = (r, env_world e') /\ env_log e' = env_log e ++ [(c, r)].

Section wp.
Context {W : Type} `{!World W}.

Lemma wp_ret {A} (a : A) (e : Env W) (Q : A -> Env W -> Prop) : Q a e -> wp (io_ret a) e Q.
Proof. intros HQ. by exists a, e. Qed.

Lemma wp_bind {A B} (m : IO W A) (f : A -> IO W B) (e : Env W) Q :
  wp m e (fun a e' => wp (f a) e' Q) -> wp (io_bind m f) e Q.
Proof. intros (a & e1 & E1 & b & e2 & E2 & HQ). exists b, e2. by rewrite (io_bind_eq _ _ _ _ _ E1). Qed.

Lemma wp_call c (e : Env W) Q : (forall r e', called c r e e' -> Q r e') -> wp (call c) e Q.
Proof.
  intros HQ. destruct (call_step c e) as (r & w & Ew & Ec). eexists _, _. split; [exact Ec|].
  apply HQ. by split.
Qed.

Lemma wp_call_then {B} c (f : Reply -> IO W B) (e : Env W) Q :
  (forall r e', called c r e e' -> wp (f r) e' Q) -> wp (io_bind (call c) f) e Q.
Proof. intros Hf. by apply wp_bind, wp_call. Qed.

Lemma wp_mono {A} (m : IO W A) (e : Env W) (Q Q' : A -> Env W -> Prop) :
  wp m e Q -> (forall a e', Q a e' -> Q' a e') -> wp m e Q'.
Proof. intros (a & e' & E & HQ) Hm. exists a, e'. auto. Qed.

(** What is known of a run may be used for its result. *)
Lemma wp_also {A} (m : IO W A) (e : Env W) (Q Q' : A -> Env W -> Prop) :
  wp m e Q -> (forall a e', m e = Some (a, e') -> Q a e' -> Q' a e') -> wp m e Q'.
Proof. intros (a & e' & E & HQ) HR. exists a, e'. auto. Qed.

Lemma wp_total {A} (m : IO W A) (e : Env W) (Q : A -> Env W -> Prop) :
  is_Some (m e) -> (forall a e', m e = Some (a, e') -> Q a e') -> wp m e Q.
Proof. intros [[a e'] E] HQ. exists a, e'. auto. Qed.

End wp.

(** ** Handles and watched descriptors *)

Class HandleLaws (W : Type) `{!World W} : Type := {
  open_handle : W -> Handle -> Prop;
  open_fresh : forall w c h, acquired c (world_call w c).1 = Some h -> ~ open_handle w h;
  open_after : forall w c h, acquired c (world_call w c).1 = Some h -> open_handle (world_call w c).2 h;
  open_kept : forall w c h, open_handle w h -> released c <> Some h -> open_handle (world_call w c).2 h;
  watched : W -> Z -> Z -> Prop;
  watched_new : forall w fd,
    let '(r, w') := world_call w c_epoll_create1 in 0 <= rep_ret r -> ~ watched w' (rep_ret r) fd;
  watched_step : forall w c epfd fd,
    let '(r, w') := world_call w c in
    watched w' epfd fd -> watched w epfd fd /\ c <> c_close fd \/
      exists events, c = c_epoll_ctl_add epfd fd events /\ 0 <= rep_ret r;
  watched_events : forall w epfd maxevents timeout,
    let r := (world_call w (c_epoll_wait epfd maxevents timeout)).1 in
    NoDup (ev_fd <$> rep_events r) /\ Forall (fun ev => watched w epfd (ev_fd ev)) (rep_events r)
}.

(** Calls that neither open nor close a handle nor add a descriptor to an epoll. *)
Definition ordinary (c : Call) : bool :=
  match c with
  | c_socket | c_accept4 _ | c_epoll_create1 | c_SSL_CTX_new | c_SSL_new _ | c_close _
  | c_SSL_CTX_free _ | c_SSL_free _ | c_epoll_ctl_add _ _ _ => false
  | _ => true
  end.

Section handles.
Context {W : Type} `{!World W, !Quiescent W, !HandleLaws W}.
Implicit Types e : Env W.

Record owned (hs : list Handle) (e : Env W) : Prop := {
  ow_held : held_from [] (env_log e) ≡ₚ hs;
  ow_nodup : NoDup hs;
  ow_open : Forall (open_handle (env_world e)) hs
}.

(** Everything watched on [epfd] satisfies [P]. *)
Definition watching (epfd : Z) (P : Z -> Prop) (e : Env W) : Prop :=
  forall fd, watched (env_world e) epfd fd -> P fd.

(** [e'] comes after [e]: it has no more patience, holds the same handles, they are still
    open, and nothing more is watched. *)
Record calm (e e' : Env W) : Prop := {
  calm_patience : (patience (env_world e') <= patience (env_world e))%nat;
  calm_held : held_from [] (env_log e') = held_from [] (env_log e);
  calm_open : forall h, open_handle (env_world e) h -> open_handle (env_world e') h;
  calm_watched : forall epfd fd, watched (env_world e') epfd fd -> watched (env_world e) epfd fd
}.

Lemma calm_refl e : calm e e.
Proof. by split. Qed.

Lemma calm_trans e1 e2 e3 : calm e1 e2 -> calm e2 e3 -> calm e1 e3.
Proof. intros [] []. split; [lia|congruence|auto|auto]. Qed.

Lemma called_patience c r e e' : called c r e e' -> (patience (env_world e') <= patience (env_world e))%nat.
Proof. intros [E _]. pose proof (patience_mono (env_world e) c) as Hm. by rewrite E in Hm. Qed.

Lemma called_retried c r e e' : called c r e e' -> retried c r = true ->
  (patience (env_world e') < patience (env_world e))%nat.
Proof. intros [E _]. pose proof (patience_retried (env_world e) c) as Hm. by rewrite E in Hm. Qed.

Lemma called_held c r e e' : called c r e e' ->
  held_from [] (env_log e') = held_step (held_from [] (env_log e)) (c, r).
Proof. intros [_ ->]. by rewrite held_from_app. Qed.

Lemma called_watched c r e e' epfd fd : called c r e e' -> watched (env_world e') epfd fd ->
  watched (env_world e) epfd fd /\ c <> c_close fd \/
  exists events, c = c_epoll_ctl_add epfd fd events /\ 0 <= rep_ret r.
Proof. intros [E _]. pose proof (watched_step (env_world e) c epfd fd) as Hw. by rewrite E in Hw. Qed.

Lemma called_open c r e e' h : called c r e e' -> released c <> Some h ->
  open_handle (env_world e) h -> open_handle (env_world e') h.
Proof. intros [E _] Hr Ho. pose proof (open_kept (env_world e) c h Ho Hr) as Hk. by rewrite E in Hk. Qed.

Lemma ordinary_handles c r : ordinary c = true -> acquired c r = None /\ released c = None.
Proof. by destruct c. Qed.

Lemma called_calm c r e e' : called c r e e' -> ordinary c = true -> calm e e'.
Proof.
  intros Hc Ho. destruct (ordinary_handles c r Ho) as [Ha Hr]. split.
  - by eapply called_patience.
  - rewrite (called_held _ _ _ _ Hc). unfold held_step. cbn. by rewrite Ha, Hr.
  - intros h. eapply called_open; [done|congruence].
  - intros epfd fd Hw. destruct (called_watched _ _ _ _ _ _ Hc Hw) as [[? _]|(ev & -> & _)]; [done|].
    discriminate Ho.
Qed.

(** A refused [epoll_ctl_add] changes nothing either. *)
Lemma called_add_failed epfd fd events r e e' :
  called (c_epoll_ctl_add epfd fd events) r e e' -> rep_ret r < 0 -> calm e e'.
Proof.
  intros Hc Hneg. split.
  - by eapply called_patience.
  - by rewrite (called_held _ _ _ _ Hc).
  - intros h. by eapply called_open.
  - intros ep fd' Hw. destruct (called_watched _ _ _ _ _ _ Hc Hw) as [[? _]|(ev & _ & ?)]; [done|lia].
Qed.

Lemma owned_calm hs e e' : owned hs e -> calm e e' -> owned hs e'.
Proof.
  intros [Hh Hn Ho] [_ Hh' Ho' _]. split; [by rewrite Hh'|done|]. by eapply Forall_impl.
Qed.

Lemma owned_perm hs hs' e : owned hs e -> hs ≡ₚ hs' -> owned hs' e.
Proof. intros [Hh Hn Ho] Hp. split; [by rewrite Hh|by rewrite <- Hp|by rewrite <- Hp]. Qed.

Lemma watching_mono epfd (P Q : Z -> Prop) e : watching epfd P e -> (forall fd, P fd -> Q fd) -> watching epfd Q e.
Proof. intros Hw HPQ fd Hf. by apply HPQ, Hw. Qed.

Lemma filter_not_in (h : Handle) (hs : list Handle) : h ∉ hs -> filter (fun h' => h' <> h) hs = hs.
Proof.
  induction hs as [|x hs IH]; [done|]. intros [Hne Hni]%not_elem_of_cons.
  rewrite filter_cons_True by congruence. by rewrite IH.
Qed.

(** A call that opens a handle. *)
Lemma owned_acquire hs h c r e e' : owned hs e -> called c r e e' -> acquired c r = Some h ->
  owned (h :: hs) e'.
Proof.
  intros [Hh Hn Ho] Hc Ha.
  assert (released c = None) as Hr by (by destruct c).
  pose proof (open_fresh (env_world e) c h) as Hf. pose proof (open_after (env_world e) c h) as Hafter.
  pose proof (proj1 Hc) as E. rewrite E in Hf, Hafter. specialize (Hf Ha). specialize (Hafter Ha). split.
  - rewrite (called_held _ _ _ _ Hc). unfold held_step. cbn. rewrite Hr, Ha, Hh. solve_Permutation.
  - constructor; [|done]. intros Hin. apply Hf. by eapply Forall_forall in Ho.
  - constructor; [done|]. eapply Forall_impl; [exact Ho|]. intros h'. eapply called_open; [done|congruence].
Qed.

(** A call that tried to open a handle and failed. *)
Lemma owned_no_acquire hs c r e e' : owned hs e -> called c r e e' -> acquired c r = None ->
  released c = None -> owned hs e'.
Proof.
  intros [Hh Hn Ho] Hc Ha Hr. split; [|done|].
  - rewrite (called_held _ _ _ _ Hc). unfold held_step. cbn. by rewrite Hr, Ha.
  - eapply Forall_impl; [exact Ho|]. intros h'. eapply called_open; [done|congruence].
Qed.

Lemma owned_release hs h c r e e' : owned (h :: hs) e -> called c r e e' -> released c = Some h ->
  owned hs e'.
Proof.
  intros [Hh Hn Ho] Hc Hr. assert (acquired c r = None) as Ha by (by destruct c).
  apply NoDup_cons in Hn as [Hni Hn]. apply Forall_cons in Ho as [_ Ho]. split; [|done|].
  - rewrite (called_held _ _ _ _ Hc). unfold held_step. cbn. rewrite Hr, Ha, Hh.
    rewrite filter_cons_False by auto. by rewrite filter_not_in.
  - apply Forall_forall. intros h' Hin. eapply called_open; [done|rewrite Hr; intros [= ->]; done|].
    by eapply Forall_forall in Ho.
Qed.

(** Closing a descriptor removes it from what is watched, adding it adds only it, and
    a new epoll watches nothing. *)
Lemma watching_close epfd P fd r e e' : watching epfd P e -> called (c_close fd) r e e' ->
  watching epfd (fun fd' => P fd' /\ fd' <> fd) e'.
Proof.
  intros Hw Hc fd' Hf. destruct (called_watched _ _ _ _ _ _ Hc Hf) as [[? Hne]|(ev & [=] & _)].
  split; [by apply Hw|congruence].
Qed.

Lemma watching_add epfd P fd events r e e' : watching epfd P e ->
  called (c_epoll_ctl_add epfd fd events) r e e' -> watching epfd (fun fd' => P fd' \/ fd' = fd) e'.
Proof.
  intros Hw Hc fd' Hf. destruct (called_watched _ _ _ _ _ _ Hc Hf) as [[? _]|(ev & [= ->] & _)]; [|by right].
  left. by apply Hw.
Qed.

Lemma watching_new r e e' : called c_epoll_create1 r e e' -> 0 <= rep_ret r ->
  watching (rep_ret r) (fun _ => False) e'.
Proof.
  intros [E _] Hr fd Hf. pose proof (watched_new (env_world e) fd) as Hn. rewrite E in Hn. by apply Hn.
Qed.

(** [e'] comes after [e] with no more patience and nothing more watched. *)
Definition after e e' : Prop :=
  (patience (env_world e') <= patience (env_world e))%nat /\
  forall epfd fd, watched (env_world e') epfd fd -> watched (env_world e) epfd fd.

Lemma after_refl e : after e e.
Proof. by split. Qed.

Lemma after_trans e1 e2 e3 : after e1 e2 -> after e2 e3 -> after e1 e3.
Proof. intros [] []. split; [lia|auto]. Qed.

Lemma calm_after e e' : calm e e' -> after e e'.
Proof. intros []. by split. Qed.

Definition is_add (c : Call) : bool := match c with c_epoll_ctl_add _ _ _ => true | _ => false end.

Lemma called_after c r e e' : called c r e e' -> is_add c = false -> after e e'.
Proof.
  intros Hc Ha. split; [by eapply called_patience|]. intros epfd fd Hw.
  by destruct (called_watched _ _ _ _ _ _ Hc Hw) as [[? _]|(ev & -> & _)].
Qed.

Lemma watching_after epfd P e e' : watching epfd P e -> after e e' -> watching epfd P e'.
Proof. intros Hw [_ Hs] fd Hf. by apply Hw, Hs. Qed.

(** The next call, from what is owned and after what was [e0]. *)
Lemma wp_ordinary {B} e0 hs c (f : Reply -> IO W B) e Q :
  owned hs e -> after e0 e -> ordinary c = true ->
  (forall r e', owned hs e' -> after e0 e' -> wp (f r) e' Q) -> wp (io_bind (call c) f) e Q.
Proof.
  intros Ho Ha Hc Hf. apply wp_call_then. intros r e' Hr. pose proof (called_calm _ _ _ _ Hr Hc) as Hcalm.
  apply Hf; [by eapply owned_calm|]. by eapply after_trans, calm_after.
Qed.

Lemma wp_acquire {B} e0 hs c (f : Reply -> IO W B) e Q :
  owned hs e -> after e0 e -> released c = None -> is_add c = false ->
  (forall r e', owned (match acquired c r with Some h => h :: hs | None => hs end) e' -> after e0 e' ->
     called c r e e' -> wp (f r) e' Q) -> wp (io_bind (call c) f) e Q.
Proof.
  intros Ho Ha Hc Hadd Hf. apply wp_call_then. intros r e' Hr. apply Hf; [| |done].
  - destruct (acquired c r) eqn:E; [by eapply owned_acquire|by eapply owned_no_acquire].
  - by eapply after_trans, called_after.
Qed.

Lemma wp_release {B} e0 hs h c (f : Reply -> IO W B) e Q :
  owned (h :: hs) e -> after e0 e -> released c = Some h ->
  (forall r e', owned hs e' -> after e0 e' -> called c r e e' -> wp (f r) e' Q) -> wp (io_bind (call c) f) e Q.
Proof.
  intros Ho Ha Hc Hf. apply wp_call_then. intros r e' Hr. apply Hf; [by eapply owned_release| |done].
  eapply after_trans, called_after; [done..|]. by destruct c.
Qed.

(** Computations of ordinary calls only. *)
Definition calm_io {A} (m : IO W A) : Prop := forall e a e', m e = Some (a, e') -> calm e e'.

Lemma calm_io_ret {A} (a : A) : calm_io (io_ret a).
Proof. intros e a' e' [= <- <-]. apply calm_refl. Qed.

Lemma calm_io_fail {A} : calm_io (io_fail (A := A)).
Proof. by intros e a e'. Qed.

Lemma calm_io_call c : ordinary c = true -> calm_io (call c).
Proof.
  intros Ho e r e'. unfold call. destruct (world_call _ _) as [r0 w] eqn:E. intros [= <- <-].
  eapply (called_calm c); [|done]. by split.
Qed.

Lemma calm_io_bind {A B} (m : IO W A) (f : A -> IO W B) :
  calm_io m -> (forall a, calm_io (f a)) -> calm_io (io_bind m f).
Proof.
  intros Hm Hf e b e' (a & e1 & E1 & E2)%io_bind_Some.
  eapply calm_trans; [by eapply Hm|by eapply Hf].
Qed.

Lemma calm_io_if {A} (b : bool) (m1 m2 : IO W A) : calm_io m1 -> calm_io m2 -> calm_io (if b then m1 else m2).
Proof. by destruct b. Qed.

End handles.

#[export] Hint Resolve calm_refl calm_trans : hft.
#[export] Hint Resolve calm_io_ret calm_io_fail calm_io_bind calm_io_if : hft.
#[export] Hint Extern 2 (calm_io (call _)) => apply calm_io_call; reflexivity : hft.
#[export] Hint Extern 5 (calm_io (match ?x with _ => _ end)) => destruct x : hft.

(** ** A world that counts its handles

    Handles are numbered, [fw_clients] peers are still to connect and send nothing, and
    [epoll_wait] reports every watched descriptor as readable.  It satisfies the laws. *)

Record FdWorld : Type := mkFdWorld { fw_next : Z; fw_clients : nat; fw_watched : list (Z * Z) }.

Definition fw_handle (w : FdWorld) (clients : nat) : Reply * FdWorld :=
  (toy_reply (fw_next w), mkFdWorld (fw_next w + 1) clients (fw_watched w)).

Definition fw_ready (w : FdWorld) (epfd : Z) : list epoll_event :=
  mkEpollEvent EPOLLIN <$> remove_dups (snd <$> filter (fun x => x.1 = epfd) (fw_watched w)).

#[export] Instance fd_world : World FdWorld := fun w c =>
  match c with
  | c_socket | c_SSL_CTX_new | c_SSL_new _ => fw_handle w (fw_clients w)
  | c_epoll_create1 =>
      (toy_reply (fw_next w),
       mkFdWorld (fw_next w + 1) (fw_clients w) (filter (fun x => x.1 <> fw_next w) (fw_watched w)))
  | c_accept4 _ =>
      match fw_clients w with
      | O => (mkReply (-1) EAGAIN [] [], w)
      | S clients => fw_handle w clients
      end
  | c_epoll_ctl_add epfd fd _ =>
      (toy_reply 0, mkFdWorld (fw_next w) (fw_clients w) ((epfd, fd) :: fw_watched w))
  | c_close fd =>
      (toy_reply 0, mkFdWorld (fw_next w) (fw_clients w) (filter (fun x => x.2 <> fd) (fw_watched w)))
  | c_epoll_wait epfd maxevents _ =>
      let events := take (Z.to_nat maxevents) (fw_ready w epfd) in
      (mkReply (Z.of_nat (length events)) 0 [] events, w)
  | c_send _ data => (toy_reply (Z.of_nat (length data)), w)
  | c_SSL_write _ _ num => (toy_reply (Z.max (-1) (Z.min 10 num)), w)
  | c_recv _ _ | c_SSL_read _ _ => (mkReply (-1) EAGAIN [] [], w)
  | c_SSL_get_error _ _ => (toy_reply SSL_ERROR_WANT_READ, w)
  | c_connect _ _ _ | c_bind _ _ | c_getsockname _ | c_listen _ | c_SSL_get_verify_result _
  | c_epoll_ctl_mod _ _ _ | c_epoll_ctl_del _ _ | c_fcntl_setfl _ _ => (toy_reply 0, w)
  | _ => (toy_reply 1, w)
  end.

#[export] Instance fd_laws : WorldLaws FdWorld.
Proof.
  split; intros; try set (r := (world_call _ _).1) in *; unfold world_call, fd_world, toy_reply in *;
    try subst r; cbn [fst rep_ret rep_data rep_events]; try lia.
  split; [|lia]. rewrite length_take. lia.
Qed.

#[export] Instance fd_quiescent : Quiescent FdWorld.
Proof.
  refine {| patience := fw_clients |}; intros w c; unfold world_call, fd_world; destruct c; try done.
  - destruct (fw_clients w) eqn:E; cbn; [by rewrite E|lia].
  - destruct (fw_clients w) eqn:E; cbn; [done|lia].
  - cbn. intros H. by apply andb_prop in H as [_ H].
Defined.

#[export] Instance fd_handles : HandleLaws FdWorld.
Proof.
  refine {| open_handle := fun w h => match h with H_fd z | H_ctx z | H_ssl z => z < fw_next w end;
            watched := fun w epfd fd => (epfd, fd) ∈ fw_watched w |}.
  - intros w c h Ha Ho. unfold world_call, fd_world in Ha. destruct c; try done; cbn in Ha;
      try destruct (fw_clients w); cbn in Ha; repeat case_match; try done; simplify_eq; lia.
  - intros w c h Ha. unfold world_call, fd_world in *. destruct c; try done; cbn in *;
      try destruct (fw_clients w); cbn in *; repeat case_match; try done; simplify_eq; lia.
  - intros w c h Ho _. unfold world_call, fd_world. destruct c; cbn; try done;
      try destruct (fw_clients w); cbn; destruct h; lia.
  - intros w fd. unfold world_call, fd_world. cbn. intros _ [Hne _]%list_elem_of_filter. by destruct Hne.
  - intros w c epfd fd. unfold world_call, fd_world. destruct c; cbn; try (intros ?; by left).
    + destruct (fw_clients w); cbn; intros ?; by left.
    + intros [Hne Hin]%list_elem_of_filter. left. split; [done|]. intros [= ->]. by destruct Hne.
    + intros [_ Hin]%list_elem_of_filter. by left.
    + intros [[= -> ->]|Hin]%elem_of_cons; [right|by left]. by eexists.
  - intros w epfd maxevents timeout. unfold world_call, fd_world. cbn.
    unfold fw_ready. set (fds := remove_dups _). assert (NoDup fds) as Hn by apply NoDup_remove_dups.
    assert (forall n, ev_fd <$> take n (mkEpollEvent EPOLLIN <$> fds) = take n fds) as Et.
    { intros n. rewrite <- fmap_take, <- list_fmap_compose. apply list_fmap_id. }
    rewrite Et. split; [by apply (sublist_NoDup _ fds), sublist_take|].
    apply Forall_take, Forall_fmap, Forall_forall. intros fd Hin. cbn.
    unfold fds in Hin. rewrite elem_of_remove_dups in Hin.
    apply list_elem_of_fmap in Hin as ([ep fd'] & -> & [Hep Hin]%list_elem_of_filter). cbn in *. by subst.
Defined.
