(* ===== verification/Transport.v ===== *)
(** * The OUCH transports and the OUCH execution sink

    [execution/ouch/ouch_transport.hpp], [tcp_ouch_transport.{hpp,cpp}],
    [tls_ouch_transport.{hpp,cpp}], [ouch_execution_sink.{hpp,cpp}] and the recording
    transport of [apps/trading_runtime.cpp].

    A pointer with a length is the list of the bytes it spans, [None] for
    [nullptr].  The loops that send and receive take fuel; they end with fuel above
    the message length plus the world's patience. *)

From S2P Require Import Prelude Types Wire Ouch Net Risk Gateway.

Section transports.
Context {W : Type} `{!World W}.

(** ** [TcpOuchTransport] *)

Record TcpOuchTransport : Type := mkTcpOuchTransport {
  tcp_host : list Z;
  tcp_port : Z;
  tcp_socketFd : Z
}.

Definition TcpOuchTransport_new (host : list Z) (port : Z) : TcpOuchTransport :=
  mkTcpOuchTransport host port (-1).

Definition TcpOuchTransport_isConnected (t : TcpOuchTransport) : bool := 0 <=? tcp_socketFd t.

Definition TcpOuchTransport_close (t : TcpOuchTransport) : IO W TcpOuchTransport :=
  if 0 <=? tcp_socketFd t
  then let! _ := call (c_close (tcp_socketFd t)) in
       io_ret (mkTcpOuchTransport (tcp_host t) (tcp_port t) (-1))
  else io_ret t.

Definition TcpOuchTransport_connect (t : TcpOuchTransport) : IO W (bool * TcpOuchTransport) :=
  if TcpOuchTransport_isConnected t then io_ret (true, t)
  else
    let! fd := call c_socket in
    let t := mkTcpOuchTransport (tcp_host t) (tcp_port t) (rep_ret fd) in
    if tcp_socketFd t <? 0 then io_ret (false, t)
    else
      let! result := call (c_inet_pton (tcp_host t)) in
      if negb (rep_ret result =? 1) then let! t := TcpOuchTransport_close t in io_ret (false, t)
      else
        let! connected := call (c_connect (tcp_socketFd t) (rep_data result) (tcp_port t)) in
        if rep_ret connected <? 0 then let! t := TcpOuchTransport_close t in io_ret (false, t)
        else io_ret (true, t).

Fixpoint tcp_send_loop (fuel : nat) (fd : Z) (data : bytes) (totalSent : nat) : IO W bool :=
  if (totalSent <? length data)%nat then
    match fuel with
    | O => io_fail
    | S fuel =>
        let! sent := call (c_send fd (drop totalSent data)) in
        if 0 <? rep_ret sent then tcp_send_loop fuel fd data (totalSent + Z.to_nat (rep_ret sent))
        else if (rep_ret sent <? 0) && (rep_errno sent =? EINTR)
        then tcp_send_loop fuel fd data totalSent
        else io_ret false
    end
  else io_ret true.

Definition TcpOuchTransport_send (fuel : nat) (t : TcpOuchTransport) (data : option bytes)
    : IO W bool :=
  match data with
  | Some data =>
      if negb (TcpOuchTransport_isConnected t) then io_ret false
      else tcp_send_loop fuel (tcp_socketFd t) data 0
  | None => io_ret false
  end.

(** [buffer] is the memory the received bytes are written to. *)
Fixpoint tcp_receive_loop (fuel : nat) (fd : Z) (buffer : bytes) (totalReceived : nat)
    : IO W (bool * bytes) :=
  if (totalReceived <? length buffer)%nat then
    match fuel with
    | O => io_fail
    | S fuel =>
        let! received := call (c_recv fd (Z.of_nat (length buffer - totalReceived))) in
        if 0 <? rep_ret received then
          match wr buffer totalReceived (rep_data received) with
          | Some buffer =>
              tcp_receive_loop fuel fd buffer (totalReceived + Z.to_nat (rep_ret received))
          | None => io_fail
          end
        else if (rep_ret received <? 0) && (rep_errno received =? EINTR)
        then tcp_receive_loop fuel fd buffer totalReceived
        else io_ret (false, buffer)
    end
  else io_ret (true, buffer).

Definition TcpOuchTransport_receive (fuel : nat) (t : TcpOuchTransport) (buffer : option bytes)
    : IO W (bool * bytes) :=
  match buffer with
  | Some buffer =>
      if negb (TcpOuchTransport_isConnected t) then io_ret (false, buffer)
      else tcp_receive_loop fuel (tcp_socketFd t) buffer 0
  | None => io_ret (false, [])
  end.

(** ** [TlsOuchTransport] *)

Record TlsOuchTransport : Type := mkTlsOuchTransport {
  tls_host : list Z;
  tls_port : Z;
  tls_caCertificatePath : list Z;
  tls_socketFd : Z;
  tls_sslContext : Z;
  tls_ssl : Z
}.

Definition TlsOuchTransport_new (host : list Z) (port : Z) (ca : list Z) : TlsOuchTransport :=
  mkTlsOuchTransport host port ca (-1) 0 0.

Definition tls_set_handles (t : TlsOuchTransport) (fd ctx ssl : Z) : TlsOuchTransport :=
  mkTlsOuchTransport (tls_host t) (tls_port t) (tls_caCertificatePath t) fd ctx ssl.

Definition TlsOuchTransport_isConnected (t : TlsOuchTransport) : bool :=
  (0 <=? tls_socketFd t) && negb (tls_ssl t =? 0).

Definition TlsOuchTransport_close (t : TlsOuchTransport) : IO W TlsOuchTransport :=
  let! t :=
    (if negb (tls_ssl t =? 0)
     then let! _ := call (c_SSL_shutdown (tls_ssl t)) in
          let! _ := call (c_SSL_free (tls_ssl t)) in
          io_ret (tls_set_handles t (tls_socketFd t) (tls_sslContext t) 0)
     else io_ret t) in
  let! t :=
    (if 0 <=? tls_socketFd t
     then let! _ := call (c_close (tls_socketFd t)) in
          io_ret (tls_set_handles t (-1) (tls_sslContext t) (tls_ssl t))
     else io_ret t) in
  if negb (tls_sslContext t =? 0)
  then let! _ := call (c_SSL_CTX_free (tls_sslContext t)) in
       io_ret (tls_set_handles t (tls_socketFd t) 0 (tls_ssl t))
  else io_ret t.

(** [close(); return false;] *)
Definition tls_give_up (t : TlsOuchTransport) : IO W (bool * TlsOuchTransport) :=
  let! t := TlsOuchTransport_close t in io_ret (false, t).

(** From [SSL_new] on: the TLS session over the connected socket. *)
Definition tls_connect_session (t : TlsOuchTransport) : IO W (bool * TlsOuchTransport) :=
  let! ssl := call (c_SSL_new (tls_sslContext t)) in
  let t := tls_set_handles t (tls_socketFd t) (tls_sslContext t) (rep_ret ssl) in
  if tls_ssl t =? 0 then tls_give_up t
  else
    let! set_fd := call (c_SSL_set_fd (tls_ssl t) (tls_socketFd t)) in
    if negb (rep_ret set_fd =? 1) then tls_give_up t
    else
      let! param := call (c_SSL_get0_param (tls_ssl t)) in
      if rep_ret param =? 0 then tls_give_up t
      else
        let! ip := call (c_X509_VERIFY_PARAM_set1_ip_asc (rep_ret param) (tls_host t)) in
        if negb (rep_ret ip =? 1) then tls_give_up t
        else
          let! handshake := call (c_SSL_connect (tls_ssl t)) in
          if negb (rep_ret handshake =? 1) then tls_give_up t
          else
            let! verified := call (c_SSL_get_verify_result (tls_ssl t)) in
            if negb (rep_ret verified =? X509_V_OK) then tls_give_up t
            else io_ret (true, t).

Definition TlsOuchTransport_connect (t : TlsOuchTransport) : IO W (bool * TlsOuchTransport) :=
  if TlsOuchTransport_isConnected t then io_ret (true, t)
  else
    let! ctx := call c_SSL_CTX_new in
    let t := tls_set_handles t (tls_socketFd t) (rep_ret ctx) (tls_ssl t) in
    if tls_sslContext t =? 0 then io_ret (false, t)
    else
      let! _ := call (c_SSL_CTX_set_verify_peer (tls_sslContext t)) in
      let! loaded := call (c_SSL_CTX_load_verify_locations (tls_sslContext t)
                             (tls_caCertificatePath t)) in
      if negb (rep_ret loaded =? 1) then tls_give_up t
      else
        let! fd := call c_socket in
        let t := tls_set_handles t (rep_ret fd) (tls_sslContext t) (tls_ssl t) in
        if tls_socketFd t <? 0 then tls_give_up t
        else
          let! address := call (c_inet_pton (tls_host t)) in
          if negb (rep_ret address =? 1) then tls_give_up t
          else
            let! connected := call (c_connect (tls_socketFd t) (rep_data address) (tls_port t)) in
            if rep_ret connected <? 0 then tls_give_up t
            else tls_connect_session t.

Fixpoint tls_send_loop (fuel : nat) (ssl : Z) (data : bytes) (totalSent : nat) : IO W bool :=
  if (totalSent <? length data)%nat then
    match fuel with
    | O => io_fail
    | S fuel =>
        let! sent := call (c_SSL_write ssl (drop totalSent data)
                             (i32 (Z.of_nat (length data - totalSent)))) in
        if rep_ret sent <=? 0 then io_ret false
        else tls_send_loop fuel ssl data (totalSent + Z.to_nat (rep_ret sent))
    end
  else io_ret true.

Definition TlsOuchTransport_send (fuel : nat) (t : TlsOuchTransport) (data : option bytes)
    : IO W bool :=
  match data with
  | Some data =>
      if negb (TlsOuchTransport_isConnected t) then io_ret false
      else tls_send_loop fuel (tls_ssl t) data 0
  | None => io_ret false
  end.

Fixpoint tls_receive_loop (fuel : nat) (ssl : Z) (buffer : bytes) (totalReceived : nat)
    : IO W (bool * bytes) :=
  if (totalReceived <? length buffer)%nat then
    match fuel with
    | O => io_fail
    | S fuel =>
        let! received := call (c_SSL_read ssl (i32 (Z.of_nat (length buffer - totalReceived)))) in
        if rep_ret received <=? 0 then io_ret (false, buffer)
        else
          match wr buffer totalReceived (rep_data received) with
          | Some buffer =>
              tls_receive_loop fuel ssl buffer (totalReceived + Z.to_nat (rep_ret received))
          | None => io_fail
          end
    end
  else io_ret (true, buffer).

Definition TlsOuchTransport_receive (fuel : nat) (t : TlsOuchTransport) (buffer : option bytes)
    : IO W (bool * bytes) :=
  match buffer with
  | Some buffer =>
      if negb (TlsOuchTransport_isConnected t) then io_ret (false, buffer)
      else tls_receive_loop fuel (tls_ssl t) buffer 0
  | None => io_ret (false, [])
  end.

End transports.

(** ** What the loops do *)

(** [sends ch data total b e e']: a run from [e] to [e'] that put the next bytes of
    [data] after the first [total] on [ch], all of them exactly when [b]. *)
Definition sends {W} (ch : Channel) (data : bytes) (total : nat) (b : bool) (e e' : Env W) : Prop :=
  exists new n, env_log e' = env_log e ++ new /\ (total + n <= length data)%nat /\
    sent_on ch new = take n (drop total data) /\ (forall ch', ch' <> ch -> sent_on ch' new = []) /\
    b = bool_decide (total + n = length data)%nat.

(** [receives ch total buffer b buffer' e e']: the same for a receive, which filled
    [buffer] from [total] on. *)
Definition receives {W} (ch : Channel) (buffer : bytes) (total : nat) (b : bool) (buffer' : bytes)
    (e e' : Env W) : Prop :=
  exists new got, env_log e' = env_log e ++ new /\ received_on ch new = got /\
    (total + length got <= length buffer)%nat /\
    buffer' = take total buffer ++ got ++ drop (total + length got) buffer /\
    b = bool_decide (total + length got = length buffer)%nat.

Section loops.
Context {W : Type} `{!World W}.

Lemma sends_none ch data total b (e : Env W) :
  (total <= length data)%nat -> b = bool_decide (total = length data)%nat -> sends ch data total b e e.
Proof.
  intros Hl Hb. exists [], 0%nat. rewrite app_nil_r, Nat.add_0_r, take_0. by repeat split.
Qed.

(** One call that sent [k] bytes, then the rest. *)
Lemma sends_step ch data total k b (e e2 : Env W) w c r :
  sent_by c r = Some (ch, take k (drop total data)) ->
  (total + k <= length data)%nat -> 
  sends ch data (total + k) b (mkEnv w (env_log e ++ [(c, r)])) e2 -> sends ch data total b e e2.
Proof.
  intros Hs Hk (new & n & Hlog & Hn & Hon & Hoff & Hb).
  exists ((c, r) :: new), (k + n)%nat. rewrite Hlog. cbn [env_log]. rewrite <- app_assoc. split; [done|].
  split; [lia|]. change ((c, r) :: new) with ([(c, r)] ++ new).
  split; [|split].
  - autorewrite with hft. rewrite Hs, Hon. cbn. rewrite bool_decide_true by done.
    rewrite <- drop_drop. rewrite <- (take_drop k (drop total data)) at 3.
    rewrite take_app. rewrite length_take, length_drop, Nat.min_l by lia. f_equal; [|f_equal; lia].
    symmetry. rewrite take_ge; [done|]. rewrite length_take. lia.
  - intros ch' Hne. autorewrite with hft. rewrite Hs, Hoff by done. cbn.
    by rewrite bool_decide_false.
  - rewrite Hb. apply bool_decide_ext. lia.
Qed.

Lemma sends_idle ch data total b (e e2 : Env W) w c r :
  (sent_by c r = None \/ rep_ret r <= 0) -> sends ch data total b (mkEnv w (env_log e ++ [(c, r)])) e2 ->
  sends ch data total b e e2.
Proof.
  intros Hs (new & n & Hlog & Hn & Hon & Hoff & Hb).
  assert (forall ch', on_channel ch' (sent_by c r) = []) as Hnil.
  { intros ch'. destruct Hs as [->|Hs]; [done|].
    destruct c; try done; cbn [sent_by on_channel];
      (replace (Z.to_nat (rep_ret r)) with 0%nat by lia); rewrite take_0; by destruct (bool_decide (ch' = _)). }
  exists ((c, r) :: new), n. rewrite Hlog. cbn [env_log]. rewrite <- app_assoc. split; [done|]. split; [done|].
  change ((c, r) :: new) with ([(c, r)] ++ new).
  split; [|split; [|done]]; [|intros ch' Hne]; autorewrite with hft; rewrite Hnil; [done|by apply Hoff].
Qed.

Lemma tcp_send_loop_spec `{!WorldLaws W} fuel fd data : forall total (e e' : Env W) b,
  (total <= length data)%nat -> tcp_send_loop fuel fd data total e = Some (b, e') ->
  sends (Tcp fd) data total b e e'.
Proof.
  induction fuel as [|fuel IH]; intros total e e' b Hl; cbn [tcp_send_loop];
    destruct (Nat.ltb_spec total (length data)) as [Hlt|Hge]; try done.
  { intros [= <- <-]. apply sends_none; [done|]. symmetry. apply bool_decide_true. lia. }
  2:{ intros [= <- <-]. apply sends_none; [done|]. symmetry. apply bool_decide_true. lia. }
  rewrite io_bind_call. pose proof (send_count (env_world e) fd (drop total data)) as Hc.
  destruct (world_call _ _) as [r w]. cbn in *. rewrite length_drop in Hc.
  destruct (Z.ltb_spec 0 (rep_ret r)) as [Hp|Hp].
  { intros E. apply IH in E; [|lia]. eapply sends_step; [| |exact E]; [done|lia]. }
  destruct (_ && _).
  - intros E. apply IH in E; [|lia]. exact (sends_idle _ _ _ _ _ _ _ _ _ (or_intror Hp) E).
  - intros [= <- <-]. refine (sends_idle _ _ _ _ _ _ _ _ _ (or_intror Hp) _). apply sends_none; [done|].
    symmetry. apply bool_decide_false. lia.
Qed.

Lemma tcp_send_loop_total `{!WorldLaws W, !Quiescent W} fuel fd data : forall total (e : Env W),
  (total <= length data)%nat -> (length data - total + patience (env_world e) <= fuel)%nat ->
  is_Some (tcp_send_loop fuel fd data total e).
Proof.
  induction fuel as [|fuel IH]; intros total e Hl Hf; cbn [tcp_send_loop];
    destruct (Nat.ltb_spec total (length data)) as [Hlt|Hge]; [lia|by eexists| |by eexists].
  rewrite io_bind_call. pose proof (send_count (env_world e) fd (drop total data)) as Hc.
  pose proof (patience_mono (env_world e) (c_send fd (drop total data))) as Hm.
  pose proof (patience_retried (env_world e) (c_send fd (drop total data))) as Hr.
  destruct (world_call _ _) as [r w]. cbn in *. rewrite length_drop in Hc.
  destruct (Z.ltb_spec 0 (rep_ret r)) as [Hp|Hp]; [apply IH; cbn; lia|].
  destruct (Z.eqb_spec (rep_errno r) EINTR) as [Ee|Ee]; [|rewrite andb_false_r; by eexists].
  rewrite (proj2 (Z.leb_le _ _) Hp) in Hr. specialize (Hr eq_refl).
  destruct (_ && _); [|by eexists]. apply IH; [done|]. cbn. lia.
Qed.

Lemma i32_le z : 0 <= z -> i32 z <= z.
Proof.
  intros Hz. unfold sint. pose proof (Z.mod_le (z + 2 ^ (32 - 1)) (2 ^ 32)). lia.
Qed.

Lemma tls_send_loop_spec `{!WorldLaws W} fuel ssl data : forall total (e e' : Env W) b,
  (total <= length data)%nat -> tls_send_loop fuel ssl data total e = Some (b, e') ->
  sends (Tls ssl) data total b e e'.
Proof.
  induction fuel as [|fuel IH]; intros total e e' b Hl; cbn [tls_send_loop];
    destruct (Nat.ltb_spec total (length data)) as [Hlt|Hge]; try done.
  { intros [= <- <-]. apply sends_none; [done|]. symmetry. apply bool_decide_true. lia. }
  2:{ intros [= <- <-]. apply sends_none; [done|]. symmetry. apply bool_decide_true. lia. }
  rewrite io_bind_call.
  pose proof (write_count (env_world e) ssl (drop total data)
                (i32 (Z.of_nat (length data - total)))) as Hc.
  pose proof (i32_le (Z.of_nat (length data - total)) ltac:(lia)) as Hi.
  destruct (world_call _ _) as [r w]. cbn in *.
  destruct (Z.leb_spec (rep_ret r) 0) as [Hp|Hp].
  - intros [= <- <-]. refine (sends_idle _ _ _ _ _ _ _ _ _ (or_intror Hp) _). apply sends_none; [done|].
    symmetry. apply bool_decide_false. lia.
  - intros E. apply IH in E; [|lia]. eapply sends_step; [| |exact E]; [done|lia].
Qed.

Lemma tls_send_loop_total fuel ssl data : forall total (e : Env W),
  (length data - total <= fuel)%nat -> is_Some (tls_send_loop fuel ssl data total e).
Proof.
  induction fuel as [|fuel IH]; intros total e Hf; cbn [tls_send_loop];
    destruct (Nat.ltb_spec total (length data)) as [Hlt|Hge]; [lia|by eexists| |by eexists].
  rewrite io_bind_call. destruct (world_call _ _) as [r w]. cbn.
  destruct (Z.leb_spec (rep_ret r) 0) as [Hp|Hp]; [by eexists|]. apply IH. lia.
Qed.


(** ** Receiving *)

Lemma receives_none ch buffer total b (e : Env W) :
  (total <= length buffer)%nat -> b = bool_decide (total = length buffer)%nat ->
  receives ch buffer total b buffer e e.
Proof.
  intros Hl Hb. exists [], []. cbn. rewrite app_nil_r, Nat.add_0_r, take_drop. by repeat split.
Qed.

Lemma receives_idle ch buffer total b buffer' (e e2 : Env W) w c r :
  (received_by c r = None \/ rep_ret r <= 0) ->
  receives ch buffer total b buffer' (mkEnv w (env_log e ++ [(c, r)])) e2 ->
  receives ch buffer total b buffer' e e2.
Proof.
  intros Hs (new & got & Hlog & Hgot & Hrest).
  exists ((c, r) :: new), got. rewrite Hlog. cbn [env_log]. rewrite <- app_assoc. split; [done|].
  split; [|done]. change ((c, r) :: new) with ([(c, r)] ++ new). autorewrite with hft. rewrite Hgot.
  destruct Hs as [->|Hs]; [done|].
  destruct c; try done; cbn [received_by on_channel];
    (replace (Z.to_nat (rep_ret r)) with 0%nat by lia); rewrite take_0;
    by destruct (bool_decide (ch = _)).
Qed.

(** One call that received [data], then the rest. *)
Lemma receives_step ch buffer total b buffer1 buffer' (e e2 : Env W) w c r :
  received_by c r = Some (ch, rep_data r) -> wr buffer total (rep_data r) = Some buffer1 ->
  receives ch buffer1 (total + length (rep_data r)) b buffer' (mkEnv w (env_log e ++ [(c, r)])) e2 ->
  receives ch buffer total b buffer' e e2.
Proof.
  intros Hs Hw (new & got & Hlog & Hgot & Hle & -> & ->). unfold wr in Hw.
  case_bool_decide as Hfit; [|done]. injection Hw as <-.
  exists ((c, r) :: new), (rep_data r ++ got). rewrite Hlog. cbn [env_log]. rewrite <- app_assoc.
  split; [done|]. split.
  { change ((c, r) :: new) with ([(c, r)] ++ new). autorewrite with hft. rewrite Hgot, Hs. cbn.
    by rewrite bool_decide_true. }
  assert (length (take total buffer) = total) as Ht by (rewrite length_take; lia).
  rewrite !length_app, Ht, length_drop in *. split; [lia|]. split; [|apply bool_decide_ext; lia].
  rewrite (take_app_add' _ _ _ (length (rep_data r))) by done. rewrite take_app_length.
  rewrite <- app_assoc. f_equal. rewrite <- app_assoc. f_equal. f_equal.
  replace (total + length (rep_data r) + length got)%nat with
    (total + (length (rep_data r) + length got))%nat by lia.
  rewrite <- (drop_drop (take total buffer ++ _)), drop_app_length', <- drop_drop, drop_app_length by done.
  by rewrite drop_drop, Nat.add_assoc.
Qed.

Lemma tcp_receive_loop_spec `{!WorldLaws W} fuel fd : forall buffer total (e e' : Env W) b buffer',
  (total <= length buffer)%nat -> tcp_receive_loop fuel fd buffer total e = Some ((b, buffer'), e') ->
  receives (Tcp fd) buffer total b buffer' e e'.
Proof.
  induction fuel as [|fuel IH]; intros buffer total e e' b buffer' Hl; cbn [tcp_receive_loop];
    destruct (Nat.ltb_spec total (length buffer)) as [Hlt|Hge]; try done.
  { intros [= <- <- <-]. apply receives_none; [done|]. symmetry. apply bool_decide_true. lia. }
  2:{ intros [= <- <- <-]. apply receives_none; [done|]. symmetry. apply bool_decide_true. lia. }
  rewrite io_bind_call. pose proof (recv_count (env_world e) fd (Z.of_nat (length buffer - total))) as Hc.
  destruct (world_call _ _) as [r w]. cbn in *. destruct Hc as [Hc Hd].
  destruct (Z.ltb_spec 0 (rep_ret r)) as [Hp|Hp].
  { specialize (Hd Hp). destruct (wr _ _ _) as [buffer1|] eqn:Ew; [|done]. intros E.
    assert (Z.to_nat (rep_ret r) = length (rep_data r)) as Er by lia. rewrite Er in E.
    apply IH in E.
    - eapply receives_step; [|exact Ew|exact E]. cbn. rewrite Er, take_ge by done. done.
    - unfold wr in Ew. case_bool_decide; [|done]. injection Ew as <-.
      rewrite !length_app, length_take, length_drop. lia. }
  destruct (_ && _).
  - intros E. apply IH in E; [|lia]. exact (receives_idle _ _ _ _ _ _ _ _ _ _ (or_intror Hp) E).
  - intros [= <- <- <-]. refine (receives_idle _ _ _ _ _ _ _ _ _ _ (or_intror Hp) _).
    apply receives_none; [done|]. symmetry. apply bool_decide_false. lia.
Qed.

Lemma tcp_receive_loop_total `{!WorldLaws W, !Quiescent W} fuel fd : forall buffer total (e : Env W),
  (total <= length buffer)%nat -> (patience (env_world e) < fuel)%nat ->
  is_Some (tcp_receive_loop fuel fd buffer total e).
Proof.
  induction fuel as [|fuel IH]; intros buffer total e Hl Hf; [lia|]. cbn [tcp_receive_loop].
  destruct (Nat.ltb_spec total (length buffer)) as [Hlt|Hge]; [|by eexists].
  rewrite io_bind_call. pose proof (recv_count (env_world e) fd (Z.of_nat (length buffer - total))) as Hc.
  pose proof (patience_retried (env_world e) (c_recv fd (Z.of_nat (length buffer - total)))) as Hr.
  destruct (world_call _ _) as [r w]. cbn in *. destruct Hc as [Hc Hd].
  destruct (Z.ltb_spec 0 (rep_ret r)) as [Hp|Hp]; cbn [orb] in Hr.
  - specialize (Hd Hp). specialize (Hr eq_refl).
    assert (total + length (rep_data r) <= length buffer)%nat as Hfit by lia.
    unfold wr. rewrite bool_decide_true by done. apply IH; [|cbn; lia].
    rewrite !length_app, length_take, length_drop. lia.
  - destruct (_ && _); [|by eexists]. apply IH; [done|]. specialize (Hr eq_refl). cbn. lia.
Qed.

Lemma tls_receive_loop_spec `{!WorldLaws W} fuel ssl : forall buffer total (e e' : Env W) b buffer',
  (total <= length buffer)%nat -> tls_receive_loop fuel ssl buffer total e = Some ((b, buffer'), e') ->
  receives (Tls ssl) buffer total b buffer' e e'.
Proof.
  induction fuel as [|fuel IH]; intros buffer total e e' b buffer' Hl; cbn [tls_receive_loop];
    destruct (Nat.ltb_spec total (length buffer)) as [Hlt|Hge]; try done.
  { intros [= <- <- <-]. apply receives_none; [done|]. symmetry. apply bool_decide_true. lia. }
  2:{ intros [= <- <- <-]. apply receives_none; [done|]. symmetry. apply bool_decide_true. lia. }
  rewrite io_bind_call.
  pose proof (read_count (env_world e) ssl (i32 (Z.of_nat (length buffer - total)))) as Hc.
  pose proof (i32_le (Z.of_nat (length buffer - total)) ltac:(lia)) as Hi.
  destruct (world_call _ _) as [r w]. cbn in *. destruct Hc as [Hc Hd].
  destruct (Z.leb_spec (rep_ret r) 0) as [Hp|Hp].
  - intros [= <- <- <-]. refine (receives_idle _ _ _ _ _ _ _ _ _ _ (or_intror Hp) _).
    apply receives_none; [done|]. symmetry. apply bool_decide_false. lia.
  - specialize (Hd Hp). destruct (wr _ _ _) as [buffer1|] eqn:Ew; [|done]. intros E.
    assert (Z.to_nat (rep_ret r) = length (rep_data r)) as Er by lia. rewrite Er in E.
    apply IH in E.
    + eapply receives_step; [|exact Ew|exact E]. cbn. rewrite Er, take_ge by done. done.
    + unfold wr in Ew. case_bool_decide; [|done]. injection Ew as <-.
      rewrite !length_app, length_take, length_drop. lia.
Qed.

Lemma tls_receive_loop_total `{!WorldLaws W} fuel ssl : forall buffer total (e : Env W),
  (total <= length buffer)%nat -> (length buffer - total <= fuel)%nat ->
  is_Some (tls_receive_loop fuel ssl buffer total e).
Proof.
  induction fuel as [|fuel IH]; intros buffer total e Hl Hf; cbn [tls_receive_loop];
    destruct (Nat.ltb_spec total (length buffer)) as [Hlt|Hge]; [lia|by eexists| |by eexists].
  rewrite io_bind_call.
  pose proof (read_count (env_world e) ssl (i32 (Z.of_nat (length buffer - total)))) as Hc.
  pose proof (i32_le (Z.of_nat (length buffer - total)) ltac:(lia)) as Hi.
  destruct (world_call _ _) as [r w]. cbn in *. destruct Hc as [Hc Hd].
  destruct (Z.leb_spec (rep_ret r) 0) as [Hp|Hp]; [by eexists|]. specialize (Hd Hp).
  unfold wr. rewrite bool_decide_true by lia.
  apply IH; rewrite !length_app, length_take, length_drop; lia.
Qed.


End loops.

(** ** Connecting *)

Definition tls_handles (t : TlsOuchTransport) : list Handle :=
  (if negb (tls_sslContext t =? 0) then [H_ctx (tls_sslContext t)] else []) ++
  (if 0 <=? tls_socketFd t then [H_fd (tls_socketFd t)] else []) ++
  (if negb (tls_ssl t =? 0) then [H_ssl (tls_ssl t)] else []).

Definition tls_idle (t : TlsOuchTransport) : Prop :=
  tls_socketFd t < 0 /\ tls_sslContext t = 0 /\ tls_ssl t = 0.

(** The calls of a successful connect, and the answers that are checked: the peer must
    verify against the CA file and the host's address, before and after the handshake. *)
Definition verified_connect (t : TlsOuchTransport) (log : list (Call * Reply)) : Prop :=
  exists ctx fd ssl param address,
    log.*1 = [c_SSL_CTX_new; c_SSL_CTX_set_verify_peer ctx;
              c_SSL_CTX_load_verify_locations ctx (tls_caCertificatePath t); c_socket;
              c_inet_pton (tls_host t); c_connect fd address (tls_port t); c_SSL_new ctx;
              c_SSL_set_fd ssl fd; c_SSL_get0_param ssl;
              c_X509_VERIFY_PARAM_set1_ip_asc param (tls_host t); c_SSL_connect ssl;
              c_SSL_get_verify_result ssl] /\
    (rep_ret ∘ snd <$> log) !! 2%nat = Some 1 /\ (rep_ret ∘ snd <$> log) !! 7%nat = Some 1 /\
    (rep_ret ∘ snd <$> log) !! 9%nat = Some 1 /\ (rep_ret ∘ snd <$> log) !! 10%nat = Some 1 /\
    (rep_ret ∘ snd <$> log) !! 11%nat = Some X509_V_OK /\
    (exists r, rep_data r = address /\ log !! 4%nat = Some (c_inet_pton (tls_host t), r) /\ rep_ret r = 1).

(** What a connect ends with. *)
Definition connect_post {W} (t : TlsOuchTransport) (b : bool) (t' : TlsOuchTransport) (e e' : Env W)
    : Prop :=
  exists new, env_log e' = env_log e ++ new /\ held_from [] new = tls_handles t' /\
    if b then TlsOuchTransport_isConnected t' = true /\ verified_connect t new else tls_idle t'.

Section connecting.
Context {W : Type} `{!World W}.

Lemma filter_all_out {A} `{!EqDecision A} (x : A) : filter (fun y => y <> x) [x] = [].
Proof. rewrite filter_cons_False; [done|]. by intros []. Qed.

(** Giving up releases whatever is held. *)
Lemma tls_give_up_spec t (e : Env W) : exists t' e' new,
  tls_give_up t e = Some ((false, t'), e') /\ env_log e' = env_log e ++ new /\ tls_idle t' /\
  held_from (tls_handles t) new = [].
Proof.
  destruct t as [host port ca fd ctx ssl].
  unfold tls_give_up, TlsOuchTransport_close, tls_handles, tls_idle, io_bind, io_ret, call. cbn.
  destruct (Z.eqb_spec ssl 0) as [->|Es]; cbn; repeat (destruct (world_call _ _); cbn);
  destruct (Z.leb_spec 0 fd) as [Ef|Ef]; cbn; repeat (destruct (world_call _ _); cbn);
  destruct (Z.eqb_spec ctx 0) as [->|Ec]; cbn; repeat (destruct (world_call _ _); cbn);
  rewrite <- ?app_assoc; cbn [app];
  (eexists _, _, _; split; [reflexivity|]; cbn [env_log]; split;
     [first [reflexivity | symmetry; apply app_nil_r]|]; cbn; split; [lia|]);
  unfold held_from, held_step; cbn; repeat (case_decide; cbn); naive_solver.
Qed.

(** A failing connect from a transport whose handles are those of the log so far. *)
Lemma connect_post_give_up t t1 (e e1 : Env W) new :
  env_log e1 = env_log e ++ new -> held_from [] new = tls_handles t1 ->
  exists b t' e', tls_give_up t1 e1 = Some ((b, t'), e') /\ connect_post t b t' e e'.
Proof.
  intros Hlog Hh. destruct (tls_give_up_spec t1 e1) as (t' & e' & rel & E & Hlog' & Hi & Hr).
  exists false, t', e'. split; [done|]. exists (new ++ rel). rewrite Hlog', Hlog, app_assoc.
  split; [done|]. split; [|done]. rewrite held_from_app, Hh, Hr. unfold tls_handles.
  destruct Hi as (Hf & -> & ->). by rewrite (proj2 (Z.leb_gt _ _) Hf).
Qed.

Ltac held_compute :=
  unfold held_from, held_step, tls_handles; cbn;
  repeat match goal with
  | H : ?x <> 0 |- context [?x =? 0] => rewrite (proj2 (Z.eqb_neq x 0) H); cbn
  | H : 0 <= ?x |- context [0 <=? ?x] => rewrite (proj2 (Z.leb_le 0 x) H); cbn
  | H : ?x < 0 |- context [0 <=? ?x] => rewrite (proj2 (Z.leb_gt 0 x) H); cbn
  end; try reflexivity.

Ltac connect_gives_up :=
  eapply connect_post_give_up; [cbn; rewrite <- !app_assoc; reflexivity|held_compute].

Lemma tls_connect_spec t (e : Env W) : tls_idle t ->
  exists b t' e', TlsOuchTransport_connect t e = Some ((b, t'), e') /\ connect_post t b t' e e'.
Proof.
  destruct t as [host port ca fd0 ctx0 ssl0]. intros (Hf0 & Hc0 & Hs0). cbn in *. subst ctx0 ssl0.
  unfold TlsOuchTransport_connect, TlsOuchTransport_isConnected, tls_connect_session, tls_set_handles.
  cbn. rewrite andb_false_r, io_bind_call. destruct (world_call _ _) as [[ctx ? ? ?] w1]. cbn.
  destruct (Z.eqb_spec ctx 0) as [->|Hctx].
  { eexists _, _, _. split; [reflexivity|]. eexists. split; [reflexivity|].
    split; [held_compute|]. by repeat split. }
  rewrite io_bind_call. destruct (world_call _ _) as [? w2]. cbn.
  rewrite io_bind_call. destruct (world_call _ _) as [[loaded ? ? ?] w3]. cbn.
  destruct (Z.eqb_spec loaded 1) as [->|]; cbn [negb]; [|connect_gives_up].
  rewrite io_bind_call. destruct (world_call _ _) as [[fd ? ? ?] w4]. cbn.
  destruct (Z.ltb_spec fd 0) as [Hfd|Hfd]; [connect_gives_up|].
  rewrite io_bind_call. destruct (world_call _ _) as [[pton ? address ?] w5]. cbn.
  destruct (Z.eqb_spec pton 1) as [->|]; cbn [negb]; [|connect_gives_up].
  rewrite io_bind_call. destruct (world_call _ _) as [[conn ? ? ?] w6]. cbn.
  destruct (Z.ltb_spec conn 0) as [Hconn|Hconn]; [connect_gives_up|].
  rewrite io_bind_call. destruct (world_call _ _) as [[ssl ? ? ?] w7]. cbn.
  destruct (Z.eqb_spec ssl 0) as [->|Hssl]; [connect_gives_up|].
  rewrite io_bind_call. destruct (world_call _ _) as [[setfd ? ? ?] w8]. cbn.
  destruct (Z.eqb_spec setfd 1) as [->|]; cbn [negb]; [|connect_gives_up].
  rewrite io_bind_call. destruct (world_call _ _) as [[param ? ? ?] w9]. cbn.
  destruct (Z.eqb_spec param 0) as [->|Hparam]; [connect_gives_up|].
  rewrite io_bind_call. destruct (world_call _ _) as [[ip ? ? ?] w10]. cbn.
  destruct (Z.eqb_spec ip 1) as [->|]; cbn [negb]; [|connect_gives_up].
  rewrite io_bind_call. destruct (world_call _ _) as [[hs ? ? ?] w11]. cbn.
  destruct (Z.eqb_spec hs 1) as [->|]; cbn [negb]; [|connect_gives_up].
  rewrite io_bind_call. destruct (world_call _ _) as [[ver ? ? ?] w12]. cbn.
  destruct (Z.eqb_spec ver X509_V_OK) as [->|]; cbn [negb]; [|connect_gives_up].
  eexists _, _, _. split; [reflexivity|]. eexists.
  split; [cbn; rewrite <- !app_assoc; cbn [app]; reflexivity|]. split; [held_compute|]. split.
  - unfold TlsOuchTransport_isConnected. held_compute.
  - exists ctx, fd, ssl, param, address. cbn. repeat split.
    eexists (mkReply 1 _ address _). by repeat split.
Qed.


End connecting.

(** ** [OuchTransport]: the interface *)

(** [transport_send t data] is whether the message was sent, with the transport
    afterwards; [None] is undefined behaviour. *)
Class OuchTransport (T : Type) : Type := transport_send : T -> option bytes -> option (bool * T).

(** What the execution sink relies on: the bytes a transport put on the wire grow by
    the whole message when it reports success, and by a prefix otherwise. *)
Class TransportLaws (T : Type) `{!OuchTransport T} : Type := {
  wire : T -> bytes;
  transport_wire : forall t bs b t', transport_send t (Some bs) = Some (b, t') ->
    exists n, (n <= length bs)%nat /\ wire t' = wire t ++ take n bs /\ (b = true -> n = length bs)
}.

#[export] Instance TcpTransport {W} `{!World W} (fuel : nat)
    : OuchTransport (TcpOuchTransport * Env W) :=
  fun '(t, e) data => '(b, e) ← TcpOuchTransport_send fuel t data e; Some (b, (t, e)).

#[export] Instance TlsTransport {W} `{!World W} (fuel : nat)
    : OuchTransport (TlsOuchTransport * Env W) :=
  fun '(t, e) data => '(b, e) ← TlsOuchTransport_send fuel t data e; Some (b, (t, e)).

(** The transport of the local mode keeps the last message. *)
Record RecordingOuchTransport : Type := mkRecordingOuchTransport {
  rec_buffer : bytes;
  rec_lastLength : Z;
  rec_sent : bool
}.

Definition RecordingOuchTransport_new : RecordingOuchTransport :=
  mkRecordingOuchTransport (replicate 128 0) 0 false.

#[export] Instance RecordingTransport : OuchTransport RecordingOuchTransport := fun t data =>
  data ← data;
  if (length (rec_buffer t) <? length data)%nat then Some (false, t)
  else
    buffer ← wr (rec_buffer t) 0 data;
    Some (true, mkRecordingOuchTransport buffer (Z.of_nat (length data)) true).

Lemma sends_wire {W} ch data b (e e' : Env W) :
  sends ch data 0 b e e' ->
  exists n, (n <= length data)%nat /\ sent_on ch (env_log e') = sent_on ch (env_log e) ++ take n data /\
    (b = true -> n = length data).
Proof.
  intros (new & n & -> & Hn & Hon & _ & ->). rewrite drop_0 in Hon. exists n. split; [lia|].
  rewrite sent_on_app, Hon. split; [done|]. intros Hb. bprop. lia.
Qed.

#[export] Instance tcp_laws {W} `{!World W, !WorldLaws W} (fuel : nat)
    : TransportLaws (TcpOuchTransport * Env W) (OuchTransport0 := TcpTransport fuel).
Proof.
  refine {| wire t := sent_on (Tcp (tcp_socketFd t.1)) (env_log t.2) |}.
  intros [t e] bs b [t' e'] E. unfold transport_send, TcpTransport, TcpOuchTransport_send, io_ret in E.
  destruct (negb _); cbn in E.
  - injection E as <- <- <-. exists 0%nat. split; [lia|]. split; [|done]. by rewrite take_0, app_nil_r.
  - destruct (tcp_send_loop _ _ _ _ e) as [[b1 e1]|] eqn:Es; [|done]. cbn in E. injection E as <- <- <-.
    apply tcp_send_loop_spec in Es; [|lia]. by apply sends_wire in Es.
Defined.

#[export] Instance tls_laws {W} `{!World W, !WorldLaws W} (fuel : nat)
    : TransportLaws (TlsOuchTransport * Env W) (OuchTransport0 := TlsTransport fuel).
Proof.
  refine {| wire t := sent_on (Tls (tls_ssl t.1)) (env_log t.2) |}.
  intros [t e] bs b [t' e'] E. unfold transport_send, TlsTransport, TlsOuchTransport_send, io_ret in E.
  destruct (negb _); cbn in E.
  - injection E as <- <- <-. exists 0%nat. split; [lia|]. split; [|done]. by rewrite take_0, app_nil_r.
  - destruct (tls_send_loop _ _ _ _ e) as [[b1 e1]|] eqn:Es; [|done]. cbn in E. injection E as <- <- <-.
    apply tls_send_loop_spec in Es; [|lia]. by apply sends_wire in Es.
Defined.

(** ** [OuchExecutionSink] *)

Record OuchExecutionSink (T : Type) : Type := mkOuchExecutionSink {
  transport_ : T;
  nextUserRefNum_ : Z
}.
Arguments mkOuchExecutionSink {T}.
Arguments transport_ {T}.
Arguments nextUserRefNum_ {T}.

(** The Enter Order built for an intent. *)
Definition intent_order (userRefNum : Z) (intent : OrderIntent) : EnterOrder :=
  mkEnterOrder userRefNum (int_side intent) (int_quantity intent) (int_symbol intent)
    (u64 (int_price intent)) TimeInForce_Day Display_Visible Capacity_Agency
    IsoEligibility_NotEligible CrossType_ContinuousMarket (replicate 14 0) 0.

#[export] Instance OuchExecutionSink_submit {T} `{!OuchTransport T}
    : OrderExecutionSink (OuchExecutionSink T) := fun sink intent =>
  buffer ← OuchEncoder_encode (intent_order (nextUserRefNum_ sink) intent);
  '(sent, transport) ← transport_send (transport_ sink) (Some buffer);
  Some (sent, mkOuchExecutionSink transport (u32 (nextUserRefNum_ sink + 1))).

(** Orders submitted one after the other. *)
Fixpoint sink_run {S} `{!OrderExecutionSink S} (s : S) (intents : list OrderIntent)
    : option (list bool * S) :=
  match intents with
  | [] => Some ([], s)
  | intent :: intents =>
      '(b, s) ← sink_submit s intent;
      '(bs, s) ← sink_run s intents;
      Some (b :: bs, s)
  end.

(** The intents of a trading client: an eight-character symbol and a 32-bit quantity. *)
Definition intent_encodable (intent : OrderIntent) : Prop :=
  length (int_symbol intent) = 8%nat /\ is_uint 32 (int_quantity intent).

(** The Enter Orders of successive intents. *)
Fixpoint intent_orders (userRefNum : Z) (intents : list OrderIntent) : list EnterOrder :=
  match intents with
  | [] => []
  | intent :: intents =>
      intent_order userRefNum intent :: intent_orders (u32 (userRefNum + 1)) intents
  end.

(** [frame m f]: the 47 bytes [f] are the Enter Order [m]. *)
Definition frame (m : EnterOrder) (f : bytes) : Prop :=
  OuchEncoder_encode m = Some f /\ length f = EnterOrderSize /\
  decodeEnterOrder (Some f) (Z.of_nat (length f)) = Some (Some m).

Lemma intent_order_frame ref intent :
  is_uint 32 ref -> intent_encodable intent -> exists f, frame (intent_order ref intent) f.
Proof.
  intros Hr [Hs Hq].
  destruct (enter_order_roundtrip (intent_order ref intent)) as (f & E & Hl & Hd).
  { constructor; try done. apply wrap_range. lia. }
  by exists f.
Qed.

Lemma sink_submit_eq {T} `{!OuchTransport T} (s : OuchExecutionSink T) intent :
  sink_submit s intent =
    (buffer ← OuchEncoder_encode (intent_order (nextUserRefNum_ s) intent);
     '(sent, transport) ← transport_send (transport_ s) (Some buffer);
     Some (sent, mkOuchExecutionSink transport (u32 (nextUserRefNum_ s + 1)))).
Proof. reflexivity. Qed.

Lemma sink_run_wire {T} `{!OuchTransport T, !TransportLaws T} intents :
  forall (s s' : OuchExecutionSink T) oks,
  is_uint 32 (nextUserRefNum_ s) -> Forall intent_encodable intents ->
  sink_run s intents = Some (oks, s') -> Forall (fun b => b = true) oks ->
  exists frames, Forall2 frame (intent_orders (nextUserRefNum_ s) intents) frames /\
    wire (transport_ s') = wire (transport_ s) ++ mjoin frames.
Proof.
  induction intents as [|intent intents IH]; intros s s' oks Hn Hi E Hok; cbn in E.
  { injection E as <- <-. exists []. split; [constructor|]. by rewrite app_nil_r. }
  apply Forall_cons in Hi as [Hi His].
  destruct (intent_order_frame (nextUserRefNum_ s) intent Hn Hi) as (f & Hf). pose proof Hf as [Ef _].
  rewrite sink_submit_eq, Ef in E. cbn in E.
  destruct (transport_send _ _) as [[b t]|] eqn:Et; [|done]. cbn in E.
  destruct (sink_run _ _) as [[oks1 s1]|] eqn:Er; [|done]. cbn in E. injection E as <- <-.
  apply Forall_cons in Hok as [-> Hok]. destruct (transport_wire _ _ _ _ Et) as (n & _ & Hw & Hfull).
  rewrite Hfull, take_ge in Hw by done.
  edestruct IH as (frames & Hfs & Hws); [|exact His|exact Er|exact Hok|].
  { cbn. apply wrap_range. lia. }
  cbn [nextUserRefNum_ transport_] in *. exists (f :: frames). split; [by constructor|].
  rewrite Hws, Hw. cbn. by rewrite app_assoc.
Qed.

Lemma frames_length intents : forall n frames,
  Forall2 frame (intent_orders n intents) frames ->
  length (mjoin frames) = (length intents * EnterOrderSize)%nat.
Proof.
  induction intents as [|i l IH]; intros n frames Hf; inversion Hf as [|m f ms fs Hm Hms]; subst; [done|].
  change (mjoin (f :: fs)) with (f ++ mjoin fs). rewrite length_app, (IH _ _ Hms). destruct Hm as (_ & -> & _). cbn. lia.
Qed.

(** ** Claims *)

(** C23: Connecting over TLS either succeeds against a verified peer or leaves nothing
    open.  For every answer of the operating system and of OpenSSL, [connect] on an
    idle transport returns.  When it returns true, it has required peer
    verification, loaded the CA file, bound the expected IP address before the
    handshake, completed the handshake and seen the verification succeed, in this
    order, and the transport holds exactly the context, the socket and the session
    it acquired.  When it returns false, everything acquired has been released. *)
Theorem tls_connect_verifies_or_releases :
  forall (W : Type) (world : World W) (t : TlsOuchTransport) (e : Env W), tls_idle t ->
  exists b t' e' new, TlsOuchTransport_connect t e = Some ((b, t'), e') /\
    env_log e' = env_log e ++ new /\ held_from [] new = tls_handles t' /\
    (b = true -> TlsOuchTransport_isConnected t' = true /\ verified_connect t new) /\
    (b = false -> tls_idle t' /\ held_from [] new = []).
Proof.
  intros W world t e Hi. destruct (tls_connect_spec t e Hi) as (b & t' & e' & E & new & Hlog & Hh & Hb).
  exists b, t', e', new. split; [done|]. split; [done|]. split; [done|]. destruct b; [done|].
  split; [done|]. intros _. split; [done|]. rewrite Hh. destruct Hb as (Hf & Hc & Hs).
  unfold tls_handles. by rewrite Hc, Hs, (proj2 (Z.leb_gt _ _) Hf).
Qed.

Lemma tls_connect_witness :
  exists b t' e' new,
    TlsOuchTransport_connect (TlsOuchTransport_new [49] 9000 [99]) (mkEnv (mkToyWorld [] 0) []) =
      Some ((b, t'), e') /\ env_log e' = [] ++ new /\ held_from [] new = tls_handles t' /\
    (b = true -> TlsOuchTransport_isConnected t' = true /\
       verified_connect (TlsOuchTransport_new [49] 9000 [99]) new) /\
    (b = false -> tls_idle t' /\ held_from [] new = []).
Proof.
  apply (tls_connect_verifies_or_releases ToyWorld toy_world (TlsOuchTransport_new [49] 9000 [99])
           (mkEnv (mkToyWorld [] 0) [])).
  repeat split; cbn; lia.
Defined.

(** C24: The transports move whole messages.  In every world that keeps the documented
    results of [send], [recv], [SSL_write] and [SSL_read], a send on a connected
    transport returns, given fuel for the message and the interruptions; it puts a
    prefix of the message on its own connection and nothing on any other, and
    returns true exactly when that prefix is the whole message.  A receive that
    returns has stored what came in at the front of the buffer, and returns true
    exactly when the buffer is full. *)
Theorem ouch_transports_move_whole_messages :
  forall (W : Type) (world : World W) (laws : WorldLaws W) (quiet : Quiescent W) (fuel : nat)
    (data : bytes) (e : Env W),
  (length data + patience (env_world e) < fuel)%nat ->
  (forall t, TcpOuchTransport_isConnected t = true ->
     (exists b e', TcpOuchTransport_send fuel t (Some data) e = Some (b, e') /\
        sends (Tcp (tcp_socketFd t)) data 0 b e e') /\
     (exists b data' e', TcpOuchTransport_receive fuel t (Some data) e = Some ((b, data'), e') /\
        receives (Tcp (tcp_socketFd t)) data 0 b data' e e')) /\
  (forall t, TlsOuchTransport_isConnected t = true ->
     (exists b e', TlsOuchTransport_send fuel t (Some data) e = Some (b, e') /\
        sends (Tls (tls_ssl t)) data 0 b e e') /\
     (exists b data' e', TlsOuchTransport_receive fuel t (Some data) e = Some ((b, data'), e') /\
        receives (Tls (tls_ssl t)) data 0 b data' e e')).
Proof.
  intros W world laws quiet fuel data e Hf.
  split; intros t Ht; unfold TcpOuchTransport_send, TcpOuchTransport_receive, TlsOuchTransport_send,
    TlsOuchTransport_receive; rewrite Ht; cbn [negb]; split.
  - destruct (tcp_send_loop_total fuel (tcp_socketFd t) data 0 e) as [[b e'] E]; [lia..|].
    exists b, e'. split; [done|]. by apply tcp_send_loop_spec in E; [|lia].
  - destruct (tcp_receive_loop_total fuel (tcp_socketFd t) data 0 e) as [[[b d] e'] E]; [lia..|].
    exists b, d, e'. split; [done|]. by apply tcp_receive_loop_spec in E; [|lia].
  - destruct (tls_send_loop_total fuel (tls_ssl t) data 0 e) as [[b e'] E]; [lia..|].
    exists b, e'. split; [done|]. by apply tls_send_loop_spec in E; [|lia].
  - destruct (tls_receive_loop_total fuel (tls_ssl t) data 0 e) as [[[b d] e'] E]; [lia..|].
    exists b, d, e'. split; [done|]. by apply tls_receive_loop_spec in E; [|lia].
Qed.

Lemma transports_witness :
  exists b e', TcpOuchTransport_send 30 (mkTcpOuchTransport [] 1 5) (Some (replicate 25 7))
      (mkEnv (mkToyWorld [] 2) []) = Some (b, e') /\
    sends (Tcp 5) (replicate 25 7) 0 b (mkEnv (mkToyWorld [] 2) []) e'.
Proof.
  refine (proj1 (proj1 (ouch_transports_move_whole_messages ToyWorld toy_world toy_laws toy_quiescent 30
    (replicate 25 7) (mkEnv (mkToyWorld [] 2) []) _) (mkTcpOuchTransport [] 1 5) eq_refl)).
  cbn. lia.
Defined.

(** What the execution sink writes, the exchange reads.  Over any transport that
    keeps the transport laws, submitting a list of intents that all succeed puts on
    the wire exactly one 47-byte frame per intent, in order; each frame decodes to
    the order built from its intent, with consecutive user reference numbers modulo
    2^32. *)
Theorem execution_sink_writes_decodable_orders :
  forall (T : Type) (send : OuchTransport T) (laws : TransportLaws T) (intents : list OrderIntent)
    (s s' : OuchExecutionSink T) (oks : list bool),
  is_uint 32 (nextUserRefNum_ s) -> Forall intent_encodable intents ->
  sink_run s intents = Some (oks, s') -> Forall (fun b => b = true) oks ->
  exists frames, Forall2 frame (intent_orders (nextUserRefNum_ s) intents) frames /\
    wire (transport_ s') = wire (transport_ s) ++ mjoin frames /\
    length (mjoin frames) = (length intents * EnterOrderSize)%nat.
Proof.
  intros T send laws intents s s' oks Hn Hi E Hok.
  destruct (sink_run_wire intents s s' oks Hn Hi E Hok) as (frames & Hf & Hw).
  exists frames. split; [done|]. split; [done|]. by eapply frames_length.
Qed.

(** Two intents over a TCP transport that is interrupted twice. *)
Definition wire_demo_sink : OuchExecutionSink (TcpOuchTransport * Env ToyWorld) :=
  mkOuchExecutionSink (mkTcpOuchTransport [] 1 5, mkEnv (mkToyWorld [] 2) []) (2 ^ 32 - 1).

Definition wire_demo_intents : list OrderIntent :=
  [ mkOrderIntent 1 Buy (replicate 8 65) 100 10; mkOrderIntent 1 Sell (replicate 8 66) 101 20 ].

Lemma execution_sink_witness :
  exists oks s' frames,
    sink_run (OrderExecutionSink0 := OuchExecutionSink_submit (OuchTransport0 := TcpTransport 60))
      wire_demo_sink wire_demo_intents = Some (oks, s') /\
    Forall2 frame (intent_orders (2 ^ 32 - 1) wire_demo_intents) frames /\
    sent_on (Tcp 5) (env_log (transport_ s').2) = mjoin frames /\ length (mjoin frames) = 94%nat.
Proof.
  destruct (@sink_run _ (OuchExecutionSink_submit (OuchTransport0 := TcpTransport 60))
      wire_demo_sink wire_demo_intents) as [[oks s']|] eqn:E; [|vm_compute in E; discriminate E].
  destruct (execution_sink_writes_decodable_orders _ (TcpTransport 60) (tcp_laws 60) wire_demo_intents
    wire_demo_sink s' oks) as (frames & Hf & Hw & Hl).
  - unfold is_uint. cbn. lia.
  - repeat constructor; unfold is_uint; cbn; lia.
  - exact E.
  - vm_compute in E. injection E as <- _. by repeat constructor.
  - exists oks, s', frames. split; [done|]. split; [exact Hf|]. split; [|exact Hl].
    assert ((transport_ s').1 = mkTcpOuchTransport [] 1 5) as Et.
    { vm_compute in E. injection E as _ <-. done. }
    cbn in Hw. rewrite Et in Hw. exact Hw.
Defined.
