(* ===== verification/Exchange.v ===== *)
(** * The exchange: sessions, executions and the order handler

    [exchange/exchange_order_session_map.hpp],
    [exchange/exchange_execution_listener.{hpp,cpp}] and
    [exchange/exchange_ouch_handler.{hpp,cpp}].

    The session map, the listener and the matching engine share state: the handler
    registers an order in the map before the engine processes it, and the engine's
    trades reach the listener, which looks the orders up in the same map.  The map
    and the listener are the environment [E] of the matching engine. *)

From S2P Require Import Prelude Types FixedHashMap OrderPool Bitmap OrderBook BookStore.
From S2P Require Import MatchingEngine MatchingSpec MatchingProofs Wire Ouch.

(** ** [ExchangeOrderSessionMap] *)

Abbreviation ExchangeOrderSessionMap := (gmap Z Z) (only parsing).

Definition SessionMap_registerOrder (m : ExchangeOrderSessionMap) (orderId userRefNum : Z)
    : ExchangeOrderSessionMap := <[orderId := userRefNum]> m.

Definition SessionMap_find (m : ExchangeOrderSessionMap) (orderId : Z) : option Z := m !! orderId.

Definition SessionMap_erase (m : ExchangeOrderSessionMap) (orderId : Z) : ExchangeOrderSessionMap :=
  delete orderId m.

(** ** [ExchangeExecutionListener] *)

Record ExecutionResponses : Type := mkExecutionResponses {
  buyResponse : option bytes;
  sellResponse : option bytes
}.

Definition no_responses : ExecutionResponses := mkExecutionResponses None None.

Definition liquidity_removed : Z := 82.

Definition executed_for (userRef : Z) (trade : Trade) : Executed :=
  mkExecuted 0 userRef (trade_quantity trade) (u64 (trade_price trade)) liquidity_removed
    (trade_sequence trade) 0.

(** The map and the listener's last responses. *)
Record ExchangeEnv : Type := mkExchangeEnv {
  sessionMap_ : ExchangeOrderSessionMap;
  lastResponses_ : ExecutionResponses
}.

Definition ExchangeExecutionListener_onTrade (trade : Trade) (e : ExchangeEnv) : ExchangeEnv :=
  let buyUserRef := SessionMap_find (sessionMap_ e) (trade_buy_order_id trade) in
  let buy := match buyUserRef with
             | Some ref => ExecutedEncoder_encode (executed_for ref trade)
             | None => None
             end in
  let sellUserRef := SessionMap_find (sessionMap_ e) (trade_sell_order_id trade) in
  let sell := match sellUserRef with
              | Some ref => ExecutedEncoder_encode (executed_for ref trade)
              | None => None
              end in
  mkExchangeEnv (sessionMap_ e) (mkExecutionResponses buy sell).

(** ** [ExchangeOuchHandler] *)

(** [*order] after an assignment to the environment the engine shares. *)
Definition with_env {E} (g : Engine E) (e : E) : Engine E :=
  mkEngine (eng_book g) (eng_pool g) (eng_sequence g) (eng_heap g) e.

Definition accepted_for (m : EnterOrder) (orderId : OrderId) : Accepted :=
  mkAccepted 0 (eo_userRefNum m) (eo_side m) (eo_quantity m) (eo_symbol m) (eo_price m)
    (eo_timeInForce m) (eo_display m) orderId (eo_capacity m) (eo_isoEligibility m) (eo_crossType m)
    OrderState_Live (eo_clOrdId m) 0.

Lemma accepted_for_wf m id : eo_wf m -> is_uint 64 id -> ac_wf (accepted_for m id).
Proof. intros [] Hid. by constructor. Qed.

Section handler.

Variable std_hash : Z -> Z.

(** The listeners registered with the engine's event dispatcher. *)
Variable publish : Trade -> ExchangeEnv -> ExchangeEnv.

Definition ExchangeOuchHandler_handleEnterOrder (g : Engine ExchangeEnv) (accountId : AccountId)
    (data : option bytes) (length : Z) : option (option bytes * Engine ExchangeEnv) :=
  enterOrder ← decodeEnterOrder data length;
  match enterOrder with
  | None => Some (None, g)
  | Some enterOrder =>
      '(order, g) ← MatchingEngine_prepareOrder g accountId (eo_side enterOrder)
                      (i64 (eo_price enterOrder)) (eo_quantity enterOrder);
      match order with
      | None => Some (None, g)
      | Some o =>
          ord ← eng_heap g !! o;
          let orderId := ord_id ord in
          let map := SessionMap_registerOrder (sessionMap_ (eng_env g)) orderId
                       (eo_userRefNum enterOrder) in
          let g := with_env g (mkExchangeEnv map (lastResponses_ (eng_env g))) in
          g ← MatchingEngine_process std_hash publish g (Some o);
          buffer ← AcceptedEncoder_encode (accepted_for enterOrder orderId);
          Some (Some buffer, g)
      end
  end.

(** ** The handler and the specification *)

Definition register (e : ExchangeEnv) (orderId userRef : Z) : ExchangeEnv :=
  mkExchangeEnv (SessionMap_registerOrder (sessionMap_ e) orderId userRef) (lastResponses_ e).

Lemma engine_rel_env (g : Engine ExchangeEnv) st e :
  engine_rel std_hash g st <-> engine_rel std_hash (with_env g e) st.
Proof. done. Qed.

(** Preparing an order does not touch the environment, and registering it between
    the two halves of a submission is registering it before. *)
Lemma handle_decoded (g : Engine ExchangeEnv) account data len m :
  decodeEnterOrder data len = Some (Some m) ->
  ExchangeOuchHandler_handleEnterOrder g account data len =
    let id := Sequencer_next (eng_sequence g) in
    match (OrderPool_acquire (eng_pool g)).1 with
    | None => Some (None, mkEngine (eng_book g) (OrderPool_acquire (eng_pool g)).2 (eng_sequence g)
                            (eng_heap g) (eng_env g))
    | Some _ =>
        '(_, g') ← MatchingEngine_submitOrder std_hash publish
                     (with_env g (register (eng_env g) id (eo_userRefNum m))) account (eo_side m)
                     (i64 (eo_price m)) (eo_quantity m);
        buffer ← AcceptedEncoder_encode (accepted_for m id);
        Some (Some buffer, g')
    end.
Proof.
  intros Hd. unfold ExchangeOuchHandler_handleEnterOrder. rewrite Hd. cbn [mbind option_bind].
  unfold MatchingEngine_submitOrder, MatchingEngine_prepareOrder, with_env. cbn [eng_pool eng_heap].
  destruct (OrderPool_acquire (eng_pool g)) as [[o|] pool]; cbn [fst snd mbind option_bind]; [|done].
  destruct (eng_heap g !! o) as [ord|]; cbn [mbind option_bind]; [|done]. cbn [eng_heap eng_env].
  rewrite lookup_insert_eq. cbn [mbind option_bind ord_id eng_book eng_pool eng_sequence eng_env].
  unfold register, SessionMap_registerOrder. cbn [eng_heap].
  rewrite lookup_insert_eq. cbn [mbind option_bind]. by destruct (MatchingEngine_process _ _ _ _).
Qed.

(** Orders the exchange can place: a price inside the book and a positive quantity. *)
Definition placeable (m : EnterOrder) : Prop :=
  eo_wf m /\ admissible_order (i64 (eo_price m)) (eo_quantity m).

Lemma handle_refines (g : Engine ExchangeEnv) st account data len m :
  engine_rel std_hash g st -> spec_inv st -> placeable m ->
  decodeEnterOrder data len = Some (Some m) ->
  sp_sequence st + 1 + DefaultOrderCapacity < 2 ^ 64 ->
  let '(id, trades, st') := spec_submit st account (eo_side m) (i64 (eo_price m)) (eo_quantity m) in
  exists resp g', ExchangeOuchHandler_handleEnterOrder g account data len = Some (resp, g') /\
    engine_rel std_hash g' st' /\
    if id =? 0 then resp = None /\ eng_env g' = eng_env g
    else AcceptedEncoder_encode (accepted_for m id) = resp /\ is_Some resp /\
         eng_env g' = foldl (fun e t => publish t e) (register (eng_env g) id (eo_userRefNum m)) trades.
Proof.
  intros R I [W Ha] Hd Hseq. rewrite (handle_decoded _ _ _ _ _ Hd). cbn zeta.
  pose proof (submit_refines std_hash publish
    (with_env g (register (eng_env g) (Sequencer_next (eng_sequence g)) (eo_userRefNum m))) st account
    (eo_side m) _ _ R I Ha Hseq) as Hsub.
  destruct (AcceptedEncoder_encode (accepted_for m (Sequencer_next (eng_sequence g)))) as [buffer|] eqn:Ebuf.
  2:{ rewrite accepted_bytes in Ebuf; [done|]. by apply accepted_for_wf, wrap_range. }
  assert (Sequencer_next (eng_sequence g) = sp_sequence st + 1) as Eid.
  { destruct R as (L & _ & _ & _ & ->). pose proof (si_seq _ I). apply wrap_small. unfold DefaultOrderCapacity in *. lia. }
  destruct R as (L & R & Ht & EA & Es). pose proof (store_acquire _ _ _ _ _ _ R) as Hac. cbn [app] in Hac.
  unfold spec_submit in *.
  assert (length (sp_book st) = length L) as El by (rewrite <- EA; apply length_fmap).
  rewrite El in *. destruct (OrderPool_acquire (eng_pool g)) as [[o|] pool]; cbn [fst snd].
  - destruct Hac as (R1 & _ & Hlen). rewrite (proj2 (Z.eqb_neq (Z.of_nat (length L)) _)) in * by lia.
    destruct Hsub as (g' & E' & R' & Ee). exists (Some buffer), g'. rewrite E'. split; [done|].
    split; [done|]. pose proof (si_seq _ I). rewrite (proj2 (Z.eqb_neq (sp_sequence st + 1) 0)) by lia.
    rewrite Eid in *. split; [done|]. split; [by eexists|]. exact Ee.
  - destruct Hac as [-> Hlen]. rewrite Hlen, Z.eqb_refl in *. cbn. eexists None, _. split; [done|].
    split; [|done]. by exists L.
Qed.

End handler.

(** ** Which orders a submission's trades and book speak of *)

(** [known st id i]: [i] is the id of a resting order of [st], or [id] itself. *)
Definition known (st : spec_state) (id i : OrderId) : Prop :=
  i = id \/ exists y, y ∈ sp_book st /\ lo_id y = i.

Definition trade_known (st : spec_state) (id : OrderId) (last : Z) (t : Trade) : Prop :=
  known st id (trade_buy_order_id t) /\ known st id (trade_sell_order_id t) /\
  is_uint 32 (trade_quantity t) /\ 0 <= trade_sequence t <= last.

Lemma spec_trades_known st seq x F last :
  Forall (fun f => f.1 ∈ sp_book st /\ is_uint 32 f.2) F -> 0 <= seq ->
  seq + Z.of_nat (length F) <= last -> Forall (trade_known st (lo_id x) last) (spec_trades seq x F).
Proof.
  intros HF. revert seq. induction HF as [|f F [Hf Hq] HF IH]; intros seq Hs Hl; cbn [spec_trades];
    constructor; [|apply IH; cbn in Hl; lia]. cbn [length] in Hl.
  unfold spec_trade, trade_known, known. destruct (lo_side x); cbn; split_and!; eauto; lia.
Qed.

Lemma spec_submit_known st account s p q :
  spec_inv st -> 0 < q < 2 ^ 32 ->
  let '(id, trades, st') := spec_submit st account s p q in
  (if id =? 0 then st' = st /\ trades = [] else id = sp_sequence st + 1 /\ id <= sp_sequence st') /\
  (forall x, x ∈ sp_book st' -> known st id (lo_id x)) /\ Forall (trade_known st id (sp_sequence st')) trades.
Proof.
  intros I Hq. unfold spec_submit. pose proof (si_seq _ I) as Hs. bcase.
  { split; [done|]. split; [|constructor]. intros x Hx. right. eauto. }
  rewrite (proj2 (Z.eqb_neq _ 0)) by lia. cbn [sp_sequence sp_book]. split; [split; [done|lia]|].
  destruct (fills_spec s p q _ (si_wf _ I)) as (_ & _ & _ & _ & _ & Hmem). split.
  - intros x Hx. assert (x ∈ apply_fills (sp_book st) (fills s p q (priority (opposite s) (sp_book st)))
      \/ lo_id x = sp_sequence st + 1) as [Hx'|]; [|right|by left].
    + revert Hx. bcase; [|by left]. intros [?|Hx%list_elem_of_singleton]%elem_of_app; [by left|].
      right. by subst.
    + destruct (Hmem _ Hx') as (y & Hy & -> & _). eauto.
  - apply (spec_trades_known st _ (mkLimit (sp_sequence st + 1) account s p q)); [|lia|done].
    pose proof (wf_quantities _ (si_wf _ I)) as HF. rewrite Forall_forall in HF.
    eapply Forall_impl; [apply (fills_members s p q _ (si_wf _ I))|]. intros f (Hf & _ & Hq'). split; [done|].
    specialize (HF _ Hf). unfold is_uint. lia.
Qed.

(** ** A run of the exchange *)

Section exchange.

Variable std_hash : Z -> Z.

Abbreviation handle := (ExchangeOuchHandler_handleEnterOrder std_hash ExchangeExecutionListener_onTrade).

Fixpoint exchange_run (g : Engine ExchangeEnv) (account : AccountId) (frames : list bytes)
    : option (list (option bytes) * Engine ExchangeEnv) :=
  match frames with
  | [] => Some ([], g)
  | f :: frames =>
      '(r, g) ← handle g account (Some f) (Z.of_nat EnterOrderSize);
      '(rs, g) ← exchange_run g account frames;
      Some (r :: rs, g)
  end.

Definition order_submission (account : AccountId) (m : EnterOrder) : submission :=
  mkSubmission account (eo_side m) (i64 (eo_price m)) (eo_quantity m).

(** [accepts id m a]: [a] accepts the order [m] under the id [id]: field by field it is what
    the client sent, the order is live, and nothing follows the message. *)
Record accepts (id : OrderId) (m : EnterOrder) (a : Accepted) : Prop := {
  acc_timestamp : ac_timestamp a = 0;
  acc_ref : ac_userRefNum a = eo_userRefNum m;
  acc_side : ac_side a = eo_side m;
  acc_quantity : ac_quantity a = eo_quantity m;
  acc_symbol : ac_symbol a = eo_symbol m;
  acc_price : ac_price a = eo_price m;
  acc_timeInForce : ac_timeInForce a = eo_timeInForce m;
  acc_display : ac_display a = eo_display m;
  acc_id : ac_orderReferenceNumber a = id;
  acc_capacity : ac_capacity a = eo_capacity m;
  acc_iso : ac_isoEligibility a = eo_isoEligibility m;
  acc_cross : ac_crossType a = eo_crossType m;
  acc_state : ac_orderState a = 76;
  acc_clOrdId : ac_clOrdId a = eo_clOrdId m;
  acc_appendage : ac_appendageLength a = 0
}.

(** The answer to an order that got [id], 0 for none. *)
Definition answered (id : OrderId) (m : EnterOrder) (resp : option bytes) : Prop :=
  if id =? 0 then resp = None
  else exists bs a, resp = Some bs /\ length bs = AcceptedSize /\
    OuchResponseDispatcher_dispatch (Some bs) (Z.of_nat (length bs)) = Some (Some (R_Accepted a)) /\
    accepts id m a.

(** The sessions of a state of the exchange: every resting order's client is known, by
    an id already given out and a 32-bit reference. *)
Record sessions_ok (e : ExchangeEnv) (st : spec_state) : Prop := {
  ses_book : forall x, x ∈ sp_book st -> is_Some (sessionMap_ e !! lo_id x);
  ses_ids : forall k r, sessionMap_ e !! k = Some r -> k <= sp_sequence st /\ is_uint 32 r
}.

(** [executes ref t x]: [x] tells the client with the reference [ref] of the trade [t]. *)
Record executes (ref : Z) (t : Trade) (x : Executed) : Prop := {
  exe_timestamp : ex_timestamp x = 0;
  exe_ref : ex_userRefNum x = ref;
  exe_quantity : ex_quantity x = trade_quantity t;
  exe_price : ex_price x = u64 (trade_price t);
  exe_liquidity : ex_liquidityFlag x = 82;
  exe_number : ex_matchNumber x = trade_sequence t;
  exe_appendage : ex_appendageLength x = 0
}.

(** Both sides of the trade are answered with its execution report. *)
Definition reported (e : ExchangeEnv) (t : Trade) : Prop :=
  exists buyRef sellRef buy sell xb xs,
    SessionMap_find (sessionMap_ e) (trade_buy_order_id t) = Some buyRef /\
    SessionMap_find (sessionMap_ e) (trade_sell_order_id t) = Some sellRef /\
    lastResponses_ e = mkExecutionResponses (Some buy) (Some sell) /\
    OuchResponseDispatcher_dispatch (Some buy) (Z.of_nat (length buy)) =
      Some (Some (R_Executed xb)) /\ executes buyRef t xb /\
    OuchResponseDispatcher_dispatch (Some sell) (Z.of_nat (length sell)) =
      Some (Some (R_Executed xs)) /\ executes sellRef t xs.

Lemma executed_for_wf ref t :
  is_uint 32 ref -> is_uint 32 (trade_quantity t) -> is_uint 64 (trade_sequence t) ->
  ex_wf (executed_for ref t).
Proof. intros. constructor; try done. apply wrap_range. lia. Qed.

(** Publishing a trade between known orders reports it. *)
Lemma onTrade_reported t e buyRef sellRef :
  sessionMap_ e !! trade_buy_order_id t = Some buyRef ->
  sessionMap_ e !! trade_sell_order_id t = Some sellRef ->
  is_uint 32 buyRef -> is_uint 32 sellRef -> is_uint 32 (trade_quantity t) ->
  is_uint 64 (trade_sequence t) -> reported (ExchangeExecutionListener_onTrade t e) t.
Proof.
  intros Hb Hs Wb Ws Wq Wn. unfold ExchangeExecutionListener_onTrade, SessionMap_find. rewrite Hb, Hs.
  destruct (dispatch_executed _ (executed_for_wf _ _ Wb Wq Wn) eq_refl) as (buy & -> & _ & Db).
  destruct (dispatch_executed _ (executed_for_wf _ _ Ws Wq Wn) eq_refl) as (sell & -> & _ & Ds).
  exists buyRef, sellRef, buy, sell, (executed_for buyRef t), (executed_for sellRef t).
  by split_and!; [..|constructor| |constructor].
Qed.

Lemma publish_sessionMap trades : forall e,
  sessionMap_ (foldl (fun e t => ExchangeExecutionListener_onTrade t e) e trades) = sessionMap_ e.
Proof. induction trades as [|t trades IH]; intros e; [done|]. cbn. by rewrite IH. Qed.

(** The map holds the references of [known] orders once the incoming one is
    registered. *)
Lemma known_registered e st id ref i :
  sessions_ok e st -> is_uint 32 ref -> known st id i ->
  exists r, sessionMap_ (register e id ref) !! i = Some r /\ is_uint 32 r.
Proof.
  intros [Hb Hi] Hr [->|(y & Hy & <-)]; cbn; unfold SessionMap_registerOrder.
  - exists ref. by rewrite lookup_insert_eq.
  - destruct (decide (id = lo_id y)) as [->|Hne]; [exists ref; by rewrite lookup_insert_eq|].
    rewrite lookup_insert_ne by done. destruct (Hb y Hy) as [r Er]. exists r. split; [done|].
    by apply (Hi _ _ Er).
Qed.

(** After a submission's trades the last one is reported. *)
Lemma publish_reported st id last ref e trades t :
  sessions_ok e st -> is_uint 32 ref -> last < 2 ^ 64 ->
  Forall (trade_known st id last) (trades ++ [t]) ->
  reported (foldl (fun e t => ExchangeExecutionListener_onTrade t e) (register e id ref) (trades ++ [t])) t.
Proof.
  intros Hs Hr Hl [_ [(Hb & Hse & Hq & Hn) _]%Forall_cons]%Forall_app. rewrite foldl_app. cbn [foldl].
  destruct (known_registered e st id ref _ Hs Hr Hb) as (rb & Eb & Wb).
  destruct (known_registered e st id ref _ Hs Hr Hse) as (rs & Es & Ws).
  apply (onTrade_reported t _ rb rs); rewrite ?publish_sessionMap; try done. unfold is_uint. lia.
Qed.

Lemma reported_register e t id ref :
  (forall k r, sessionMap_ e !! k = Some r -> k <> id) -> reported e t -> reported (register e id ref) t.
Proof.
  intros Hf (rb & rs & buy & sell & xb & xs & Eb & Es & H). exists rb, rs, buy, sell, xb, xs. unfold SessionMap_find in *.
  cbn. unfold SessionMap_registerOrder.
  pose proof (Hf _ _ Eb). pose proof (Hf _ _ Es). by rewrite !lookup_insert_ne by congruence.
Qed.

Lemma sessions_submit e st st' id ref :
  sessions_ok e st -> spec_inv st' -> is_uint 32 ref -> sp_sequence st <= sp_sequence st' ->
  id <= sp_sequence st' -> (forall x, x ∈ sp_book st' -> known st id (lo_id x)) ->
  sessions_ok (register e id ref) st'.
Proof.
  intros Hs I Hr Hse Hid Hk. constructor.
  - intros x Hx. destruct (known_registered e st id ref _ Hs Hr (Hk x Hx)) as (r & E & _). eauto.
  - intros k r. cbn. unfold SessionMap_registerOrder. rewrite lookup_insert. case_decide as Ek.
    + subst k. by intros [= ->].
    + intros Hkr. destruct (ses_ids _ _ Hs _ _ Hkr). split; [lia|done].
Qed.

Lemma sessions_env e e' st : sessionMap_ e' = sessionMap_ e -> sessions_ok e st -> sessions_ok e' st.
Proof. intros E [H1 H2]. constructor; rewrite E; done. Qed.

(** An encoded answer is what the client's dispatcher decodes. *)
Lemma accepted_answered m id resp :
  eo_wf m -> is_uint 64 id -> id <> 0 -> AcceptedEncoder_encode (accepted_for m id) = resp -> answered id m resp.
Proof.
  intros W Hid Hne <-. unfold answered. rewrite (proj2 (Z.eqb_neq _ _)) by done.
  destruct (dispatch_accepted (accepted_for m id)) as (bs & Eb & Hl & D); [by apply accepted_for_wf|done|].
  exists bs, (accepted_for m id). rewrite Eb. by split_and!; [..|constructor].
Qed.

(** One order. *)
Lemma handle_step g st account f m :
  engine_rel std_hash g st -> spec_inv st -> sessions_ok (eng_env g) st -> placeable m ->
  decodeEnterOrder (Some f) (Z.of_nat EnterOrderSize) = Some (Some m) ->
  sp_sequence st + 1 + DefaultOrderCapacity < 2 ^ 64 ->
  let '(id, trades, st') := spec_submit st account (eo_side m) (i64 (eo_price m)) (eo_quantity m) in
  exists resp g', handle g account (Some f) (Z.of_nat EnterOrderSize) = Some (resp, g') /\
    engine_rel std_hash g' st' /\ sessions_ok (eng_env g') st' /\ answered id m resp /\
    sessionMap_ (eng_env g') =
      (if id =? 0 then sessionMap_ (eng_env g) else <[id := eo_userRefNum m]> (sessionMap_ (eng_env g))) /\
    (forall t, (trades = [] /\ reported (eng_env g) t) \/ last trades = Some t -> reported (eng_env g') t).
Proof.
  intros R I Hs Hm Hd Hseq.
  pose proof (handle_refines std_hash ExchangeExecutionListener_onTrade g st account _ _ m R I Hm Hd Hseq) as H.
  pose proof (spec_submit_known st account (eo_side m) (i64 (eo_price m)) _ I (proj2 (proj2 Hm))) as Hk.
  pose proof (spec_submit_inv st account (eo_side m) (i64 (eo_price m)) _ I (proj2 (proj2 Hm))) as I'.
  pose proof (spec_submit_sequence st account (eo_side m) (i64 (eo_price m)) (eo_quantity m) (si_wf _ I))
    as Hsq.
  pose proof (engine_rel_length _ _ _ R) as Hlen. unfold OrderPool_available in Hlen.
  specialize (Hsq ltac:(lia)).
  destruct (spec_submit st _ _ _ _) as [[id trades] st']. cbn [snd] in *.
  destruct H as (resp & g' & E & R' & H). exists resp, g'. split; [done|]. split; [done|].
  destruct Hk as (Hid & Hbook & Htr). destruct (Z.eqb_spec id 0) as [->|Hne].
  { destruct H as [-> ->], Hid as [-> ->]. do 3 (split; [done|]). intros t [[_ ?]|?]; done. }
  destruct H as (Hresp & _ & Henv), Hid as [Eid Hle], Hm as [W [Hv Hq]].
  assert (is_uint 32 (eo_userRefNum m)) as Wr by apply W.
  split; [|split; [|split]].
  - apply (sessions_env (register (eng_env g) id (eo_userRefNum m))).
    { by rewrite Henv, publish_sessionMap. }
    apply (sessions_submit (eng_env g) st); [done..|lia|lia|done].
  - apply accepted_answered; try done. pose proof (si_seq _ I). unfold is_uint, DefaultOrderCapacity in *. lia.
  - by rewrite Henv, publish_sessionMap.
  - intros t [[-> Ht]|Ht].
    + rewrite Henv. apply reported_register; [|done]. intros k r Hkr.
      destruct (ses_ids _ _ Hs _ _ Hkr). lia.
    + apply last_Some in Ht as [tr ->]. rewrite Henv.
      eapply publish_reported; [exact Hs|done| |exact Htr]. lia.
Qed.


(** The references registered by a run. *)
Definition session_of (m : ExchangeOrderSessionMap) (ids : list OrderId) (ms : list EnterOrder)
    : ExchangeOrderSessionMap :=
  foldl (fun m e => if e.1 =? 0 then m else <[e.1 := eo_userRefNum e.2]> m) m (zip ids ms).

Lemma exchange_run_refines account ms frames :
  Forall2 (fun m f => decodeEnterOrder (Some f) (Z.of_nat EnterOrderSize) = Some (Some m)) ms frames ->
  Forall placeable ms -> forall g st,
  engine_rel std_hash g st -> spec_inv st -> sessions_ok (eng_env g) st ->
  sp_sequence st + (1 + DefaultOrderCapacity) * Z.of_nat (length ms) < 2 ^ 64 ->
  let '(ids, trades, st') := spec_run st (order_submission account <$> ms) in
  exists resps g', exchange_run g account frames = Some (resps, g') /\ engine_rel std_hash g' st' /\
    Forall3 answered ids ms resps /\ sessionMap_ (eng_env g') = session_of (sessionMap_ (eng_env g)) ids ms /\
    (forall t, (trades = [] /\ reported (eng_env g) t) \/ last trades = Some t -> reported (eng_env g') t).
Proof.
  induction 1 as [|m f ms frames Hd Hf IH]; intros Hp g st R I Hs Hseq; cbn [fmap list_fmap spec_run exchange_run].
  { eexists _, _. split; [done|]. split; [done|]. split; [constructor|]. split; [done|].
    intros t [[_ ?]|?]; done. }
  apply Forall_cons in Hp as [Hm Hp]. cbn [length] in Hseq.
  cbn [order_submission sub_account sub_side sub_price sub_quantity].
  pose proof (handle_step g st account f m R I Hs Hm Hd) as H1.
  pose proof (spec_submit_inv st account (eo_side m) (i64 (eo_price m)) _ I (proj2 (proj2 Hm))) as I1.
  pose proof (spec_submit_sequence st account (eo_side m) (i64 (eo_price m)) (eo_quantity m) (si_wf _ I))
    as Hsq.
  pose proof (engine_rel_length _ _ _ R) as Hlen. unfold OrderPool_available in Hlen.
  specialize (Hsq ltac:(lia)).
  destruct (spec_submit st _ _ _ _) as [[id trades] st1]. cbn [snd] in *.
  destruct H1 as (resp & g1 & E1 & R1 & Hs1 & Ha & Hmap & Hrep); [unfold DefaultOrderCapacity in *; lia|].
  specialize (IH Hp g1 st1 R1 I1 Hs1 ltac:(unfold DefaultOrderCapacity in *; lia)).
  destruct (spec_run st1 _) as [[ids trades'] st2].
  destruct IH as (resps & g2 & E2 & R2 & Ha2 & Hmap2 & Hrep2). exists (resp :: resps), g2.
  rewrite E1. cbn [mbind option_bind]. rewrite E2. split; [done|]. split; [done|].
  split; [by constructor|]. split; [rewrite Hmap2, Hmap; unfold session_of; cbn [zip zip_with foldl fst snd]; by destruct (id =? 0)|].
  intros t Ht. apply Hrep2. destruct trades' as [|t' trades'].
  - left. split; [done|]. apply Hrep. by rewrite app_nil_r in Ht.
  - right. destruct Ht as [[Ht _]|Ht]; [by apply app_eq_nil in Ht as [_ ?]|]. by rewrite last_app_cons in Ht.
Qed.


End exchange.

Definition exchange_env : ExchangeEnv := mkExchangeEnv ∅ no_responses.

Lemma exchange_run_new std_hash base account ms frames :
  Forall2 (fun m f => decodeEnterOrder (Some f) (Z.of_nat EnterOrderSize) = Some (Some m)) ms frames ->
  Forall placeable ms ->
  Sequencer_init + (1 + DefaultOrderCapacity) * Z.of_nat (length ms) < 2 ^ 64 ->
  let '(ids, trades, st) := spec_run spec_new (order_submission account <$> ms) in
  exists resps g, exchange_run std_hash (MatchingEngine_new base exchange_env) account frames =
      Some (resps, g) /\
    shows std_hash (eng_book g) (eng_heap g) (sp_book st) /\ Forall3 answered ids ms resps /\
    sessionMap_ (eng_env g) = session_of ∅ ids ms /\
    (forall t, last trades = Some t -> reported (eng_env g) t).
Proof.
  intros Hf Hp Hseq.
  pose proof (exchange_run_refines std_hash account ms frames Hf Hp (MatchingEngine_new base exchange_env)
    spec_new (engine_rel_new std_hash base exchange_env) spec_inv_new) as H.
  destruct (spec_run spec_new _) as [[ids trades] st].
  destruct H as (resps & g & E & R & Ha & Hm & Hr); [constructor; cbn; [|done]|done|].
  { intros x Hx. by apply elem_of_nil in Hx. }
  exists resps, g. split; [done|]. destruct R as (L & R & _ & <- & _).
  split; [by eapply store_shows|]. split; [done|]. split; [done|]. intros t Ht. apply Hr. by right.
Qed.

(** ** Claims *)

(** C26: The exchange answers every order and reports its executions.  For every
    sequence of frames that decode to placeable orders, the handler runs on a new
    exchange without undefined behaviour.  The book is the one of the price-time
    priority specification; each order that got an id is answered with an Accepted
    message that decodes to a message with the order's own fields and that id ([accepts]),
    and an order that found the pool exhausted gets no answer; the session map holds exactly the
    references of the accepted orders; and after the last trade both of its parties
    are known, because an order is registered before it is matched, and the listener
    holds an Executed message for each that decodes to one with the party's reference and
    the trade's quantity, price and number ([executes]). *)
Theorem exchange_answers_and_reports :
  forall (std_hash : Z -> Z) (base : Z) (account : AccountId) (ms : list EnterOrder)
    (frames : list bytes),
  Forall2 (fun m f => decodeEnterOrder (Some f) (Z.of_nat EnterOrderSize) = Some (Some m)) ms frames ->
  Forall placeable ms ->
  Sequencer_init + (1 + DefaultOrderCapacity) * Z.of_nat (length ms) < 2 ^ 64 ->
  let '(ids, trades, st) := spec_run spec_new (order_submission account <$> ms) in
  exists resps g, exchange_run std_hash (MatchingEngine_new base exchange_env) account frames =
      Some (resps, g) /\
    shows std_hash (eng_book g) (eng_heap g) (sp_book st) /\ Forall3 answered ids ms resps /\
    sessionMap_ (eng_env g) = session_of ∅ ids ms /\
    (forall t, last trades = Some t -> reported (eng_env g) t).
Proof. intros std_hash base account ms frames. apply exchange_run_new. Qed.

(** A sell order that rests and a buy order that takes part of it. *)
Definition exchange_demo_orders : list EnterOrder :=
  [ mkEnterOrder 7 Sell 30 (replicate 8 65) 100 48 89 65 78 78 (replicate 14 32) 0;
    mkEnterOrder 8 Buy 10 (replicate 8 65) 101 48 89 65 78 78 (replicate 14 32) 0 ].

Definition exchange_demo_frames : list bytes :=
  Eval vm_compute in default [] (mapM OuchEncoder_encode exchange_demo_orders).

Lemma exchange_witness :
  exists resps g,
    exchange_run (fun k => k) (MatchingEngine_new 0 exchange_env) 1001 exchange_demo_frames = Some (resps, g) /\
    Forall3 answered [1001; 1002] exchange_demo_orders resps /\
    reported (eng_env g) (mkTrade 1003 1002 1001 1001 1001 100 10).
Proof.
  pose proof (exchange_answers_and_reports (fun k => k) 0 1001 exchange_demo_orders exchange_demo_frames) as H.
  assert (spec_run spec_new (order_submission 1001 <$> exchange_demo_orders) =
    ([1001; 1002], [mkTrade 1003 1002 1001 1001 1001 100 10], mkSpec [mkLimit 1001 1001 Sell 100 20] 1003)) as Es
    by (vm_compute; reflexivity).
  rewrite Es in H. destruct H as (resps & g & E & _ & Ha & _ & Hr).
  - do 2 (apply Forall2_cons; split; [vm_compute; reflexivity|]). by constructor.
  - unfold placeable, admissible_order, valid_price, MaxPriceLevels.
    repeat constructor; unfold is_uint; cbn; lia.
  - vm_compute. reflexivity.
  - exists resps, g. split; [exact E|]. split; [exact Ha|]. by apply Hr.
Defined.

(** The time in force of an order is echoed and otherwise ignored: an order that is to be
    executed immediately or cancelled, and meets nothing, rests in the book. *)
Theorem immediate_or_cancel_order_rests :
  forall (std_hash : Z -> Z) (base : Z) (account : AccountId) (m : EnterOrder) (f : bytes),
  decodeEnterOrder (Some f) (Z.of_nat EnterOrderSize) = Some (Some m) -> placeable m ->
  eo_timeInForce m = TimeInForce_ImmediateOrCancel ->
  exists resps g, exchange_run std_hash (MatchingEngine_new base exchange_env) account [f] = Some (resps, g) /\
    shows std_hash (eng_book g) (eng_heap g)
      [mkLimit 1001 account (eo_side m) (i64 (eo_price m)) (eo_quantity m)].
Proof.
  intros std_hash base account m f Hd Hm _.
  pose proof (exchange_run_new std_hash base account [m] [f]) as H.
  assert (spec_run spec_new (order_submission account <$> [m]) =
    ([1001], [], mkSpec [mkLimit 1001 account (eo_side m) (i64 (eo_price m)) (eo_quantity m)] 1001)) as Es.
  { cbn [fmap list_fmap spec_run order_submission sub_account sub_side sub_price sub_quantity].
    unfold spec_submit, spec_new, filled, apply_fills. cbn. rewrite Z.sub_0_r.
    rewrite (proj2 (Z.ltb_lt _ _)) by apply Hm. done. }
  rewrite Es in H. destruct H as (resps & g & E & Hshow & _);
    [apply Forall2_cons; split; [exact Hd|apply Forall2_nil_2]|apply Forall_singleton; exact Hm|done|].
  by exists resps, g.
Qed.
