(* ===== verification/PriceBounds.v ===== *)
(** * Prices beyond the level arrays

    No part of the program checks that a price lies inside the level arrays of the book:
    not the risk manager in front of the matching engine, and not the handler of the
    exchange, which takes the price from the network.  This file shows what an order does
    whose price is beyond them and which meets no resting order: it reaches
    [ArrayOrderBook::addOrder], which indexes the arrays out of bounds. *)

From S2P Require Import Prelude Types OrderPool PriceLevel Bitmap OrderBook BookStore MatchingEngine.
From S2P Require Import MatchingSpec MatchingProofs Risk Gateway Floor Wire Ouch Exchange.

Lemma getLevel_out_of_range s p : is_sint 64 p -> ~ (0 <= p < MaxPriceLevels) -> getLevel s p = None.
Proof.
  unfold is_sint. intros Hp Hn. unfold getLevel, priceToIndex. rewrite (proj2 (in_range_false _ _)); [done|].
  unfold MaxPriceLevels in *. destruct (Z_lt_ge_dec p 0).
  - unfold wrap. rewrite <- (Z.mod_add p 1), Z.mod_small by lia. lia.
  - rewrite wrap_small by lia. lia.
Qed.

Section bounds.

Context (std_hash : Z -> Z) {E : Type} (publish : Trade -> E -> E).

(** Whenever a slot is free, an order beyond the arrays that nothing resting is
    acceptable to is indexed out of bounds. *)
Lemma submit_out_of_range (g : Engine E) st account s p q :
  engine_rel std_hash g st -> 0 < OrderPool_available (eng_pool g) ->
  is_sint 64 p -> ~ (0 <= p < MaxPriceLevels) ->
  (forall r, r ∈ sp_book st -> lo_side r = opposite s -> crosses s p r = false) ->
  MatchingEngine_submitOrder std_hash publish g account s p q = None.
Proof.
  intros Rel Hav Hp Hn Hc. pose proof (engine_rel_length _ _ _ Rel) as Hlen.
  destruct (submit_process std_hash publish g st account s p q Rel) as (g1 & o & M & _ & _ & ->); [lia|].
  destruct M as (L & ord & R & _ & EA & Ho & Ev). unfold MatchingEngine_process.
  rewrite (canCross_spec _ _ _ _ _ _ R Ho), EA.
  assert (ord_side ord = s /\ ord_price ord = p) as [Hs Hpr] by (unfold view in Ev; by injection Ev).
  rewrite Hs, Hpr. cbn [mbind option_bind]. rewrite no_cross_head by done.
  unfold ArrayOrderBook_addOrder. cbn [mbind option_bind]. rewrite Ho. cbn [mbind option_bind].
  by rewrite Hs, Hpr, getLevel_out_of_range.
Qed.

(** A resting order is inside the arrays, so a sell order beyond their end meets none. *)
Lemma sell_beyond_meets_nothing (g : Engine E) st p :
  engine_rel std_hash g st -> MaxPriceLevels <= p ->
  forall r, r ∈ sp_book st -> lo_side r = Buy -> crosses Sell p r = false.
Proof.
  intros (L & R & _ & <- & _) Hp r Hr Hs. apply bool_decide_eq_false. intros Hb. destruct (st_book _ _ _ _ _ _ R) as [Idx RB].
  assert (queue_of (eng_heap g) L Buy (lo_price r) <> []) as Hq by (apply queue_nonempty; by exists r).
  pose proof (rel_valid _ _ _ _ _ RB _ _ Hq) as Hv. unfold valid_price in Hv. cbn in Hb. lia.
Qed.

End bounds.

(** ** Properties *)

(** C18: prices beyond the level arrays are stopped neither at the gateway nor at the
    exchange.  After any admissible intents, one unit offered at any price from 100,000 up to
    the value limit passes every risk check as long as the account may sell, and when the
    engine behind the gateway has a free slot it indexes its level arrays out of bounds.
    After any placeable orders, a single Enter Order frame that decodes to a sell order at
    such a price does the same to the exchange, whatever client sent it. *)
Theorem prices_beyond_the_book_are_not_stopped :
  forall (std_hash : Z -> Z) (base : Z) (account : AccountId) (p : Price),
  MaxPriceLevels <= p <= MaxOrderValue ->
  (forall intents, Forall floor_intent intents ->
     Sequencer_init + (1 + DefaultOrderCapacity) * Z.of_nat (length intents) < 2 ^ 64 ->
     exists results g, floor_run std_hash (floor_new base) intents = Some (results, g) /\
       let intent := mkOrderIntent account Sell no_symbol p 1 in
       (- MaxPosition < currentPosition (riskManager_ g) account ->
        RiskManager_check (riskManager_ g) intent = Risk.Accepted) /\
       (RiskManager_check (riskManager_ g) intent = Risk.Accepted ->
        0 < OrderPool_available (eng_pool (executionSink_ g)) -> floor_submit std_hash g intent = None)) /\
  (forall ms frames f m,
     Forall2 (fun m f => decodeEnterOrder (Some f) (Z.of_nat EnterOrderSize) = Some (Some m)) ms frames ->
     Forall placeable ms -> Sequencer_init + (1 + DefaultOrderCapacity) * Z.of_nat (length ms) < 2 ^ 64 ->
     decodeEnterOrder (Some f) (Z.of_nat EnterOrderSize) = Some (Some m) ->
     eo_side m = Sell -> eo_price m = p ->
     exists resps g, exchange_run std_hash (MatchingEngine_new base exchange_env) account frames =
         Some (resps, g) /\
       (0 < OrderPool_available (eng_pool g) ->
        ExchangeOuchHandler_handleEnterOrder std_hash ExchangeExecutionListener_onTrade g account (Some f)
          (Z.of_nat EnterOrderSize) = None)).
Proof.
  intros std_hash base account p Hp. unfold MaxOrderValue, MaxPriceLevels in Hp.
  assert (is_sint 64 p /\ ~ (0 <= p < MaxPriceLevels) /\ MaxPriceLevels <= p) as (Hs & Hn & Hm)
    by (unfold is_sint, MaxPriceLevels; lia).
  split.
  - intros intents Hi Hseq. pose proof (floor_run_new std_hash base intents Hi Hseq) as H.
    destruct (floor_spec RiskManager_new spec_new intents) as [[results trades] [r st]].
    destruct H as (engine & Er & R & Hw & _). exists results, (mkGateway r engine). split; [exact Er|].
    cbn [riskManager_ executionSink_]. split.
    + intros Hpos. specialize (Hw account) as Hwa.
      assert (intent_wf (mkOrderIntent account Sell no_symbol p 1)) as Hwf.
      { unfold intent_wf, is_sint, is_uint in *. cbn. lia. }
      apply check_accepted; [done..|]. rewrite orderValue_exact by (cbn; (done || lia)).
      unfold signed_quantity, MaxOrderQuantity, MaxOrderValue, MaxPosition in *. cbn. lia.
    + intros Hc Hav. unfold floor_submit, Gateway_submit. cbn [riskManager_ executionSink_].
      rewrite Hc, bool_decide_false by naive_solver. unfold sink_submit, MatchingEngineExecutionSink.
      cbn [int_accountId int_side int_price int_quantity].
      by rewrite (submit_out_of_range _ _ _ st) by (done || by eapply sell_beyond_meets_nothing).
  - intros ms frames f m Hf Hpl Hseq Hd Es Ep.
    pose proof (exchange_run_refines std_hash account ms frames Hf Hpl (MatchingEngine_new base exchange_env)
      spec_new (engine_rel_new std_hash base exchange_env) spec_inv_new) as H.
    destruct (spec_run spec_new _) as [[ids trades] st].
    destruct H as (resps & g & E & R & _); [constructor; cbn; [|done]|done|].
    { intros x Hx. by apply elem_of_nil in Hx. }
    exists resps, g. split; [done|]. intros Hav. rewrite (handle_decoded _ _ _ _ _ _ _ Hd). cbn zeta.
    destruct (OrderPool_acquire (eng_pool g)) as [[o|] pool] eqn:Ea; cbn [fst].
    + rewrite Es, Ep, sint_small by (unfold is_sint in Hs; lia).
      by rewrite (submit_out_of_range _ _ _ st) by (done || by eapply sell_beyond_meets_nothing).
    + pose proof (engine_rel_length _ _ _ R) as Hlen. destruct R as (L & R & _ & EA & _).
      pose proof (store_acquire _ _ _ _ _ _ R) as Hac. rewrite Ea in Hac. destruct Hac as [_ Hac].
      cbn [app] in Hac. rewrite <- EA in Hlen. unfold abs in Hlen. rewrite length_fmap in Hlen. lia.
Qed.

(** An offer at 100,000 in a frame of the exchange's own protocol. *)
Definition beyond_order : EnterOrder :=
  mkEnterOrder 9 Sell 1 (replicate 8 65) 100000 48 89 65 78 78 (replicate 14 32) 0.

Definition beyond_frame : bytes := Eval vm_compute in default [] (OuchEncoder_encode beyond_order).

Lemma prices_beyond_witness :
  (exists results g, floor_run (fun k => k) (floor_new 0) demo_intents3 = Some (results, g) /\
     let intent := mkOrderIntent 7 Sell no_symbol 100000 1 in
     (- MaxPosition < currentPosition (riskManager_ g) 7 ->
      RiskManager_check (riskManager_ g) intent = Risk.Accepted) /\
     (RiskManager_check (riskManager_ g) intent = Risk.Accepted ->
      0 < OrderPool_available (eng_pool (executionSink_ g)) -> floor_submit (fun k => k) g intent = None)) /\
  ExchangeOuchHandler_handleEnterOrder (fun k => k) ExchangeExecutionListener_onTrade
    (MatchingEngine_new 0 exchange_env) 7 (Some beyond_frame) (Z.of_nat EnterOrderSize) = None.
Proof.
  destruct (prices_beyond_the_book_are_not_stopped (fun k => k) 0 7 100000) as [H1 H2];
    [unfold MaxPriceLevels, MaxOrderValue; lia|].
  split; [apply (H1 demo_intents3 demo_admissible); vm_compute; reflexivity|].
  destruct (H2 [] [] beyond_frame beyond_order) as (resps & g & E & H); [constructor|constructor|
    vm_compute; reflexivity..|]. cbn [exchange_run] in E. injection E as _ <-. apply H. vm_compute. reflexivity.
Defined.
