(* ===== verification/ZeroQuantity.v ===== *)
(** * Orders of quantity zero

    The risk manager refuses an order without a quantity, but the exchange's handler hands
    it to the matching engine.  This file follows such an order: it rests like any other;
    the next order that meets it trades nothing with it, removes it, and [matchOne] reports
    that nothing was traded, which ends the matching loop before the orders behind it are
    looked at. *)

From S2P Require Import Prelude Types OrderPool PriceLevel Bitmap OrderBook BookStore MatchingEngine.
From S2P Require Import MatchingSpec MatchingProofs Risk Wire Ouch Exchange.

Section engine.

Context (std_hash : Z -> Z) {E : Type} (publish : Trade -> E -> E).

(** An order, of any quantity, that nothing resting is acceptable to rests. *)
Lemma submit_rests (g : Engine E) st account s p q :
  engine_rel std_hash g st -> Z.of_nat (length (sp_book st)) < DefaultOrderCapacity ->
  0 <= sp_sequence st < 2 ^ 64 - 1 -> valid_price p ->
  (forall y, y ∈ sp_book st -> lo_id y <> sp_sequence st + 1) ->
  (forall r, r ∈ sp_book st -> lo_side r = opposite s -> crosses s p r = false) ->
  exists g', MatchingEngine_submitOrder std_hash publish g account s p q = Some (sp_sequence st + 1, g') /\
    engine_rel std_hash g' (mkSpec (sp_book st ++ [mkLimit (sp_sequence st + 1) account s p q])
                              (sp_sequence st + 1)) /\
    eng_env g' = eng_env g.
Proof.
  intros Rel Hlen Hseq Hv Hids Hc.
  destruct (submit_process std_hash publish g st account s p q Rel Hlen) as (g1 & o & M & Es & Ee & ->).
  unfold Sequencer_next in *. rewrite wrap_small in * by lia.
  destruct M as (L & ord & R & Ht & EA & Ho & Ev). unfold MatchingEngine_process.
  rewrite (canCross_spec _ _ _ _ _ _ R Ho), EA.
  assert (ord_side ord = s /\ ord_price ord = p /\ ord_id ord = sp_sequence st + 1) as (Hs & Hp & Hi)
    by (unfold view in Ev; by injection Ev).
  rewrite Hs, Hp. cbn [mbind option_bind].
  rewrite no_cross_head by done.
  destruct (store_add _ _ _ _ _ _ _ ord R Ho) as (b' & h' & -> & R' & SD & Ht'); [by rewrite Hp| |].
  { intros y Hy. rewrite Hi. apply Hids. rewrite <- EA. apply elem_of_abs. by exists y. }
  cbn [mbind option_bind]. eexists. split; [done|]. split; [|exact Ee]. exists (L ++ [o]).
  cbn [eng_book eng_pool eng_heap eng_sequence sp_book sp_sequence].
  split; [done|]. split; [by apply Ht'|]. split; [|done].
  rewrite (abs_same_data _ _ _ SD). unfold abs in *. rewrite fmap_app, EA. cbn.
  by rewrite (view_of_lookup _ _ _ Ho), Ev.
Qed.

(** [matchOne] against a best order without quantity: a trade of 0, the order is removed,
    and the loop is told that nothing was traded. *)
Lemma match_zero (g : Engine E) i x A r l :
  matching std_hash g i x A -> 0 < lo_quantity x < 2 ^ 32 -> 0 <= eng_sequence g < 2 ^ 64 - 1 ->
  priority (opposite (lo_side x)) A = r :: l -> lo_quantity r = 0 ->
  exists g', MatchingEngine_matchOne std_hash publish g (Some i) = Some (false, g') /\
    matching std_hash g' i x (spec_delete (lo_id r) A) /\ eng_sequence g' = eng_sequence g + 1 /\
    eng_env g' = publish (spec_trade (eng_sequence g + 1) x r 0) (eng_env g).
Proof.
  intros (L & iord & R & Ht & EA & Hi & <-) Hq Hseq El Hz. cbn [view lo_side lo_quantity] in Hq, El.
  pose proof (best_of_priority _ _ _ _ _ _ (opposite (ord_side iord)) R) as Hb. rewrite EA, El in Hb.
  destruct Hb as (o & ord & Hb & Hread & _ & Hfront & Hin & Ho & <- & Hside & Hlv).
  cbn [view lo_quantity lo_id lo_price] in *. rewrite <- Hside in *.
  destruct (store_held_fresh _ _ _ _ _ _ _ R) as [HiL _].
  rewrite (matchOne_eval std_hash publish g i iord o ord) by (done || lia || (intros ->; done)).
  rewrite Z.min_r by lia.
  destruct (cancel_filled std_hash _ _ _ _ _ _ _ _ _ R Ht Hi Hin Ho eq_refl)
    as (b3 & h3 & L' & iord' & E3 & R3 & Ht3 & EA3 & Hi3 & Ev).
  rewrite Z.sub_diag in *. cbn [Z.eqb]. rewrite E3. cbn [mbind option_bind]. rewrite Hz in *.
  eexists. split; [done|]. split; [|done].
  exists L', iord'. cbn [eng_book eng_pool eng_heap eng_sequence]. rewrite EA in EA3. split_and!; try done.
  rewrite Ev. rewrite Z.sub_0_r. apply lo_set_quantity_id.
Qed.

(** An order that first meets one without quantity trades nothing more and rests. *)
Lemma submit_meets_zero (g : Engine E) st account s p q r l :
  engine_rel std_hash g st -> Z.of_nat (length (sp_book st)) < DefaultOrderCapacity ->
  0 <= sp_sequence st < 2 ^ 64 - 2 -> admissible_order p q ->
  (forall y, y ∈ sp_book st -> lo_id y <> sp_sequence st + 1) ->
  priority (opposite s) (sp_book st) = r :: l -> crosses s p r = true -> lo_quantity r = 0 ->
  let x := mkLimit (sp_sequence st + 1) account s p q in
  exists g', MatchingEngine_submitOrder std_hash publish g account s p q = Some (sp_sequence st + 1, g') /\
    engine_rel std_hash g' (mkSpec (spec_delete (lo_id r) (sp_book st) ++ [x]) (sp_sequence st + 2)) /\
    eng_env g' = publish (spec_trade (sp_sequence st + 2) x r 0) (eng_env g).
Proof.
  intros Rel Hlen Hseq [Hv Hq] Hids El Hc Hz x.
  destruct (submit_process std_hash publish g st account s p q Rel Hlen) as (g1 & o & M & Es & Ee & ->).
  unfold Sequencer_next in *. rewrite wrap_small in * by lia. fold x in M.
  destruct (match_zero g1 o x (sp_book st) r l M) as (g2 & E2 & M2 & Es2 & Ee2); [done|lia|done|done|].
  destruct (settle_spec std_hash g2 o x _ M2) as (g3 & E3 & R3 & Ee3); [done| |].
  { intros y [_ Hy]%list_elem_of_filter. by apply Hids. }
  cbn [lo_quantity x] in E3, R3. rewrite (proj2 (Z.ltb_lt 0 q)) in R3 by lia.
  exists g3. split; [|rewrite Es2, Es in R3; rewrite Ee3, Ee2, Es, Ee;
    by replace (sp_sequence st + 1 + 1) with (sp_sequence st + 2) in * by lia].
  destruct M as (L & ord & R & _ & EA & Ho & Ev). unfold MatchingEngine_process.
  assert (MatchingEngine_canCross g1 (Some o) = Some true) as Ec.
  { rewrite (canCross_spec _ _ _ _ _ _ R Ho), EA. unfold view, x in Ev. injection Ev as _ _ -> -> _. by rewrite El, Hc. }
  rewrite Ec. cbn [mbind option_bind]. unfold MatchingEngine_executeTrade.
  replace executeTrade_fuel with (S (Z.to_nat (DefaultOrderCapacity + 1)))
    by (unfold executeTrade_fuel, DefaultOrderCapacity; lia).
  cbn [executeTrade_loop mbind option_bind]. rewrite Ho. cbn [mbind option_bind].
  assert (ord_quantity ord = q) as -> by (unfold view, x in Ev; by injection Ev).
  rewrite Z.gtb_ltb, (proj2 (Z.ltb_lt 0 q)) by lia. rewrite Ec. cbn [mbind option_bind]. rewrite E2.
  cbn [mbind option_bind]. destruct M2 as (L2 & ord2 & _ & _ & _ & Ho2 & Ev2). rewrite Ho2. cbn [mbind option_bind].
  assert (ord_quantity ord2 = q) as -> by (unfold view, x in Ev2; by injection Ev2).
  unfold settle in E3. by rewrite E3.
Qed.

End engine.

(** ** On the exchange *)

Section exchange.

Variable std_hash : Z -> Z.

Abbreviation handle := (ExchangeOuchHandler_handleEnterOrder std_hash ExchangeExecutionListener_onTrade).

(** With a free slot the handler submits whatever it decoded, and answers it. *)
Lemma handle_submits g st account f m :
  engine_rel std_hash g st -> Z.of_nat (length (sp_book st)) < DefaultOrderCapacity ->
  decodeEnterOrder (Some f) (Z.of_nat EnterOrderSize) = Some (Some m) -> eo_wf m ->
  exists e bs, handle g account (Some f) (Z.of_nat EnterOrderSize) =
    ('(_, g') ← MatchingEngine_submitOrder std_hash ExchangeExecutionListener_onTrade (with_env g e) account
                  (eo_side m) (i64 (eo_price m)) (eo_quantity m);
     Some (Some bs, g')).
Proof.
  intros (L & R & _ & EA & _) Hlen Hd W. rewrite (handle_decoded _ _ _ _ _ _ _ Hd). cbv zeta.
  assert (length (sp_book st) = length L) as El by (rewrite <- EA; apply length_fmap).
  pose proof (store_acquire _ _ _ _ _ _ R) as Ha. cbn [app] in Ha.
  destruct (OrderPool_acquire (eng_pool g)) as [[o|] pool]; cbn [fst]; [|destruct Ha; lia].
  rewrite accepted_bytes by (by apply accepted_for_wf, wrap_range). eexists _, _. reflexivity.
Qed.

(** A decoded price inside the level arrays is the engine's price. *)
Lemma price_kept p v : valid_price p -> v = p -> i64 v = p.
Proof. unfold valid_price, MaxPriceLevels. intros Hv ->. apply sint_small; lia. Qed.

Lemma handle_rests g st account f m p q :
  engine_rel std_hash g st -> Z.of_nat (length (sp_book st)) < DefaultOrderCapacity ->
  0 <= sp_sequence st < 2 ^ 64 - 1 -> valid_price p ->
  (forall y, y ∈ sp_book st -> lo_id y <> sp_sequence st + 1) ->
  (forall r, r ∈ sp_book st -> lo_side r = opposite (eo_side m) -> crosses (eo_side m) p r = false) ->
  decodeEnterOrder (Some f) (Z.of_nat EnterOrderSize) = Some (Some m) -> eo_wf m ->
  eo_price m = p -> eo_quantity m = q ->
  exists bs g', handle g account (Some f) (Z.of_nat EnterOrderSize) = Some (Some bs, g') /\
    engine_rel std_hash g' (mkSpec (sp_book st ++ [mkLimit (sp_sequence st + 1) account (eo_side m) p q])
                              (sp_sequence st + 1)).
Proof.
  intros R Hl Hs Hv Hids Hc Hd W Hp Hq. destruct (handle_submits _ _ account f m R Hl Hd W) as (e & bs & ->).
  rewrite (price_kept p _ Hv Hp), Hq.
  destruct (submit_rests std_hash ExchangeExecutionListener_onTrade (with_env g e) st account (eo_side m) p q R)
    as (g' & E & R' & _); try done.
  rewrite E. by exists bs, g'.
Qed.

Lemma handle_meets_zero g st account f m p q r l :
  engine_rel std_hash g st -> Z.of_nat (length (sp_book st)) < DefaultOrderCapacity ->
  0 <= sp_sequence st < 2 ^ 64 - 2 -> admissible_order p q ->
  (forall y, y ∈ sp_book st -> lo_id y <> sp_sequence st + 1) ->
  priority (opposite (eo_side m)) (sp_book st) = r :: l -> crosses (eo_side m) p r = true -> lo_quantity r = 0 ->
  decodeEnterOrder (Some f) (Z.of_nat EnterOrderSize) = Some (Some m) -> eo_wf m ->
  eo_price m = p -> eo_quantity m = q ->
  exists bs g', handle g account (Some f) (Z.of_nat EnterOrderSize) = Some (Some bs, g') /\
    engine_rel std_hash g' (mkSpec (spec_delete (lo_id r) (sp_book st) ++
      [mkLimit (sp_sequence st + 1) account (eo_side m) p q]) (sp_sequence st + 2)).
Proof.
  intros R Hl Hs Ha Hids El Hc Hz Hd W Hp Hq. pose proof Ha as [Hv _].
  destruct (handle_submits _ _ account f m R Hl Hd W) as (e & bs & ->).
  rewrite (price_kept p _ Hv Hp), Hq.
  destruct (submit_meets_zero std_hash ExchangeExecutionListener_onTrade (with_env g e) st account (eo_side m) p q
    r l R) as (g' & E & R' & _); try done.
  rewrite E. by exists bs, g'.
Qed.

(** The prices and sides of the three orders. *)
Definition zero_orders (p : Price) (q : Quantity) (m1 m2 m3 : EnterOrder) : Prop :=
  Forall eo_wf [m1; m2; m3] /\ eo_price <$> [m1; m2; m3] = [p; p; p] /\
  eo_side <$> [m1; m2; m3] = [Sell; Sell; Buy] /\ eo_quantity <$> [m1; m2; m3] = [0; q; q].

(** C12: an order of quantity zero leaves the exchange with a crossed book.  The risk manager
    refuses such an order, but the exchange's handler accepts it.  A client that offers 0 and
    then [q] units at a price, and bids [q] units at the same price, gets all three orders
    accepted; the bid meets the order of 0 first, trades nothing, removes it and stops
    matching, and the offer and the bid of [q] units at the same price are both left in the
    book, best ask and best bid being equal. *)
Theorem zero_quantity_order_crosses_the_book :
  (forall r intent, int_quantity intent = 0 -> RiskManager_check r intent <> Risk.Accepted) /\
  (forall base account p q m1 m2 m3 frames,
     admissible_order p q -> zero_orders p q m1 m2 m3 ->
     Forall2 (fun m f => decodeEnterOrder (Some f) (Z.of_nat EnterOrderSize) = Some (Some m))
       [m1; m2; m3] frames ->
     exists resps g,
       exchange_run std_hash (MatchingEngine_new base exchange_env) account frames = Some (resps, g) /\
       Forall is_Some resps /\ length resps = 3%nat /\
       shows std_hash (eng_book g) (eng_heap g)
         [mkLimit 1002 account Sell p q; mkLimit 1003 account Buy p q] /\
       best_ask_ (eng_book g) = p /\ best_bid_ (eng_book g) = p).
Proof.
  split.
  { intros r intent Hz. unfold RiskManager_check. rewrite Hz. by bcase. }
  intros base account p q m1 m2 m3 frames Hadm (W & Hp & Hs & Hq) HF. pose proof Hadm as [Hv Hqr].
  injection Hp as Hp1 Hp2 Hp3. injection Hs as Hs1 Hs2 Hs3. injection Hq as Hq1 Hq2 Hq3.
  apply Forall2_cons_inv_l in HF as (f1 & fs1 & D1 & HF & ->).
  apply Forall2_cons_inv_l in HF as (f2 & fs2 & D2 & HF & ->).
  apply Forall2_cons_inv_l in HF as (f3 & fs3 & D3 & HF & ->). apply Forall2_nil_inv_l in HF as ->.
  apply Forall_cons in W as [W1 W]. apply Forall_cons in W as [W2 W]. apply Forall_cons in W as [W3 _].
  cbn [exchange_run].
  pose proof (engine_rel_new std_hash base exchange_env) as R0.
  revert R0. generalize (MatchingEngine_new base exchange_env). intros g0 R0.
  destruct (handle_rests g0 spec_new account f1 m1 p 0 R0) as (bs1 & g1 & -> & R1); try done;
    [by intros y ?%elem_of_nil..|].
  cbn [mbind option_bind sp_book spec_new app sp_sequence] in R1 |- *. rewrite Hs1 in R1.
  destruct (handle_rests g1 _ account f2 m2 p q R1) as (bs2 & g2 & -> & R2); try done; cbn [sp_book sp_sequence].
  { intros y ->%list_elem_of_singleton. cbn. lia. }
  { rewrite Hs2. by intros y ->%list_elem_of_singleton. }
  cbn [mbind option_bind sp_book app sp_sequence] in R2 |- *. rewrite Hs2 in R2.
  set (r := mkLimit (Sequencer_init + 1) account Sell p 0) in R2.
  set (x := mkLimit (Sequencer_init + 1 + 1) account Sell p q) in R2.
  destruct (handle_meets_zero g2 _ account f3 m3 p q r [x] R2) as (bs3 & g3 & -> & R3); try done;
    cbn [sp_book sp_sequence]; rewrite ?Hs3.
  { intros y [->|[->|[]%elem_of_nil]%elem_of_cons]%elem_of_cons; unfold r, x; cbn [lo_id]; lia. }
  { cbn [priority opposite]. unfold r, x. cbn [lo_side]. rewrite !bool_decide_true by done. cbn [prio_insert lo_price].
    by rewrite bool_decide_true by apply better_eq_refl. }
  { unfold crosses. apply bool_decide_eq_true. cbn. lia. }
  cbn [mbind option_bind]. eexists _, g3. split; [done|].
  split; [repeat constructor; by eexists|]. split; [done|].
  assert (shows std_hash (eng_book g3) (eng_heap g3)
    [mkLimit 1002 account Sell p q; mkLimit 1003 account Buy p q]) as Hsh.
  { destruct R3 as (L & R3 & _ & EA & _). apply store_shows in R3. rewrite EA, Hs3 in R3. exact R3. }
  split; [exact Hsh|]. destruct Hsh as [Hb Ha _ _]. rewrite Ha, Hb. unfold valid_price in Hv.
  split; [done|]. apply (Z.max_l p 0). lia.
Qed.

End exchange.

Lemma zero_quantity_witness :
  exists resps g,
    exchange_run (fun k => k) (MatchingEngine_new 0 exchange_env) 7
      (default [] (mapM OuchEncoder_encode
        [ mkEnterOrder 1 Sell 0 (replicate 8 65) 100 48 89 65 78 78 (replicate 14 32) 0;
          mkEnterOrder 2 Sell 5 (replicate 8 65) 100 48 89 65 78 78 (replicate 14 32) 0;
          mkEnterOrder 3 Buy 5 (replicate 8 65) 100 48 89 65 78 78 (replicate 14 32) 0 ])) = Some (resps, g) /\
    best_ask_ (eng_book g) = 100 /\ best_bid_ (eng_book g) = 100.
Proof.
  destruct (zero_quantity_order_crosses_the_book (fun k => k)) as [_ H].
  destruct (H 0 7 100 5 (mkEnterOrder 1 Sell 0 (replicate 8 65) 100 48 89 65 78 78 (replicate 14 32) 0)
    (mkEnterOrder 2 Sell 5 (replicate 8 65) 100 48 89 65 78 78 (replicate 14 32) 0)
    (mkEnterOrder 3 Buy 5 (replicate 8 65) 100 48 89 65 78 78 (replicate 14 32) 0)
    (default [] (mapM OuchEncoder_encode
        [ mkEnterOrder 1 Sell 0 (replicate 8 65) 100 48 89 65 78 78 (replicate 14 32) 0;
          mkEnterOrder 2 Sell 5 (replicate 8 65) 100 48 89 65 78 78 (replicate 14 32) 0;
          mkEnterOrder 3 Buy 5 (replicate 8 65) 100 48 89 65 78 78 (replicate 14 32) 0 ])))
    as (resps & g & E & _ & _ & _ & Ha & Hb).
  - unfold admissible_order, valid_price, MaxPriceLevels. lia.
  - split; [|done]. repeat constructor; unfold is_uint; cbn; lia.
  - set (fs := default [] _). assert (fs = [nth 0 fs []; nth 1 fs []; nth 2 fs []]) as -> by (vm_compute; reflexivity).
    repeat apply Forall2_cons_2; [vm_compute; reflexivity..|constructor].
  - exists resps, g. split; [exact E|]. split; [exact Ha|exact Hb].
Defined.
