(* ===== verification/ExchangeServer.v ===== *)
(** * The exchange's TCP/TLS server

    [exchange/exchange_tcp_server.{hpp,cpp}]: a non-blocking epoll server that
    reassembles Enter Order frames from each client's byte stream, hands them to the
    order handler and queues the responses.

    The handler is an interface, [OuchHandler]; the server's theorems hold for every
    instance, and [ExchangeHandler] is the exchange's own.  A [ClientState&] is the
    entry of the client map, read again at each use, so that the frame loop sees what
    [sendAll] does to the same client.  [clients_] is iterated in the order of
    [map_to_list]; the source's order is unspecified.  Loops take fuel. *)

From S2P Require Import Prelude Types MatchingEngine Wire Ouch Net Exchange.

(** The order handler: a response or none, and the handler afterwards. *)
Class OuchHandler (H : Type) : Type :=
  handle_order : H -> AccountId -> bytes -> option (option bytes * H).

#[export] Instance ExchangeHandler (std_hash : Z -> Z) (publish : Trade -> ExchangeEnv -> ExchangeEnv)
    : OuchHandler (Engine ExchangeEnv) := fun g account data =>
  ExchangeOuchHandler_handleEnterOrder std_hash publish g account (Some data)
    (Z.of_nat (length data)).

(** ** State *)

Definition MaxEvents : Z := 32.

Record ClientState : Type := mkClientState {
  cl_ssl : Z;
  cl_tlsHandshakeComplete : bool;
  cl_receiveBuffer : bytes;
  cl_receivedBytes : nat;
  cl_sendBuffer : bytes;
  cl_sentBytes : nat
}.

Definition ClientState_new (ssl : Z) (complete : bool) : ClientState :=
  mkClientState ssl complete (replicate EnterOrderSize 0) 0 [] 0.

Record ExchangeTcpServer (H : Type) : Type := mkServer {
  srv_port : Z;
  srv_accountId : AccountId;
  srv_handler : H;
  srv_certificatePath : list Z;
  srv_privateKeyPath : list Z;
  srv_sslContext : Z;
  srv_listenFd : Z;
  srv_epollFd : Z;
  srv_clients : gmap Z ClientState
}.
Arguments mkServer {H}.
Arguments srv_port {H}.
Arguments srv_accountId {H}.
Arguments srv_handler {H}.
Arguments srv_certificatePath {H}.
Arguments srv_privateKeyPath {H}.
Arguments srv_sslContext {H}.
Arguments srv_listenFd {H}.
Arguments srv_epollFd {H}.
Arguments srv_clients {H}.

(** ** Assignments *)

Definition cl_handshake_done (c : ClientState) : ClientState :=
  mkClientState (cl_ssl c) true (cl_receiveBuffer c) (cl_receivedBytes c) (cl_sendBuffer c)
    (cl_sentBytes c).

Definition cl_set_received (c : ClientState) (buffer : bytes) (n : nat) : ClientState :=
  mkClientState (cl_ssl c) (cl_tlsHandshakeComplete c) buffer n (cl_sendBuffer c) (cl_sentBytes c).

Definition cl_set_send (c : ClientState) (buffer : bytes) (n : nat) : ClientState :=
  mkClientState (cl_ssl c) (cl_tlsHandshakeComplete c) (cl_receiveBuffer c) (cl_receivedBytes c)
    buffer n.

Section server.
Context {W : Type} `{!World W} {H : Type} `{!OuchHandler H}.

Abbreviation Server := (ExchangeTcpServer H).

Definition ExchangeTcpServer_new (port : Z) (accountId : AccountId) (handler : H)
    (certificatePath privateKeyPath : list Z) : Server :=
  mkServer port accountId handler certificatePath privateKeyPath 0 (-1) (-1) ∅.

Definition set_port (s : Server) (port : Z) : Server :=
  mkServer port (srv_accountId s) (srv_handler s) (srv_certificatePath s) (srv_privateKeyPath s)
    (srv_sslContext s) (srv_listenFd s) (srv_epollFd s) (srv_clients s).

Definition set_handler (s : Server) (h : H) : Server :=
  mkServer (srv_port s) (srv_accountId s) h (srv_certificatePath s) (srv_privateKeyPath s)
    (srv_sslContext s) (srv_listenFd s) (srv_epollFd s) (srv_clients s).

Definition set_sslContext (s : Server) (ctx : Z) : Server :=
  mkServer (srv_port s) (srv_accountId s) (srv_handler s) (srv_certificatePath s)
    (srv_privateKeyPath s) ctx (srv_listenFd s) (srv_epollFd s) (srv_clients s).

Definition set_fds (s : Server) (listenFd epollFd : Z) : Server :=
  mkServer (srv_port s) (srv_accountId s) (srv_handler s) (srv_certificatePath s)
    (srv_privateKeyPath s) (srv_sslContext s) listenFd epollFd (srv_clients s).

Definition set_clients (s : Server) (clients : gmap Z ClientState) : Server :=
  mkServer (srv_port s) (srv_accountId s) (srv_handler s) (srv_certificatePath s)
    (srv_privateKeyPath s) (srv_sslContext s) (srv_listenFd s) (srv_epollFd s) clients.

Definition set_client (s : Server) (fd : Z) (c : ClientState) : Server :=
  set_clients s (<[fd := c]> (srv_clients s)).

(** ** Starting and stopping *)

Definition ExchangeTcpServer_initializeTls (s : Server) : IO W (bool * Server) :=
  if bool_decide (srv_certificatePath s = []) || bool_decide (srv_privateKeyPath s = [])
  then io_ret (true, s)
  else
    let! ctx := call c_SSL_CTX_new in
    let s := set_sslContext s (rep_ret ctx) in
    if srv_sslContext s =? 0 then io_ret (false, s)
    else
      let! cert := call (c_SSL_CTX_use_certificate_file (srv_sslContext s) (srv_certificatePath s)) in
      if negb (rep_ret cert =? 1) then io_ret (false, s)
      else
        let! key := call (c_SSL_CTX_use_PrivateKey_file (srv_sslContext s) (srv_privateKeyPath s)) in
        if negb (rep_ret key =? 1) then io_ret (false, s)
        else
          let! matching := call (c_SSL_CTX_check_private_key (srv_sslContext s)) in
          if negb (rep_ret matching =? 1) then io_ret (false, s)
          else io_ret (true, s).

Definition ExchangeTcpServer_updateClientEvents (s : Server) (clientFd events : Z) : IO W bool :=
  let! r := call (c_epoll_ctl_mod (srv_epollFd s) clientFd events) in io_ret (rep_ret r =? 0).

Definition ExchangeTcpServer_setNonBlocking (fd : Z) : IO W bool :=
  let! flags := call (c_fcntl_getfl fd) in
  if rep_ret flags <? 0 then io_ret false
  else
    let! r := call (c_fcntl_setfl fd (Z.lor (rep_ret flags) O_NONBLOCK)) in
    io_ret (rep_ret r =? 0).

(** [SSL_shutdown(ssl); SSL_free(ssl);] when the pointer is set. *)
Definition free_ssl (ssl : Z) : IO W unit :=
  if negb (ssl =? 0)
  then let! _ := call (c_SSL_shutdown ssl) in let! _ := call (c_SSL_free ssl) in io_ret tt
  else io_ret tt.

Fixpoint stop_clients (entries : list (Z * ClientState)) : IO W unit :=
  match entries with
  | [] => io_ret tt
  | (fd, c) :: entries =>
      let! _ := free_ssl (cl_ssl c) in
      let! _ := call (c_close fd) in
      stop_clients entries
  end.

Definition ExchangeTcpServer_stop (s : Server) : IO W Server :=
  let! _ := stop_clients (map_to_list (srv_clients s)) in
  let s := set_clients s ∅ in
  let! s :=
    (if 0 <=? srv_epollFd s
     then let! _ := call (c_close (srv_epollFd s)) in io_ret (set_fds s (srv_listenFd s) (-1))
     else io_ret s) in
  let! s :=
    (if 0 <=? srv_listenFd s
     then let! _ := call (c_close (srv_listenFd s)) in io_ret (set_fds s (-1) (srv_epollFd s))
     else io_ret s) in
  if negb (srv_sslContext s =? 0)
  then let! _ := call (c_SSL_CTX_free (srv_sslContext s)) in io_ret (set_sslContext s 0)
  else io_ret s.

(** [stop(); return false;] *)
Definition stop_false (s : Server) : IO W (bool * Server) :=
  let! s := ExchangeTcpServer_stop s in io_ret (false, s).

(** From [listen] on. *)
Definition start_listening (s : Server) : IO W (bool * Server) :=
  let! listening := call (c_listen (srv_listenFd s)) in
  if rep_ret listening <? 0 then stop_false s
  else
    let! epollFd := call c_epoll_create1 in
    let s := set_fds s (srv_listenFd s) (rep_ret epollFd) in
    if srv_epollFd s <? 0 then stop_false s
    else
      let! added := call (c_epoll_ctl_add (srv_epollFd s) (srv_listenFd s) EPOLLIN) in
      if rep_ret added <? 0 then stop_false s
      else io_ret (true, s).

(** [getsockname] returns the port in network byte order; [rep_ret] of its reply is the
    status and [rep_data] the two bytes of [sin_port]. *)
Definition ExchangeTcpServer_start (s : Server) : IO W (bool * Server) :=
  let! (tls, s) := ExchangeTcpServer_initializeTls s in
  if negb tls then stop_false s
  else
    let! fd := call c_socket in
    let s := set_fds s (rep_ret fd) (srv_epollFd s) in
    if srv_listenFd s <? 0 then io_ret (false, s)
    else
      let! _ := call (c_setsockopt (srv_listenFd s)) in
      let! nonblocking := ExchangeTcpServer_setNonBlocking (srv_listenFd s) in
      if negb nonblocking then stop_false s
      else
        let! bound := call (c_bind (srv_listenFd s) (srv_port s)) in
        if rep_ret bound <? 0 then stop_false s
        else if srv_port s =? 0 then
          let! name := call (c_getsockname (srv_listenFd s)) in
          if rep_ret name <? 0 then stop_false s
          else start_listening (set_port s (u16 (big_value (rep_data name))))
        else start_listening s.

Definition ExchangeTcpServer_closeClient (s : Server) (clientFd : Z) : IO W Server :=
  let! s :=
    match srv_clients s !! clientFd with
    | Some c =>
        if negb (cl_ssl c =? 0)
        then let! _ := free_ssl (cl_ssl c) in
             io_ret (set_client s clientFd
                       (mkClientState 0 (cl_tlsHandshakeComplete c) (cl_receiveBuffer c)
                          (cl_receivedBytes c) (cl_sendBuffer c) (cl_sentBytes c)))
        else io_ret s
    | None => io_ret s
    end in
  let! _ := call (c_epoll_ctl_del (srv_epollFd s) clientFd) in
  let! _ := call (c_close clientFd) in
  io_ret (set_clients s (delete clientFd (srv_clients s))).

(** ** Accepting clients *)

(** The body for an accepted descriptor; [false] ends [acceptClients]. *)
Definition accept_client (s : Server) (clientFd : Z) : IO W (bool * Server) :=
  let! added := call (c_epoll_ctl_add (srv_epollFd s) clientFd EPOLLIN) in
  if rep_ret added <? 0 then let! _ := call (c_close clientFd) in io_ret (false, s)
  else if negb (srv_sslContext s =? 0) then
    let! ssl := call (c_SSL_new (srv_sslContext s)) in
    if rep_ret ssl =? 0 then let! _ := call (c_close clientFd) in io_ret (false, s)
    else
      let! set_fd := call (c_SSL_set_fd (rep_ret ssl) clientFd) in
      if negb (rep_ret set_fd =? 1) then
        let! _ := call (c_SSL_free (rep_ret ssl)) in
        let! _ := call (c_close clientFd) in
        io_ret (false, s)
      else
        let! _ := call (c_SSL_set_accept_state (rep_ret ssl)) in
        io_ret (true, match srv_clients s !! clientFd with
                      | None => set_client s clientFd (ClientState_new (rep_ret ssl) false)
                      | Some _ => s
                      end)
  else
    io_ret (true, match srv_clients s !! clientFd with
                  | None => set_client s clientFd (ClientState_new 0 true)
                  | Some _ => s
                  end).

Fixpoint ExchangeTcpServer_acceptClients (fuel : nat) (s : Server) : IO W (bool * Server) :=
  match fuel with
  | O => io_fail
  | S fuel =>
      let! client := call (c_accept4 (srv_listenFd s)) in
      if 0 <=? rep_ret client then
        let! (ok, s) := accept_client s (rep_ret client) in
        if (ok : bool) then ExchangeTcpServer_acceptClients fuel s else io_ret (false, s)
      else if (rep_errno client =? EAGAIN) || (rep_errno client =? EWOULDBLOCK) then io_ret (true, s)
      else if rep_errno client =? EINTR then ExchangeTcpServer_acceptClients fuel s
      else io_ret (false, s)
  end.

Definition ExchangeTcpServer_progressTlsHandshake (s : Server) (clientFd : Z) : IO W (bool * Server) :=
  match srv_clients s !! clientFd with
  | None => io_ret (false, s)
  | Some state =>
      if cl_tlsHandshakeComplete state then io_ret (true, s)
      else if cl_ssl state =? 0 then io_ret (false, s)
      else
        let! result := call (c_SSL_accept (cl_ssl state)) in
        if rep_ret result =? 1 then
          let s := set_client s clientFd (cl_handshake_done state) in
          let! updated := ExchangeTcpServer_updateClientEvents s clientFd EPOLLIN in
          io_ret (updated, s)
        else
          let! error := call (c_SSL_get_error (cl_ssl state) (rep_ret result)) in
          if rep_ret error =? SSL_ERROR_WANT_READ then
            let! updated := ExchangeTcpServer_updateClientEvents s clientFd EPOLLIN in
            io_ret (updated, s)
          else if rep_ret error =? SSL_ERROR_WANT_WRITE then
            let! updated := ExchangeTcpServer_updateClientEvents s clientFd (Z.lor EPOLLIN EPOLLOUT) in
            io_ret (updated, s)
          else io_ret (false, s)
  end.

(** ** Sending *)

(** [SSL_write] or [send] of the rest of the buffer. *)
Definition client_write (state : ClientState) (clientFd : Z) : IO W Reply :=
  let rest := drop (cl_sentBytes state) (cl_sendBuffer state) in
  if negb (cl_ssl state =? 0)
  then call (c_SSL_write (cl_ssl state) rest (i32 (Z.of_nat (length rest))))
  else call (c_send clientFd rest).

Fixpoint ExchangeTcpServer_flushPendingWrite (fuel : nat) (s : Server) (clientFd : Z)
    : IO W (bool * Server) :=
  match srv_clients s !! clientFd with
  | None => io_ret (false, s)
  | Some state =>
      if (cl_sentBytes state <? length (cl_sendBuffer state))%nat then
        match fuel with
        | O => io_fail
        | S fuel =>
            let! r := client_write state clientFd in
            let sent := i32 (rep_ret r) in
            if 0 <? sent then
              ExchangeTcpServer_flushPendingWrite fuel
                (set_client s clientFd (cl_set_send state (cl_sendBuffer state)
                                          (cl_sentBytes state + Z.to_nat sent))) clientFd
            else if negb (cl_ssl state =? 0) then
              let! error := call (c_SSL_get_error (cl_ssl state) sent) in
              if (rep_ret error =? SSL_ERROR_WANT_WRITE) || (rep_ret error =? SSL_ERROR_WANT_READ) then
                let! updated := ExchangeTcpServer_updateClientEvents s clientFd
                                  (Z.lor EPOLLIN EPOLLOUT) in
                io_ret (updated, s)
              else io_ret (false, s)
            else if rep_errno r =? EINTR then ExchangeTcpServer_flushPendingWrite fuel s clientFd
            else if (rep_errno r =? EAGAIN) || (rep_errno r =? EWOULDBLOCK) then
              let! updated := ExchangeTcpServer_updateClientEvents s clientFd
                                (Z.lor EPOLLIN EPOLLOUT) in
              io_ret (updated, s)
            else io_ret (false, s)
        end
      else
        let s := set_client s clientFd (cl_set_send state [] 0) in
        let! updated := ExchangeTcpServer_updateClientEvents s clientFd EPOLLIN in
        io_ret (updated, s)
  end.

Definition ExchangeTcpServer_sendAll (fuel : nat) (s : Server) (clientFd : Z) (data : bytes)
    : IO W (bool * Server) :=
  match srv_clients s !! clientFd with
  | None => io_ret (false, s)
  | Some state =>
      if bool_decide (cl_sendBuffer state <> []) then io_ret (false, s)
      else ExchangeTcpServer_flushPendingWrite fuel
             (set_client s clientFd (cl_set_send state data 0)) clientFd
  end.

(** ** Receiving *)

(** [SSL_read] or [recv] of at most [remaining] bytes. *)
Definition client_read (state : ClientState) (clientFd : Z) (remaining : nat) : IO W Reply :=
  if negb (cl_ssl state =? 0)
  then call (c_SSL_read (cl_ssl state) (i32 (Z.of_nat remaining)))
  else call (c_recv clientFd (Z.of_nat remaining)).

(** A complete frame: the handler's response is sent and the buffer starts afresh. *)
Definition handle_frame (flush_fuel : nat) (s : Server) (clientFd : Z) : IO W (bool * Server) :=
  match srv_clients s !! clientFd with
  | None => io_fail
  | Some state =>
      match handle_order (srv_handler s) (srv_accountId s) (cl_receiveBuffer state) with
      | None => io_fail
      | Some (None, h) => io_ret (false, set_handler s h)
      | Some (Some response, h) =>
          let! (ok, s) := ExchangeTcpServer_sendAll flush_fuel (set_handler s h) clientFd response in
          if negb ok then io_ret (false, s)
          else
            match srv_clients s !! clientFd with
            | None => io_fail
            | Some state =>
                io_ret (true, set_client s clientFd (cl_set_received state (cl_receiveBuffer state) 0))
            end
      end
  end.

(** What follows a read of no bytes; [None] to read again. *)
Definition after_no_data (s : Server) (clientFd : Z) (state : ClientState) (r : Reply)
    : IO W (option bool) :=
  let received := i32 (rep_ret r) in
  if negb (cl_ssl state =? 0) then
    let! error := call (c_SSL_get_error (cl_ssl state) received) in
    if rep_ret error =? SSL_ERROR_WANT_READ then
      let! updated := ExchangeTcpServer_updateClientEvents s clientFd
        (Z.lor EPOLLIN (if bool_decide (cl_sendBuffer state = []) then 0 else EPOLLOUT)) in
      io_ret (Some updated)
    else if rep_ret error =? SSL_ERROR_WANT_WRITE then
      let! updated := ExchangeTcpServer_updateClientEvents s clientFd (Z.lor EPOLLIN EPOLLOUT) in
      io_ret (Some updated)
    else io_ret (Some false)
  else if received =? 0 then io_ret (Some false)
  else if (rep_errno r =? EAGAIN) || (rep_errno r =? EWOULDBLOCK) then io_ret (Some true)
  else if rep_errno r =? EINTR then io_ret None
  else io_ret (Some false).

(** The [while (true)] loop. *)
Fixpoint readable_loop (flush_fuel fuel : nat) (s : Server) (clientFd : Z) : IO W (bool * Server) :=
  match fuel with
  | O => io_fail
  | S fuel =>
      match srv_clients s !! clientFd with
      | None => io_fail
      | Some state =>
          let! r := client_read state clientFd (EnterOrderSize - cl_receivedBytes state) in
          let received := i32 (rep_ret r) in
          if 0 <? received then
            match wr (cl_receiveBuffer state) (cl_receivedBytes state) (rep_data r) with
            | None => io_fail
            | Some buffer =>
                let n := (cl_receivedBytes state + Z.to_nat received)%nat in
                let s := set_client s clientFd (cl_set_received state buffer n) in
                if (n =? EnterOrderSize)%nat then
                  let! (ok, s) := handle_frame flush_fuel s clientFd in
                  if (ok : bool) then readable_loop flush_fuel fuel s clientFd
                  else io_ret (false, s)
                else readable_loop flush_fuel fuel s clientFd
            end
          else
            let! decision := after_no_data s clientFd state r in
            match decision with
            | Some b => io_ret (b, s)
            | None => readable_loop flush_fuel fuel s clientFd
            end
      end
  end.

Definition ExchangeTcpServer_handleClientReadable (flush_fuel fuel : nat) (s : Server) (clientFd : Z)
    : IO W (bool * Server) :=
  match srv_clients s !! clientFd with
  | None => io_ret (false, s)
  | Some _ => readable_loop flush_fuel fuel s clientFd
  end.

(** ** The event loop *)

Definition has_event (events mask : Z) : bool := negb (Z.land events mask =? 0).

(** One event of a client: whatever fails closes it. *)
Definition client_event (fuel : nat) (s : Server) (fd events : Z) : IO W Server :=
  if has_event events (Z.lor EPOLLERR EPOLLHUP) then ExchangeTcpServer_closeClient s fd
  else
    match srv_clients s !! fd with
    | Some client =>
        if negb (cl_tlsHandshakeComplete client) then
          let! (ok, s) := ExchangeTcpServer_progressTlsHandshake s fd in
          if (ok : bool) then io_ret s else ExchangeTcpServer_closeClient s fd
        else
          let! (flushed, s) :=
            (if has_event events EPOLLOUT && bool_decide (cl_sendBuffer client <> [])
             then ExchangeTcpServer_flushPendingWrite fuel s fd
             else io_ret (true, s)) in
          if negb flushed then ExchangeTcpServer_closeClient s fd
          else if has_event events EPOLLIN then
            let! (ok, s) := ExchangeTcpServer_handleClientReadable fuel fuel s fd in
            if (ok : bool) then io_ret s else ExchangeTcpServer_closeClient s fd
          else io_ret s
    | None =>
        if has_event events EPOLLIN then
          let! (ok, s) := ExchangeTcpServer_handleClientReadable fuel fuel s fd in
          if (ok : bool) then io_ret s else ExchangeTcpServer_closeClient s fd
        else io_ret s
    end.

Fixpoint poll_events (fuel : nat) (s : Server) (events : list epoll_event) : IO W (bool * Server) :=
  match events with
  | [] => io_ret (true, s)
  | e :: events =>
      if ev_fd e =? srv_listenFd s then
        let! (ok, s) := ExchangeTcpServer_acceptClients fuel s in
        if (ok : bool) then poll_events fuel s events else io_ret (false, s)
      else
        let! s := client_event fuel s (ev_fd e) (ev_events e) in
        poll_events fuel s events
  end.

Definition ExchangeTcpServer_pollOnce (fuel : nat) (s : Server) (timeoutMilliseconds : Z)
    : IO W (bool * Server) :=
  if srv_epollFd s <? 0 then io_ret (false, s)
  else
    let! ready := call (c_epoll_wait (srv_epollFd s) MaxEvents timeoutMilliseconds) in
    if rep_ret ready <? 0 then io_ret (rep_errno ready =? EINTR, s)
    else poll_events fuel s (take (Z.to_nat (rep_ret ready)) (rep_events ready)).

End server.
