(* ===== verification/ServerProofs.v ===== *)
(** * Correctness of the exchange server

    The frames a client's byte stream is cut into, the responses that go back, what the
    exchange's handler makes of frames that are orders, and the TLS handshake. *)

From S2P Require Import Prelude OrderPool Types OrderBook BookStore MatchingEngine MatchingSpec MatchingProofs.
From S2P Require Import Wire Ouch Net Transport Exchange ExchangeServer.

(** ** Clients *)

(** The connection a client is served on. *)
Definition client_channel (fd : Z) (c : ClientState) : Channel :=
  if cl_ssl c =? 0 then Tcp fd else Tls (cl_ssl c).

(** A response that is partly sent; its length is an [int]. *)
Definition sending (c : ClientState) : Prop :=
  (cl_sentBytes c <= length (cl_sendBuffer c))%nat /\ Z.of_nat (length (cl_sendBuffer c)) < 2 ^ 31.

(** Between two reads: an incomplete frame and a response that is partly sent. *)
Record client_ok (c : ClientState) : Prop := {
  co_buffer : length (cl_receiveBuffer c) = EnterOrderSize;
  co_received : (cl_receivedBytes c < EnterOrderSize)%nat;
  co_out : sending c
}.

(** Bytes received and not yet handed to the handler, and bytes not yet sent. *)
Definition pending_in (c : ClientState) : bytes := take (cl_receivedBytes c) (cl_receiveBuffer c).
Definition pending_out (c : ClientState) : bytes := drop (cl_sentBytes c) (cl_sendBuffer c).

(** The same but for what is to be sent, and the other way round. *)
Definition same_but_send (c c' : ClientState) : Prop :=
  cl_ssl c' = cl_ssl c /\ cl_tlsHandshakeComplete c' = cl_tlsHandshakeComplete c /\
  cl_receiveBuffer c' = cl_receiveBuffer c /\ cl_receivedBytes c' = cl_receivedBytes c.

(** [quiet new]: calls that moved no data. *)
Definition quiet (new : list (Call * Reply)) : Prop :=
  forall ch, sent_on ch new = [] /\ received_on ch new = [].

Lemma quiet_one c r : sent_by c r = None -> received_by c r = None -> quiet [(c, r)].
Proof. intros Hs Hr ch. autorewrite with hft. by rewrite Hs, Hr. Qed.

Lemma quiet_app l1 l2 : quiet l1 -> quiet l2 -> quiet (l1 ++ l2).
Proof.
  intros H1 H2 ch. destruct (H1 ch) as [S1 R1], (H2 ch) as [S2 R2].
  autorewrite with hft. by rewrite S1, R1, S2, R2.
Qed.

#[export] Hint Resolve quiet_one quiet_app : hft.

Section server_proofs.
Context {W : Type} `{!World W} {H : Type} `{!OuchHandler H}.

Abbreviation Server := (ExchangeTcpServer H).

Lemma set_client_twice (s : Server) fd c c' : set_client (set_client s fd c) fd c' = set_client s fd c'.
Proof. unfold set_client, set_clients. cbn. by rewrite insert_insert_eq. Qed.

Lemma set_client_same (s : Server) fd c : srv_clients s !! fd = Some c -> set_client s fd c = s.
Proof. intros E. unfold set_client, set_clients. rewrite insert_id by done. by destruct s. Qed.

Lemma set_client_lookup (s : Server) fd c : srv_clients (set_client s fd c) !! fd = Some c.
Proof. apply lookup_insert_eq. Qed.

(** A call whose reply only decides a flag. *)
Lemma update_events_run (s : Server) fd events (e : Env W) b e' :
  ExchangeTcpServer_updateClientEvents s fd events e = Some (b, e') ->
  exists new, env_log e' = env_log e ++ new /\ quiet new.
Proof.
  unfold ExchangeTcpServer_updateClientEvents. rewrite io_bind_call. intros [= <- <-]. cbn.
  eexists. split; [done|]. by apply quiet_one.
Qed.

(** ** Writing *)

Lemma client_write_run `{!WorldLaws W} state fd (e : Env W) : sending state ->
  exists c r w, client_write state fd e = Some (r, mkEnv w (env_log e ++ [(c, r)])) /\
    sent_by c r = Some (client_channel fd state, take (Z.to_nat (rep_ret r)) (pending_out state)) /\
    received_by c r = None /\ i32 (rep_ret r) = rep_ret r /\
    (Z.to_nat (rep_ret r) <= length (pending_out state))%nat.
Proof.
  intros [Hs Hl]. unfold client_write, client_channel, pending_out.
  assert (length (drop (cl_sentBytes state) (cl_sendBuffer state)) =
          length (cl_sendBuffer state) - cl_sentBytes state)%nat as Hlen by apply length_drop.
  set (rest := drop _ _) in *. destruct (cl_ssl state =? 0); cbn [negb].
  - pose proof (send_count (env_world e) fd rest) as Hc.
    destruct (call_step (c_send fd rest) e) as (r & w & Ew & ->). rewrite Ew in Hc. cbn in Hc.
    eexists _, r, w. split; [done|]. split; [done|]. split; [done|]. split; [|lia].
    apply sint_small; lia.
  - set (n := i32 _). pose proof (write_count (env_world e) (cl_ssl state) rest n) as Hc.
    assert (n = Z.of_nat (length rest)) as Hn by (apply sint_small; lia).
    destruct (call_step (c_SSL_write (cl_ssl state) rest n) e) as (r & w & Ew & ->). rewrite Ew in Hc.
    cbn in Hc. eexists _, r, w. split; [done|]. split; [done|]. split; [done|]. split; [|lia].
    apply sint_small; lia.
Qed.

(** [flushed]: what a flush of the client's response did, whether or not it finished. *)
Definition flushed (s : Server) (fd : Z) (state : ClientState) (s' : Server) (e e' : Env W) : Prop :=
  exists state' new, env_log e' = env_log e ++ new /\ s' = set_client s fd state' /\
    same_but_send state state' /\ sending state' /\
    (forall ch, received_on ch new = []) /\
    pending_out state = sent_on (client_channel fd state) new ++ pending_out state'.

Lemma flushed_quiet s fd state (e e' : Env W) new :
  srv_clients s !! fd = Some state -> sending state -> env_log e' = env_log e ++ new -> quiet new ->
  flushed s fd state s e e'.
Proof.
  intros Hc Hs Hl Hq. exists state, new. split; [done|]. rewrite set_client_same by done.
  split; [done|]. split; [done|]. split; [done|]. split; [apply Hq|]. by rewrite (proj1 (Hq _)).
Qed.

Lemma flushed_after s fd state1 state2 s' (e e1 e' : Env W) new :
  same_but_send state1 state2 -> env_log e1 = env_log e ++ new ->
  (forall ch, received_on ch new = []) ->
  pending_out state1 = sent_on (client_channel fd state1) new ++ pending_out state2 ->
  flushed (set_client s fd state2) fd state2 s' e1 e' -> flushed s fd state1 s' e e'.
Proof.
  intros Hb Hl Hr Ho (state' & new' & Hl' & -> & Hb' & Hs' & Hr' & Ho').
  assert (client_channel fd state2 = client_channel fd state1) as Ech
    by (unfold client_channel; by destruct Hb as (-> & _)).
  exists state', (new ++ new'). rewrite Hl', Hl, app_assoc, set_client_twice.
  split; [done|]. split; [done|]. split.
  { destruct Hb as (? & ? & ? & ?), Hb' as (? & ? & ? & ?). repeat split; congruence. }
  split; [done|]. split.
  { intros ch. by rewrite received_on_app, Hr, Hr'. }
  by rewrite sent_on_app, Ho, Ho', Ech, app_assoc.
Qed.

(** A flush that ends with a change of the watched events. *)
Lemma flushed_update s fd state events (e e' : Env W) b s' :
  srv_clients s !! fd = Some state -> sending state ->
  io_bind (ExchangeTcpServer_updateClientEvents s fd events) (fun updated => io_ret (updated, s)) e =
    Some ((b, s'), e') -> flushed s fd state s' e e'.
Proof.
  intros Hc Hs (b1 & e1 & (new & Hl & Hq)%update_events_run & [= <- <- <-])%io_bind_Some.
  by eapply flushed_quiet.
Qed.

(** A flush that finds nothing left clears the buffer. *)
Lemma flush_done (s : Server) fd state (e e' : Env W) b s' :
  srv_clients s !! fd = Some state -> (length (cl_sendBuffer state) <= cl_sentBytes state)%nat ->
  io_bind (ExchangeTcpServer_updateClientEvents (set_client s fd (cl_set_send state [] 0)) fd EPOLLIN)
    (fun updated => io_ret (updated, set_client s fd (cl_set_send state [] 0))) e = Some ((b, s'), e') ->
  flushed s fd state s' e e'.
Proof.
  intros Hc Hge E.
  eapply (flushed_after s fd state (cl_set_send state [] 0) _ e e _ []); [done|by rewrite app_nil_r|done| |].
  - unfold pending_out. cbn. by rewrite drop_ge.
  - eapply flushed_update; [apply set_client_lookup| |exact E]. split; cbn; lia.
Qed.

Lemma flushed_quiet_after (s : Server) fd state (e e1 e2 : Env W) new s2 :
  srv_clients s !! fd = Some state -> env_log e1 = env_log e ++ new -> quiet new ->
  flushed s fd state s2 e1 e2 -> flushed s fd state s2 e e2.
Proof.
  intros Hc Hl Hq HF. eapply (flushed_after _ _ _ state _ _ _ _ new); [done|done|apply Hq| |].
  - by rewrite (proj1 (Hq _)).
  - by rewrite set_client_same.
Qed.

Lemma flush_spec `{!WorldLaws W} fuel : forall (s : Server) fd state (e e' : Env W) b s',
  srv_clients s !! fd = Some state -> sending state ->
  ExchangeTcpServer_flushPendingWrite fuel s fd e = Some ((b, s'), e') -> flushed s fd state s' e e'.
Proof.
  induction fuel as [|fuel IH]; intros s fd state e e' b s' Hc Hs;
    cbn [ExchangeTcpServer_flushPendingWrite]; rewrite Hc;
    destruct (Nat.ltb_spec (cl_sentBytes state) (length (cl_sendBuffer state))) as [Hlt|Hge]; try done;
    [by apply flush_done| |by apply flush_done].
  intros E. destruct (client_write_run state fd e Hs) as (c & r & w & Ew & Hsent & Hrecv & Hi & Hn).
  rewrite (io_bind_eq _ _ _ _ _ Ew), Hi in E. destruct (Z.ltb_spec 0 (rep_ret r)) as [Hp|Hp].
  { apply IH with (state := cl_set_send state (cl_sendBuffer state)
                    (cl_sentBytes state + Z.to_nat (rep_ret r))) in E.
    - unfold pending_out in Hn. rewrite length_drop in Hn.
      eapply (flushed_after _ _ _ _ _ _ _ _ [(c, r)]); [..|exact E]; [done|done| |].
      + intros ch. autorewrite with hft. by rewrite Hrecv.
      + autorewrite with hft. rewrite Hsent. unfold pending_out. cbn.
        rewrite bool_decide_true by done. by rewrite <- drop_drop, take_drop.
    - apply set_client_lookup.
    - destruct Hs as [Hs Hl]. unfold pending_out in Hn. rewrite length_drop in Hn. split; cbn; lia. }
  assert (quiet [(c, r)]) as Hq.
  { intros ch. autorewrite with hft. rewrite Hsent, Hrecv. replace (Z.to_nat (rep_ret r)) with 0%nat by lia.
    rewrite take_0. cbn. by destruct (bool_decide (ch = _)). }
  destruct (negb (cl_ssl state =? 0)).
  - rewrite io_bind_call in E. destruct (world_call _ _) as [er w1]. cbn in E.
    set (e1 := mkEnv w1 _) in E.
    apply (flushed_quiet_after _ _ _ _ e1 _ ([(c, r)] ++ [(c_SSL_get_error (cl_ssl state) (rep_ret r), er)])); [done|..].
    { unfold e1. cbn. by rewrite <- app_assoc. }
    { apply quiet_app; [done|]. by apply quiet_one. }
    destruct (_ || _); [by eapply flushed_update|]. injection E as <- <- <-.
    by eapply flushed_quiet with (new := []); rewrite ?app_nil_r.
  - destruct (rep_errno r =? EINTR).
    { apply (flushed_quiet_after _ _ _ _ (mkEnv w (env_log e ++ [(c, r)])) _ [(c, r)]); [done..|]. by eapply IH. }
    apply (flushed_quiet_after _ _ _ _ (mkEnv w (env_log e ++ [(c, r)])) _ [(c, r)]); [done..|].
    destruct (_ || _); [by eapply flushed_update|]. injection E as <- <- <-.
    by eapply flushed_quiet with (new := []); rewrite ?app_nil_r.
Qed.

(** ** Frames *)

Fixpoint handler_run (h : H) (account : AccountId) (frames : list bytes)
    : option (list (option bytes) * H) :=
  match frames with
  | [] => Some ([], h)
  | f :: frames =>
      '(r, h) ← handle_order h account f;
      '(rs, h) ← handler_run h account frames;
      Some (r :: rs, h)
  end.

(** What the server relies on: a response is a [std::array] of 64 bytes. *)
Class HandlerLaws : Prop :=
  response_size : forall h account f r h',
    handle_order h account f = Some (Some r, h') -> length r = AcceptedSize.

(** [served s fd state b s' new frames resps state']: serving the client [fd] from
    [state] to [state'] with the calls [new] gave the handler [frames], which
    answered [resps].  The frames are all the 47-byte pieces of what was received;
    what was sent is the front of what was to be sent, followed by the responses; and
    when the client stays ([b]) the rest of both is in its buffers. *)
Record served (s : Server) (fd : Z) (state : ClientState) (b : bool) (s' : Server)
    (new : list (Call * Reply)) (frames : list bytes) (resps : list (option bytes))
    (state' : ClientState) : Prop := {
  sv_server : s' = set_handler (set_client s fd state') (srv_handler s');
  sv_ssl : cl_ssl state' = cl_ssl state;
  sv_tls : cl_tlsHandshakeComplete state' = cl_tlsHandshakeComplete state;
  sv_frames : Forall (fun f => length f = EnterOrderSize) frames;
  sv_run : handler_run (srv_handler s) (srv_accountId s) frames = Some (resps, srv_handler s');
  sv_in : exists rest, pending_in state ++ received_on (client_channel fd state) new =
      mjoin frames ++ rest /\ (length rest < EnterOrderSize)%nat /\ (b = true -> rest = pending_in state');
  sv_out : exists rest, pending_out state ++ mjoin (omap id resps) =
      sent_on (client_channel fd state) new ++ rest /\ (b = true -> rest = pending_out state');
  sv_ok : b = true -> client_ok state' /\ Forall is_Some resps
}.

Lemma served_channel s fd state b s' new frames resps state' :
  served s fd state b s' new frames resps state' ->
  client_channel fd state' = client_channel fd state.
Proof. intros [_ E _ _ _ _ _ _]. unfold client_channel. by rewrite E. Qed.

(** Nothing more to read. *)
Lemma served_none s fd state b new :
  srv_clients s !! fd = Some state -> client_ok state -> quiet new ->
  served s fd state b s new [] [] state.
Proof.
  intros Hc Hok Hq. destruct (Hq (client_channel fd state)) as [Hs Hr]. constructor; try done.
  - rewrite set_client_same by done. by destruct s.
  - exists (pending_in state). rewrite Hr, app_nil_r. split; [done|]. split; [|done].
    unfold pending_in. rewrite length_take. pose proof (co_received _ Hok). lia.
  - exists (pending_out state). rewrite Hs, app_nil_r. done.
Qed.

(** Some bytes of a frame, then the rest. *)
Lemma served_data s fd state state1 b s' new1 new frames resps state' data :
  cl_ssl state1 = cl_ssl state -> cl_tlsHandshakeComplete state1 = cl_tlsHandshakeComplete state ->
  pending_out state1 = pending_out state -> pending_in state1 = pending_in state ++ data ->
  received_on (client_channel fd state) new1 = data -> (forall ch, sent_on ch new1 = []) ->
  served (set_client s fd state1) fd state1 b s' new frames resps state' ->
  served s fd state b s' (new1 ++ new) frames resps state'.
Proof.
  intros E1 E2 Eo Ei Hr Hs [V1 V2 V3 V4 V5 (ri & V6 & Vl & V6') (ro & V7 & V7') V8].
  assert (client_channel fd state1 = client_channel fd state) as Ech
    by (unfold client_channel; by rewrite E1).
  constructor; try done.
  - by rewrite set_client_twice in V1.
  - congruence.
  - congruence.
  - exists ri. split; [|by split]. rewrite <- V6, received_on_app, Hr, Ei, Ech. by rewrite app_assoc.
  - exists ro. split; [|done]. rewrite sent_on_app, Hs, <- Eo, V7, Ech. done.
Qed.

(** A complete frame and its response, then the rest. *)
Lemma served_frame s fd state h s1 state1 b s' new1 new frames resps state' r :
  cl_ssl state1 = cl_ssl state -> cl_tlsHandshakeComplete state1 = cl_tlsHandshakeComplete state ->
  length (pending_in state) = EnterOrderSize ->
  handle_order (srv_handler s) (srv_accountId s) (pending_in state) = Some (Some r, h) ->
  s1 = set_handler (set_client s fd state1) h -> pending_in state1 = [] ->
  (forall ch, received_on ch new1 = []) ->
  pending_out state ++ r = sent_on (client_channel fd state) new1 ++ pending_out state1 ->
  served s1 fd state1 b s' new frames resps state' ->
  served s fd state b s' (new1 ++ new) (pending_in state :: frames) (Some r :: resps) state'.
Proof.
  intros E1 E2 Hf Hh -> Ei Hr Ho [V1 V2 V3 V4 V5 (ri & V6 & Vl & V6') (ro & V7 & V7') V8].
  assert (client_channel fd state1 = client_channel fd state) as Ech
    by (unfold client_channel; by rewrite E1).
  constructor; try done.
  - rewrite V1. unfold set_client, set_clients, set_handler. cbn. by rewrite insert_insert_eq.
  - congruence.
  - congruence.
  - by constructor.
  - cbn [handler_run]. rewrite Hh. cbn [mbind option_bind]. cbn in V5. by rewrite V5.
  - exists ri. split; [|by split]. rewrite received_on_app, Hr. cbn [app].
    change (mjoin (pending_in state :: frames)) with (pending_in state ++ mjoin frames).
    rewrite <- app_assoc, <- V6, Ei, Ech. done.
  - exists ro. split; [|done]. rewrite sent_on_app, <- app_assoc, <- Ech, <- V7, Ech, app_assoc, <- Ho.
    change (mjoin (omap id (Some r :: resps))) with (r ++ mjoin (omap id resps)).
    by rewrite <- app_assoc.
  - intros Hb. destruct (V8 Hb) as [? ?]. split; [done|]. constructor; [by eexists|done].
Qed.

(** The end of a connection: the last frame is handled and its response, if any, is
    lost or partly sent. *)
Lemma served_last s fd state r h state' new sent_rest :
  cl_ssl state' = cl_ssl state -> cl_tlsHandshakeComplete state' = cl_tlsHandshakeComplete state ->
  length (pending_in state) = EnterOrderSize ->
  handle_order (srv_handler s) (srv_accountId s) (pending_in state) = Some (r, h) ->
  (forall ch, received_on ch new = []) ->
  pending_out state ++ default [] r = sent_on (client_channel fd state) new ++ sent_rest ->
  served s fd state false (set_handler (set_client s fd state') h) new [pending_in state] [r] state'.
Proof.
  intros E1 E2 Hl Hh Hr Ho. constructor; try done.
  - by repeat constructor.
  - cbn. by rewrite Hh.
  - exists []. rewrite Hr, !app_nil_r. cbn. rewrite app_nil_r. split; [done|]. split; [unfold EnterOrderSize; lia|done].
  - exists sent_rest. split; [|done]. rewrite <- Ho. f_equal. destruct r; cbn; by rewrite ?app_nil_r.
Qed.

Lemma set_handler_client (s : Server) fd state h :
  srv_clients s !! fd = Some state ->
  set_handler s h = set_handler (set_client s fd state) h.
Proof. intros Hc. by rewrite set_client_same. Qed.

(** What a complete frame leads to. *)
Lemma handle_frame_spec `{!WorldLaws W, !HandlerLaws} fuel (s : Server) fd state (e e' : Env W) b s' :
  srv_clients s !! fd = Some state -> length (cl_receiveBuffer state) = EnterOrderSize ->
  cl_receivedBytes state = EnterOrderSize -> sending state ->
  handle_frame fuel s fd e = Some ((b, s'), e') ->
  exists new, env_log e' = env_log e ++ new /\
    if b then exists r h state1,
      cl_ssl state1 = cl_ssl state /\ cl_tlsHandshakeComplete state1 = cl_tlsHandshakeComplete state /\
      handle_order (srv_handler s) (srv_accountId s) (pending_in state) = Some (Some r, h) /\
      s' = set_handler (set_client s fd state1) h /\ pending_in state1 = [] /\
      (forall ch, received_on ch new = []) /\ client_ok state1 /\
      pending_out state ++ r = sent_on (client_channel fd state) new ++ pending_out state1
    else exists r state', served s fd state false s' new [pending_in state] [r] state'.
Proof.
  intros Hc Hl Hn Hs. unfold handle_frame. rewrite Hc.
  assert (pending_in state = cl_receiveBuffer state) as Ei by (unfold pending_in; rewrite take_ge; lia || done).
  assert (length (pending_in state) = EnterOrderSize) as Hli by (by rewrite Ei).
  destruct (handle_order _ _ _) as [[[r|] h]|] eqn:Eh; [| |done]; rewrite <- Ei in Eh.
  2:{ intros [= <- <- <-]. exists []. split; [by rewrite app_nil_r|]. exists None, state.
      rewrite (set_handler_client s fd state h Hc). by eapply served_last. }
  intros ((b1 & s1) & e1 & Es & E)%io_bind_Some. unfold ExchangeTcpServer_sendAll in Es.
  change (srv_clients (set_handler s h)) with (srv_clients s) in Es. rewrite Hc in Es.
  case_bool_decide as Hb.
  { injection Es as <- <- <-. cbn in E. injection E as <- <- <-. exists [].
    split; [by rewrite app_nil_r|]. exists (Some r), state. rewrite (set_handler_client s fd state h Hc).
    by eapply served_last. }
  assert (cl_sendBuffer state = []) as Eb by (destruct (cl_sendBuffer state); [done|by destruct Hb]).
  assert (pending_out state = []) as Eo by (unfold pending_out; rewrite Eb; by rewrite drop_nil).
  apply flush_spec with (state := cl_set_send state r 0) in Es;
    [|apply set_client_lookup|split; cbn; [lia|rewrite (response_size _ _ _ _ _ Eh); unfold AcceptedSize; lia]].
  destruct Es as (state2 & new & Hlog & -> & (Q1 & Q2 & Q3 & Q4) & Hs2 & Hr & Ho).
  change (client_channel fd (cl_set_send state r 0)) with (client_channel fd state) in Ho.
  change (pending_out (cl_set_send state r 0)) with r in Ho.
  rewrite set_client_twice in E.
  change (set_client (set_handler s h) fd state2) with (set_handler (set_client s fd state2) h) in E.
  exists new. destruct b1; cbn [negb] in E.
  - change (srv_clients (set_handler (set_client s fd state2) h)) with
      (srv_clients (set_client s fd state2)) in E. rewrite set_client_lookup in E.
    injection E as <- <- <-. split; [done|].
    exists r, h, (cl_set_received state2 (cl_receiveBuffer state2) 0). split; [done|]. split; [done|].
    split; [done|]. split.
    { unfold set_client, set_clients, set_handler. cbn. by rewrite insert_insert_eq. }
    split; [done|]. split; [done|]. split; [|by rewrite Eo].
    constructor; cbn; [by rewrite Q3|unfold EnterOrderSize; lia|done].
  - injection E as <- <- <-. split; [done|]. exists (Some r), state2.
    eapply (served_last _ _ _ (Some r)); [done..|]. cbn. by rewrite Eo.
Qed.

(** ** The frame loop *)

Lemma client_read_run `{!WorldLaws W} state fd (n : nat) (e : Env W) : Z.of_nat n < 2 ^ 31 ->
  exists c r w, client_read state fd n e = Some (r, mkEnv w (env_log e ++ [(c, r)])) /\
    received_by c r = Some (client_channel fd state, take (Z.to_nat (rep_ret r)) (rep_data r)) /\
    sent_by c r = None /\ i32 (rep_ret r) = rep_ret r /\
    (0 < rep_ret r -> Z.of_nat (length (rep_data r)) = rep_ret r) /\ rep_ret r <= Z.of_nat n /\
    retried c r = (0 <? rep_ret r) ||
      (if cl_ssl state =? 0 then (rep_ret r <? 0) && (rep_errno r =? EINTR) else false) /\
    world_call (env_world e) c = (r, w).
Proof.
  intros Hn. unfold client_read, client_channel. destruct (cl_ssl state =? 0); cbn [negb].
  - pose proof (recv_count (env_world e) fd (Z.of_nat n)) as Hc.
    destruct (call_step (c_recv fd (Z.of_nat n)) e) as (r & w & Ew & ->). rewrite Ew in Hc. cbn in Hc.
    eexists _, r, w. split; [done|]. split; [done|]. split; [done|].
    split; [apply sint_small; lia|]. split; [apply Hc|]. split; [lia|]. by split.
  - assert (i32 (Z.of_nat n) = Z.of_nat n) as En by (apply sint_small; lia).
    pose proof (read_count (env_world e) (cl_ssl state) (i32 (Z.of_nat n))) as Hc.
    destruct (call_step (c_SSL_read (cl_ssl state) (i32 (Z.of_nat n))) e) as (r & w & Ew & ->).
    rewrite Ew in Hc. cbn in Hc. rewrite En in *.
    eexists _, r, w. split; [done|]. split; [done|]. split; [done|].
    split; [apply sint_small; lia|]. split; [apply Hc|]. split; [lia|]. split; [cbn|done].
    by rewrite orb_false_r.
Qed.

(** A quiet call, then a quiet run. *)
Lemma quiet_cons c r (e e1 : Env W) (w : W) new :
  sent_by c r = None -> received_by c r = None ->
  env_log e1 = env_log (mkEnv w (env_log e ++ [(c, r)])) ++ new -> quiet new ->
  exists new', env_log e1 = env_log e ++ new' /\ quiet new'.
Proof.
  intros Hs Hr Hl Hq. exists ([(c, r)] ++ new). rewrite Hl. cbn [env_log]. rewrite <- app_assoc.
  split; [done|]. apply quiet_app; [by apply quiet_one|done].
Qed.

Lemma after_no_data_run (s : Server) fd state r (e e' : Env W) d :
  after_no_data s fd state r e = Some (d, e') -> exists new, env_log e' = env_log e ++ new /\ quiet new.
Proof.
  unfold after_no_data. destruct (negb _).
  - rewrite io_bind_call. destruct (world_call _ _) as [er w]. cbn [fst snd].
    destruct (rep_ret er =? SSL_ERROR_WANT_READ), (rep_ret er =? SSL_ERROR_WANT_WRITE); intros E;
      try (apply io_bind_Some in E as (b1 & e1 & (new & Hl & Hq)%update_events_run & [= <- <-]);
           by eapply quiet_cons; [..|exact Hl|exact Hq]).
    injection E as <- <-. eexists. split; [done|]. by apply quiet_one.
  - repeat case_match; intros [= <- <-]; exists []; by rewrite app_nil_r.
Qed.

Lemma served_quiet s fd state b s' new1 new frames resps state' :
  srv_clients s !! fd = Some state -> quiet new1 ->
  served s fd state b s' new frames resps state' -> served s fd state b s' (new1 ++ new) frames resps state'.
Proof.
  intros Hc Hq V. eapply (served_data _ _ _ state _ _ _ _ _ _ _ []); try done.
  - by rewrite app_nil_r.
  - apply Hq.
  - intros ch. apply Hq.
  - by rewrite set_client_same.
Qed.

(** A read that returned no data. *)
Lemma no_data_quiet ch0 c r : sent_by c r = None ->
  received_by c r = Some (ch0, take (Z.to_nat (rep_ret r)) (rep_data r)) -> rep_ret r <= 0 -> quiet [(c, r)].
Proof.
  intros Hsent Hrecv Hp ch. autorewrite with hft. rewrite Hsent, Hrecv.
  replace (Z.to_nat (rep_ret r)) with 0%nat by lia. rewrite take_0. cbn.
  by destruct (bool_decide (ch = ch0)).
Qed.

(** A read that brings no data and the calls behind it leave the client as it was. *)
Lemma no_data_log c r (e e1 : Env W) (w : W) new1 :
  env_log e1 = env_log (mkEnv w (env_log e ++ [(c, r)])) ++ new1 -> quiet [(c, r)] -> quiet new1 ->
  env_log e1 = env_log e ++ ([(c, r)] ++ new1) /\ quiet ([(c, r)] ++ new1).
Proof. intros -> Hq Hq1. cbn [env_log]. rewrite <- app_assoc. split; [done|by apply quiet_app]. Qed.

Lemma readable_loop_spec `{!WorldLaws W, !HandlerLaws} flush_fuel fuel :
  forall (s : Server) fd state (e e' : Env W) b s',
  srv_clients s !! fd = Some state -> client_ok state ->
  readable_loop flush_fuel fuel s fd e = Some ((b, s'), e') ->
  exists new frames resps state', env_log e' = env_log e ++ new /\
    served s fd state b s' new frames resps state'.
Proof.
  induction fuel as [|fuel IH]; intros s fd state e e' b s' Hc Hok; cbn [readable_loop]; [done|].
  rewrite Hc. destruct Hok as [Hbuf Hrec Hout].
  destruct (client_read_run state fd (EnterOrderSize - cl_receivedBytes state) e)
    as (c & r & w & Er & Hrecv & Hsent & Hi & Hd & Hle & _); [unfold EnterOrderSize in *; lia|].
  rewrite (io_bind_eq _ _ _ _ _ Er), Hi. destruct (Z.ltb_spec 0 (rep_ret r)) as [Hp|Hp].
  2:{ intros (d & e1 & (new1 & Hl1 & Hq1)%after_no_data_run & E)%io_bind_Some.
      destruct (no_data_log _ _ _ _ _ _ Hl1 ltac:(by eapply no_data_quiet) Hq1) as [Hl Hq]. destruct d as [d|].
      - injection E as <- <- <-. eexists _, [], [], state. split; [exact Hl|].
        by apply served_none; [|constructor|].
      - apply IH with (state := state) in E as (new & fr & rs & st' & Hl' & V); [|done|by constructor].
        exists (([(c, r)] ++ new1) ++ new), fr, rs, st'. rewrite Hl', Hl. split; [symmetry; apply app_assoc|].
        by apply served_quiet. }
  specialize (Hd Hp). assert (Z.to_nat (rep_ret r) = length (rep_data r)) as Hn by lia. rewrite Hn in *.
  rewrite take_ge in Hrecv by lia.
  destruct (wr _ _ _) as [buffer|] eqn:Ew; [|done]. apply wr_spec in Ew as (Hl' & Hfit & Ht).
  set (state1 := cl_set_received state buffer (cl_receivedBytes state + length (rep_data r))).
  assert (forall b s' new frames resps state',
    served (set_client s fd state1) fd state1 b s' new frames resps state' ->
    served s fd state b s' ([(c, r)] ++ new) frames resps state') as Hdata.
  { intros b0 s0 new frames resps st V. eapply (served_data _ _ _ state1 _ _ _ _ _ _ _ (rep_data r));
      try done.
    - autorewrite with hft. rewrite Hrecv. cbn. by rewrite bool_decide_true.
    - intros ch. autorewrite with hft. by rewrite Hsent. }
  destruct (Nat.eqb_spec (cl_receivedBytes state + length (rep_data r)) EnterOrderSize) as [Efull|Hpart].
  - intros ((ok & s2) & e2 & Ef & E)%io_bind_Some.
    apply handle_frame_spec with (state := state1) in Ef as (new1 & Hl1 & Hf);
      [|apply set_client_lookup|cbn; congruence|done|done]. cbn [env_log] in Hl1.
    destruct ok.
    + destruct Hf as (rr & h & st1 & Q1 & Q2 & Hh & -> & Q3 & Q4 & Q5 & Q6).
      apply IH with (state := st1) in E as (new & fr & rs & st' & Hl2 & V);
        [|apply set_client_lookup|done].
      exists ([(c, r)] ++ (new1 ++ new)), (pending_in state1 :: fr), (Some rr :: rs), st'.
      rewrite Hl2, Hl1, !app_assoc. split; [done|]. rewrite <- app_assoc. apply Hdata.
      eapply served_frame; [exact Q1|exact Q2| |exact Hh|reflexivity|exact Q3|exact Q4|exact Q6|exact V].
      unfold pending_in. cbn. rewrite take_ge; lia.
    + injection E as <- <- <-. destruct Hf as (rr & st' & V).
      exists ([(c, r)] ++ new1), [pending_in state1], [rr], st'. rewrite Hl1, <- app_assoc.
      split; [done|]. by apply Hdata.
  - intros E. apply IH with (state := state1) in E as (new & fr & rs & st' & Hl2 & V);
      [|apply set_client_lookup|constructor; cbn; [congruence|lia|done]].
    exists ([(c, r)] ++ new), fr, rs, st'. rewrite Hl2. cbn [env_log]. rewrite <- app_assoc.
    split; [done|]. by apply Hdata.
Qed.

(** ** Termination

    Reading ends, for a handler that returns: the peer's data and the interruptions
    are finite, and a response is sent with fuel of its own. *)

(** Reading reaches the world through calls only. *)
Lemma flush_by_calls fuel : forall (s : Server) fd, by_calls (ExchangeTcpServer_flushPendingWrite fuel s fd).
Proof.
  induction fuel as [|fuel IH]; intros s fd; cbn [ExchangeTcpServer_flushPendingWrite];
    unfold ExchangeTcpServer_updateClientEvents, client_write; eauto 20 with hft.
Qed.

Lemma readable_loop_by_calls flush_fuel fuel : forall (s : Server) fd, by_calls (readable_loop flush_fuel fuel s fd).
Proof.
  induction fuel as [|fuel IH]; intros s fd; cbn [readable_loop]; [apply by_calls_fail|].
  pose proof (flush_by_calls flush_fuel) as Hf.
  unfold client_read, after_no_data, handle_frame, ExchangeTcpServer_sendAll, ExchangeTcpServer_updateClientEvents.
  eauto 40 with hft.
Qed.

Section termination.
Context `{!WorldLaws W, !Quiescent W}.

Lemma flush_mono fuel : forall (s : Server) fd, mono (ExchangeTcpServer_flushPendingWrite fuel s fd).
Proof.
  unfold ExchangeTcpServer_updateClientEvents, client_write.
  induction fuel as [|fuel IH]; intros s fd; cbn [ExchangeTcpServer_flushPendingWrite];
    unfold ExchangeTcpServer_updateClientEvents, client_write; eauto 20 with hft.
Qed.

Lemma update_events_total (s : Server) fd events (e : Env W) {A} (f : bool -> A) :
  is_Some (io_bind (ExchangeTcpServer_updateClientEvents s fd events) (fun b => io_ret (f b)) e).
Proof. unfold ExchangeTcpServer_updateClientEvents, io_bind, call. destruct (world_call _ _). by eexists. Qed.

Lemma client_write_retried state fd (e : Env W) r e1 :
  client_write state fd e = Some (r, e1) ->
  (patience (env_world e1) <= patience (env_world e))%nat /\
  (cl_ssl state = 0 -> rep_ret r <= 0 -> rep_errno r = EINTR ->
   (patience (env_world e1) < patience (env_world e))%nat).
Proof.
  intros E. split; [by eapply (mono_if _ _ _ (mono_call _) (mono_call _)), E|].
  intros Es Hle Hi. unfold client_write in E. rewrite Es in E. cbn in E. set (c := c_send _ _) in E.
  pose proof (patience_retried (env_world e) c) as Hr. unfold call in E.
  destruct (world_call (env_world e) c) as [r0 w]. injection E as <- <-. cbn in *. apply Hr.
  by rewrite (proj2 (Z.leb_le _ _) Hle), Hi.
Qed.

Lemma flush_total fuel : forall (s : Server) fd state (e : Env W),
  srv_clients s !! fd = Some state -> sending state ->
  (length (pending_out state) + patience (env_world e) <= fuel)%nat ->
  is_Some (ExchangeTcpServer_flushPendingWrite fuel s fd e).
Proof.
  induction fuel as [|fuel IH]; intros s fd state e Hc Hs Hf;
    cbn [ExchangeTcpServer_flushPendingWrite]; rewrite Hc;
    destruct (Nat.ltb_spec (cl_sentBytes state) (length (cl_sendBuffer state))) as [Hlt|Hge];
    unfold pending_out in Hf; rewrite length_drop in Hf;
    [lia|apply update_events_total| |apply update_events_total].
  destruct (client_write_run state fd e Hs) as (c & r & w & Ew & _ & _ & Hi & Hn).
  destruct (client_write_retried _ _ _ _ _ Ew) as [Hm Hr].
  unfold pending_out in Hn. rewrite length_drop in Hn. cbn [env_world] in Hm, Hr.
  rewrite (io_bind_eq _ _ _ _ _ Ew), Hi. destruct (Z.ltb_spec 0 (rep_ret r)) as [Hp|Hp].
  { eapply IH; [apply set_client_lookup|..].
    - destruct Hs. split; cbn; lia.
    - unfold pending_out. cbn. rewrite length_drop. lia. }
  destruct (Z.eqb_spec (cl_ssl state) 0) as [Es|Es]; cbn [negb].
  - destruct (Z.eqb_spec (rep_errno r) EINTR) as [Er|Er].
    + apply (IH _ _ state); [done..|]. unfold pending_out. rewrite length_drop.
      specialize (Hr Es Hp Er). cbn. lia.
    + destruct (_ || _); [apply update_events_total|by eexists].
  - rewrite io_bind_call. destruct (_ || _); [apply update_events_total|by eexists].
Qed.

(** A handler that returns on every frame.  The exchange's own does not: [ServerSim] puts a
    recorder, which does, in its place. *)
Class HandlerTotal : Prop :=
  handler_returns : forall h account f, length f = EnterOrderSize -> is_Some (handle_order h account f).

Lemma handle_frame_mono fuel (s : Server) fd : mono (handle_frame fuel s fd).
Proof.
  unfold handle_frame, ExchangeTcpServer_sendAll.
  pose proof (flush_mono fuel) as Hf. eauto 20 with hft.
Qed.

Lemma handle_frame_total `{!HandlerLaws, !HandlerTotal} fuel (s : Server) fd state (e : Env W) :
  srv_clients s !! fd = Some state -> length (cl_receiveBuffer state) = EnterOrderSize ->
  (AcceptedSize + patience (env_world e) <= fuel)%nat -> is_Some (handle_frame fuel s fd e).
Proof.
  intros Hc Hl Hf. unfold handle_frame. rewrite Hc.
  destruct (handler_returns (srv_handler s) (srv_accountId s) _ Hl) as [[[r|] h] Eh]; rewrite Eh;
    [|by eexists].
  pose proof (response_size _ _ _ _ _ Eh) as Hr. unfold ExchangeTcpServer_sendAll.
  change (srv_clients (set_handler s h)) with (srv_clients s). rewrite Hc.
  case_bool_decide; [by eexists|].
  assert (sending (cl_set_send state r 0)) as Hs by (split; cbn; [lia|rewrite Hr; unfold AcceptedSize; lia]).
  destruct (flush_total fuel (set_client (set_handler s h) fd (cl_set_send state r 0)) fd _ e
    (set_client_lookup _ _ _) Hs) as [[[b s1] e1] E].
  { unfold pending_out. cbn. rewrite drop_0, Hr. done. }
  rewrite (io_bind_eq _ _ _ _ _ E). destruct b; cbn [negb]; [|by eexists].
  apply flush_spec with (state := cl_set_send state r 0) in E; [|apply set_client_lookup|done].
  destruct E as (state2 & _ & _ & -> & _). rewrite set_client_lookup. by eexists.
Qed.

Lemma after_no_data_total (s : Server) fd state r (e : Env W) :
  exists d e', after_no_data s fd state r e = Some (d, e') /\
    (patience (env_world e') <= patience (env_world e))%nat /\
    (d = None -> cl_ssl state = 0 /\ rep_errno r = EINTR).
Proof.
  assert (forall m : IO W (option bool), mono m -> is_Some (m e) ->
    (forall e', m e = Some (None, e') -> cl_ssl state = 0 /\ rep_errno r = EINTR) ->
    exists d e', m e = Some (d, e') /\ (patience (env_world e') <= patience (env_world e))%nat /\
      (d = None -> cl_ssl state = 0 /\ rep_errno r = EINTR)) as Hgen.
  { intros m Hm [[d e'] E] Hn. exists d, e'. split; [done|]. split; [by eapply Hm|].
    intros ->. by eapply Hn. }
  apply Hgen; unfold after_no_data.
  - unfold ExchangeTcpServer_updateClientEvents. eauto 20 with hft.
  - destruct (negb _); [rewrite io_bind_call|]; repeat case_match; try (by eexists);
      apply update_events_total.
  - intros e'. destruct (Z.eqb_spec (cl_ssl state) 0) as [Es|Es]; cbn [negb].
    + repeat case_match; intros [=]. bprop. done.
    + rewrite io_bind_call. unfold ExchangeTcpServer_updateClientEvents, io_bind, call, io_ret.
      repeat case_match; congruence.
Qed.

Lemma readable_loop_total `{!HandlerLaws, !HandlerTotal} flush_fuel fuel :
  forall (s : Server) fd state (e : Env W),
  srv_clients s !! fd = Some state -> client_ok state -> (patience (env_world e) < fuel)%nat ->
  (AcceptedSize + patience (env_world e) <= flush_fuel)%nat ->
  is_Some (readable_loop flush_fuel fuel s fd e).
Proof.
  induction fuel as [|fuel IH]; intros s fd state e Hc [Hbuf Hrec Hout] Hp Hf; cbn [readable_loop]; [lia|].
  rewrite Hc.
  destruct (client_read_run state fd (EnterOrderSize - cl_receivedBytes state) e)
    as (c & r & w & Er & Hrecv & _ & Hi & Hd & Hle & Hret & Hw); [unfold EnterOrderSize in *; lia|].
  pose proof (patience_mono (env_world e) c) as Hm. pose proof (patience_retried (env_world e) c) as Hr.
  rewrite Hw in Hm, Hr. cbn [fst snd] in Hm, Hr. rewrite Hret in Hr.
  rewrite (io_bind_eq _ _ _ _ _ Er), Hi. destruct (Z.ltb_spec 0 (rep_ret r)) as [Hpos|Hneg].
  - specialize (Hd Hpos). specialize (Hr eq_refl).
    assert (Z.to_nat (rep_ret r) = length (rep_data r)) as Hn by lia. rewrite Hn.
    unfold wr. rewrite bool_decide_true by (unfold EnterOrderSize in *; lia).
    set (buffer := take _ _ ++ _).
    assert (length buffer = EnterOrderSize) as Hb.
    { unfold buffer. rewrite !length_app, length_take, length_drop. lia. }
    destruct (Nat.eqb_spec (cl_receivedBytes state + length (rep_data r)) EnterOrderSize) as [Efull|Hpart].
    + set (state1 := cl_set_received _ _ _). set (e1 := mkEnv w _).
      destruct (handle_frame_total flush_fuel (set_client s fd state1) fd state1 e1) as [[[ok s2] e2] E];
        [apply set_client_lookup|done|unfold e1; cbn [env_world]; lia|].
      rewrite (io_bind_eq _ _ _ _ _ E). destruct ok; [|by eexists].
      pose proof (handle_frame_mono _ _ _ _ _ _ E) as Hm2. unfold e1 in Hm2. cbn in Hm2.
      apply handle_frame_spec with (state := state1) in E as (new1 & _ & rr & h & st1 & _ & _ & _ & -> & _ & _ & Q & _);
        [|apply set_client_lookup|done|done|done].
      eapply IH; [apply set_client_lookup|done|lia..].
    + eapply IH; [apply set_client_lookup| |cbn [env_world]; lia..]. constructor; cbn; [done|lia|done].
  - set (e1 := mkEnv w _). destruct (after_no_data_total s fd state r e1) as (d & e2 & E & Hm2 & Hnone).
    rewrite (io_bind_eq _ _ _ _ _ E). destruct d as [d|]; [by eexists|].
    destruct (Hnone eq_refl) as [Es Ee]. unfold e1 in Hm2. cbn in Hm2.
    assert (patience w < patience (env_world e))%nat.
    { apply Hr. rewrite Es, Ee. cbn. destruct (Z.ltb_spec (rep_ret r) 0); [done|].
      exfalso. assert (rep_ret r = 0) as E0 by lia. unfold after_no_data in E. rewrite Es, Hi, E0 in E.
      cbn in E. discriminate E. }
    eapply IH; [done|by constructor|lia..].
Qed.

End termination.

End server_proofs.

(** ** Before the TLS handshake *)

(** Runs that move no data and leave the handler alone. *)
Definition silent {W H} (s s' : ExchangeTcpServer H) (e e' : Env W) (new : list (Call * Reply)) : Prop :=
  env_log e' = env_log e ++ new /\ quiet new /\ srv_handler s' = srv_handler s.

Section handshake.
Context {W : Type} `{!World W} {H : Type}.
Implicit Types s : ExchangeTcpServer H.

Lemma free_ssl_run ssl (e : Env W) : exists e' new,
  free_ssl ssl e = Some (tt, e') /\ env_log e' = env_log e ++ new /\ quiet new.
Proof.
  unfold free_ssl. destruct (negb _); [|eexists _, []; rewrite app_nil_r; done].
  rewrite io_bind_call. destruct (world_call _ _) as [r1 w1]. cbn [fst snd].
  rewrite io_bind_call. destruct (world_call _ _) as [r2 w2]. cbn [fst snd].
  eexists _, _. split; [done|]. split; [cbn; by rewrite <- app_assoc|].
  apply quiet_app; by apply quiet_one.
Qed.

Lemma closeClient_run s fd (e : Env W) : exists s' e' new,
  ExchangeTcpServer_closeClient s fd e = Some (s', e') /\ silent s s' e e' new /\
  srv_clients s' = delete fd (srv_clients s).
Proof.
  unfold ExchangeTcpServer_closeClient.
  assert (exists s1 e1 new1, (match srv_clients s !! fd with
    | Some c => if negb (cl_ssl c =? 0) then
        let! _ := free_ssl (cl_ssl c) in
        io_ret (set_client s fd (mkClientState 0 (cl_tlsHandshakeComplete c) (cl_receiveBuffer c)
                          (cl_receivedBytes c) (cl_sendBuffer c) (cl_sentBytes c)))
        else io_ret s
    | None => io_ret s end) e = Some (s1, e1) /\ silent s s1 e e1 new1 /\
    delete fd (srv_clients s1) = delete fd (srv_clients s)) as (s1 & e1 & new1 & E1 & (Hl1 & Hq1 & Hh1) & Hd1).
  { assert (exists s1 e1 new1, io_ret s e = Some (s1, e1) /\ silent s s1 e e1 new1 /\
      delete fd (srv_clients s1) = delete fd (srv_clients s)) as Hret
      by (exists s, e, []; unfold silent; rewrite app_nil_r; done).
    destruct (srv_clients s !! fd) as [c|]; [|done]. destruct (negb _); [|done].
    destruct (free_ssl_run (cl_ssl c) e) as (e1 & new1 & E1 & Hl1 & Hq1).
    rewrite (io_bind_eq _ _ _ _ _ E1). eexists _, e1, new1. split; [done|]. split; [done|].
    apply delete_insert_eq. }
  rewrite (io_bind_eq _ _ _ _ _ E1).
  rewrite io_bind_call. destruct (world_call _ _) as [r1 w1]. cbn [fst snd].
  rewrite io_bind_call. destruct (world_call _ _) as [r2 w2]. cbn [fst snd].
  eexists _, _, _. split; [done|]. split; [|done]. split; [cbn; rewrite Hl1, <- !app_assoc; reflexivity|].
  split; [|done]. apply quiet_app; [done|]. apply quiet_app; by apply quiet_one.
Qed.

(** A step of the handshake completes it only when [SSL_accept] reports success. *)
Lemma progress_run s fd c (e : Env W) : srv_clients s !! fd = Some c -> cl_tlsHandshakeComplete c = false ->
  exists b s' e' new, ExchangeTcpServer_progressTlsHandshake s fd e = Some ((b, s'), e') /\
    silent s s' e e' new /\
    (s' = s \/ s' = set_client s fd (cl_handshake_done c) /\
     exists r, (c_SSL_accept (cl_ssl c), r) ∈ new /\ rep_ret r = 1).
Proof.
  intros Hc Ht. unfold ExchangeTcpServer_progressTlsHandshake, ExchangeTcpServer_updateClientEvents.
  rewrite Hc, Ht. destruct (cl_ssl c =? 0).
  { eexists _, s, e, []. split; [done|]. unfold silent. rewrite app_nil_r. split; [done|by left]. }
  rewrite io_bind_call. destruct (world_call _ _) as [ar w1]. cbn [fst snd].
  destruct (Z.eqb_spec (rep_ret ar) 1) as [Ha|Ha].
  - unfold io_bind, call, io_ret. destruct (world_call _ _) as [ur w2]. cbn.
    eexists _, _, _, _. split; [done|]. split.
    + split; [cbn; rewrite <- app_assoc; reflexivity|]. split; [|done].
      apply quiet_app; by apply quiet_one.
    + right. split; [done|]. exists ar. split; [set_solver|done].
  - rewrite io_bind_call. destruct (world_call _ _) as [gr w2]. cbn [fst snd].
    unfold io_bind, call, io_ret.
    destruct (rep_ret gr =? SSL_ERROR_WANT_READ), (rep_ret gr =? SSL_ERROR_WANT_WRITE);
      try destruct (world_call _ _) as [ur w3]; cbn;
      (eexists _, s, _, _; split; [done|]; split; [|by left]; split;
        [cbn; rewrite <- ?app_assoc; reflexivity|]; split; [|done];
        repeat apply quiet_app; by apply quiet_one).
Qed.

End handshake.

(** ** The exchange's handler *)

Lemma accepted_length m bs : AcceptedEncoder_encode m = Some bs -> length bs = AcceptedSize.
Proof.
  unfold AcceptedEncoder_encode, writeUint16, writeUint32, writeUint64. intros E.
  assert (length (replicate AcceptedSize char_space) = AcceptedSize) as Hl by apply length_replicate.
  repeat match type of E with
  | (_ ≫= _) = Some _ =>
      let buffer := fresh "buffer" in let Ew := fresh "Ew" in let H1 := fresh "Hl" in
      apply bind_Some in E as (buffer & Ew & E); apply wr_spec in Ew as (H1 & _ & _)
  end.
  apply wr_spec in E as (H1 & _ & _). congruence.
Qed.

#[export] Instance exchange_handler_laws std_hash publish :
  HandlerLaws (OuchHandler0 := ExchangeHandler std_hash publish).
Proof.
  intros g account f r g' E. unfold handle_order, ExchangeHandler, ExchangeOuchHandler_handleEnterOrder in E.
  apply bind_Some in E as (m & _ & E). destruct m as [m|]; [|done].
  apply bind_Some in E as ((o & g1) & _ & E). destruct o as [o|]; [|done].
  apply bind_Some in E as (ord & _ & E). apply bind_Some in E as (g2 & _ & E).
  apply bind_Some in E as (buffer & Eb & [= <- <-]). by eapply accepted_length.
Qed.

Lemma exchange_handler_eq std_hash publish g account f :
  handle_order (OuchHandler := ExchangeHandler std_hash publish) g account f =
    ExchangeOuchHandler_handleEnterOrder std_hash publish g account (Some f) (Z.of_nat (length f)).
Proof. reflexivity. Qed.

(** On orders it can place the handler is defined, whoever listens to the trades, and the
    engine follows the specification. *)
Lemma handler_run_refines std_hash publish account ms frames :
  Forall2 (fun m f => decodeEnterOrder (Some f) (Z.of_nat (length f)) = Some (Some m)) ms frames ->
  Forall placeable ms -> forall g st,
  engine_rel std_hash g st -> spec_inv st ->
  sp_sequence st + (1 + DefaultOrderCapacity) * Z.of_nat (length ms) < 2 ^ 64 ->
  let '(ids, trades, st') := spec_run st (order_submission account <$> ms) in
  exists resps g', handler_run (OuchHandler0 := ExchangeHandler std_hash publish) g account frames = Some (resps, g') /\
    engine_rel std_hash g' st' /\ Forall3 answered ids ms resps.
Proof.
  induction 1 as [|m f ms frames Hd HF IH]; intros Hp g st R I Hseq; cbn [fmap list_fmap spec_run handler_run].
  { eexists _, _. split; [done|]. split; [done|constructor]. }
  apply Forall_cons in Hp as [Hm Hp]. cbn [length] in Hseq.
  cbn [order_submission sub_account sub_side sub_price sub_quantity].
  pose proof (handle_refines std_hash publish g st account _ _ m R I Hm Hd) as H1.
  pose proof (spec_submit_known st account (eo_side m) (i64 (eo_price m)) _ I (proj2 (proj2 Hm))) as Hk.
  pose proof (spec_submit_inv st account (eo_side m) (i64 (eo_price m)) _ I (proj2 (proj2 Hm))) as I1.
  pose proof (spec_submit_sequence st account (eo_side m) (i64 (eo_price m)) (eo_quantity m) (si_wf _ I)) as Hsq.
  pose proof (engine_rel_length _ _ _ R) as Hlen. unfold OrderPool_available in Hlen. specialize (Hsq ltac:(lia)).
  destruct (spec_submit st _ _ _ _) as [[id trades] st1]. cbn [snd] in *.
  destruct H1 as (resp & g1 & E1 & R1 & Ha); [unfold DefaultOrderCapacity in *; lia|].
  specialize (IH Hp g1 st1 R1 I1 ltac:(unfold DefaultOrderCapacity in *; lia)).
  destruct (spec_run st1 _) as [[ids trades'] st2]. destruct IH as (resps & g2 & E2 & R2 & Ha2).
  exists (resp :: resps), g2. rewrite exchange_handler_eq, E1. cbn [mbind option_bind]. rewrite E2.
  split; [done|]. split; [done|]. constructor; [|done]. destruct Hk as (Hid & _ & _), (Z.eqb_spec id 0) as [->|Hne].
  - by destruct Ha as [-> _].
  - apply accepted_answered; try done; [apply Hm| |apply Ha].
    destruct Hid as [-> _]. pose proof (si_seq _ I). unfold is_uint, DefaultOrderCapacity in *. lia.
Qed.

(** ** Cutting a stream into frames *)

Lemma frames_determined (l1 l2 : list bytes) r1 r2 k :
  (0 < k)%nat -> Forall (fun f => length f = k) l1 -> Forall (fun f => length f = k) l2 ->
  (length r1 < k)%nat -> (length r2 < k)%nat -> mjoin l1 ++ r1 = mjoin l2 ++ r2 -> l1 = l2 /\ r1 = r2.
Proof.
  intros Hk H1. revert l2. induction H1 as [|f l1 Hf H1 IH]; intros l2 H2 Hr1 Hr2 E.
  - destruct H2 as [|f l2 Hf H2]; [done|]. exfalso. apply (f_equal length) in E. cbn in E.
    rewrite !length_app in E. lia.
  - destruct H2 as [|g l2 Hg H2].
    { exfalso. apply (f_equal length) in E. cbn in E. rewrite !length_app in E. lia. }
    change (mjoin (f :: l1)) with (f ++ mjoin l1) in E. change (mjoin (g :: l2)) with (g ++ mjoin l2) in E.
    rewrite <- !app_assoc in E. apply app_inj_1 in E as [-> E]; [|congruence].
    destruct (IH l2 H2 Hr1 Hr2 E) as [-> ->]. done.
Qed.

Lemma frames_unique (l1 l2 : list bytes) rest k :
  (0 < k)%nat -> Forall (fun f => length f = k) l1 -> Forall (fun f => length f = k) l2 ->
  (length rest < k)%nat -> mjoin l1 ++ rest = mjoin l2 -> l1 = l2 /\ rest = [].
Proof. intros Hk H1 H2 Hr E. eapply (frames_determined l1 l2 rest [] k); [done..|cbn; lia|]. by rewrite app_nil_r. Qed.

Lemma frames_lengths ms frames : Forall2 frame ms frames -> Forall (fun f => length f = EnterOrderSize) frames.
Proof. induction 1 as [|m f ms fs (_ & Hf & _)]; by constructor. Qed.

Lemma frames_decode ms frames : Forall2 frame ms frames ->
  Forall2 (fun m f => decodeEnterOrder (Some f) (Z.of_nat (length f)) = Some (Some m)) ms frames.
Proof. induction 1 as [|m f ms fs (_ & _ & Hd)]; by constructor. Qed.

Lemma client_new_ok ssl complete : client_ok (ClientState_new ssl complete).
Proof. constructor; cbn; [done|unfold EnterOrderSize; lia|]. split; cbn; lia. Qed.

Lemma all_some {A} (l : list (option A)) : Forall is_Some l -> Some <$> omap id l = l.
Proof. induction 1 as [|x l [y ->] HF IH]; cbn; [done|]. f_equal. exact IH. Qed.

(** A handler that answers every frame with 64 copies of its first byte, and counts. *)
Definition echo_handler : OuchHandler nat := fun n _ f =>
  Some (Some (replicate AcceptedSize (default 0 (head f))), S n).

(** ** Claims *)

(** C30: No order is taken before the TLS handshake is complete.  Whatever event epoll
    reports for a client whose handshake is not complete, serving it returns, neither
    reads nor writes application data on any connection, does not run the order
    handler and changes no other client; the client is closed, or unchanged, or marked
    complete, and the last only after [SSL_accept] returned 1 for its session. *)
Theorem no_order_before_the_handshake :
  forall (W : Type) (world : World W) (H : Type) (handler : OuchHandler H) (fuel : nat)
    (s : ExchangeTcpServer H) (fd events : Z) (c : ClientState) (e : Env W),
  srv_clients s !! fd = Some c -> cl_tlsHandshakeComplete c = false ->
  exists s' e' new, client_event fuel s fd events e = Some (s', e') /\ silent s s' e e' new /\
    (forall fd', fd' <> fd -> srv_clients s' !! fd' = srv_clients s !! fd') /\
    (srv_clients s' !! fd = None \/ srv_clients s' !! fd = Some c \/
     srv_clients s' !! fd = Some (cl_handshake_done c) /\
     exists r, (c_SSL_accept (cl_ssl c), r) ∈ new /\ rep_ret r = 1).
Proof.
  intros W world H handler fuel s fd events c e Hc Ht. unfold client_event. destruct (has_event _ _).
  { destruct (closeClient_run s fd e) as (s' & e' & new & E & Hs & Hd). exists s', e', new.
    split; [done|]. split; [done|]. rewrite Hd. split; [intros; by apply lookup_delete_ne|].
    left. apply lookup_delete_eq. }
  rewrite Hc, Ht. cbn [negb].
  destruct (progress_run s fd c e Hc Ht) as (b & s1 & e1 & new1 & E1 & (Hl1 & Hq1 & Hh1) & Hcase).
  rewrite (io_bind_eq _ _ _ _ _ E1). destruct b.
  { exists s1, e1, new1. split; [done|]. split; [done|]. destruct Hcase as [->|[-> Hr]].
    - split; [done|]. right; by left.
    - split; [intros fd' Hne; by apply lookup_insert_ne|]. right; right. split; [apply set_client_lookup|done]. }
  destruct (closeClient_run s1 fd e1) as (s2 & e2 & new2 & E2 & (Hl2 & Hq2 & Hh2) & Hd2).
  exists s2, e2, (new1 ++ new2). split; [done|]. rewrite Hd2. split.
  - split; [by rewrite Hl2, Hl1, app_assoc|]. split; [by apply quiet_app|congruence].
  - split; [|left; apply lookup_delete_eq]. intros fd' Hne. rewrite lookup_delete_ne by done.
    destruct Hcase as [->|[-> _]]; [done|]. by apply lookup_insert_ne.
Qed.

Lemma no_order_before_witness :
  exists s' e' new,
    client_event (OuchHandler0 := echo_handler) 100
      (set_client (ExchangeTcpServer_new 0 1001 0%nat [99] [107]) 5 (ClientState_new 3 false)) 5 EPOLLIN
      (mkEnv (mkToyWorld (replicate 100 79) 0) []) = Some (s', e') /\
    silent (set_client (ExchangeTcpServer_new 0 1001 0%nat [99] [107]) 5 (ClientState_new 3 false)) s'
      (mkEnv (mkToyWorld (replicate 100 79) 0) []) e' new.
Proof.
  destruct (no_order_before_the_handshake ToyWorld toy_world nat echo_handler 100
    (set_client (ExchangeTcpServer_new 0 1001 0%nat [99] [107]) 5 (ClientState_new 3 false)) 5 EPOLLIN
    (ClientState_new 3 false) (mkEnv (mkToyWorld (replicate 100 79) 0) [])) as (s' & e' & new & E & Hs & _).
  - reflexivity.
  - reflexivity.
  - exists s', e', new. split; [exact E|exact Hs].
Defined.
