(* ===== verification/ServerLifecycle.v ===== *)
(** * The life of the exchange server

    Starting, accepting, serving and stopping in [exchange/exchange_tcp_server.cpp].  The
    invariant [serving] says which handles the server owns: exactly the ones it records, its
    own and one descriptor and possibly one TLS session per client.  Every operation keeps
    it, for every answer of the system and of OpenSSL that obeys the laws of [Net] and
    [NetLogic].  The event loop is in [ServerFrames], with what the handler is given. *)

From S2P Require Import Prelude Wire Ouch Net NetLogic Exchange ExchangeServer ServerProofs.

(** ** The handles of a server *)

Definition ssl_handles (ssl : Z) : list Handle := if ssl =? 0 then [] else [H_ssl ssl].

Definition client_handles (entry : Z * Z) : list Handle := H_fd entry.1 :: ssl_handles entry.2.

Definition ctx_handles (ctx : Z) : list Handle := if ctx =? 0 then [] else [H_ctx ctx].

Definition fd_handles (fd : Z) : list Handle := if 0 <=? fd then [H_fd fd] else [].

Definition server_handles {H} (s : ExchangeTcpServer H) : list Handle :=
  fd_handles (srv_epollFd s) ++ fd_handles (srv_listenFd s) ++ ctx_handles (srv_sslContext s).

Definition all_handles {H} (s : ExchangeTcpServer H) : list Handle :=
  (map_to_list (cl_ssl <$> srv_clients s) ≫= client_handles) ++ server_handles s.

(** Nothing open and no client. *)
Definition server_idle {H} (s : ExchangeTcpServer H) : Prop :=
  srv_sslContext s = 0 /\ srv_listenFd s < 0 /\ srv_epollFd s < 0 /\ srv_clients s = ∅.

Section handles.
Context {H : Type}.
Implicit Types s : ExchangeTcpServer H.

Lemma all_handles_idle s : server_idle s -> all_handles s = [].
Proof.
  intros (Ec & El & Ee & Em). unfold all_handles, server_handles, fd_handles, ctx_handles.
  rewrite Ec, Em, (proj2 (Z.leb_gt _ _) El), (proj2 (Z.leb_gt _ _) Ee), fmap_empty, map_to_list_empty. done.
Qed.

Lemma all_handles_insert s fd c : srv_clients s !! fd = None ->
  all_handles (set_client s fd c) ≡ₚ client_handles (fd, cl_ssl c) ++ all_handles s.
Proof.
  intros Hn. unfold all_handles. change (server_handles (set_client s fd c)) with (server_handles s).
  cbn [set_client set_clients srv_clients]. rewrite fmap_insert.
  rewrite map_to_list_insert by (by rewrite lookup_fmap, Hn). rewrite app_assoc. reflexivity.
Qed.

Lemma all_handles_delete s fd c : srv_clients s !! fd = Some c ->
  all_handles s ≡ₚ client_handles (fd, cl_ssl c) ++ all_handles (set_clients s (delete fd (srv_clients s))).
Proof.
  intros Hc. rewrite <- (all_handles_insert _ fd c) by apply lookup_delete_eq.
  unfold set_client, set_clients. cbn. rewrite insert_delete_id by done. by destruct s.
Qed.

(** The same handles: what a client is sent and sends does not matter. *)
Definition same_handles s s' : Prop :=
  srv_epollFd s' = srv_epollFd s /\ srv_listenFd s' = srv_listenFd s /\
  srv_sslContext s' = srv_sslContext s /\ cl_ssl <$> srv_clients s' = cl_ssl <$> srv_clients s.

Lemma same_handles_refl s : same_handles s s.
Proof. done. Qed.

Lemma same_handles_trans s1 s2 s3 : same_handles s1 s2 -> same_handles s2 s3 -> same_handles s1 s3.
Proof. intros (?&?&?&?) (?&?&?&?). repeat split; congruence. Qed.

Lemma same_handles_set_client s fd c c' : srv_clients s !! fd = Some c -> cl_ssl c' = cl_ssl c ->
  same_handles s (set_client s fd c').
Proof.
  intros Hc E. repeat split. cbn. rewrite fmap_insert, E.
  apply insert_id. by rewrite lookup_fmap, Hc.
Qed.

Lemma same_handles_all s s' : same_handles s s' -> all_handles s' = all_handles s.
Proof. intros (E1&E2&E3&E4). unfold all_handles, server_handles. by rewrite E1, E2, E3, E4. Qed.

Lemma same_handles_client s s' fd : same_handles s s' ->
  is_Some (srv_clients s' !! fd) <-> is_Some (srv_clients s !! fd).
Proof.
  intros (_&_&_&E). rewrite <- (fmap_is_Some cl_ssl), <- (fmap_is_Some cl_ssl (srv_clients s !! fd)).
  by rewrite <- !lookup_fmap, E.
Qed.

End handles.

#[export] Hint Resolve same_handles_refl same_handles_set_client : hft.

(** ** Stopping *)

Section stopping.
Context {W : Type} `{!World W, !Quiescent W, !HandleLaws W} {H : Type}.
Implicit Types (s : ExchangeTcpServer H) (e : Env W).

Lemma free_ssl_wp ssl hs e : owned (ssl_handles ssl ++ hs) e ->
  wp (free_ssl ssl) e (fun _ e' => owned hs e' /\ after e e').
Proof.
  unfold free_ssl, ssl_handles. destruct (ssl =? 0); intros Ho; cbn [negb].
  - apply wp_ret. split; [done|apply after_refl].
  - apply wp_call_then. intros r1 e1 H1. apply wp_call_then. intros r2 e2 H2. apply wp_ret. split.
    + eapply owned_release; [|exact H2|done]. by eapply owned_calm, (called_calm _ _ _ _ H1).
    + by eapply after_trans; [eapply called_after; [exact H1|]|eapply called_after; [exact H2|]].
Qed.

Lemma close_wp fd hs e : owned (H_fd fd :: hs) e ->
  wp (call (c_close fd)) e (fun _ e' => owned hs e' /\ after e e').
Proof.
  intros Ho. apply wp_call. intros r e' Hc. split; [by eapply owned_release|by eapply called_after].
Qed.

Lemma stop_clients_wp (entries : list (Z * ClientState)) hs : forall e,
  owned (((prod_map id cl_ssl <$> entries) ≫= client_handles) ++ hs) e ->
  wp (stop_clients entries) e (fun _ e' => owned hs e').
Proof.
  induction entries as [|[fd c] entries IH]; intros e Ho; cbn [stop_clients]; [by apply wp_ret|].
  apply wp_bind. cbn in Ho. rewrite <- app_assoc in Ho.
  eapply wp_mono; [eapply free_ssl_wp, owned_perm; [exact Ho|]|].
  { rewrite app_comm_cons, (Permutation_app_comm [H_fd fd] (ssl_handles (cl_ssl c))), <- app_assoc. done. }
  intros _ e1 [Ho1 _]. apply wp_bind. eapply wp_mono; [by apply close_wp|].
  intros _ e2 [Ho2 _]. by apply IH.
Qed.

Lemma stop_wp s e : owned (all_handles s) e ->
  wp (ExchangeTcpServer_stop s) e (fun s' e' => owned [] e' /\ server_idle s').
Proof.
  intros Ho. unfold ExchangeTcpServer_stop. apply wp_bind.
  eapply wp_mono; [apply (stop_clients_wp _ (server_handles s)), (owned_perm _ _ _ Ho)|].
  { unfold all_handles. by rewrite map_to_list_fmap. }
  intros [] e1 Ho1. unfold server_handles, fd_handles, ctx_handles in Ho1.
  destruct s as [port account h cert key ctx lfd efd clients]; cbn in *. apply wp_bind.
  eapply (wp_mono _ _ (fun s' e' => s' = mkServer port account h cert key ctx lfd (Z.min efd (-1)) ∅ /\
    owned ((if 0 <=? lfd then [H_fd lfd] else []) ++ if ctx =? 0 then [] else [H_ctx ctx]) e')).
  { destruct (Z.leb_spec 0 efd) as [He|He].
    - apply wp_bind. eapply wp_mono; [by apply close_wp|]. intros _ e2 [Ho2 _]. apply wp_ret.
      split; [|done]. by rewrite Z.min_r by lia.
    - apply wp_ret. split; [|done]. by rewrite Z.min_l by lia. }
  intros s2 e2 [-> Ho2]. cbn. apply wp_bind.
  eapply (wp_mono _ _ (fun s' e' => s' = mkServer port account h cert key ctx (Z.min lfd (-1)) (Z.min efd (-1)) ∅ /\
    owned (if ctx =? 0 then [] else [H_ctx ctx]) e')).
  { destruct (Z.leb_spec 0 lfd) as [Hl|Hl].
    - apply wp_bind. eapply wp_mono; [by apply close_wp|]. intros _ e3 [Ho3 _]. apply wp_ret.
      split; [|done]. by rewrite (Z.min_r lfd) by lia.
    - apply wp_ret. split; [|done]. by rewrite (Z.min_l lfd) by lia. }
  intros s3 e3 [-> Ho3]. cbn.
  destruct (Z.eqb_spec ctx 0) as [->|Hc]; cbn [negb].
  - apply wp_ret. split; [done|]. unfold server_idle. cbn. split_and!; done || lia.
  - apply wp_call_then. intros r e4 H4. apply wp_ret. split; [by eapply owned_release|].
    unfold server_idle. cbn. split_and!; done || lia.
Qed.

Lemma stop_false_wp s e (Q : bool * ExchangeTcpServer H -> Env W -> Prop) : owned (all_handles s) e ->
  (forall s' e', owned [] e' -> server_idle s' -> Q (false, s') e') -> wp (stop_false s) e Q.
Proof.
  intros Ho HQ. unfold stop_false. apply wp_bind. eapply wp_mono; [by apply stop_wp|].
  intros s' e' [Ho' Hi]. apply wp_ret. by apply HQ.
Qed.

End stopping.

(** ** Starting *)

(** Between two reads, with at most one response to send. *)
Definition client_served (c : ClientState) : Prop :=
  client_ok c /\ (length (cl_sendBuffer c) <= AcceptedSize)%nat.

(** The invariant of a running server: it owns exactly the handles it records, watches
    its listening socket and its clients, and every client, but for the one at hand, is
    between two reads. *)
Record serving_but {W H} `{!World W, !Quiescent W, !HandleLaws W} (busy : option Z) (N : nat)
    (s : ExchangeTcpServer H) (e : Env W) : Prop := {
  sg_patience : (patience (env_world e) <= N)%nat;
  sg_owned : owned (all_handles s) e;
  sg_watching : watching (srv_epollFd s) (fun fd => fd = srv_listenFd s \/ is_Some (srv_clients s !! fd)) e;
  sg_clients : forall fd c, srv_clients s !! fd = Some c -> busy <> Some fd -> client_served c;
  sg_listen : 0 <= srv_listenFd s;
  sg_epoll : 0 <= srv_epollFd s
}.

Abbreviation serving := (serving_but None).

Section starting.
Context {W : Type} `{!World W, !Quiescent W, !HandleLaws W} {H : Type}.
Implicit Types (s : ExchangeTcpServer H) (e : Env W).

Lemma all_handles_no_clients s : srv_clients s = ∅ -> all_handles s = server_handles s.
Proof. intros E. unfold all_handles. by rewrite E, fmap_empty, map_to_list_empty. Qed.

(** What [start] ends with. *)
Definition started (N : nat) (r : bool * ExchangeTcpServer H) (e : Env W) : Prop :=
  owned (all_handles r.2) e /\ srv_clients r.2 = ∅ /\ (r.1 = true -> serving N r.2 e).

Lemma started_stop N s e : srv_clients s = ∅ -> owned (server_handles s) e -> wp (stop_false s) e (started N).
Proof.
  intros Hc Ho. apply stop_false_wp; [by rewrite all_handles_no_clients|]. intros s' e' Ho' Hi.
  split; [by rewrite all_handles_idle|]. by split; [apply Hi|].
Qed.

Lemma initializeTls_wp s e : server_idle s -> owned [] e ->
  wp (ExchangeTcpServer_initializeTls s) e (fun r e' => after e e' /\
    owned (ctx_handles (srv_sslContext r.2)) e' /\ r.2 = set_sslContext s (srv_sslContext r.2)).
Proof.
  destruct s as [port account h cert key ctx lfd efd clients]. intros (Hc & _) Ho. cbn in Hc. subst ctx.
  unfold ExchangeTcpServer_initializeTls. cbn [srv_certificatePath srv_privateKeyPath].
  destruct (_ || _); [apply wp_ret; split; [apply after_refl|done]|].
  eapply wp_acquire; [exact Ho|apply after_refl|done..|]. intros r e1 Ho1 A1 _.
  unfold set_sslContext. cbn -[ctx_handles]. cbn in Ho1.
  assert (owned (ctx_handles (rep_ret r)) e1) as Hctx by (unfold ctx_handles; by destruct (rep_ret r =? 0)).
  destruct (rep_ret r =? 0); [by apply wp_ret|].
  eapply wp_ordinary; [exact Hctx|exact A1|done|]. intros r2 e2 Ho2 A2.
  destruct (negb _); [by apply wp_ret|].
  eapply wp_ordinary; [exact Ho2|exact A2|done|]. intros r3 e3 Ho3 A3.
  destruct (negb _); [by apply wp_ret|].
  eapply wp_ordinary; [exact Ho3|exact A3|done|]. intros r4 e4 Ho4 A4.
  destruct (negb _); by apply wp_ret.
Qed.

Lemma setNonBlocking_wp fd hs e0 e : owned hs e -> after e0 e ->
  wp (ExchangeTcpServer_setNonBlocking fd) e (fun _ e' => owned hs e' /\ after e0 e').
Proof.
  intros Ho Ha. unfold ExchangeTcpServer_setNonBlocking.
  eapply wp_ordinary; [exact Ho|exact Ha|done|]. intros r e1 Ho1 A1.
  destruct (_ <? 0); [by apply wp_ret|].
  eapply wp_ordinary; [exact Ho1|exact A1|done|]. intros r2 e2 Ho2 A2. by apply wp_ret.
Qed.

Lemma start_listening_wp N s e0 e : srv_clients s = ∅ -> 0 <= srv_listenFd s -> srv_epollFd s < 0 ->
  owned (server_handles s) e -> after e0 e -> (patience (env_world e0) <= N)%nat ->
  wp (start_listening s) e (started N).
Proof.
  intros Hc Hl He Ho Ha HN. unfold start_listening.
  eapply wp_ordinary; [exact Ho|exact Ha|done|]. intros r1 e1 Ho1 A1.
  destruct (_ <? 0); [by apply started_stop|].
  eapply wp_acquire; [exact Ho1|exact A1|done..|]. intros r2 e2 Ho2 A2 C2.
  set (s2 := set_fds s (srv_listenFd s) (rep_ret r2)).
  assert (owned (server_handles s2) e2) as Hs2.
  { eapply owned_perm; [exact Ho2|]. unfold server_handles, fd_handles. cbn.
    rewrite (proj2 (Z.leb_gt _ _) He). by destruct (0 <=? rep_ret r2). }
  destruct (Z.ltb_spec (srv_epollFd s2) 0) as [Hneg|Hpos]; [by apply started_stop|].
  apply wp_call_then. intros r3 e3 C3.
  assert (owned (server_handles s2) e3) as Hs3 by (by eapply owned_no_acquire).
  destruct (Z.ltb_spec (rep_ret r3) 0) as [Hneg3|Hpos3]; [by apply started_stop|].
  apply wp_ret. split; [by rewrite all_handles_no_clients|]. split; [done|]. intros _. split.
  - pose proof (called_patience _ _ _ _ C3). destruct A2. lia.
  - by rewrite all_handles_no_clients.
  - eapply watching_mono; [eapply watching_add; [|exact C3]|].
    + eapply watching_new; [exact C2|exact Hpos].
    + intros fd [Hf| ->]; [done|by left].
  - cbn. rewrite Hc. intros fd c E. by rewrite lookup_empty in E.
  - done.
  - done.
Qed.

Lemma start_wp N s e : server_idle s -> owned [] e -> (patience (env_world e) <= N)%nat ->
  wp (ExchangeTcpServer_start s) e (started N).
Proof.
  intros Hi Ho HN. unfold ExchangeTcpServer_start. apply wp_bind.
  eapply wp_mono; [by apply initializeTls_wp|]. intros [tls s1] e1 (A1 & Ho1 & Es1). cbn in Ho1, Es1.
  destruct Hi as (_ & Hlfd & Hefd & Hcl).
  assert (srv_listenFd s1 < 0 /\ srv_epollFd s1 < 0 /\ srv_clients s1 = ∅) as (Hl1 & He1 & Hc1)
    by (rewrite Es1; by repeat split).
  assert (server_handles s1 = ctx_handles (srv_sslContext s1)) as Eh1.
  { unfold server_handles, fd_handles. by rewrite (proj2 (Z.leb_gt _ _) Hl1), (proj2 (Z.leb_gt _ _) He1). }
  destruct tls; cbn [negb]; [|apply started_stop; by rewrite ?Eh1].
  eapply wp_acquire; [exact Ho1|exact A1|done..|]. intros r2 e2 Ho2 A2 _.
  set (s2 := set_fds s1 (rep_ret r2) (srv_epollFd s1)).
  assert (owned (server_handles s2) e2) as Hs2.
  { eapply owned_perm; [exact Ho2|]. unfold server_handles, fd_handles. cbn.
    rewrite (proj2 (Z.leb_gt _ _) He1). by destruct (0 <=? rep_ret r2). }
  destruct (Z.ltb_spec (srv_listenFd s2) 0) as [Hneg|Hpos].
  { apply wp_ret. split; [by rewrite all_handles_no_clients|]. by split. }
  eapply wp_ordinary; [exact Hs2|exact A2|done|]. intros r3 e3 Ho3 A3. apply wp_bind.
  eapply wp_mono; [eapply (setNonBlocking_wp _ _ e); [exact Ho3|exact A3]|]. intros nb e4 [Ho4 A4].
  destruct nb; cbn [negb]; [|by apply started_stop].
  eapply wp_ordinary; [exact Ho4|exact A4|done|]. intros r5 e5 Ho5 A5.
  destruct (rep_ret r5 <? 0); [by apply started_stop|].
  destruct (srv_port s2 =? 0); [|by eapply start_listening_wp].
  eapply wp_ordinary; [exact Ho5|exact A5|done|]. intros r6 e6 Ho6 A6.
  destruct (rep_ret r6 <? 0); [by apply started_stop|by eapply start_listening_wp].
Qed.

End starting.

(** ** Serving a client *)

Section clients.
Context {W : Type} `{!World W, !WorldLaws W, !Quiescent W, !HandleLaws W}.
Context {H : Type} `{!OuchHandler H, !HandlerLaws, !HandlerTotal}.
Implicit Types (s : ExchangeTcpServer H) (e : Env W).

Lemma closeClient_wp fd c N s e : serving_but (Some fd) N s e -> srv_clients s !! fd = Some c ->
  wp (ExchangeTcpServer_closeClient s fd) e
    (fun s' e' => serving N s' e' /\ s' = set_clients s (delete fd (srv_clients s))).
Proof.
  intros [HN Ho Hw Hcl Hl He] Hc. unfold ExchangeTcpServer_closeClient. rewrite Hc.
  set (s1 := set_clients s (delete fd (srv_clients s))).
  assert (owned (ssl_handles (cl_ssl c) ++ H_fd fd :: all_handles s1) e) as Ho1.
  { eapply owned_perm; [exact Ho|]. rewrite (all_handles_delete s fd c Hc). unfold client_handles. cbn.
    by rewrite Permutation_middle. }
  apply wp_bind. eapply (wp_mono _ _ (fun s' e' => owned (H_fd fd :: all_handles s1) e' /\ after e e' /\
    srv_epollFd s' = srv_epollFd s /\ set_clients s' (delete fd (srv_clients s')) = s1)).
  { destruct (Z.eqb_spec (cl_ssl c) 0) as [Es|Es]; cbn [negb].
    - apply wp_ret. rewrite Es in Ho1. split; [done|]. split; [apply after_refl|done].
    - apply wp_bind. eapply wp_mono; [by eapply free_ssl_wp|]. intros _ e1 [Ho2 A1]. apply wp_ret.
      split; [done|]. split; [done|]. split; [done|]. unfold s1, set_clients, set_client. cbn.
      by rewrite delete_insert_eq. }
  intros s2 e2 (Ho2 & A2 & Ee2 & Es2).
  eapply wp_ordinary; [exact Ho2|exact A2|done|]. intros r3 e3 Ho3 A3.
  eapply wp_release; [exact Ho3|exact A3|done|]. intros r4 e4 Ho4 A4 C4. apply wp_ret.
  rewrite Es2. split; [|done]. split; [destruct A4; lia|done| | |done|done].
  - eapply watching_mono; [eapply watching_close, C4; by eapply watching_after|].
    intros fd' [[ -> |Hs] Hne]; [by left|right]. cbn. by rewrite lookup_delete_ne.
  - intros fd' c' Hc' _. unfold s1 in Hc'. cbn in Hc'. apply lookup_delete_Some in Hc' as [Hne Hc'].
    apply (Hcl fd'); congruence.
Qed.

(** What holds of the client [fd] and is kept by every change of its buffers, reading and
    writing keep. *)
Definition client_is (fd : Z) (P : ClientState -> Prop) s : Prop := forall c, srv_clients s !! fd = Some c -> P c.

Lemma client_is_set_client fd (P : ClientState -> Prop) s c : P c -> client_is fd P (set_client s fd c).
Proof. intros HP c'. rewrite set_client_lookup. congruence. Qed.

Section kept.
Context (P : ClientState -> Prop).
Hypothesis P_send : forall c buffer n, P c -> buffer = cl_sendBuffer c \/ (length buffer <= AcceptedSize)%nat ->
  P (cl_set_send c buffer n).
Hypothesis P_received : forall c buffer n, P c -> P (cl_set_received c buffer n).

Lemma flush_keeps fuel fd : forall s e b s' e', client_is fd P s ->
  ExchangeTcpServer_flushPendingWrite fuel s fd e = Some ((b, s'), e') -> client_is fd P s'.
Proof.
  induction fuel as [|fuel IH]; intros s e b s' e' Hb; cbn [ExchangeTcpServer_flushPendingWrite];
    destruct (srv_clients s !! fd) as [c|] eqn:Hc; try (intros [= _ <- _]; done);
    destruct (_ <? _)%nat; try done;
    try (intros (b1 & e1 & _ & [= _ <- _])%io_bind_Some; apply client_is_set_client, P_send;
         [by apply Hb|right; cbn; lia]).
  intros (r & e1 & _ & E)%io_bind_Some. destruct (0 <? _).
  { eapply IH, E. apply client_is_set_client, P_send; [by apply Hb|by left]. }
  destruct (negb _); [apply io_bind_Some in E as (r2 & e2 & _ & E); destruct (_ || _)|
    destruct (_ =? EINTR); [by eapply IH|destruct (_ || _)]];
    try (apply io_bind_Some in E as (u & e3 & _ & E)); by injection E as _ <- _.
Qed.

Lemma handle_frame_keeps fuel fd s e b s' e' : client_is fd P s ->
  handle_frame fuel s fd e = Some ((b, s'), e') -> client_is fd P s'.
Proof.
  intros Hb. unfold handle_frame. destruct (srv_clients s !! fd) as [c|] eqn:Hc; [|done].
  destruct (handle_order _ _ _) as [[[r|] h]|] eqn:Eh; [|by intros [= _ <- _]|done].
  pose proof (response_size _ _ _ _ _ Eh) as Hr.
  intros ([ok s1] & e1 & E & E')%io_bind_Some. unfold ExchangeTcpServer_sendAll in E.
  change (srv_clients (set_handler s h)) with (srv_clients s) in E. rewrite Hc in E.
  assert (client_is fd P s1) as Hb1.
  { case_bool_decide; [by injection E as _ <- _|]. eapply flush_keeps, E.
    apply client_is_set_client, P_send; [by apply Hb|right; lia]. }
  destruct ok; cbn [negb] in E'; [|by injection E' as _ <- _].
  destruct (srv_clients s1 !! fd) as [c1|] eqn:Hc1; [|done]. injection E' as _ <- _.
  apply client_is_set_client, P_received. by apply (Hb1 c1).
Qed.

Lemma readable_loop_keeps flush_fuel fuel fd : forall s e b s' e', client_is fd P s ->
  readable_loop flush_fuel fuel s fd e = Some ((b, s'), e') -> client_is fd P s'.
Proof.
  induction fuel as [|fuel IH]; intros s e b s' e' Hb; cbn [readable_loop]; [done|].
  destruct (srv_clients s !! fd) as [c|] eqn:Hc; [|done].
  intros (r & e1 & _ & E)%io_bind_Some. destruct (0 <? _).
  - destruct (wr _ _ _) as [buffer|]; [|done].
    set (s1 := set_client s fd _) in E.
    assert (client_is fd P s1) as Hb1 by (apply client_is_set_client, P_received; by apply (Hb c)).
    destruct (_ =? EnterOrderSize)%nat; [|by eapply IH; [|exact E]].
    apply io_bind_Some in E as ([ok s2] & e2 & E2 & E). apply handle_frame_keeps in E2; [|done].
    destruct ok; [by eapply IH; [|exact E]|by injection E as _ <- _].
  - apply io_bind_Some in E as ([d|] & e2 & _ & E); [by injection E as _ <- _|by eapply IH; [|exact E]].
Qed.

End kept.

(** At most a response is waiting to be sent. *)
Abbreviation bounded := (fun c => (length (cl_sendBuffer c) <= AcceptedSize)%nat).

Lemma bounded_send c buffer n : bounded c -> buffer = cl_sendBuffer c \/ (length buffer <= AcceptedSize)%nat ->
  bounded (cl_set_send c buffer n).
Proof. by intros ? [->|?]. Qed.

(** Reading and writing make ordinary calls only. *)
Lemma flush_calm fuel : forall s fd, calm_io (W := W) (ExchangeTcpServer_flushPendingWrite fuel s fd).
Proof.
  induction fuel as [|fuel IH]; intros s fd; cbn [ExchangeTcpServer_flushPendingWrite];
    unfold ExchangeTcpServer_updateClientEvents, client_write; eauto 20 with hft.
Qed.

Lemma handle_frame_calm fuel s fd : calm_io (W := W) (handle_frame fuel s fd).
Proof. unfold handle_frame, ExchangeTcpServer_sendAll. pose proof (flush_calm fuel). eauto 20 with hft. Qed.

Lemma readable_loop_calm flush_fuel fuel : forall s fd, calm_io (W := W) (readable_loop flush_fuel fuel s fd).
Proof.
  pose proof (handle_frame_calm flush_fuel) as Hf.
  induction fuel as [|fuel IH]; intros s fd; cbn [readable_loop];
    unfold client_read, after_no_data, ExchangeTcpServer_updateClientEvents; eauto 30 with hft.
Qed.

(** Only the client [fd] may have changed. *)
Definition touches (fd : Z) s s' : Prop :=
  srv_listenFd s' = srv_listenFd s /\ forall fd', fd' <> fd -> srv_clients s' !! fd' = srv_clients s !! fd'.

Lemma touches_set_client fd s c h : touches fd s (set_handler (set_client s fd c) h).
Proof. split; [done|]. intros fd' Hne. cbn. by rewrite lookup_insert_ne. Qed.

(** A client is served with ordinary calls; when it is to be closed, nothing is known of
    its buffers. *)
Lemma serving_update (b : bool) N s e e' fd c c' h : serving N s e -> srv_clients s !! fd = Some c ->
  calm e e' -> cl_ssl c' = cl_ssl c -> (b = true -> client_served c') ->
  serving_but (if b then None else Some fd) N (set_handler (set_client s fd c') h) e'.
Proof.
  intros [HN Ho Hw Hcl Hl He] Hc Hcalm Es Hb.
  assert (same_handles s (set_handler (set_client s fd c') h)) as Hs by (by eapply same_handles_set_client).
  split; [destruct Hcalm; lia| | | |done|done].
  - rewrite (same_handles_all _ _ Hs). by eapply owned_calm.
  - eapply watching_mono; [by eapply watching_after, calm_after|].
    intros fd' [ -> |Hf]; [by left|right]. by rewrite (same_handles_client _ _ fd' Hs).
  - intros fd' c1. cbn. destruct (decide (fd' = fd)) as [->|Hne].
    + rewrite lookup_insert_eq. intros [= <-] Hb'. apply Hb. by destruct b.
    + rewrite lookup_insert_ne by done. intros Hc1 _. by apply (Hcl fd').
Qed.

Lemma flush_wp fuel N s e fd c : serving N s e -> srv_clients s !! fd = Some c ->
  (AcceptedSize + N < fuel)%nat ->
  wp (ExchangeTcpServer_flushPendingWrite fuel s fd) e (fun r e' =>
    exists c', r.2 = set_client s fd c' /\ serving N r.2 e').
Proof.
  intros Hs Hc Hf. destruct (sg_clients _ _ _ _ Hs fd c Hc) as [[Hbuf Hrec Hout] Hlen]; [done|].
  apply wp_total.
  - apply flush_total with (state := c); [done..|]. pose proof (sg_patience _ _ _ _ Hs).
    unfold pending_out. rewrite length_drop. lia.
  - intros [b s'] e' E. pose proof (flush_spec _ _ _ _ _ _ _ _ Hc Hout E) as (c' & new & _ & -> & Hsame & Hout' & _).
    destruct Hsame as (Es & Et & Eb & Er). exists c'. split; [done|].
    apply (serving_update true N s e e' fd c c' (srv_handler s)); [done|done|by eapply flush_calm|done|].
    intros _. split; [split; [by rewrite Eb|by rewrite Er|done]|].
    eapply (flush_keeps bounded) in E; [apply (E c'), set_client_lookup|apply bounded_send|].
    intros c1 E1. cbn in *. congruence.
Qed.

Lemma readable_wp fuel N s e fd c : serving N s e -> srv_clients s !! fd = Some c ->
  (AcceptedSize + N < fuel)%nat ->
  wp (ExchangeTcpServer_handleClientReadable fuel fuel s fd) e (fun r e' =>
    serving_but (if r.1 then None else Some fd) N r.2 e' /\ touches fd s r.2 /\ is_Some (srv_clients r.2 !! fd)).
Proof.
  intros Hs Hc Hf. destruct (sg_clients _ _ _ _ Hs fd c Hc) as [Hok Hlen]; [done|].
  unfold ExchangeTcpServer_handleClientReadable. rewrite Hc. apply wp_total.
  - pose proof (sg_patience _ _ _ _ Hs). apply readable_loop_total with (state := c); [done..|lia|lia].
  - intros [b s'] e' E.
    destruct (readable_loop_spec _ _ _ _ _ _ _ _ _ Hc Hok E) as (new & frames & resps & c' & _ & V).
    destruct V as [V1 V2 _ _ _ _ _ V8]. apply (readable_loop_keeps bounded bounded_send) with (fd := fd) in E as Hb;
      [|done|intros c1 E1; congruence].
    rewrite V1 in Hb |- *. cbn [fst snd]. split; [|split; [apply touches_set_client|]].
    + apply (serving_update b N s e e' fd c c'); [done|done|by eapply readable_loop_calm|done|].
      intros Hb'. split; [by apply V8|]. apply (Hb c'). cbn. by rewrite lookup_insert_eq.
    + cbn. rewrite lookup_insert_eq. by eexists.
Qed.

Lemma progress_calm s fd : calm_io (W := W) (ExchangeTcpServer_progressTlsHandshake s fd).
Proof.
  unfold ExchangeTcpServer_progressTlsHandshake, ExchangeTcpServer_updateClientEvents. eauto 20 with hft.
Qed.

Lemma progress_wp N s e fd c : serving N s e -> srv_clients s !! fd = Some c ->
  cl_tlsHandshakeComplete c = false ->
  wp (ExchangeTcpServer_progressTlsHandshake s fd) e (fun r e' =>
    exists c', r.2 = set_client s fd c' /\ serving N r.2 e').
Proof.
  intros Hs Hc Ht. destruct (progress_run s fd c e Hc Ht) as (b & s' & e' & new & E & _ & Hs').
  exists (b, s'), e'. split; [done|].
  assert (exists c', s' = set_client s fd c' /\ cl_ssl c' = cl_ssl c /\ client_served c') as (c' & -> & Es & Hc').
  { destruct (sg_clients _ _ _ _ Hs fd c Hc) as [[Hbuf Hrec Hout] Hlen]; [done|].
    destruct Hs' as [ -> |[ -> _]]; [exists c|exists (cl_handshake_done c)]; (split; [|done]);
      [by rewrite set_client_same|done]. }
  exists c'. split; [done|].
  apply (serving_update true N s e e' fd c c' (srv_handler s)); [done|done|by eapply progress_calm|done..].
Qed.

Lemma serving_weaken busy N s e : serving N s e -> serving_but busy N s e.
Proof. intros [? ? ? Hcl ? ?]. split; try done. intros fd c Hc _. by eapply Hcl. Qed.

End clients.

(** ** Accepting *)

Section accepting.
Context {W : Type} `{!World W, !WorldLaws W, !Quiescent W, !HandleLaws W}.
Context {H : Type} `{!OuchHandler H, !HandlerLaws, !HandlerTotal}.
Implicit Types (s : ExchangeTcpServer H) (e : Env W).

(** Clients are only added. *)
Definition grows s s' : Prop :=
  srv_listenFd s' = srv_listenFd s /\
  forall fd, is_Some (srv_clients s !! fd) -> is_Some (srv_clients s' !! fd).

Lemma fresh_client s e fd hs : owned (hs ++ H_fd fd :: all_handles s) e -> srv_clients s !! fd = None.
Proof.
  intros [_ Hn _]. apply eq_None_not_Some. intros [c Hc].
  apply NoDup_app in Hn as (_ & _ & [Hni _]%NoDup_cons). apply Hni. rewrite (all_handles_delete s fd c Hc).
  apply elem_of_app. left. by apply elem_of_cons; left.
Qed.

Lemma client_new_served ssl complete : client_served (ClientState_new ssl complete).
Proof. split; [apply client_new_ok|cbn; lia]. Qed.

(** What is known when [accept4] has returned a descriptor. *)
Record accepting (N : nat) s (fd : Z) (hs : list Handle) (e : Env W) : Prop := {
  ac_patience : (patience (env_world e) <= N)%nat;
  ac_owned : owned (hs ++ H_fd fd :: all_handles s) e;
  ac_watching : watching (srv_epollFd s) (fun fd' =>
    (fd' = srv_listenFd s \/ is_Some (srv_clients s !! fd')) \/ fd' = fd) e;
  ac_clients : forall fd' c, srv_clients s !! fd' = Some c -> client_served c;
  ac_listen : 0 <= srv_listenFd s;
  ac_epoll : 0 <= srv_epollFd s
}.

Lemma accepting_after N s fd hs hs' e e' : accepting N s fd hs e -> after e e' ->
  owned (hs' ++ H_fd fd :: all_handles s) e' -> accepting N s fd hs' e'.
Proof.
  intros [HN Ho Hw Hc Hl He] Ha Ho'. split; [destruct Ha; lia|done|by eapply watching_after|done..].
Qed.

(** The descriptor is given back. *)
Lemma refuse_wp N s fd e : accepting N s fd [] e ->
  wp (let! _ := call (c_close fd) in io_ret (false, s)) e (fun r e' => serving N r.2 e' /\ grows s r.2).
Proof.
  intros [HN Ho Hw Hc Hl He]. eapply wp_release; [exact Ho|apply after_refl|done|]. intros r e' Ho' A' C'.
  apply wp_ret. split; [|by split]. split; [destruct A'; lia|done| | |done|done].
  - eapply watching_mono; [by eapply watching_close|]. intros fd' [[?|?] ?]; [done|congruence].
  - intros fd' c Hc' _. by eapply Hc.
Qed.

(** The client is added. *)
Lemma enrol_client N s fd ssl complete e : accepting N s fd (ssl_handles ssl) e ->
  serving N (set_client s fd (ClientState_new ssl complete)) e /\
  grows s (set_client s fd (ClientState_new ssl complete)).
Proof.
  intros [HN Ho Hw Hc Hl He]. pose proof (fresh_client _ _ _ _ Ho) as Hn. split.
  - split; [done| | | |done|done].
    + eapply owned_perm; [exact Ho|]. rewrite all_handles_insert by done. unfold client_handles. cbn.
      by rewrite Permutation_middle.
    + eapply watching_mono; [exact Hw|]. cbn. intros fd' [[ -> |Hs]| -> ]; [by left|right..].
      * destruct (decide (fd' = fd)) as [->|Hne]; [rewrite lookup_insert_eq; by eexists|].
        by rewrite lookup_insert_ne.
      * rewrite lookup_insert_eq. by eexists.
    + intros fd' c. cbn. destruct (decide (fd' = fd)) as [->|Hne].
      * rewrite lookup_insert_eq. intros [= <-] _. apply client_new_served.
      * rewrite lookup_insert_ne by done. intros Hc' _. by eapply Hc.
  - split; [done|]. intros fd' Hs. cbn. destruct (decide (fd' = fd)) as [->|Hne].
    + rewrite lookup_insert_eq. by eexists.
    + by rewrite lookup_insert_ne.
Qed.

Lemma accept_client_wp N s fd e : serving N s e -> forall e1,
  owned (H_fd fd :: all_handles s) e1 -> after e e1 ->
  wp (accept_client s fd) e1 (fun r e' => serving N r.2 e' /\ grows s r.2).
Proof.
  intros Hs e1 Ho1 A1. destruct Hs as [HN _ Hw Hcl Hl He]. unfold accept_client.
  apply wp_call_then. intros r2 e2 C2.
  assert (accepting N s fd [] e2) as Hacc.
  { split; [|by eapply owned_no_acquire| | |done|done].
    - pose proof (called_patience _ _ _ _ C2). destruct A1. lia.
    - eapply watching_add, C2. by eapply watching_after.
    - intros fd' c Hc. by eapply Hcl. }
  destruct (_ <? 0); [by apply refuse_wp|].
  pose proof (fresh_client _ _ _ [] (ac_owned _ _ _ _ _ Hacc)) as Hn. rewrite Hn.
  destruct (srv_sslContext s =? 0); cbn [negb].
  { apply wp_ret. by apply enrol_client. }
  eapply wp_acquire; [exact (ac_owned _ _ _ _ _ Hacc)|apply after_refl|done..|]. intros r3 e3 Ho3 A3 _.
  cbn in Ho3. destruct (Z.eqb_spec (rep_ret r3) 0) as [Ez|Ez].
  { apply refuse_wp. by eapply accepting_after. }
  assert (accepting N s fd (ssl_handles (rep_ret r3)) e3) as Hacc3.
  { eapply accepting_after; [done..|]. unfold ssl_handles. by rewrite (proj2 (Z.eqb_neq _ _) Ez). }
  eapply wp_ordinary; [exact (ac_owned _ _ _ _ _ Hacc3)|apply after_refl|done|]. intros r4 e4 Ho4 A4.
  destruct (negb _).
  - unfold ssl_handles in Ho4. rewrite (proj2 (Z.eqb_neq _ _) Ez) in Ho4.
    eapply wp_release; [exact Ho4|exact A4|done|]. intros r5 e5 Ho5 A5 _.
    apply refuse_wp. eapply accepting_after; [exact Hacc3|done..].
  - eapply wp_ordinary; [exact Ho4|exact A4|done|]. intros r5 e5 Ho5 A5. apply wp_ret.
    apply enrol_client. by eapply accepting_after.
Qed.

Lemma grows_trans s1 s2 s3 : grows s1 s2 -> grows s2 s3 -> grows s1 s3.
Proof. intros [E1 G1] [E2 G2]. split; [congruence|auto]. Qed.

End accepting.
