(* ===== verification/ServerSim.v ===== *)
(** * The exchange server in front of a handler that may be undefined

    The order handler of the exchange is not defined on every frame.  This file replaces it
    by a handler that always returns, the recorder, which keeps all frames it was given and
    answers like the real handler as long as that is defined on them.  A simulation through
    every operation of the server shows that a run with the recorder is the run with the
    real handler, unless and until the real one is undefined.  Theorems proved for handlers
    that return thus carry over to any handler. *)

From S2P Require Import Prelude Types MatchingEngine Wire Ouch Net NetLogic Exchange ExchangeServer.
From S2P Require Import ServerProofs ServerLifecycle.

Section sim.

Context {W : Type} `{!World W} {H : Type} `{!OuchHandler H}.

(** The real handler's initial state, and the account of the server. *)
Variable h0 : H.
Variable acct : AccountId.

(** ** The recorder *)

Definition state_after (frames : list bytes) : option H := snd <$> handler_run h0 acct frames.

Definition recorder : OuchHandler (list bytes) := fun frames _ f =>
  match state_after frames with
  | None => Some (None, frames ++ [f])
  | Some h =>
      match handle_order h acct f with
      | Some (r, _) => Some (r, frames ++ [f])
      | None => Some (None, frames ++ [f])
      end
  end.

Lemma handler_run_snoc frames f : forall h,
  snd <$> handler_run h acct (frames ++ [f]) =
  '(_, h) ← handler_run h acct frames; snd <$> handle_order h acct f.
Proof.
  induction frames as [|g frames IH]; intros h; cbn [app handler_run mbind option_bind].
  - by destruct (handle_order h acct f) as [[r h1]|].
  - destruct (handle_order h acct g) as [[r h1]|]; [|done]. cbn [mbind option_bind]. specialize (IH h1).
    destruct (handler_run h1 acct (frames ++ [f])) as [[rs h2]|], (handler_run h1 acct frames) as [[rs' h3]|];
      exact IH.
Qed.

Lemma state_after_snoc frames f h :
  state_after frames = Some h -> state_after (frames ++ [f]) = snd <$> handle_order h acct f.
Proof.
  unfold state_after. rewrite handler_run_snoc. intros E.
  destruct (handler_run h0 acct frames) as [[rs h1]|]; [|done]. by injection E as ->.
Qed.

Lemma state_after_undefined frames f : state_after frames = None -> state_after (frames ++ [f]) = None.
Proof.
  unfold state_after. rewrite handler_run_snoc. by destruct (handler_run h0 acct frames) as [[rs h]|].
Qed.

(** The recorder has recorded what it was given, and answered as the real handler. *)
Lemma recorder_frames account frames : forall recorded,
  exists rs, handler_run (OuchHandler0 := recorder) recorded account frames = Some (rs, recorded ++ frames).
Proof.
  induction frames as [|f frames IH]; intros recorded; cbn [handler_run].
  { exists []. by rewrite app_nil_r. }
  assert (exists r, handle_order (OuchHandler := recorder) recorded account f = Some (r, recorded ++ [f])) as [r E].
  { unfold handle_order, recorder. repeat case_match; by eexists. }
  rewrite E. cbn [mbind option_bind]. destruct (IH (recorded ++ [f])) as [rs E']. rewrite E'. exists (r :: rs).
  cbn. by rewrite <- app_assoc.
Qed.

Lemma recorder_answers account frames rs h : forall recorded h1,
  state_after recorded = Some h1 -> handler_run h1 acct frames = Some (rs, h) ->
  handler_run (OuchHandler0 := recorder) recorded account frames = Some (rs, recorded ++ frames).
Proof.
  revert rs h. induction frames as [|f frames IH]; intros rs h recorded h1 Es Er; cbn [handler_run] in *.
  { injection Er as <- _. by rewrite app_nil_r. }
  apply bind_Some in Er as ((r & h2) & Eh & Er). apply bind_Some in Er as ((rs' & h3) & Er & [= <- <-]).
  assert (handle_order (OuchHandler := recorder) recorded account f = Some (r, recorded ++ [f])) as E
    by (unfold handle_order at 1, recorder; by rewrite Es, Eh).
  rewrite E. cbn [mbind option_bind]. pose proof (state_after_snoc _ f _ Es) as Es'. rewrite Eh in Es'.
  rewrite (IH _ _ _ _ Es' Er). cbn [mbind option_bind]. by rewrite <- app_assoc.
Qed.

(** ** Servers with the two handlers *)

Definition real (frames : list bytes) : H := default h0 (state_after frames).

Definition smap (s : ExchangeTcpServer (list bytes)) : ExchangeTcpServer H :=
  mkServer (srv_port s) (srv_accountId s) (real (srv_handler s)) (srv_certificatePath s)
    (srv_privateKeyPath s) (srv_sslContext s) (srv_listenFd s) (srv_epollFd s) (srv_clients s).

Definition keeps (s s' : ExchangeTcpServer (list bytes)) : Prop :=
  srv_handler s' = srv_handler s /\ srv_accountId s' = srv_accountId s.

(** ** Simulation *)

Section simulation.

Context {X Y : Type} (sv : X -> ExchangeTcpServer (list bytes)) (pr : X -> Y).

(** A result of [m1], with the recorder, is one of [m2], with the real handler, as long as
    the latter is defined on the frames recorded; when it is not, [m2] has no result. *)
Definition same (s : ExchangeTcpServer (list bytes)) (m1 : IO W X) (m2 : IO W Y) : Prop :=
  forall e x e', m1 e = Some (x, e') ->
    srv_accountId (sv x) = srv_accountId s /\
    (state_after (srv_handler s) = None -> state_after (srv_handler (sv x)) = None) /\
    (srv_accountId s = acct -> is_Some (state_after (srv_handler s)) ->
     m2 e = match state_after (srv_handler (sv x)) with Some _ => Some (pr x, e') | None => None end).

Lemma same_ret s x y : keeps s (sv x) -> pr x = y -> same s (io_ret x) (io_ret y).
Proof.
  intros [Hk Ha] <- e z e' [= -> ->]. rewrite Hk. split; [done|]. split; [done|]. intros _ [h Eh]. by rewrite Eh.
Qed.

Lemma same_fail s m2 : same s io_fail m2.
Proof. done. Qed.

Lemma same_pure {A} s (m : IO W A) f1 f2 :
  (forall a, same s (f1 a) (f2 a)) -> same s (io_bind m f1) (io_bind m f2).
Proof.
  intros Hf e x e' E. unfold io_bind in *. destruct (m e) as [[a e1]|]; [|done]. by apply Hf.
Qed.

Lemma same_keeps s s' m1 m2 : keeps s s' -> same s' m1 m2 -> same s m1 m2.
Proof. intros [K1 K2] Hm e x e' E. destruct (Hm _ _ _ E) as (H1 & H2 & H3). by rewrite K1, K2 in *. Qed.

Lemma same_if (b : bool) s m1 n1 m2 n2 :
  same s m1 m2 -> same s n1 n2 -> same s (if b then m1 else n1) (if b then m2 else n2).
Proof. by destruct b. Qed.

End simulation.

Lemma same_bind {X Y X' Y'} (sv : X -> _) (pr : X -> Y) (sv' : X' -> _) (pr' : X' -> Y') s m1 m2 f1 f2 :
  same sv pr s m1 m2 ->
  (forall x, srv_accountId (sv x) = srv_accountId s -> same sv' pr' (sv x) (f1 x) (f2 (pr x))) ->
  same sv' pr' s (io_bind m1 f1) (io_bind m2 f2).
Proof.
  intros Hm Hf e y e' E. unfold io_bind in *. destruct (m1 e) as [[x e1]|] eqn:Em; [|done].
  destruct (Hm _ _ _ Em) as (A1 & B1 & C1). destruct (Hf x A1 _ _ _ E) as (A2 & B2 & C2).
  split; [congruence|]. split.
  - intros Hs. by apply B2, B1.
  - intros Ha Hs. rewrite (C1 Ha Hs). destruct (state_after (srv_handler (sv x))) as [h|] eqn:Ex.
    + apply C2; [congruence|by eexists].
    + by rewrite B2.
Qed.

End sim.

(** Walks through two copies of the same code. *)
Ltac sim_step :=
  cbv zeta;
  lazymatch goal with
  | |- keeps _ _ => split; reflexivity
  | |- same _ _ _ _ _ (io_ret ?x) _ => simple apply same_ret; [|reflexivity]
  | |- same _ _ _ _ _ io_fail _ => apply same_fail
  | |- same _ _ _ _ _ (if _ then _ else _) _ => apply same_if
  | |- same _ _ _ _ _ (io_bind (call _) _) _ => apply same_pure; intros ?
  | |- same _ _ _ _ _ (io_bind (free_ssl _) _) _ => apply same_pure; intros ?
  | |- same _ _ _ _ _ (io_bind (stop_clients _) _) _ => apply same_pure; intros ?
  | |- same _ _ _ _ _ (io_bind (ExchangeTcpServer_setNonBlocking _) _) _ => apply same_pure; intros ?
  | |- same _ _ _ _ _ (io_bind (ExchangeTcpServer_updateClientEvents _ _ _) _) _ => apply same_pure; intros ?
  | |- same _ _ _ _ _ (io_bind (client_write _ _) _) _ => apply same_pure; intros ?
  end.

(** Uses the simulation [l] of a function that is called. *)
Ltac sim_by l := eapply same_keeps; [|apply l]; split; reflexivity.

(** The recorder is a handler that returns. *)
Lemma recorder_laws {H} `{!OuchHandler H, !HandlerLaws} (h0 : H) acct :
  HandlerLaws (OuchHandler0 := recorder h0 acct).
Proof.
  intros frames account f r frames' E. unfold handle_order, recorder in E.
  destruct (state_after h0 acct frames) as [h|]; [|done].
  destruct (handle_order h acct f) as [[r' h']|] eqn:Eh; [|done]. injection E as -> _. by eapply response_size.
Qed.

Lemma recorder_total {H} `{!OuchHandler H} (h0 : H) acct : HandlerTotal (OuchHandler0 := recorder h0 acct).
Proof.
  intros frames account f _. unfold handle_order, recorder. repeat case_match; by eexists.
Qed.

Section sim_ops.

Context {W : Type} `{!World W} {H : Type} `{!OuchHandler H}.
Context (h0 : H) (acct : AccountId).

Abbreviation smap := (smap h0 acct).
Abbreviation same_server := (same h0 acct (fun x => x) smap).
Abbreviation same_flag := (same h0 acct snd (fun x => (fst x, smap (snd x)))).

Lemma initializeTls_same (s : ExchangeTcpServer (list bytes)) :
  same_flag s (ExchangeTcpServer_initializeTls s) (ExchangeTcpServer_initializeTls (smap s)).
Proof. unfold ExchangeTcpServer_initializeTls. repeat sim_step. Qed.

Lemma bind_server {X' Y'} (sv' : X' -> _) (pr' : X' -> Y') s m1 m2 f1 f2 :
  same_server s m1 m2 -> (forall s', srv_accountId s' = srv_accountId s -> same h0 acct sv' pr' s' (f1 s') (f2 (smap s'))) ->
  same h0 acct sv' pr' s (io_bind (W := W) m1 f1) (io_bind m2 f2).
Proof. intros Hm Hf. eapply same_bind; [exact Hm|]. exact Hf. Qed.

Lemma bind_flag {B X' Y'} (sv' : X' -> _) (pr' : X' -> Y') s (m1 : IO W (B * _)) (m2 : IO W (B * _)) f1 f2 :
  same_flag s m1 m2 -> (forall b s', srv_accountId s' = srv_accountId s -> same h0 acct sv' pr' s' (f1 (b, s')) (f2 (b, smap s'))) ->
  same h0 acct sv' pr' s (io_bind (W := W) m1 f1) (io_bind m2 f2).
Proof. intros Hm Hf. eapply same_bind; [exact Hm|]. intros [b s']. apply Hf. Qed.

Lemma stop_same (s : ExchangeTcpServer (list bytes)) :
  same_server s (ExchangeTcpServer_stop s) (ExchangeTcpServer_stop (smap s)).
Proof.
  unfold ExchangeTcpServer_stop. sim_step.
  apply bind_server; [repeat sim_step|]. intros s1 _.
  apply bind_server; [repeat sim_step|]. intros s2 _. repeat sim_step.
Qed.

Lemma stop_false_same (s : ExchangeTcpServer (list bytes)) :
  same_flag s (stop_false s) (stop_false (smap s)).
Proof. apply bind_server; [apply stop_same|]. intros s1 _. repeat sim_step. Qed.

Lemma start_listening_same (s : ExchangeTcpServer (list bytes)) :
  same_flag s (start_listening s) (start_listening (smap s)).
Proof. unfold start_listening. repeat (sim_step || sim_by stop_false_same). Qed.

Lemma start_same (s : ExchangeTcpServer (list bytes)) :
  same_flag s (ExchangeTcpServer_start s) (ExchangeTcpServer_start (smap s)).
Proof.
  unfold ExchangeTcpServer_start. apply bind_flag; [apply initializeTls_same|]. intros tls s1 _.
  repeat (sim_step || sim_by stop_false_same || sim_by start_listening_same).
Qed.

Lemma closeClient_same (s : ExchangeTcpServer (list bytes)) fd :
  same_server s (ExchangeTcpServer_closeClient s fd) (ExchangeTcpServer_closeClient (smap s) fd).
Proof.
  unfold ExchangeTcpServer_closeClient. apply bind_server; [|intros s1 _; repeat sim_step].
  change (srv_clients (smap s) !! fd) with (srv_clients s !! fd).
  destruct (srv_clients s !! fd); repeat sim_step.
Qed.

Lemma accept_client_same (s : ExchangeTcpServer (list bytes)) fd :
  same_flag s (accept_client s fd) (accept_client (smap s) fd).
Proof.
  unfold accept_client. change (srv_clients (smap s) !! fd) with (srv_clients s !! fd).
  destruct (srv_clients s !! fd); repeat sim_step.
Qed.

Lemma acceptClients_same fuel : forall (s : ExchangeTcpServer (list bytes)),
  same_flag s (ExchangeTcpServer_acceptClients fuel s) (ExchangeTcpServer_acceptClients fuel (smap s)).
Proof.
  induction fuel as [|fuel IH]; intros s; cbn [ExchangeTcpServer_acceptClients]; [sim_step|].
  repeat (sim_step || sim_by IH). apply bind_flag; [apply accept_client_same|]. intros ok s1 _.
  repeat (sim_step || sim_by IH).
Qed.

Lemma progress_same (s : ExchangeTcpServer (list bytes)) fd :
  same_flag s (ExchangeTcpServer_progressTlsHandshake s fd) (ExchangeTcpServer_progressTlsHandshake (smap s) fd).
Proof.
  unfold ExchangeTcpServer_progressTlsHandshake.
  change (srv_clients (smap s) !! fd) with (srv_clients s !! fd).
  destruct (srv_clients s !! fd); repeat sim_step.
Qed.

Lemma flush_same fuel : forall (s : ExchangeTcpServer (list bytes)) fd,
  same_flag s (ExchangeTcpServer_flushPendingWrite fuel s fd) (ExchangeTcpServer_flushPendingWrite fuel (smap s) fd).
Proof.
  induction fuel as [|fuel IH]; intros s fd; cbn [ExchangeTcpServer_flushPendingWrite];
    change (srv_clients (smap s) !! fd) with (srv_clients s !! fd);
    destruct (srv_clients s !! fd); repeat (sim_step || sim_by IH).
Qed.

Lemma sendAll_same fuel (s : ExchangeTcpServer (list bytes)) fd data :
  same_flag s (ExchangeTcpServer_sendAll fuel s fd data) (ExchangeTcpServer_sendAll fuel (smap s) fd data).
Proof.
  unfold ExchangeTcpServer_sendAll. change (srv_clients (smap s) !! fd) with (srv_clients s !! fd).
  destruct (srv_clients s !! fd); repeat (sim_step || sim_by flush_same).
Qed.

(** ** Operations that run the handler *)

(** From the state after a recorded frame. *)
Lemma same_recorded {X Y} (sv : X -> _) (pr : X -> Y) (s : ExchangeTcpServer (list bytes)) fs m1 m2 :
  is_Some (state_after h0 acct (srv_handler s)) -> is_Some (state_after h0 acct fs) ->
  same h0 acct sv pr (set_handler s fs) m1 m2 -> same h0 acct (W := W) sv pr s m1 m2.
Proof.
  intros [h Eh] Hfs Hm e x e' E. destruct (Hm _ _ _ E) as (A & _ & C). split; [done|].
  split; [by rewrite Eh|]. intros Ha _. by apply C.
Qed.

Lemma smap_recorded (s : ExchangeTcpServer (list bytes)) fs h :
  state_after h0 acct fs = Some h -> smap (set_handler s fs) = set_handler (smap s) h.
Proof.
  intros E. unfold ServerSim.smap, real. change (srv_handler (set_handler s fs)) with fs. by rewrite E.
Qed.

Lemma handle_frame_same fuel (s : ExchangeTcpServer (list bytes)) fd :
  srv_accountId s = acct ->
  same_flag s (handle_frame (OuchHandler0 := recorder h0 acct) fuel s fd) (handle_frame fuel (smap s) fd).
Proof.
  intros Ha. unfold handle_frame. change (srv_clients (smap s) !! fd) with (srv_clients s !! fd).
  destruct (srv_clients s !! fd) as [c|]; [|sim_step]. rewrite Ha.
  unfold handle_order at 1, recorder. cbn [srv_handler srv_accountId ServerSim.smap]. unfold real.
  destruct (state_after h0 acct (srv_handler s)) as [h|] eqn:Es.
  2:{ intros e x e' [= <- <-]. cbn [fst snd srv_handler srv_accountId set_handler]. split; [done|].
      split; [intros _; by apply state_after_undefined|]. intros _ []. congruence. }
  change (default h0 (Some h)) with h. pose proof (state_after_snoc h0 acct _ (cl_receiveBuffer c) _ Es) as Ef. rewrite Ha.
  destruct (handle_order h acct (cl_receiveBuffer c)) as [[[r|] h']|] eqn:Eh; cbn in Ef.
  - apply (same_recorded _ _ s (srv_handler s ++ [cl_receiveBuffer c])); [by rewrite Es|by rewrite Ef|].
    apply bind_flag.
    { rewrite <- (smap_recorded _ _ _ Ef).
      apply sendAll_same. }
    intros ok s1 _. sim_step; [sim_step; sim_step|]. change (srv_clients (smap s1) !! fd) with (srv_clients s1 !! fd).
    destruct (srv_clients s1 !! fd); repeat sim_step.
  - intros e x e' [= <- <-]. cbn [fst snd srv_handler srv_accountId set_handler]. split; [done|]. split; [by rewrite Es|]. intros _ _. rewrite Ef.
    by rewrite (smap_recorded _ _ _ Ef).
  - intros e x e' [= <- <-]. cbn [fst snd srv_handler srv_accountId set_handler]. split; [done|]. split; [by rewrite Es|]. intros _ _. by rewrite Ef.
Qed.

Lemma after_no_data_same (s : ExchangeTcpServer (list bytes)) fd state r :
  after_no_data (W := W) (smap s) fd state r = after_no_data s fd state r.
Proof. reflexivity. Qed.

Lemma readable_loop_same flush fuel : forall (s : ExchangeTcpServer (list bytes)) fd,
  srv_accountId s = acct ->
  same_flag s (readable_loop (OuchHandler0 := recorder h0 acct) flush fuel s fd)
    (readable_loop flush fuel (smap s) fd).
Proof.
  induction fuel as [|fuel IH]; intros s fd Ha; cbn [readable_loop]; [sim_step|].
  change (srv_clients (smap s) !! fd) with (srv_clients s !! fd).
  destruct (srv_clients s !! fd) as [c|]; [|sim_step]. apply same_pure. intros r. cbv zeta.
  apply same_if.
  - destruct (wr (cl_receiveBuffer c) (cl_receivedBytes c) (rep_data r)) as [buffer|]; [|sim_step].
    apply same_if; [|eapply same_keeps; [|by apply IH]; split; reflexivity].
    apply bind_flag; [eapply same_keeps; [|by apply handle_frame_same]; split; reflexivity|].
    intros ok s1 Ha1. apply same_if; [|sim_step; sim_step]. apply IH. by rewrite Ha1.
  - rewrite after_no_data_same. apply same_pure. intros [b|]; [sim_step; sim_step|by apply IH].
Qed.

Lemma readable_same flush fuel (s : ExchangeTcpServer (list bytes)) fd :
  srv_accountId s = acct ->
  same_flag s (ExchangeTcpServer_handleClientReadable (OuchHandler0 := recorder h0 acct) flush fuel s fd)
    (ExchangeTcpServer_handleClientReadable flush fuel (smap s) fd).
Proof.
  intros Ha. unfold ExchangeTcpServer_handleClientReadable.
  change (srv_clients (smap s) !! fd) with (srv_clients s !! fd).
  destruct (srv_clients s !! fd) as [c|]; [by apply readable_loop_same|repeat sim_step].
Qed.

Lemma client_event_same fuel (s : ExchangeTcpServer (list bytes)) fd events :
  srv_accountId s = acct ->
  same_server s (client_event (OuchHandler0 := recorder h0 acct) fuel s fd events)
    (client_event fuel (smap s) fd events).
Proof.
  intros Ha. unfold client_event. apply same_if; [apply closeClient_same|].
  assert (forall s1 : ExchangeTcpServer (list bytes), srv_accountId s1 = acct ->
    same_server s1
      (let! (ok, s) := ExchangeTcpServer_handleClientReadable (OuchHandler0 := recorder h0 acct) fuel fuel s1 fd in
       if (ok : bool) then io_ret s else ExchangeTcpServer_closeClient s fd)
      (let! (ok, s) := ExchangeTcpServer_handleClientReadable fuel fuel (smap s1) fd in
       if (ok : bool) then io_ret s else ExchangeTcpServer_closeClient s fd)) as Hread.
  { intros s1 Ha1. apply bind_flag; [by apply readable_same|]. intros ok s2 _.
    apply same_if; [repeat sim_step|apply closeClient_same]. }
  change (srv_clients (smap s) !! fd) with (srv_clients s !! fd).
  destruct (srv_clients s !! fd) as [c|]; [|apply same_if; [by apply Hread|repeat sim_step]].
  apply same_if.
  - apply bind_flag; [apply progress_same|]. intros ok s1 _. apply same_if; [repeat sim_step|apply closeClient_same].
  - apply bind_flag; [apply same_if; [apply flush_same|repeat sim_step]|]. intros ok s1 Ha1.
    apply same_if; [apply closeClient_same|]. apply same_if; [apply Hread; by rewrite Ha1|repeat sim_step].
Qed.

Lemma poll_events_same fuel events : forall (s : ExchangeTcpServer (list bytes)),
  srv_accountId s = acct ->
  same_flag s (poll_events (OuchHandler0 := recorder h0 acct) fuel s events) (poll_events fuel (smap s) events).
Proof.
  induction events as [|ev events IH]; intros s Ha; cbn [poll_events]; [repeat sim_step|].
  apply same_if.
  - apply bind_flag; [apply acceptClients_same|]. intros ok s1 Ha1.
    apply same_if; [apply IH; by rewrite Ha1|repeat sim_step].
  - apply bind_server; [by apply client_event_same|]. intros s1 Ha1. apply IH. by rewrite Ha1.
Qed.

Lemma pollOnce_same fuel (s : ExchangeTcpServer (list bytes)) timeout :
  srv_accountId s = acct ->
  same_flag s (ExchangeTcpServer_pollOnce (OuchHandler0 := recorder h0 acct) fuel s timeout)
    (ExchangeTcpServer_pollOnce fuel (smap s) timeout).
Proof.
  intros Ha. unfold ExchangeTcpServer_pollOnce. apply same_if; [repeat sim_step|]. apply same_pure. intros r.
  apply same_if; [repeat sim_step|by apply poll_events_same].
Qed.

End sim_ops.
