(* ===== verification/ServerClaims.v ===== *)
(** * Serving a client

    What [ExchangeTcpServer_handleClientReadable] does for any order handler that is defined
    on what the peer may send, and what the exchange's own handler makes of the orders a
    trading client has put on the wire.  That serving returns is proved with the recorder of
    [ServerSim], and needs nothing of a handler but its answers on those frames. *)

From S2P Require Import Prelude OrderPool Types Bitmap OrderBook BookStore MatchingEngine MatchingSpec MatchingProofs.
From S2P Require Import Wire Ouch Net NetLogic Risk Gateway Transport Exchange ExchangeServer ServerProofs.
From S2P Require Import ServerLifecycle ServerSim.

(** ** Serving returns *)

Section serving.
Context {W : Type} `{!World W, !WorldLaws W, !Quiescent W} {H : Type} `{!OuchHandler H, !HandlerLaws}.

(** The handler is defined on every sequence of frames that may come in on the client's
    connection, behind the unfinished one. *)
Definition defined_on_input (s : ExchangeTcpServer H) (fd : Z) (state : ClientState) (w : W) : Prop :=
  forall data frames, may_receive w (client_channel fd state) data ->
    Forall (fun f => length f = EnterOrderSize) frames ->
    mjoin frames `prefix_of` pending_in state ++ data ->
    is_Some (handler_run (srv_handler s) (srv_accountId s) frames).

(** The server in front of the recorder. *)
Definition recording (s : ExchangeTcpServer H) : ExchangeTcpServer (list bytes) :=
  mkServer (srv_port s) (srv_accountId s) [] (srv_certificatePath s) (srv_privateKeyPath s) (srv_sslContext s)
    (srv_listenFd s) (srv_epollFd s) (srv_clients s).

Lemma recording_smap (s : ExchangeTcpServer H) : smap (srv_handler s) (srv_accountId s) (recording s) = s.
Proof. by destruct s. Qed.

Lemma readable_returns fuel (s : ExchangeTcpServer H) fd state (e : Env W) :
  srv_clients s !! fd = Some state -> client_ok state -> (AcceptedSize + patience (env_world e) < fuel)%nat ->
  defined_on_input s fd state (env_world e) -> is_Some (readable_loop fuel fuel s fd e).
Proof.
  intros Hc Hok Hf Hdef. set (h0 := srv_handler s). set (acct := srv_accountId s).
  pose proof (recorder_laws h0 acct) as RL. pose proof (recorder_total h0 acct) as RT.
  change (srv_clients (recording s) !! fd = Some state) in Hc.
  destruct (readable_loop_total (OuchHandler0 := recorder h0 acct) fuel fuel (recording s) fd state e Hc Hok)
    as [[[b s0] e'] E]; [unfold AcceptedSize in *; lia|lia|].
  destruct (readable_loop_spec (OuchHandler0 := recorder h0 acct) _ _ _ _ _ _ _ _ _ Hc Hok E)
    as (new & frames & resps & state' & Hl & V).
  assert (srv_handler s0 = frames) as Efr.
  { destruct (recorder_frames h0 acct (srv_accountId s) frames []) as [rs Er]. pose proof (sv_run _ _ _ _ _ _ _ _ _ V) as Er'.
    cbn in Er'. rewrite Er in Er'. by injection Er' as _ <-. }
  destruct (sv_in _ _ _ _ _ _ _ _ _ V) as (rest & Hin & _).
  destruct (Hdef (received_on (client_channel fd state) new) frames) as [[rs h] Er].
  { eapply by_calls_receives; [|exact E|exact Hl]. apply readable_loop_by_calls. }
  { apply (sv_frames _ _ _ _ _ _ _ _ _ V). }
  { by exists rest. }
  destruct (readable_loop_same h0 acct fuel fuel (recording s) fd eq_refl _ _ _ E) as (_ & _ & Hs).
  specialize (Hs eq_refl ltac:(by eexists)). cbn [snd fst] in Hs. rewrite Efr in Hs. unfold state_after in Hs.
  fold h0 acct in Er. rewrite Er in Hs.
  assert (smap h0 acct (recording s) = s) as Es by apply recording_smap. rewrite Es in Hs. rewrite Hs. by eexists.
Qed.

(** What serving did, from the client's state between two reads. *)
Lemma readable_served fuel (s : ExchangeTcpServer H) fd state (e : Env W) :
  srv_clients s !! fd = Some state -> client_ok state -> (AcceptedSize + patience (env_world e) < fuel)%nat ->
  defined_on_input s fd state (env_world e) ->
  exists b s' e' new frames resps state',
    ExchangeTcpServer_handleClientReadable fuel fuel s fd e = Some ((b, s'), e') /\
    env_log e' = env_log e ++ new /\ served s fd state b s' new frames resps state' /\
    may_receive (env_world e) (client_channel fd state) (received_on (client_channel fd state) new).
Proof.
  intros Hc Hok Hf Hdef. destruct (readable_returns fuel s fd state e Hc Hok Hf Hdef) as [[[b s'] e'] E].
  unfold ExchangeTcpServer_handleClientReadable. rewrite Hc.
  destruct (readable_loop_spec fuel fuel s fd state e e' b s' Hc Hok E) as (new & frames & resps & state' & Hl & V).
  exists b, s', e', new, frames, resps, state'. split_and!; [done..|].
  eapply by_calls_receives; [|exact E|exact Hl]. apply readable_loop_by_calls.
Qed.

End serving.

(** ** From intents to answers *)

(** The intents an exchange can place: a price inside the book, a quantity of at least one
    that fits the message, an eight-character symbol. *)
Definition submittable (intent : OrderIntent) : Prop :=
  valid_price (int_price intent) /\ 0 < int_quantity intent < 2 ^ 32 /\ length (int_symbol intent) = 8%nat.

(** What an intent asks of the exchange, on behalf of the server's account. *)
Definition intent_submission (account : AccountId) (intent : OrderIntent) : submission :=
  mkSubmission account (int_side intent) (int_price intent) (int_quantity intent).

(** [confirms id ref intent a]: [a] tells the client that its intent, which it numbered
    [ref], is live in the exchange's book under [id]: a day order, displayed, as agent, not
    eligible for intermarket sweeps and for no cross. *)
Record confirms (id : OrderId) (ref : Z) (intent : OrderIntent) (a : Ouch.Accepted) : Prop := {
  cf_id : ac_orderReferenceNumber a = id;
  cf_ref : ac_userRefNum a = ref;
  cf_side : ac_side a = int_side intent;
  cf_quantity : ac_quantity a = int_quantity intent;
  cf_symbol : ac_symbol a = int_symbol intent;
  cf_price : ac_price a = int_price intent;
  cf_state : ac_orderState a = 76;
  cf_timeInForce : ac_timeInForce a = 48;
  cf_display : ac_display a = 89;
  cf_capacity : ac_capacity a = 65;
  cf_iso : ac_isoEligibility a = 78;
  cf_cross : ac_crossType a = 78
}.

(** The answer to an intent that got [id], 0 for none. *)
Definition confirmed (id : OrderId) (ref : Z) (intent : OrderIntent) (answer : option bytes) : Prop :=
  if id =? 0 then answer = None
  else exists bs a, answer = Some bs /\ length bs = AcceptedSize /\
    OuchResponseDispatcher_dispatch (Some bs) (Z.of_nat (length bs)) = Some (Some (R_Accepted a)) /\
    confirms id ref intent a.

Lemma price_survives p : valid_price p -> u64 p = p /\ i64 (u64 p) = p.
Proof.
  unfold valid_price, MaxPriceLevels. intros Hp. rewrite wrap_small by lia. split; [done|]. apply sint_small; lia.
Qed.

Lemma intent_orders_length intents : forall n, length (intent_orders n intents) = length intents.
Proof. induction intents as [|i intents IH]; intros n; cbn; [done|]. by rewrite IH. Qed.

Lemma intent_orders_take intents : forall n k, intent_orders n (take k intents) = take k (intent_orders n intents).
Proof. induction intents as [|i intents IH]; intros n [|k]; cbn; [done..|]. by rewrite IH. Qed.

Lemma intent_orders_lookup intents : forall n i, is_uint 32 n ->
  intent_orders n intents !! i = intent_order (u32 (n + Z.of_nat i)) <$> intents !! i.
Proof.
  induction intents as [|x intents IH]; intros n [|i] Hn; cbn [intent_orders lookup list_lookup]; try done.
  - cbn. rewrite Z.add_0_r, wrap_small by (unfold is_uint in Hn; lia). done.
  - rewrite IH by (apply wrap_range; lia). f_equal. f_equal. unfold u32, wrap.
    rewrite Zplus_mod_idemp_l. f_equal. lia.
Qed.

Lemma orders_submissions account intents : forall n, Forall submittable intents ->
  order_submission account <$> intent_orders n intents = intent_submission account <$> intents.
Proof.
  induction intents as [|i intents IH]; intros n HF; [done|]. apply Forall_cons in HF as [Hi HF].
  cbn [intent_orders fmap list_fmap]. rewrite IH by done. f_equal.
  unfold order_submission, intent_order, intent_submission. cbn. by rewrite (proj2 (price_survives _ (proj1 Hi))).
Qed.

Lemma orders_placeable intents : forall n, is_uint 32 n -> Forall submittable intents ->
  Forall placeable (intent_orders n intents).
Proof.
  induction intents as [|i intents IH]; intros n Hn HF; [constructor|].
  apply Forall_cons in HF as [(Hp & Hq & Hs) HF]. cbn [intent_orders]. constructor.
  - split; [constructor; try done; unfold is_uint; cbn; [lia|apply wrap_range; lia]|].
    unfold admissible_order. cbn. by rewrite (proj2 (price_survives _ Hp)).
  - apply IH; [apply wrap_range; lia|done].
Qed.

(** The answer to the order an intent was turned into confirms the intent. *)
Lemma answered_confirmed id ref intent answer :
  valid_price (int_price intent) -> answered id (intent_order ref intent) answer -> confirmed id ref intent answer.
Proof.
  intros Hp. unfold answered, confirmed. destruct (id =? 0); [done|]. intros (bs & a & -> & Hl & Hd & Ha).
  exists bs, a. split_and!; [done..|]. destruct Ha as [_ A1 A2 A3 A4 A5 A6 A7 A8 A9 A10 A11 A12 _ _].
  constructor; try done. rewrite A5. by apply price_survives.
Qed.

(** The frames of some of the intents, in front of a new exchange: the engine follows the
    specification on these intents, and every answer confirms its intent. *)
Lemma intents_handled std_hash publish base account n0 intents frames :
  is_uint 32 n0 -> Forall submittable intents ->
  Sequencer_init + (1 + DefaultOrderCapacity) * Z.of_nat (length intents) < 2 ^ 64 ->
  Forall2 frame (intent_orders n0 intents) frames ->
  let '(ids, trades, st) := spec_run spec_new (intent_submission account <$> intents) in
  exists resps g,
    handler_run (OuchHandler0 := ExchangeHandler std_hash publish) (MatchingEngine_new base exchange_env) account frames
      = Some (resps, g) /\
    shows std_hash (eng_book g) (eng_heap g) (sp_book st) /\ length ids = length intents /\
    length resps = length intents /\
    forall i id intent resp, ids !! i = Some id -> intents !! i = Some intent -> resps !! i = Some resp ->
      confirmed id (u32 (n0 + Z.of_nat i)) intent resp.
Proof.
  intros Hn Hs Hseq Hf. rewrite <- (intent_orders_length intents n0) in Hseq.
  pose proof (handler_run_refines std_hash publish account _ frames (frames_decode _ _ Hf)
    (orders_placeable _ _ Hn Hs) _ _ (engine_rel_new std_hash base exchange_env) spec_inv_new Hseq) as Hx.
  rewrite orders_submissions in Hx by done.
  destruct (spec_run spec_new _) as [[ids trades] st]. destruct Hx as (resps & g & Ex & (L & R & _ & <- & _) & Ha).
  exists resps, g. split; [done|]. split; [by eapply store_shows|].
  pose proof (Forall3_length_lm _ _ _ _ Ha) as Hl. pose proof (Forall3_length_lr _ _ _ _ Ha) as Hl'.
  rewrite intent_orders_length in Hl. split; [done|]. split; [congruence|]. intros i id intent resp Ei Ex' Er.
  destruct (Forall3_lookup_l _ _ _ _ _ _ Ha Ei) as (m & r & Em & Er' & Hm).
  rewrite intent_orders_lookup, Ex' in Em by done. injection Em as <-. rewrite Er in Er'. injection Er' as <-.
  apply answered_confirmed; [|done]. rewrite Forall_lookup in Hs. by apply (Hs _ _ Ex').
Qed.

(** A front of a concatenation of pieces that consists of pieces is the first of them. *)
Lemma frames_prefix (l1 l2 : list bytes) rest k :
  (0 < k)%nat -> Forall (fun f => length f = k) l1 -> Forall (fun f => length f = k) l2 ->
  mjoin l1 ++ rest = mjoin l2 -> l1 = take (length l1) l2 /\ (length l1 <= length l2)%nat.
Proof.
  intros Hk H1. revert l2. induction H1 as [|f l1 Hf H1 IH]; intros l2 H2 E; [cbn; split; [done|lia]|].
  destruct H2 as [|g l2 Hg H2].
  { exfalso. apply (f_equal length) in E. cbn in E. rewrite !length_app in E. lia. }
  change (mjoin (f :: l1)) with (f ++ mjoin l1) in E. change (mjoin (g :: l2)) with (g ++ mjoin l2) in E.
  rewrite <- app_assoc in E. apply app_inj_1 in E as [-> E]; [|congruence].
  destruct (IH l2 H2 E) as [E' Hle]. cbn [length take]. rewrite <- E'. split; [done|lia].
Qed.

Lemma frames_count (l : list bytes) k : Forall (fun f => length f = k) l -> length (mjoin l) = (length l * k)%nat.
Proof. induction 1 as [|f l Hf _ IH]; [done|]. change (mjoin (f :: l)) with (f ++ mjoin l). rewrite length_app. cbn. lia. Qed.

(** The complete frames of a front of what was sent are those of the first intents. *)
Lemma front_frames n0 intents frames fs rest more :
  Forall2 frame (intent_orders n0 intents) frames -> Forall (fun f => length f = EnterOrderSize) fs ->
  mjoin frames = (mjoin fs ++ rest) ++ more ->
  (length fs <= length intents)%nat /\ Forall2 frame (intent_orders n0 (take (length fs) intents)) fs.
Proof.
  intros Hf Hfs E. pose proof (frames_lengths _ _ Hf) as Hlen. rewrite <- app_assoc in E.
  destruct (frames_prefix fs frames (rest ++ more) EnterOrderSize) as [Efs Hle]; [unfold EnterOrderSize; lia|done..|].
  rewrite <- (Forall2_length _ _ _ Hf), intent_orders_length in Hle. split; [done|].
  rewrite intent_orders_take. rewrite Efs at 2. by apply Forall2_take.
Qed.

Lemma front_submittable intents k :
  Forall submittable intents -> Sequencer_init + (1 + DefaultOrderCapacity) * Z.of_nat (length intents) < 2 ^ 64 ->
  Forall submittable (take k intents) /\
  Sequencer_init + (1 + DefaultOrderCapacity) * Z.of_nat (length (take k intents)) < 2 ^ 64.
Proof.
  intros Hs Hq. split; [by apply Forall_take|]. rewrite length_take. unfold DefaultOrderCapacity in *. lia.
Qed.

(** The connection of a new client. *)
Definition new_channel (fd ssl : Z) : Channel := client_channel fd (ClientState_new ssl true).

(** What the exchange has made of a client's [intents], numbered from [n0], whose frames are
    the bytes [data], when its server has served the client with the calls [new] up to [s']
    and kept the client or not ([b]).  With [n] the number of complete frames received: its
    book is the one price-time priority gives for the first [n] intents, and [resps] are
    their answers, which have gone out or, when the client is kept, are about to. *)
Record delivered (std_hash : Z -> Z) (account : AccountId) (n0 : Z) (intents : list OrderIntent) (data : bytes)
    (fd ssl : Z) (b : bool) (s' : ExchangeTcpServer (Engine ExchangeEnv)) (new : list (Call * Reply))
    (ids : list OrderId) (st : spec_state) (resps : list (option bytes)) : Prop := {
  dl_received : received_on (new_channel fd ssl) new `prefix_of` data;
  dl_spec : exists trades, spec_run spec_new (intent_submission account <$>
      take (length (received_on (new_channel fd ssl) new) / EnterOrderSize) intents) = (ids, trades, st);
  dl_book : shows std_hash (eng_book (srv_handler s')) (eng_heap (srv_handler s')) (sp_book st);
  dl_length : length ids = (length (received_on (new_channel fd ssl) new) / EnterOrderSize)%nat /\
    length resps = length ids;
  dl_answers : forall i id intent resp,
    ids !! i = Some id -> intents !! i = Some intent -> resps !! i = Some resp ->
    confirmed id (u32 (n0 + Z.of_nat i)) intent resp;
  dl_sent : sent_on (new_channel fd ssl) new `prefix_of` mjoin (omap id resps);
  dl_kept : b = true -> Forall is_Some resps /\ exists client, srv_clients s' !! fd = Some client /\
    sent_on (new_channel fd ssl) new ++ pending_out client = mjoin (omap id resps);
  dl_all : received_on (new_channel fd ssl) new = data -> length ids = length intents
}.

Section delivery.
Context {W : Type} `{!World W, !WorldLaws W, !Quiescent W} {T : Type} `{!OuchTransport T, !TransportLaws T}.
Context (std_hash : Z -> Z) (publish : Trade -> ExchangeEnv -> ExchangeEnv) (base : Z).

Abbreviation handler := (ExchangeHandler std_hash publish).

(** A new client's frames, from a peer that sends those of [intents]. *)
Lemma exchange_defined_on_input intents frames (s : ExchangeTcpServer (Engine ExchangeEnv)) fd ssl n0 (w : W) :
  is_uint 32 n0 -> Forall submittable intents ->
  Sequencer_init + (1 + DefaultOrderCapacity) * Z.of_nat (length intents) < 2 ^ 64 ->
  Forall2 frame (intent_orders n0 intents) frames -> srv_handler s = MatchingEngine_new base exchange_env ->
  (forall data, may_receive w (new_channel fd ssl) data -> data `prefix_of` mjoin frames) ->
  defined_on_input (OuchHandler0 := handler) s fd (ClientState_new ssl true) w.
Proof.
  intros Hn Hs Hseq Hf Hh Hpeer data fs Hmay Hfs [rest Hd].
  change (pending_in (ClientState_new ssl true) ++ data) with data in Hd.
  destruct (Hpeer _ Hmay) as [more Hm]. rewrite Hd in Hm. destruct (front_frames _ _ _ _ _ _ Hf Hfs Hm) as [_ HF].
  destruct (front_submittable intents (length fs) Hs Hseq) as [Hs' Hq'].
  pose proof (intents_handled std_hash publish base (srv_accountId s) _ _ _ Hn Hs' Hq' HF) as Hx.
  rewrite Hh. destruct (spec_run spec_new _) as [[ids trades] st]. destruct Hx as (rs & g & Ex & _). by rewrite Ex.
Qed.

Lemma served_delivered intents frames (s s' : ExchangeTcpServer (Engine ExchangeEnv)) fd ssl n0 b new fs resps client :
  is_uint 32 n0 -> Forall submittable intents ->
  Sequencer_init + (1 + DefaultOrderCapacity) * Z.of_nat (length intents) < 2 ^ 64 ->
  Forall2 frame (intent_orders n0 intents) frames -> srv_handler s = MatchingEngine_new base exchange_env ->
  received_on (new_channel fd ssl) new `prefix_of` mjoin frames ->
  served (OuchHandler0 := handler) s fd (ClientState_new ssl true) b s' new fs resps client ->
  exists ids st, delivered std_hash (srv_accountId s) n0 intents (mjoin frames) fd ssl b s' new ids st resps.
Proof.
  intros Hn Hs Hseq Hf Hh Hpre [V1 _ _ V4 V5 (ri & V6 & Vl & V6') (ro & V7 & V7') V8].
  change (client_channel fd (ClientState_new ssl true)) with (new_channel fd ssl) in *.
  change (pending_in (ClientState_new ssl true)) with (@nil Z) in V6.
  change (pending_out (ClientState_new ssl true)) with (@nil Z) in V7. cbn [app] in V6, V7.
  pose proof Hpre as [more Hm]. rewrite V6 in Hm. destruct (front_frames _ _ _ _ _ _ Hf V4 Hm) as [Hle HF].
  assert (length (received_on (new_channel fd ssl) new) / EnterOrderSize = length fs)%nat as Ediv.
  { rewrite V6, length_app, (frames_count _ _ V4), Nat.add_comm, Nat.div_add by (unfold EnterOrderSize; lia).
    by rewrite Nat.div_small. }
  destruct (front_submittable intents (length fs) Hs Hseq) as [Hs' Hq'].
  pose proof (intents_handled std_hash publish base (srv_accountId s) _ _ _ Hn Hs' Hq' HF) as Hx. rewrite <- Hh in Hx.
  destruct (spec_run spec_new _) as [[ids trades] st] eqn:Es. destruct Hx as (rs & g & Ex & Hb & Hi & Hr & Ha).
  rewrite V5 in Ex. injection Ex as <- <-. rewrite length_take in Hi, Hr.
  exists ids, st. constructor; rewrite ?Ediv; [done|by exists trades|done|lia| | | |].
  - intros i id intent resp E1 E2 E3. eapply Ha; [done| |done]. rewrite lookup_take_lt; [done|].
    apply lookup_lt_Some in E1. lia.
  - by exists ro.
  - intros Hb'. destruct (V8 Hb') as [_ Hsome]. split; [done|]. exists client.
    split; [rewrite V1; apply lookup_insert_eq|]. by rewrite V7, (V7' Hb').
  - intros Hall. rewrite Hall in V6. pose proof (frames_lengths _ _ Hf) as Hlen.
    destruct (frames_unique fs frames ri EnterOrderSize) as [-> _]; [unfold EnterOrderSize; lia|done..|].
    rewrite <- (Forall2_length _ _ _ Hf), intent_orders_length in Hi. lia.
Qed.

(** What the server makes of the bytes a client's sink has put on the wire. *)
Lemma intents_delivered intents (sink sink' : OuchExecutionSink T) oks fuel
    (s : ExchangeTcpServer (Engine ExchangeEnv)) fd ssl (e : Env W) :
  is_uint 32 (nextUserRefNum_ sink) -> Forall submittable intents ->
  Sequencer_init + (1 + DefaultOrderCapacity) * Z.of_nat (length intents) < 2 ^ 64 ->
  wire (transport_ sink) = [] ->
  sink_run sink intents = Some (oks, sink') -> Forall (fun b => b = true) oks ->
  srv_clients s !! fd = Some (ClientState_new ssl true) -> srv_handler s = MatchingEngine_new base exchange_env ->
  (AcceptedSize + patience (env_world e) < fuel)%nat ->
  (forall data, may_receive (env_world e) (new_channel fd ssl) data -> data `prefix_of` wire (transport_ sink')) ->
  exists b s' e' new ids st resps,
    ExchangeTcpServer_handleClientReadable (OuchHandler0 := handler) fuel fuel s fd e = Some ((b, s'), e') /\
    env_log e' = env_log e ++ new /\
    delivered std_hash (srv_accountId s) (nextUserRefNum_ sink) intents (wire (transport_ sink')) fd ssl b s' new
      ids st resps.
Proof.
  intros Hn Hs Hseq Hw0 Hrun Hok Hc Hh Hf Hpeer.
  assert (Forall intent_encodable intents) as Henc.
  { eapply Forall_impl; [exact Hs|]. intros i (_ & Hq & Hl). split; [done|unfold is_uint; lia]. }
  destruct (sink_run_wire intents sink sink' oks Hn Henc Hrun Hok) as (frames & Hfr & Hw).
  rewrite Hw0 in Hw. cbn [app] in Hw. rewrite Hw in *.
  destruct (readable_served (OuchHandler0 := handler) fuel s fd (ClientState_new ssl true) e Hc
    (client_new_ok ssl true) Hf) as (b & s' & e' & new & fs & resps & client & E & Hl & V & Hm).
  { by eapply exchange_defined_on_input. }
  destruct (served_delivered intents frames s s' fd ssl (nextUserRefNum_ sink) b new fs resps client)
    as (ids & st & D); [done..|by apply Hpeer|done|].
  by exists b, s', e', new, ids, st, resps.
Qed.

End delivery.

(** ** Claims *)

(** C27: The server cuts a client's stream into frames, however it arrives.  Take any world
    that keeps the laws and does not send for ever, any client between two reads, enough
    fuel for the peer's data and one response, and any order handler that answers with 64
    bytes and is defined on every sequence of frames the peer may send here (the exchange's
    own is not defined on every frame).  Then serving the readable client returns.  The
    handler has been given all complete 47-byte pieces of the unfinished frame followed by
    the bytes received, in order and whatever the sizes of the reads, and nothing else; what
    was sent is a prefix of what was pending followed by the responses; no other client
    changed; and when the client is kept, the unfinished frame and the unsent bytes are
    exactly what its buffers hold and every frame was answered. *)
Theorem server_reassembles_frames :
  forall (W : Type) (world : World W) (laws : WorldLaws W) (quiescent : Quiescent W) (H : Type)
    (handler : OuchHandler H) (handler_laws : HandlerLaws)
    (fuel : nat) (s : ExchangeTcpServer H) (fd : Z) (state : ClientState) (e : Env W),
  srv_clients s !! fd = Some state -> client_ok state ->
  (AcceptedSize + patience (env_world e) < fuel)%nat ->
  (forall data frames, may_receive (env_world e) (client_channel fd state) data ->
     Forall (fun f => length f = EnterOrderSize) frames -> mjoin frames `prefix_of` pending_in state ++ data ->
     is_Some (handler_run (srv_handler s) (srv_accountId s) frames)) ->
  exists b s' e' new frames resps state' rest,
    ExchangeTcpServer_handleClientReadable fuel fuel s fd e = Some ((b, s'), e') /\
    env_log e' = env_log e ++ new /\
    srv_clients s' = <[fd := state']> (srv_clients s) /\
    handler_run (srv_handler s) (srv_accountId s) frames = Some (resps, srv_handler s') /\
    Forall (fun f => length f = EnterOrderSize) frames /\
    pending_in state ++ received_on (client_channel fd state) new = mjoin frames ++ rest /\
    (length rest < EnterOrderSize)%nat /\
    sent_on (client_channel fd state) new `prefix_of` pending_out state ++ mjoin (omap id resps) /\
    (b = true -> client_ok state' /\ Forall is_Some resps /\ rest = pending_in state' /\
      pending_out state ++ mjoin (omap id resps) =
        sent_on (client_channel fd state) new ++ pending_out state').
Proof.
  intros W world laws quiescent H handler handler_laws fuel s fd state e Hc Hok Hf Hdef.
  destruct (readable_served fuel s fd state e Hc Hok Hf Hdef)
    as (b & s' & e' & new & frames & resps & state' & E & Hl & V & _).
  destruct V as [V1 _ _ V4 V5 (ri & V6 & Vl & V6') (ro & V7 & V7') V8].
  exists b, s', e', new, frames, resps, state', ri. split_and!; try done; [by rewrite V1|by exists ro|].
  intros Hb. destruct (V8 Hb). rewrite <- (V6' Hb), <- (V7' Hb). done.
Qed.

(** Two intents over a TCP transport, received by a server in reads of ten bytes. *)
Definition e2e_send : OuchTransport (TcpOuchTransport * Env ToyWorld) := TcpTransport 60.

Definition e2e_sink : OuchExecutionSink (TcpOuchTransport * Env ToyWorld) :=
  mkOuchExecutionSink (mkTcpOuchTransport [] 1 5, mkEnv (mkToyWorld [] 2) []) 1.

Definition e2e_intents : list OrderIntent :=
  [ mkOrderIntent 1 Sell (replicate 8 65) 100 10; mkOrderIntent 1 Buy (replicate 8 66) 101 20 ].

Definition e2e_frames : list bytes :=
  Eval vm_compute in omap OuchEncoder_encode (intent_orders 1 e2e_intents).

Definition e2e_sent : option (list bool * OuchExecutionSink (TcpOuchTransport * Env ToyWorld)) :=
  sink_run (OrderExecutionSink0 := OuchExecutionSink_submit (OuchTransport0 := e2e_send)) e2e_sink e2e_intents.

Definition e2e_server : ExchangeTcpServer (Engine ExchangeEnv) :=
  set_client (ExchangeTcpServer_new 0 1001 (MatchingEngine_new 0 exchange_env) [] []) 7 (ClientState_new 0 true).

Definition e2e_env : Env PeerWorld := mkEnv (mkPeerWorld (Tcp 7) (mkToyWorld (mjoin e2e_frames) 1)) [].

Definition e2e_handler : OuchHandler (Engine ExchangeEnv) :=
  ExchangeHandler (fun k => k) ExchangeExecutionListener_onTrade.

Definition e2e_served : option ((bool * ExchangeTcpServer (Engine ExchangeEnv)) * Env PeerWorld) :=
  ExchangeTcpServer_handleClientReadable (OuchHandler0 := e2e_handler) 200 200 e2e_server 7 e2e_env.

(** The run, computed: all bytes have arrived and the client is kept. *)
Lemma e2e_run : (fun r => (r.1.1, received_on (Tcp 7) (env_log r.2))) <$> e2e_served = Some (true, mjoin e2e_frames).
Proof. vm_compute. reflexivity. Qed.

Lemma e2e_submittable : Forall submittable e2e_intents.
Proof. repeat constructor; cbn; unfold valid_price, MaxPriceLevels; cbn; lia. Qed.

Lemma e2e_framed : Forall2 frame (intent_orders 1 e2e_intents) e2e_frames.
Proof. repeat constructor; vm_compute; reflexivity. Qed.

Lemma e2e_defined : defined_on_input (OuchHandler0 := e2e_handler) e2e_server 7 (ClientState_new 0 true) (env_world e2e_env).
Proof.
  apply (exchange_defined_on_input (fun k => k) ExchangeExecutionListener_onTrade 0 e2e_intents e2e_frames
    e2e_server 7 0 1 (env_world e2e_env)); [|exact e2e_submittable| |exact e2e_framed|reflexivity|].
  - unfold is_uint. lia.
  - vm_compute. reflexivity.
  - intros data [cs ->]. exact (peer_delivers cs (env_world e2e_env)).
Qed.

(** Both orders arrive in ten reads and are given to the exchange's own handler. *)
Lemma server_reassembles_witness :
  exists s' e' resps, e2e_served = Some ((true, s'), e') /\
    handler_run (OuchHandler0 := e2e_handler) (MatchingEngine_new 0 exchange_env) 1001 e2e_frames =
      Some (resps, srv_handler s') /\ Forall is_Some resps.
Proof.
  destruct (server_reassembles_frames PeerWorld peer_world peer_laws peer_quiescent (Engine ExchangeEnv) e2e_handler
    (exchange_handler_laws (fun k => k) ExchangeExecutionListener_onTrade) 200 e2e_server 7 (ClientState_new 0 true) e2e_env)
    as (b & s' & e' & new & frames & resps & state' & rest & H1 & H2 & H3 & H4 & H5 & H6 & H7 & _ & H9).
  - reflexivity.
  - apply client_new_ok.
  - cbn. lia.
  - exact e2e_defined.
  - pose proof e2e_run as Hr. unfold e2e_served in Hr. rewrite H1 in Hr. injection Hr as -> Hr.
    cbn [env_log e2e_env app] in H2. subst new.
    change (received_on (Tcp 7) (env_log e') = mjoin frames ++ rest) in H6. rewrite Hr in H6.
    destruct (frames_unique frames e2e_frames rest EnterOrderSize) as [-> _];
      [unfold EnterOrderSize; lia|exact H5|by repeat constructor|exact H7|by symmetry|].
    exists s', e', resps. split; [exact H1|]. split; [exact H4|]. by apply H9.
Defined.

(** C28: From the trading client's intents to the exchange's book.  Let a client submit
    intents (a price inside the book, a positive quantity, an eight-character symbol) through
    the OUCH execution sink over any transport that keeps the transport laws, all with
    success, and let the exchange's server have a new connection on which nothing but these
    bytes can arrive, in reads of any sizes.  Then serving it returns, given fuel for the
    peer's data and one response.  With n the number of complete frames that have arrived,
    the exchange's book is the one price-time priority gives for the first n intents, with
    their own sides, prices and quantities, in their order; each of them is answered, unless
    the specification refused it, with a 64-byte Accepted message that decodes to its side,
    price, quantity and symbol, to the client's consecutive reference number and to the id
    the specification gave it; what went out is a prefix of these answers, and when the
    client is kept, all of them with what is still in its buffer; and when all bytes have
    arrived, n is the number of all intents.  All this whatever listens to the trades. *)
Theorem intents_reach_the_exchange_book :
  forall (T : Type) (send : OuchTransport T) (transport_laws : TransportLaws T)
    (W : Type) (world : World W) (laws : WorldLaws W) (quiescent : Quiescent W) (std_hash : Z -> Z)
    (publish : Trade -> ExchangeEnv -> ExchangeEnv) (base : Z)
    (intents : list OrderIntent) (sink sink' : OuchExecutionSink T) (oks : list bool)
    (fuel : nat) (s : ExchangeTcpServer (Engine ExchangeEnv)) (fd ssl : Z) (e : Env W),
  is_uint 32 (nextUserRefNum_ sink) -> Forall submittable intents ->
  Sequencer_init + (1 + DefaultOrderCapacity) * Z.of_nat (length intents) < 2 ^ 64 ->
  wire (transport_ sink) = [] ->
  sink_run sink intents = Some (oks, sink') -> Forall (fun b => b = true) oks ->
  srv_clients s !! fd = Some (ClientState_new ssl true) -> srv_handler s = MatchingEngine_new base exchange_env ->
  (AcceptedSize + patience (env_world e) < fuel)%nat ->
  (forall data, may_receive (env_world e) (new_channel fd ssl) data -> data `prefix_of` wire (transport_ sink')) ->
  exists b s' e' new ids st resps,
    ExchangeTcpServer_handleClientReadable (OuchHandler0 := ExchangeHandler std_hash publish) fuel fuel s fd e =
      Some ((b, s'), e') /\
    env_log e' = env_log e ++ new /\
    delivered std_hash (srv_accountId s) (nextUserRefNum_ sink) intents (wire (transport_ sink')) fd ssl b s' new
      ids st resps.
Proof.
  intros T send transport_laws W world laws quiescent std_hash publish base intents sink sink' oks fuel s fd ssl e.
  apply intents_delivered.
Qed.

Lemma two_answers (resps : list (option bytes)) :
  length resps = 2%nat -> Forall is_Some resps -> exists first second, resps = [Some first; Some second].
Proof.
  intros Hl HF. destruct HF as [|? ? [first ->] [|? ? [second ->] [|]]]; try discriminate Hl. by eexists _, _.
Qed.

(** The two intents trade: ten units of the buy order are left in the book. *)
Lemma intents_reach_witness :
  exists s' e' resps, e2e_served = Some ((true, s'), e') /\
    shows (fun k => k) (eng_book (srv_handler s')) (eng_heap (srv_handler s')) [mkLimit 1002 1001 Buy 101 10] /\
    (exists first second, resps = [Some first; Some second] /\
      confirmed 1001 1 (mkOrderIntent 1 Sell (replicate 8 65) 100 10) (Some first) /\
      confirmed 1002 2 (mkOrderIntent 1 Buy (replicate 8 66) 101 20) (Some second)).
Proof.
  destruct e2e_sent as [[oks sink']|] eqn:Esend; [|vm_compute in Esend; discriminate Esend].
  assert ((fun r => (r.1, wire (TransportLaws := tcp_laws 60) (transport_ r.2))) <$> e2e_sent =
    Some ([true; true], mjoin e2e_frames)) as Hsend by (vm_compute; reflexivity).
  rewrite Esend in Hsend. injection Hsend as -> Hwire.
  destruct (intents_reach_the_exchange_book _ e2e_send (tcp_laws 60) PeerWorld peer_world peer_laws peer_quiescent
    (fun k => k) ExchangeExecutionListener_onTrade 0 e2e_intents e2e_sink sink' [true; true] 200 e2e_server 7 0 e2e_env)
    as (b & s' & e' & new & ids & st & resps & E & Hl & D).
  - unfold is_uint. cbn. lia.
  - exact e2e_submittable.
  - vm_compute. reflexivity.
  - reflexivity.
  - exact Esend.
  - by repeat constructor.
  - reflexivity.
  - reflexivity.
  - cbn. lia.
  - intros data [cs ->]. exact (eq_ind_r (fun bs => _ `prefix_of` bs) (peer_delivers cs (env_world e2e_env)) Hwire).
  - pose proof e2e_run as Hr. unfold e2e_served in Hr |- *.
    change (ExchangeHandler (fun k => k) ExchangeExecutionListener_onTrade) with e2e_handler in E.
    rewrite E in Hr. injection Hr as -> Hr. cbn [env_log e2e_env app] in Hl. subst new.
    destruct D as [_ [trades Hspec] Hb [Hl1 Hl2] Ha _ Hk _].
    change (new_channel 7 0) with (Tcp 7) in *. rewrite Hr in Hspec, Hl1.
    assert (spec_run spec_new (intent_submission 1001 <$> take (length (mjoin e2e_frames) / EnterOrderSize) e2e_intents) =
      ([1001; 1002], [mkTrade 1003 1002 1001 1001 1001 100 10], mkSpec [mkLimit 1002 1001 Buy 101 10] 1003)) as Es
      by (vm_compute; reflexivity).
    pose proof (eq_trans (eq_sym Es) Hspec) as Ei. injection Ei as <- _ <-.
    destruct (Hk eq_refl) as [Hsome _]. exists s', e', resps. split; [exact E|]. split; [exact Hb|].
    destruct (two_answers resps Hl2 Hsome) as (first & second & ->).
    exists first, second. split; [reflexivity|]. split; [exact (Ha 0%nat _ _ _ eq_refl eq_refl eq_refl)|].
    exact (Ha 1%nat _ _ _ eq_refl eq_refl eq_refl).
Defined.
