(* ===== verification/ServerFrames.v ===== *)
(** * The frames of a log

    Which frames a server hands to its order handler is read off the log of its calls alone:
    a connection starts with nothing when it is opened, and what is received on it is cut
    every 47 bytes.  This file proves that every operation of the exchange server, in front
    of the recorder of [ServerSim], keeps to it: what the recorder has written down is what
    the log says, and every client's buffer is the unfinished piece of its connection. *)

From S2P Require Import Prelude Types Wire Ouch Net NetLogic Exchange ExchangeServer.
From S2P Require Import ServerProofs ServerLifecycle ServerSim.

(** ** Cutting *)

Record Cut : Type := mkCut { unfinished : Channel -> bytes; handed : list bytes }.

Definition cut_new : Cut := mkCut (fun _ => []) [].

Definition cut_set (st : Cut) (ch : Channel) (bs : bytes) : Cut :=
  mkCut (fun ch' => if bool_decide (ch' = ch) then bs else unfinished st ch') (handed st).

(** One more byte on a connection. *)
Definition cut_byte (ch : Channel) (st : Cut) (byte : Z) : Cut :=
  let piece := unfinished st ch ++ [byte] in
  if (length piece =? EnterOrderSize)%nat
  then let st := cut_set st ch [] in mkCut (unfinished st) (handed st ++ [piece])
  else cut_set st ch piece.

(** The connection a call opens. *)
Definition opened (c : Call) (r : Reply) : option Channel :=
  match c with
  | c_accept4 _ => if 0 <=? rep_ret r then Some (Tcp (rep_ret r)) else None
  | c_SSL_new _ => if rep_ret r =? 0 then None else Some (Tls (rep_ret r))
  | _ => None
  end.

Definition cut_step (st : Cut) (e : Call * Reply) : Cut :=
  match opened e.1 e.2, received_by e.1 e.2 with
  | Some ch, _ => cut_set st ch []
  | None, Some (ch, bs) => foldl (cut_byte ch) st bs
  | None, None => st
  end.

Definition log_cut (log : list (Call * Reply)) : Cut := foldl cut_step cut_new log.

(** The frames of a log, in the order in which they were completed. *)
Definition log_frames (log : list (Call * Reply)) : list bytes := handed (log_cut log).

Lemma log_cut_app l1 l2 : log_cut (l1 ++ l2) = foldl cut_step (log_cut l1) l2.
Proof. apply foldl_app. Qed.

Lemma cut_set_same st ch bs : unfinished (cut_set st ch bs) ch = bs.
Proof. cbn. by rewrite bool_decide_true. Qed.

Lemma cut_set_other st ch ch' bs : ch' <> ch -> unfinished (cut_set st ch bs) ch' = unfinished st ch'.
Proof. intros Hne. cbn. by rewrite bool_decide_false. Qed.

(** Bytes on one connection: the pieces they complete, and what is left. *)
Lemma cut_bytes ch bs : forall st, (length (unfinished st ch) < EnterOrderSize)%nat ->
  let st' := foldl (cut_byte ch) st bs in
  (exists frames, handed st' = handed st ++ frames /\ Forall (fun f => length f = EnterOrderSize) frames /\
     unfinished st ch ++ bs = mjoin frames ++ unfinished st' ch) /\
  (length (unfinished st' ch) < EnterOrderSize)%nat /\
  (forall ch', ch' <> ch -> unfinished st' ch' = unfinished st ch').
Proof.
  induction bs as [|x bs IH]; intros st Hst; cbn [foldl].
  { split; [|done]. exists []. by rewrite !app_nil_r. }
  set (st1 := cut_byte ch st x).
  assert ((exists frames, handed st1 = handed st ++ frames /\ Forall (fun f => length f = EnterOrderSize) frames /\
      unfinished st ch ++ [x] = mjoin frames ++ unfinished st1 ch) /\
    (length (unfinished st1 ch) < EnterOrderSize)%nat /\
    (forall ch', ch' <> ch -> unfinished st1 ch' = unfinished st ch')) as ((f1 & H1 & L1 & E1) & Hl1 & O1).
  { unfold st1, cut_byte. rewrite length_app. cbn [length].
    destruct (Nat.eqb_spec (length (unfinished st ch) + 1) EnterOrderSize) as [E|E]; cbn [unfinished handed].
    - split; [exists [unfinished st ch ++ [x]]|split; [rewrite cut_set_same; cbn; unfold EnterOrderSize; lia|
        intros ch' Hne; by apply cut_set_other]].
      rewrite cut_set_same. cbn. rewrite !app_nil_r. split_and!; [done| |done]. repeat constructor.
      rewrite length_app. cbn. lia.
    - rewrite cut_set_same, length_app. cbn [length]. split; [exists []; by rewrite app_nil_r|]. split; [lia|].
      intros ch' Hne. by apply cut_set_other. }
  destruct (IH st1 Hl1) as ((f2 & H2 & L2 & E2) & Hl2 & O2). split; [|split; [done|]].
  - exists (f1 ++ f2). rewrite H2, H1, app_assoc. split; [done|]. split; [by apply Forall_app|].
    rewrite join_app, <- app_assoc, <- E2, app_assoc, <- E1, <- app_assoc. done.
  - intros ch' Hne. by rewrite O2, O1.
Qed.

(** ** Calls on one connection

    [solely ch new]: nothing was opened and nothing received but on [ch]. *)

Definition solely (ch : Channel) (new : list (Call * Reply)) : Prop :=
  Forall (fun e => opened e.1 e.2 = None /\
    forall ch' bs, received_by e.1 e.2 = Some (ch', bs) -> ch' = ch \/ bs = []) new.

Lemma solely_cut ch new : solely ch new -> forall st, foldl cut_step st new = foldl (cut_byte ch) st (received_on ch new).
Proof.
  induction 1 as [|[c r] new [Ho Hr] _ IH]; intros st; [done|].
  change ((c, r) :: new) with ([(c, r)] ++ new). rewrite received_on_app, received_on_one, !foldl_app. cbn [foldl].
  rewrite IH. f_equal. unfold cut_step. cbn [fst snd] in Ho, Hr |- *. rewrite Ho.
  destruct (received_by c r) as [[ch' bs]|]; [|done]. unfold on_channel. destruct (Hr _ _ eq_refl) as [-> | ->].
  - by rewrite bool_decide_true.
  - by destruct (bool_decide _).
Qed.

Section solely_io.
Context {W : Type} `{!World W}.

Definition solely_io {A} (ch : Channel) (m : IO W A) : Prop := forall e a e', m e = Some (a, e') ->
  exists new, env_log e' = env_log e ++ new /\ solely ch new.

(** Calls that neither open a connection nor receive. *)
Definition deaf (c : Call) : bool :=
  match c with c_accept4 _ | c_SSL_new _ | c_recv _ _ | c_SSL_read _ _ => false | _ => true end.

Lemma solely_ret {A} ch (a : A) : solely_io ch (io_ret a).
Proof. intros e a' e' [= <- <-]. exists []. rewrite app_nil_r. split; [done|constructor]. Qed.

Lemma solely_fail {A} ch : solely_io ch (io_fail (A := A)).
Proof. by intros e a e'. Qed.

Lemma solely_call ch c : deaf c = true -> solely_io ch (call c).
Proof.
  intros Hd e r e'. unfold call. destruct (world_call _ _) as [r0 w]. intros [= <- <-]. eexists. split; [done|].
  repeat constructor; by destruct c.
Qed.

Lemma solely_bind {A B} ch (m : IO W A) (f : A -> IO W B) :
  solely_io ch m -> (forall a, solely_io ch (f a)) -> solely_io ch (io_bind m f).
Proof.
  intros Hm Hf e b e' (a & e1 & E1 & E2)%io_bind_Some.
  destruct (Hm _ _ _ E1) as (n1 & L1 & S1). destruct (Hf _ _ _ _ E2) as (n2 & L2 & S2).
  exists (n1 ++ n2). rewrite L2, L1, app_assoc. split; [done|]. by apply Forall_app.
Qed.

Lemma solely_if {A} ch (b : bool) (m1 m2 : IO W A) : solely_io ch m1 -> solely_io ch m2 -> solely_io ch (if b then m1 else m2).
Proof. by destruct b. Qed.

Lemma solely_read state fd n : solely_io (client_channel fd state) (client_read state fd n).
Proof.
  unfold client_read, client_channel. intros e r e'. destruct (cl_ssl state =? 0); cbn [negb]; unfold call;
    destruct (world_call _ _) as [r0 w]; intros [= <- <-]; (eexists; split; [done|]);
    apply Forall_singleton; (split; [done|]); intros ch' bs [= <- <-]; by left.
Qed.

End solely_io.

#[export] Hint Resolve solely_ret solely_fail solely_bind solely_if : hft.
#[export] Hint Extern 2 (solely_io _ (call _)) => apply solely_call; reflexivity : hft.
#[export] Hint Extern 5 (solely_io _ (match ?x with _ => _ end)) => destruct x : hft.

(** ** Serving *)

Section tracked.
Context {W : Type} `{!World W, !WorldLaws W, !Quiescent W, !HandleLaws W}.
Context {H : Type} `{!OuchHandler H, !HandlerLaws} (h0 : H) (acct : AccountId).

#[local] Instance recording_handler : OuchHandler (list bytes) := recorder h0 acct.
#[local] Instance recording_laws : HandlerLaws := recorder_laws h0 acct.
#[local] Instance recording_total : HandlerTotal := recorder_total h0 acct.

Implicit Types (s : ExchangeTcpServer (list bytes)) (e : Env W).

(** The recorder and the clients' buffers, but for the client at hand, are what the log says. *)
Record in_step (busy : option Z) s e : Prop := {
  in_handed : srv_handler s = log_frames (env_log e);
  in_clients : forall fd c, srv_clients s !! fd = Some c -> busy <> Some fd ->
    unfinished (log_cut (env_log e)) (client_channel fd c) = pending_in c
}.

Definition tracked (busy : option Z) (N : nat) s e : Prop := serving_but busy N s e /\ in_step busy s e.

(** Calls that neither open a connection nor receive. *)
Lemma solely_unchanged e e' new : env_log e' = env_log e ++ new -> (forall ch, solely ch new) ->
  log_cut (env_log e') = log_cut (env_log e).
Proof.
  intros -> Hs. rewrite log_cut_app. assert (forall st, foldl cut_step st new = st) as ->; [|done].
  specialize (Hs (Tcp (-1))) as H1. specialize (Hs (Tcp (-2))) as H2. clear Hs.
  induction H1 as [|[c r] new [Ho Hr] _ IH]; intros st; [done|]. apply Forall_cons in H2 as [[_ Hr'] H2].
  cbn [foldl]. rewrite IH by done. unfold cut_step. cbn [fst snd] in *. rewrite Ho.
  destruct (received_by c r) as [[ch bs]|]; [|done]. destruct (Hr _ _ eq_refl) as [-> | ->]; [|done].
  by destruct (Hr' _ _ eq_refl) as [[=]| ->].
Qed.

Lemma deaf_unchanged {A} (m : IO W A) e a e' : (forall ch, solely_io ch m) -> m e = Some (a, e') ->
  log_cut (env_log e') = log_cut (env_log e).
Proof.
  intros Hm E. destruct (Hm (Tcp 0) _ _ _ E) as (new & Hl & _). apply (solely_unchanged _ _ new Hl).
  intros ch. destruct (Hm ch _ _ _ E) as (new' & Hl' & Hs). rewrite Hl in Hl'. by apply app_inv_head in Hl' as ->.
Qed.

Lemma called_deaf c r e e' : called c r e e' -> deaf c = true -> log_cut (env_log e') = log_cut (env_log e).
Proof.
  intros [_ Hl] Hd. eapply solely_unchanged; [exact Hl|]. intros ch. repeat constructor; by destruct c.
Qed.

Lemma in_step_unchanged busy s e e' : log_cut (env_log e') = log_cut (env_log e) -> in_step busy s e -> in_step busy s e'.
Proof. intros E [Hh Hc]. split; unfold log_frames in *; by rewrite E. Qed.

(** A client whose connection and unfinished frame stay. *)
Lemma in_step_update s e e' fd c c' : log_cut (env_log e') = log_cut (env_log e) -> in_step None s e ->
  srv_clients s !! fd = Some c -> client_channel fd c' = client_channel fd c -> pending_in c' = pending_in c ->
  in_step None (set_client s fd c') e'.
Proof.
  intros E [Hh Hcl] Hc Ech Ep. split; unfold log_frames in *; rewrite E; [done|]. intros fd' c1. cbn.
  destruct (decide (fd' = fd)) as [->|Hne].
  - rewrite lookup_insert_eq. intros [= <-] _. rewrite Ech, Ep. by apply Hcl.
  - rewrite lookup_insert_ne by done. apply Hcl.
Qed.

Lemma in_step_delete busy s e fd : in_step busy s e -> busy = None \/ busy = Some fd ->
  in_step None (set_clients s (delete fd (srv_clients s))) e.
Proof.
  intros [Hh Hc] Hb. split; [done|]. cbn. intros fd' c [Hne Hc']%lookup_delete_Some _. apply Hc; [done|].
  destruct Hb as [-> | ->]; congruence.
Qed.

(** Two clients have two connections. *)
Lemma channels_distinct s fd c fd' c' : NoDup (all_handles s) ->
  srv_clients s !! fd = Some c -> srv_clients s !! fd' = Some c' -> fd' <> fd ->
  client_channel fd' c' <> client_channel fd c.
Proof.
  intros Hn Hc Hc' Hne. unfold client_channel. destruct (Z.eqb_spec (cl_ssl c') 0) as [E'|E'],
    (Z.eqb_spec (cl_ssl c) 0) as [E|E]; try congruence. intros [= Es].
  rewrite (all_handles_delete s fd c Hc) in Hn. apply NoDup_app in Hn as (_ & Hd & _).
  apply (Hd (H_ssl (cl_ssl c))).
  - unfold client_handles, ssl_handles. cbn. rewrite (proj2 (Z.eqb_neq _ _) E). apply elem_of_cons. right.
    by apply list_elem_of_singleton.
  - rewrite (all_handles_delete _ fd' c') by (cbn; by rewrite lookup_delete_ne).
    unfold client_handles, ssl_handles. cbn. rewrite (proj2 (Z.eqb_neq _ _) E'), Es. apply elem_of_cons. right.
    cbn. by apply elem_of_cons; left.
Qed.

(** *** Writing, handshakes and closing *)

Lemma flush_solely fuel : forall s fd ch, solely_io (W := W) ch (ExchangeTcpServer_flushPendingWrite fuel s fd).
Proof.
  induction fuel as [|fuel IH]; intros s fd ch; cbn [ExchangeTcpServer_flushPendingWrite];
    unfold ExchangeTcpServer_updateClientEvents, client_write; eauto 20 with hft.
Qed.

Lemma progress_solely s fd ch : solely_io (W := W) ch (ExchangeTcpServer_progressTlsHandshake s fd).
Proof. unfold ExchangeTcpServer_progressTlsHandshake, ExchangeTcpServer_updateClientEvents. eauto 20 with hft. Qed.

Lemma close_solely s fd ch : solely_io (W := W) ch (ExchangeTcpServer_closeClient s fd).
Proof. unfold ExchangeTcpServer_closeClient, free_ssl. eauto 20 with hft. Qed.

Lemma handle_frame_solely fuel s fd ch : solely_io (W := W) ch (handle_frame fuel s fd).
Proof. unfold handle_frame, ExchangeTcpServer_sendAll. pose proof (flush_solely fuel). eauto 20 with hft. Qed.

Lemma after_no_data_solely s fd state r ch : solely_io (W := W) ch (after_no_data s fd state r).
Proof. unfold after_no_data, ExchangeTcpServer_updateClientEvents. eauto 20 with hft. Qed.

(** Reading receives on the client's connection only. *)
Lemma readable_loop_solely flush_fuel fuel fd x : forall s e r e',
  client_is fd (fun c => cl_ssl c = x) s -> readable_loop flush_fuel fuel s fd e = Some (r, e') ->
  exists new, env_log e' = env_log e ++ new /\ solely (if x =? 0 then Tcp fd else Tls x) new.
Proof.
  set (ch := if x =? 0 then Tcp fd else Tls x).
  induction fuel as [|fuel IH]; intros s e r e' Hx; cbn [readable_loop]; [done|].
  destruct (srv_clients s !! fd) as [c|] eqn:Hc; [|done].
  assert (client_channel fd c = ch) as Ech by (unfold client_channel, ch; by rewrite (Hx c Hc)).
  assert (forall e1 n1 s1, env_log e1 = env_log e ++ n1 -> solely ch n1 -> client_is fd (fun c => cl_ssl c = x) s1 ->
    readable_loop flush_fuel fuel s1 fd e1 = Some (r, e') ->
    exists new, env_log e' = env_log e ++ new /\ solely ch new) as Hrec.
  { intros e1 n1 s1 L1 S1 Hx1 E1. destruct (IH _ _ _ _ Hx1 E1) as (n2 & L2 & S2).
    exists (n1 ++ n2). rewrite L2, L1, app_assoc. split; [done|by apply Forall_app]. }
  intros (r1 & e1 & E1 & E)%io_bind_Some. destruct (solely_read c fd _ _ _ _ E1) as (n1 & L1 & S1). rewrite Ech in S1.
  destruct (0 <? _).
  - destruct (wr _ _ _) as [buffer|]; [|done]. set (s1 := set_client s fd _) in E.
    assert (client_is fd (fun c => cl_ssl c = x) s1) as Hx1 by (apply client_is_set_client; by apply (Hx c)).
    destruct (_ =? EnterOrderSize)%nat; [|by eapply Hrec].
    apply io_bind_Some in E as ([ok s2] & e2 & E2 & E). destruct (handle_frame_solely _ _ _ ch _ _ _ E2) as (n2 & L2 & S2).
    apply (handle_frame_keeps (fun c => cl_ssl c = x)) in E2 as Hx2; [|done..].
    assert (env_log e2 = env_log e ++ (n1 ++ n2)) as L12 by (by rewrite L2, L1, app_assoc).
    assert (solely ch (n1 ++ n2)) as S12 by (by apply Forall_app).
    destruct ok; [by eapply Hrec|]. injection E as <- <-. by exists (n1 ++ n2).
  - apply io_bind_Some in E as (d & e2 & E2 & E). destruct (after_no_data_solely _ _ _ _ ch _ _ _ E2) as (n2 & L2 & S2).
    assert (env_log e2 = env_log e ++ (n1 ++ n2)) as L12 by (by rewrite L2, L1, app_assoc).
    assert (solely ch (n1 ++ n2)) as S12 by (by apply Forall_app).
    destruct d as [d|]; [|by eapply Hrec]. injection E as <- <-. by exists (n1 ++ n2).
Qed.

(** Reading hands over exactly the pieces the log completes. *)
Lemma readable_in_step flush_fuel fuel N s e fd c b s' e' : serving N s e -> in_step None s e ->
  srv_clients s !! fd = Some c -> readable_loop flush_fuel fuel s fd e = Some ((b, s'), e') ->
  in_step (if b then None else Some fd) s' e'.
Proof.
  intros Hs [Hh Hcl] Hc E. destruct (sg_clients _ _ _ _ Hs fd c Hc) as [Hok _]; [done|].
  destruct (readable_loop_spec _ _ _ _ _ _ _ _ _ Hc Hok E) as (new & frames & resps & c' & Hl & V).
  pose proof (served_channel _ _ _ _ _ _ _ _ _ V) as Ech.
  assert (client_is fd (fun c1 => cl_ssl c1 = cl_ssl c) s) as Hx by (intros c1 E1; congruence).
  destruct (readable_loop_solely _ _ fd (cl_ssl c) _ _ _ _ Hx E) as (new' & Hl' & Hsol).
  rewrite Hl in Hl'. apply app_inv_head in Hl' as <-. change (solely (client_channel fd c) new) in Hsol.
  set (ch := client_channel fd c) in *.
  assert (log_cut (env_log e') = foldl (cut_byte ch) (log_cut (env_log e)) (received_on ch new)) as Ecut
    by (rewrite Hl, log_cut_app; by apply solely_cut).
  specialize (Hcl fd c Hc ltac:(done)) as Hp. fold ch in Hp.
  assert (length (pending_in c) < EnterOrderSize)%nat as Hlp
    by (unfold pending_in; rewrite length_take; pose proof (co_received _ Hok); lia).
  destruct (cut_bytes ch (received_on ch new) (log_cut (env_log e))) as ((fs & Hfs & Lfs & Efs) & Hl1 & Ho);
    [by rewrite Hp|]. rewrite <- Ecut in Hfs, Efs, Hl1, Ho. rewrite Hp in Efs.
  destruct V as [V1 V2 _ V4 V5 (ri & V6 & Vl & V6') _ V8]. fold ch in V6. rewrite V6 in Efs.
  destruct (frames_determined frames fs ri (unfinished (log_cut (env_log e')) ch) EnterOrderSize) as [<- ->];
    [unfold EnterOrderSize; lia|done..|].
  split.
  - destruct (recorder_frames h0 acct (srv_accountId s) frames (srv_handler s)) as [rs Er].
    unfold handler_run in V5. fold (@handler_run _ recording_handler) in V5. unfold recording_handler in V5.
    rewrite Er in V5. injection V5 as _ <-. unfold log_frames in *. by rewrite Hfs, Hh.
  - intros fd' c1. rewrite V1. cbn. destruct (decide (fd' = fd)) as [->|Hne].
    + rewrite lookup_insert_eq. intros [= <-] Hb. rewrite Ech. apply V6'. by destruct b.
    + rewrite lookup_insert_ne by done. intros Hc1 _. rewrite Ho; [by apply Hcl|].
      eapply channels_distinct; [apply (sg_owned _ _ _ _ Hs)|done..].
Qed.

(** *** The operations of the event loop *)

Lemma close_tracked N s s1 e fd : tracked (Some fd) N s1 e -> is_Some (srv_clients s1 !! fd) -> touches fd s s1 ->
  wp (ExchangeTcpServer_closeClient s1 fd) e (fun s' e' => tracked None N s' e' /\ touches fd s s').
Proof.
  intros [Hs Hi] [c Hc] [El Et]. eapply wp_also; [by eapply closeClient_wp|].
  intros s' e' E [Hs' ->]. split; [split; [done|]|].
  - eapply in_step_unchanged; [|eapply in_step_delete; [exact Hi|by right]].
    eapply deaf_unchanged, E. intros ch. apply close_solely.
  - split; [done|]. intros fd' Hne. cbn. rewrite lookup_delete_ne by done. by apply Et.
Qed.

Lemma tracked_weaken busy N s e : tracked None N s e -> tracked busy N s e.
Proof.
  intros [Hs [Hh Hc]]. split; [by apply serving_weaken|]. split; [done|]. intros fd c E _. by apply Hc.
Qed.

Lemma flush_tracked fuel N s e fd c : tracked None N s e -> srv_clients s !! fd = Some c ->
  (AcceptedSize + N < fuel)%nat ->
  wp (ExchangeTcpServer_flushPendingWrite fuel s fd) e (fun r e' =>
    exists c', r.2 = set_client s fd c' /\ tracked None N r.2 e').
Proof.
  intros [Hs Hi] Hc Hf. destruct (sg_clients _ _ _ _ Hs fd c Hc) as [[_ _ Hout] _]; [done|].
  eapply wp_also; [by eapply flush_wp|].
  intros [b s'] e' E (c' & Er & Hs'). exists c'. split; [done|]. split; [done|].
  apply deaf_unchanged in E as Ecut; [|intros ch; apply flush_solely].
  destruct (flush_spec _ _ _ _ _ _ _ _ Hc Hout E) as (c1 & new & _ & Es & (Q1 & Q2 & Q3 & Q4) & _).
  cbn [snd]. rewrite Es. refine (in_step_update _ _ _ _ _ _ Ecut Hi Hc _ _).
  - unfold client_channel. by rewrite Q1.
  - unfold pending_in. by rewrite Q3, Q4.
Qed.

Lemma readable_tracked fuel N s e fd c : tracked None N s e -> srv_clients s !! fd = Some c ->
  (AcceptedSize + N < fuel)%nat ->
  wp (ExchangeTcpServer_handleClientReadable fuel fuel s fd) e (fun r e' =>
    tracked (if r.1 then None else Some fd) N r.2 e' /\ touches fd s r.2 /\ is_Some (srv_clients r.2 !! fd)).
Proof.
  intros [Hs Hi] Hc Hf. eapply wp_also; [by eapply readable_wp|].
  intros [b s'] e' E (Hs' & Ht & Hc'). split; [split; [done|]|done].
  unfold ExchangeTcpServer_handleClientReadable in E. rewrite Hc in E.
  exact (readable_in_step _ _ _ _ _ _ _ _ _ _ Hs Hi Hc E).
Qed.

Lemma progress_tracked N s e fd c : tracked None N s e -> srv_clients s !! fd = Some c ->
  cl_tlsHandshakeComplete c = false ->
  wp (ExchangeTcpServer_progressTlsHandshake s fd) e (fun r e' =>
    exists c', r.2 = set_client s fd c' /\ tracked None N r.2 e').
Proof.
  intros [Hs Hi] Hc Ht. eapply wp_also; [by eapply progress_wp|].
  intros [b s'] e' E (c' & Er & Hs'). exists c'. split; [done|]. split; [done|].
  apply deaf_unchanged in E as Ecut; [|intros ch; apply progress_solely].
  destruct (progress_run s fd c e Hc Ht) as (b1 & s1 & e1 & new & E1 & _ & Hs1). rewrite E in E1.
  injection E1 as <- <- <-. cbn [snd]. destruct Hs1 as [-> |[-> _]]; [by eapply in_step_unchanged|].
  by eapply in_step_update.
Qed.

Lemma client_event_tracked fuel N s e fd events : tracked None N s e -> is_Some (srv_clients s !! fd) ->
  (AcceptedSize + N < fuel)%nat ->
  wp (client_event fuel s fd events) e (fun s' e' => tracked None N s' e' /\ touches fd s s').
Proof.
  intros Hs [c Hc] Hf. unfold client_event.
  assert (touches fd s s) as Ht0 by (by split).
  destruct (has_event _ _); [apply close_tracked; [by apply tracked_weaken|by eexists|done]|].
  rewrite Hc. destruct (cl_tlsHandshakeComplete c) eqn:Ht; cbn [negb].
  - apply wp_bind. eapply (wp_mono _ _ (fun r e' => exists c', r.2 = set_client s fd c' /\ tracked None N r.2 e')).
    { destruct (_ && _); [by eapply flush_tracked|]. apply wp_ret. exists c. by rewrite set_client_same. }
    intros [b s1] e1 (c' & Es1 & Hs1). cbn in Es1, Hs1.
    assert (touches fd s s1) as Ht1 by (rewrite Es1; apply (touches_set_client fd s c' (srv_handler s))).
    assert (srv_clients s1 !! fd = Some c') as Hc1 by (rewrite Es1; apply set_client_lookup).
    destruct b; cbn [negb]; [|apply close_tracked; [by apply tracked_weaken|by eexists|done]].
    destruct (has_event _ _); [|by apply wp_ret].
    apply wp_bind. eapply wp_mono; [by eapply readable_tracked|]. intros [b2 s2] e2 (Hs2 & Ht2 & Hc2). cbn in *.
    assert (touches fd s s2) as Ht2'.
    { destruct Ht1 as [El1 Et1], Ht2 as [El2 Et2]. split; [congruence|]. intros fd' Hne. by rewrite Et2, Et1. }
    destruct b2; [by apply wp_ret|by apply close_tracked].
  - apply wp_bind. eapply wp_mono; [by eapply progress_tracked|]. intros [b s1] e1 (c' & Es1 & Hs1). cbn in *.
    assert (touches fd s s1) as Ht1 by (rewrite Es1; apply (touches_set_client fd s c' (srv_handler s))).
    destruct b; [by apply wp_ret|].
    apply close_tracked; [by apply tracked_weaken|rewrite Es1, set_client_lookup; by eexists|done].
Qed.

(** *** Accepting *)

(** A connection is opened that no client has. *)
Lemma in_step_opened s e e' c r ch : called c r e e' -> opened c r = Some ch -> in_step None s e ->
  (forall fd cl, srv_clients s !! fd = Some cl -> client_channel fd cl <> ch) ->
  in_step None s e' /\ unfinished (log_cut (env_log e')) ch = [].
Proof.
  intros [_ Hl] Ho [Hh Hc] Hfresh.
  assert (log_cut (env_log e') = cut_set (log_cut (env_log e)) ch []) as Ecut.
  { rewrite Hl, log_cut_app. cbn. unfold cut_step. cbn [fst snd]. by rewrite Ho. }
  rewrite Ecut, cut_set_same. split; [|done]. split; unfold log_frames in *; rewrite Ecut; [done|].
  intros fd cl Hcl Hb. rewrite cut_set_other; [by apply Hc|by apply (Hfresh fd)].
Qed.

Lemma in_step_enrol s e fd ssl complete : in_step None s e ->
  unfinished (log_cut (env_log e)) (client_channel fd (ClientState_new ssl complete)) = [] ->
  in_step None (set_client s fd (ClientState_new ssl complete)) e.
Proof.
  intros [Hh Hc] Hn. split; [done|]. intros fd' c. cbn. destruct (decide (fd' = fd)) as [->|Hne].
  - rewrite lookup_insert_eq. by intros [= <-] _.
  - rewrite lookup_insert_ne by done. apply Hc.
Qed.

(** A new session is no client's. *)
Lemma fresh_session s e ssl hs fd c : owned (H_ssl ssl :: hs ++ all_handles s) e -> ssl <> 0 ->
  srv_clients s !! fd = Some c -> client_channel fd c <> Tls ssl.
Proof.
  intros [_ Hn _] Hz Hc. unfold client_channel. destruct (Z.eqb_spec (cl_ssl c) 0) as [E|E]; [done|]. intros [= Es].
  apply NoDup_cons in Hn as [Hni _]. apply Hni, elem_of_app. right. rewrite (all_handles_delete s fd c Hc).
  unfold client_handles, ssl_handles. cbn. rewrite (proj2 (Z.eqb_neq _ _) E), Es. apply elem_of_cons. right.
  by apply elem_of_cons; left.
Qed.

Lemma deaf_call_wp {B} s c (f : Reply -> IO W B) e Q : deaf c = true -> in_step None s e ->
  (forall r e', called c r e e' -> in_step None s e' -> log_cut (env_log e') = log_cut (env_log e) -> wp (f r) e' Q) ->
  wp (io_bind (call c) f) e Q.
Proof.
  intros Hd Hi Hf. apply wp_call_then. intros r e' Hc. pose proof (called_deaf _ _ _ _ Hc Hd) as Ecut.
  apply Hf; [done| |done]. by eapply in_step_unchanged.
Qed.

Lemma accept_client_in_step s fd e : owned (H_fd fd :: all_handles s) e -> in_step None s e ->
  unfinished (log_cut (env_log e)) (Tcp fd) = [] ->
  wp (accept_client s fd) e (fun r e' => in_step None r.2 e').
Proof.
  intros Ho Hi Hu. pose proof (fresh_client _ _ _ [] Ho) as Hn. unfold accept_client. rewrite Hn.
  eapply deaf_call_wp; [done|exact Hi|]. intros r1 e1 C1 Hi1 E1.
  assert (owned (H_fd fd :: all_handles s) e1) as Ho1 by (by eapply owned_no_acquire).
  destruct (_ <? 0); [eapply deaf_call_wp; [done|exact Hi1|]; intros r2 e2 _ Hi2 _; by apply wp_ret|].
  destruct (srv_sslContext s =? 0); cbn [negb].
  { apply wp_ret. apply in_step_enrol; [done|]. by rewrite E1. }
  eapply wp_acquire; [exact Ho1|apply after_refl|done..|]. intros r3 e3 Ho3 _ C3. cbn in Ho3.
  destruct (Z.eqb_spec (rep_ret r3) 0) as [Ez|Ez].
  { assert (in_step None s e3) as Hi3.
    { eapply in_step_unchanged; [|exact Hi1]. destruct C3 as [_ ->]. rewrite log_cut_app. cbn. unfold cut_step. cbn.
      by rewrite (proj2 (Z.eqb_eq _ _) Ez). }
    eapply deaf_call_wp; [done|exact Hi3|]. intros r4 e4 _ Hi4 _. by apply wp_ret. }
  destruct (in_step_opened s e1 e3 _ _ (Tls (rep_ret r3)) C3) as [Hi3 Hu3].
  { cbn. by rewrite (proj2 (Z.eqb_neq _ _) Ez). }
  { done. }
  { intros fd' c. by apply (fresh_session s e3 _ [H_fd fd]). }
  eapply deaf_call_wp; [done|exact Hi3|]. intros r4 e4 _ Hi4 E4. destruct (negb _).
  - eapply deaf_call_wp; [done|exact Hi4|]. intros r5 e5 _ Hi5 _.
    eapply deaf_call_wp; [done|exact Hi5|]. intros r6 e6 _ Hi6 _. by apply wp_ret.
  - eapply deaf_call_wp; [done|exact Hi4|]. intros r5 e5 _ Hi5 E5. apply wp_ret. apply in_step_enrol; [done|].
    unfold client_channel. cbn. rewrite (proj2 (Z.eqb_neq _ _) Ez). by rewrite E5, E4.
Qed.

Lemma acceptClients_tracked fuel N : forall s e, tracked None N s e -> (patience (env_world e) < fuel)%nat ->
  wp (ExchangeTcpServer_acceptClients fuel s) e (fun r e' => tracked None N r.2 e' /\ grows s r.2).
Proof.
  induction fuel as [|fuel IH]; intros s e [Hs Hi] Hf; [lia|]. cbn [ExchangeTcpServer_acceptClients].
  eapply wp_acquire; [exact (sg_owned _ _ _ _ Hs)|apply after_refl|done..|]. intros r e1 Ho1 A1 C1. cbn in Ho1.
  pose proof (called_retried _ _ _ _ C1) as Hr. cbn [retried] in Hr.
  destruct (Z.leb_spec 0 (rep_ret r)) as [Hpos|Hneg].
  - specialize (Hr eq_refl). apply wp_bind.
    destruct (in_step_opened s e e1 _ _ (Tcp (rep_ret r)) C1) as [Hi1 Hu1]; [|done|..].
    { cbn. by rewrite (proj2 (Z.leb_le _ _) Hpos). }
    { intros fd c Hc. unfold client_channel. destruct (_ =? 0); [|done]. intros [= ->].
      by rewrite (fresh_client _ _ _ [] Ho1) in Hc. }
    destruct (accept_client_in_step s (rep_ret r) e1 Ho1 Hi1 Hu1) as (x & e2 & E2 & Hi2).
    eapply wp_also; [by apply (accept_client_wp N s (rep_ret r) e)|]. intros [ok s2] e2' E [Hs2 G2].
    rewrite E2 in E. injection E as -> ->. cbn [fst snd] in *.
    assert (patience (env_world e2') <= patience (env_world e1))%nat as Hp2.
    { assert (mono (accept_client s (rep_ret r))) as Hm by (unfold accept_client; eauto 20 with hft). by eapply Hm. }
    destruct ok; [|by apply wp_ret].
    eapply wp_mono; [apply IH; [done|lia]|]. intros r3 e3 [Hs3 G3]. split; [done|by eapply grows_trans].
  - assert (tracked None N s e1) as Hs1.
    { split.
      - destruct Hs as [HN Ho Hw Hcl Hl He]. split; [destruct A1; lia|done|by eapply watching_after|done..].
      - eapply in_step_unchanged; [|exact Hi]. destruct C1 as [_ ->]. rewrite log_cut_app. cbn. unfold cut_step. cbn.
        by rewrite (proj2 (Z.leb_gt _ _) Hneg). }
    assert (grows s s) as G by done.
    destruct ((rep_errno r =? EAGAIN) || _); [by apply wp_ret|].
    destruct (Z.eqb_spec (rep_errno r) EINTR); [|by apply wp_ret].
    apply IH; [done|]. specialize (Hr eq_refl). lia.
Qed.

(** *** Polling *)

Lemma poll_events_tracked fuel N events : forall s e, tracked None N s e -> NoDup (ev_fd <$> events) ->
  Forall (fun ev => ev_fd ev = srv_listenFd s \/ is_Some (srv_clients s !! ev_fd ev)) events ->
  (AcceptedSize + N < fuel)%nat ->
  wp (poll_events fuel s events) e (fun r e' => tracked None N r.2 e').
Proof.
  induction events as [|ev events IH]; intros s e Hs Hn HF Hf; cbn [poll_events]; [by apply wp_ret|].
  apply NoDup_cons in Hn as [Hni Hn]. apply Forall_cons in HF as [Hev HF].
  assert (forall s' e', tracked None N s' e' -> srv_listenFd s' = srv_listenFd s ->
    (forall fd, fd <> ev_fd ev -> is_Some (srv_clients s !! fd) -> is_Some (srv_clients s' !! fd)) ->
    wp (poll_events fuel s' events) e' (fun r e'' => tracked None N r.2 e'')) as Hrest.
  { intros s' e' Hs' El Hk. apply IH; [done..| |done]. apply Forall_forall. intros ev' Hin.
    eapply Forall_forall in HF; [|exact Hin]. destruct HF as [HF|HF]; [left; congruence|right].
    apply Hk; [|done]. intros E. apply Hni. rewrite <- E. by apply list_elem_of_fmap_2. }
  destruct (Z.eqb_spec (ev_fd ev) (srv_listenFd s)) as [El|El].
  - apply wp_bind. eapply wp_mono; [apply (acceptClients_tracked _ N); [done|]|].
    { pose proof (sg_patience _ _ _ _ (proj1 Hs)). lia. }
    intros [ok s1] e1 [Hs1 [El1 G1]]. cbn in *. destruct ok; [|by apply wp_ret].
    apply Hrest; [done..|]. intros fd _. apply G1.
  - destruct Hev as [Hev|Hev]; [done|]. apply wp_bind. eapply wp_mono; [by apply (client_event_tracked _ N)|].
    intros s1 e1 [Hs1 [El1 T1]]. apply Hrest; [done..|]. intros fd Hne. by rewrite T1.
Qed.

Lemma pollOnce_tracked fuel N s e timeout : tracked None N s e -> (AcceptedSize + N < fuel)%nat ->
  wp (ExchangeTcpServer_pollOnce fuel s timeout) e (fun r e' => tracked None N r.2 e').
Proof.
  intros [Hs Hi] Hf. unfold ExchangeTcpServer_pollOnce.
  pose proof (sg_epoll _ _ _ _ Hs) as He. rewrite (proj2 (Z.ltb_ge _ _) He).
  eapply deaf_call_wp; [done|exact Hi|]. intros r e1 C1 Hi1 _.
  assert (calm e e1) as Hcalm by (by eapply called_calm).
  assert (tracked None N s e1) as Hs1.
  { split; [|done]. destruct Hs as [HN Ho Hw Hcl Hl _].
    split; [destruct Hcalm; lia|by eapply owned_calm|by eapply watching_after, calm_after|done..]. }
  destruct (_ <? 0); [by apply wp_ret|].
  pose proof (watched_events (env_world e) (srv_epollFd s) MaxEvents timeout) as [Hn Hw].
  rewrite (proj1 C1) in Hn, Hw. cbn [fst] in Hn, Hw.
  apply (poll_events_tracked _ N); [done| | |done].
  - rewrite fmap_take. by eapply sublist_NoDup, sublist_take.
  - apply Forall_take. eapply Forall_impl; [exact Hw|]. intros ev. apply (sg_watching _ _ _ _ Hs).
Qed.

(** *** Starting and stopping *)

Lemma stop_clients_solely ch entries : solely_io (W := W) ch (stop_clients entries).
Proof. induction entries as [|[fd c] entries IH]; cbn [stop_clients]; unfold free_ssl; eauto 20 with hft. Qed.

Lemma stop_solely ch s : solely_io (W := W) ch (ExchangeTcpServer_stop s).
Proof. pose proof (stop_clients_solely ch). unfold ExchangeTcpServer_stop. eauto 20 with hft. Qed.

Lemma stop_false_solely ch s : solely_io (W := W) ch (stop_false s).
Proof. pose proof (stop_solely ch). unfold stop_false. eauto with hft. Qed.

Lemma initializeTls_solely ch s : solely_io (W := W) ch (ExchangeTcpServer_initializeTls s).
Proof. unfold ExchangeTcpServer_initializeTls. eauto 20 with hft. Qed.

Lemma setNonBlocking_solely ch fd : solely_io (W := W) ch (ExchangeTcpServer_setNonBlocking fd).
Proof. unfold ExchangeTcpServer_setNonBlocking. eauto 20 with hft. Qed.

Lemma start_listening_solely ch s : solely_io (W := W) ch (start_listening s).
Proof.
  pose proof (stop_false_solely ch). unfold start_listening.
  repeat (apply solely_bind; [by apply solely_call|intros ?]; apply solely_if; [done|]). apply solely_ret.
Qed.

Lemma start_solely ch s : solely_io (W := W) ch (ExchangeTcpServer_start s).
Proof.
  pose proof (stop_false_solely ch). pose proof (start_listening_solely ch). unfold ExchangeTcpServer_start.
  apply solely_bind; [apply initializeTls_solely|]. intros [tls s1]. apply solely_if; [done|].
  apply solely_bind; [by apply solely_call|]. intros fd. apply solely_if; [apply solely_ret|].
  apply solely_bind; [by apply solely_call|]. intros _.
  apply solely_bind; [apply setNonBlocking_solely|]. intros nonblocking. apply solely_if; [done|].
  apply solely_bind; [by apply solely_call|]. intros bound. apply solely_if; [done|]. apply solely_if; [|done].
  apply solely_bind; [by apply solely_call|]. intros name. by apply solely_if.
Qed.

(** Splits a run into its calls. *)
Ltac split_run :=
  repeat match goal with
  | E : io_bind _ _ _ = Some _ |- _ => apply io_bind_Some in E as (? & ? & ? & E)
  | E : (if ?b then _ else _) _ = Some _ |- _ => destruct b
  | E : (let '(_, _) := ?x in _) _ = Some _ |- _ => destruct x
  | E : io_ret _ _ = Some _ |- _ => unfold io_ret in E
  end; simplify_eq/=.

Lemma stop_handler s e s' e' : ExchangeTcpServer_stop s e = Some (s', e') -> srv_handler s' = srv_handler s.
Proof. unfold ExchangeTcpServer_stop. intros E. split_run; reflexivity. Qed.

Lemma stop_false_handler s e r e' : stop_false s e = Some (r, e') -> srv_handler r.2 = srv_handler s.
Proof. unfold stop_false. intros (s1 & e1 & E1%stop_handler & [= <- _])%io_bind_Some. exact E1. Qed.

Lemma start_listening_handler s e r e' : start_listening s e = Some (r, e') -> srv_handler r.2 = srv_handler s.
Proof. unfold start_listening. intros E. split_run; by eauto using eq_trans, stop_false_handler. Qed.

Lemma initializeTls_handler s e r e' : ExchangeTcpServer_initializeTls s e = Some (r, e') -> srv_handler r.2 = srv_handler s.
Proof. unfold ExchangeTcpServer_initializeTls. intros E. split_run; reflexivity. Qed.

Lemma start_handler s e r e' : ExchangeTcpServer_start s e = Some (r, e') -> srv_handler r.2 = srv_handler s.
Proof.
  unfold ExchangeTcpServer_start. intros ([tls s1] & e1 & E1%initializeTls_handler & E)%io_bind_Some.
  cbn in E1. rewrite <- E1. split_run; first [reflexivity|by apply stop_false_handler in E|by apply start_listening_handler in E].
Qed.

Lemma start_tracked N s e : server_idle s -> owned [] e -> (patience (env_world e) <= N)%nat -> in_step None s e ->
  wp (ExchangeTcpServer_start s) e (fun r e' => started N r e' /\ in_step None r.2 e').
Proof.
  intros Hi Ho HN [Hh _]. eapply wp_also; [by apply (start_wp N)|]. intros r e' E Hs. split; [done|].
  destruct Hs as (_ & Hc & _). split.
  - rewrite (start_handler _ _ _ _ E), Hh. unfold log_frames. f_equal. symmetry. eapply deaf_unchanged, E.
    intros ch. apply start_solely.
  - rewrite Hc. intros fd c Hf. by rewrite lookup_empty in Hf.
Qed.

Lemma stop_tracked s e : owned (all_handles s) e -> srv_handler s = log_frames (env_log e) ->
  wp (ExchangeTcpServer_stop s) e (fun s' e' =>
    owned [] e' /\ server_idle s' /\ srv_handler s' = log_frames (env_log e')).
Proof.
  intros Ho Hh. eapply wp_also; [by apply stop_wp|]. intros s' e' E [Ho' Hi]. split_and!; [done..|].
  rewrite (stop_handler _ _ _ _ E), Hh. unfold log_frames. f_equal. symmetry. eapply deaf_unchanged, E.
  intros ch. apply stop_solely.
Qed.

End tracked.

(** ** The server reaches the world through calls only *)

Ltac walk_calls :=
  cbv zeta;
  lazymatch goal with
  | |- by_calls (io_ret _) => apply by_calls_ret
  | |- by_calls io_fail => apply by_calls_fail
  | |- by_calls (call _) => apply by_calls_call
  | |- by_calls (io_bind _ _) => apply by_calls_bind; [|intros ?]
  | |- by_calls (match ?x with _ => _ end) => destruct x
  end.

Section server_calls.
Context {W : Type} `{!World W} {H : Type} `{!OuchHandler H}.
Implicit Types s : ExchangeTcpServer H.

Lemma free_ssl_by_calls ssl : by_calls (W := W) (free_ssl ssl).
Proof. unfold free_ssl. repeat walk_calls. Qed.

Lemma stop_by_calls s : by_calls (W := W) (ExchangeTcpServer_stop s).
Proof.
  assert (forall entries, by_calls (W := W) (stop_clients entries)) as Hc.
  { induction entries as [|[fd c] entries IH]; cbn [stop_clients]; repeat (walk_calls || apply free_ssl_by_calls).
    exact IH. }
  unfold ExchangeTcpServer_stop. apply by_calls_bind; [apply Hc|intros _]. repeat walk_calls.
Qed.

Lemma start_by_calls s : by_calls (W := W) (ExchangeTcpServer_start s).
Proof.
  unfold ExchangeTcpServer_start, start_listening, ExchangeTcpServer_initializeTls, ExchangeTcpServer_setNonBlocking, stop_false.
  repeat (walk_calls || apply stop_by_calls).
Qed.

Lemma closeClient_by_calls s fd : by_calls (W := W) (ExchangeTcpServer_closeClient s fd).
Proof. unfold ExchangeTcpServer_closeClient. repeat (walk_calls || apply free_ssl_by_calls). Qed.

Lemma client_event_by_calls fuel s fd events : by_calls (W := W) (client_event fuel s fd events).
Proof.
  unfold client_event, ExchangeTcpServer_progressTlsHandshake, ExchangeTcpServer_updateClientEvents,
    ExchangeTcpServer_handleClientReadable.
  repeat (walk_calls || apply closeClient_by_calls || apply flush_by_calls || apply readable_loop_by_calls).
Qed.

Lemma acceptClients_by_calls fuel : forall s, by_calls (W := W) (ExchangeTcpServer_acceptClients fuel s).
Proof.
  induction fuel as [|fuel IH]; intros s; cbn [ExchangeTcpServer_acceptClients]; unfold accept_client;
    repeat (walk_calls || apply IH).
Qed.

Lemma pollOnce_by_calls fuel s timeout : by_calls (W := W) (ExchangeTcpServer_pollOnce fuel s timeout).
Proof.
  assert (forall events s, by_calls (W := W) (poll_events fuel s events)) as Hp.
  { induction events as [|ev events IH]; intros s1; cbn [poll_events];
      repeat (walk_calls || apply acceptClients_by_calls || apply client_event_by_calls || apply IH). }
  unfold ExchangeTcpServer_pollOnce. repeat (walk_calls || apply Hp).
Qed.

End server_calls.
