(* ===== verification/Packets.v ===== *)
(** * Packet headers

    [dpdk/parser/ethernet], [dpdk/parser/ipv4] and [dpdk/parser/udp].

    The parsers cast a pointer into the packet to a header and read its fields.  A
    pointer is an offset into the memory of the packet, [None] is [nullptr]; reading
    outside the memory is undefined ([None] of the result).  A field of several bytes
    is loaded in the native byte order, which [little] gives, and passed through
    [fromBigEndian]. *)

From Stdlib Require Import String.
From S2P Require Import Prelude Wire.

(** ** Packed structures

    The fields of a structure with their sizes, in order, without padding. *)

Abbreviation layout := (list (string * nat)) (only parsing).

Definition sizeof (l : layout) : Z := Z.of_nat (foldr (fun f n => (f.2 + n)%nat) O l).

(** The offset and the size of a field. *)
Fixpoint offset_of (field : string) (l : layout) : nat :=
  match l with
  | [] => O
  | (name, size) :: l => if String.eqb name field then O else (size + offset_of field l)%nat
  end.

Fixpoint size_of (field : string) (l : layout) : nat :=
  match l with
  | [] => O
  | (name, size) :: l => if String.eqb name field then size else size_of field l
  end.

(** The numbers, computed from the layout. *)
Abbreviation OFFSET l f := (ltac:(let v := eval cbv in (offset_of f%string l) in exact v)) (only parsing).
Abbreviation SIZE l f := (ltac:(let v := eval cbv in (size_of f%string l) in exact v)) (only parsing).
Abbreviation SIZEOF l := (ltac:(let v := eval cbv in (sizeof l) in exact v)) (only parsing).

Definition EthernetHeader : layout :=
  [("destination", 6%nat); ("source", 6%nat); ("ether_type", 2%nat)]%string.

Definition IPv4Header : layout :=
  [("version_ihl", 1%nat); ("dscp_ecn", 1%nat); ("total_length", 2%nat); ("identification", 2%nat);
   ("flags_fragment_offset", 2%nat); ("ttl", 1%nat); ("protocol", 1%nat); ("header_checksum", 2%nat);
   ("source_address", 4%nat); ("destination_address", 4%nat)]%string.

Definition UDPHeader : layout :=
  [("source_port", 2%nat); ("destination_port", 2%nat); ("length", 2%nat); ("checksum", 2%nat)]%string.

(** ** Loads in the native order *)

Section loads.
Variable little : bool.
Variable mem : bytes.

(** Loading an integer of [n] bytes at [off]. *)
Definition load (off n : nat) : option Z := bs ← rd_n mem off n; Some (native_value little bs).

(** [fromBigEndian(header->field)] *)
Definition load_big (off n : nat) : option Z := v ← load off n; Some (fromBigEndian little n v).

End loads.

(** Swapping the bytes of a little-endian load gives the value in network order. *)
Lemma byteswap_little bs : all_bytes bs -> byteswap (length bs) (little_value bs) = big_value bs.
Proof.
  induction 1 as [|b bs Hb Hbs IH]; [done|]. cbn [byteswap little_value length].
  rewrite big_value_cons, land_255, Z.shiftr_div_pow2 by lia. change (2 ^ 8) with 256.
  unfold is_byte, is_uint in Hb. change (2 ^ 8) with 256 in Hb.
  replace ((b + 256 * little_value bs) mod 256) with b by zdm.
  replace ((b + 256 * little_value bs) / 256) with (little_value bs) by zdm.
  rewrite IH. apply lor_shiftl_add; [lia|]. by apply big_value_range.
Qed.

(** Whatever the byte order of the host, a field inside the memory is the value of its
    bytes in network order. *)
Lemma load_big_spec little mem off n :
  all_bytes mem -> (off + n <= length mem)%nat -> load_big little mem off n = Some (be mem off n).
Proof.
  intros Ha Hin. unfold load_big, load, rd_n, be. rewrite bool_decide_true by done.
  cbn [mbind option_bind]. f_equal. unfold fromBigEndian, native_value. destruct little; [|done].
  rewrite <- byteswap_little by (by apply all_bytes_slice). f_equal.
  rewrite length_take, length_drop. lia.
Qed.

Lemma load_big_outside little mem off n :
  (length mem < off + n)%nat -> load_big little mem off n = None.
Proof. intros H. unfold load_big, load, rd_n. rewrite bool_decide_false by lia. done. Qed.

(** ** Ethernet *)

Definition sizeof_EthernetHeader : Z := SIZEOF EthernetHeader.
Definition sizeof_IPv4Header : Z := SIZEOF IPv4Header.
Definition sizeof_UDPHeader : Z := SIZEOF UDPHeader.

Section headers.
Variable little : bool.
Variable mem : bytes.

(** [parse(std::span)] *)
Definition EthernetParser_parse_span (data : option nat) (size : Z) : option nat :=
  if size <? sizeof_EthernetHeader then None else data.

Definition EthernetParser_parse (data : option nat) (length : Z) : option nat :=
  match data with
  | None => None
  | Some _ => EthernetParser_parse_span data length
  end.

Definition EthernetParser_etherType (header : option nat) : option Z :=
  match header with
  | None => Some 0
  | Some h => load_big little mem (h + OFFSET EthernetHeader "ether_type") (SIZE EthernetHeader "ether_type")
  end.

Definition EthernetParser_payload (header : option nat) : option nat :=
  match header with
  | None => None
  | Some h => Some (h + 14)%nat
  end.

(** ** IPv4 *)

Definition IPv4Parser_version (header : option nat) : option Z :=
  match header with
  | None => Some 0
  | Some h => version_ihl ← rd mem h; Some (u8 (Z.shiftr version_ihl 4))
  end.

Definition IPv4Parser_headerLengthBytes (header : option nat) : option Z :=
  match header with
  | None => Some 0
  | Some h =>
      version_ihl ← rd mem h;
      let ihl := u8 (Z.land version_ihl 15) in
      Some (u8 (ihl * 4))
  end.

Definition IPv4Parser_parse_span (data : option nat) (size : Z) : option (option nat) :=
  if size <? sizeof_IPv4Header then Some None
  else
    let header := data in
    version ← IPv4Parser_version header;
    if negb (version =? 4) then Some None
    else
      headerLength ← IPv4Parser_headerLengthBytes header;
      if headerLength <? sizeof_IPv4Header then Some None
      else if size <? headerLength then Some None
      else Some header.

Definition IPv4Parser_parse (data : option nat) (length : Z) : option (option nat) :=
  match data with
  | None => Some None
  | Some _ => IPv4Parser_parse_span data length
  end.

Definition IPv4Parser_totalLength (header : option nat) : option Z :=
  match header with
  | None => Some 0
  | Some h => load_big little mem (h + OFFSET IPv4Header "total_length") (SIZE IPv4Header "total_length")
  end.

(** [header->protocol] *)
Definition IPv4Header_protocol (header : option nat) : option Z :=
  h ← header; rd mem (h + OFFSET IPv4Header "protocol").

Definition IPv4Parser_payload (header : option nat) : option (option nat) :=
  match header with
  | None => Some None
  | Some h => n ← IPv4Parser_headerLengthBytes header; Some (Some (h + Z.to_nat n)%nat)
  end.

Definition IPv4Parser_payloadLength (header : option nat) : option Z :=
  match header with
  | None => Some 0
  | Some _ =>
      totalLengthValue ← IPv4Parser_totalLength header;
      headerLength ← IPv4Parser_headerLengthBytes header;
      if totalLengthValue <? headerLength then Some 0
      else Some (totalLengthValue - headerLength)
  end.

(** ** UDP *)

Definition UDPParser_parse_span (data : option nat) (size : Z) : option nat :=
  if size <? sizeof_UDPHeader then None else data.

Definition UDPParser_parse (data : option nat) (length : Z) : option nat :=
  match data with
  | None => None
  | Some _ => UDPParser_parse_span data length
  end.

Definition UDPParser_sourcePort (header : option nat) : option Z :=
  match header with
  | None => Some 0
  | Some h => load_big little mem h 2
  end.

Definition UDPParser_destinationPort (header : option nat) : option Z :=
  match header with
  | None => Some 0
  | Some h => load_big little mem (h + OFFSET UDPHeader "destination_port") (SIZE UDPHeader "destination_port")
  end.

Definition UDPParser_payloadLength (header : option nat) : option Z :=
  match header with
  | None => Some 0
  | Some h =>
      udpLength ← load_big little mem (h + OFFSET UDPHeader "length") (SIZE UDPHeader "length");
      if udpLength <? sizeof_UDPHeader then Some 0
      else Some (u16 (udpLength - sizeof_UDPHeader))
  end.

Definition UDPParser_payload (header : option nat) : option nat :=
  match header with
  | None => None
  | Some h => Some (h + 8)%nat
  end.

End headers.

(** ** Headers inside the memory *)

(** The two nibbles of the first byte of an IPv4 header. *)
Definition ip_version (mem : bytes) (off : nat) : Z := be mem off 1 / 16.
Definition ip_ihl (mem : bytes) (off : nat) : Z := be mem off 1 mod 16.

(** What [IPv4Parser::parse] demands of [len] bytes at [off]. *)
Definition ipv4_ok (mem : bytes) (off : nat) (len : Z) : Prop :=
  20 <= len /\ ip_version mem off = 4 /\ 5 <= ip_ihl mem off /\ 4 * ip_ihl mem off <= len.

#[global] Instance ipv4_ok_dec mem off len : Decision (ipv4_ok mem off len).
Proof. unfold ipv4_ok. apply _. Defined.

Section inside.
Context (little : bool) (mem : bytes) (Hbytes : all_bytes mem).

Lemma version_ihl_bytes off : (off < length mem)%nat ->
  IPv4Parser_version mem (Some off) = Some (ip_version mem off) /\
  IPv4Parser_headerLengthBytes mem (Some off) = Some (4 * ip_ihl mem off) /\
  0 <= ip_ihl mem off < 16.
Proof.
  intros H. unfold IPv4Parser_version, IPv4Parser_headerLengthBytes. rewrite rd_be by done.
  cbn [mbind option_bind]. pose proof (be_range mem off 1 8 Hbytes ltac:(lia) eq_refl) as Hb.
  unfold is_uint in Hb. change (2 ^ 8) with 256 in Hb. unfold ip_version, ip_ihl.
  rewrite Z.shiftr_div_pow2 by lia. change (2 ^ 4) with 16. change 15 with (Z.ones 4).
  rewrite Z.land_ones by lia. change (2 ^ 4) with 16.
  rewrite (wrap_small 8 (be mem off 1 / 16)), (wrap_small 8 (be mem off 1 mod 16)) by zdm.
  rewrite wrap_small by zdm. split; [done|]. split; [f_equal; lia|zdm].
Qed.

Lemma ipv4_parse_spec off len :
  (off + Z.to_nat len <= length mem)%nat ->
  IPv4Parser_parse mem (Some off) len = Some (if decide (ipv4_ok mem off len) then Some off else None).
Proof.
  intros Hin. unfold IPv4Parser_parse, IPv4Parser_parse_span, sizeof_IPv4Header.
  destruct (decide (ipv4_ok mem off len)) as [Hok|Hok]; unfold ipv4_ok in Hok;
    (destruct (Z.ltb_spec len 20); [done || lia|]);
    (destruct (version_ihl_bytes off) as (-> & -> & Hr); [lia|]); cbn [mbind option_bind];
    (destruct (Z.eqb_spec (ip_version mem off) 4); cbn [negb]; [|done || lia]);
    do 2 (bcase; [done || lia|]); done || lia.
Qed.

Lemma ipv4_payload_spec off :
  (off + 4 <= length mem)%nat ->
  IPv4Parser_payload mem (Some off) = Some (Some (off + Z.to_nat (4 * ip_ihl mem off))%nat) /\
  IPv4Parser_totalLength little mem (Some off) = Some (be mem (off + 2) 2) /\
  IPv4Parser_payloadLength little mem (Some off) =
    Some (Z.max 0 (be mem (off + 2) 2 - 4 * ip_ihl mem off)).
Proof.
  intros Hin. unfold IPv4Parser_payload, IPv4Parser_payloadLength, IPv4Parser_totalLength.
  destruct (version_ihl_bytes off) as (_ & -> & Hr); [lia|].
  rewrite load_big_spec by (done || lia). cbn [mbind option_bind]. split; [done|]. split; [done|].
  bcase; f_equal; lia.
Qed.

Lemma udp_fields_spec off :
  (off + 8 <= length mem)%nat ->
  UDPParser_sourcePort little mem (Some off) = Some (be mem off 2) /\
  UDPParser_destinationPort little mem (Some off) = Some (be mem (off + 2) 2) /\
  UDPParser_payloadLength little mem (Some off) = Some (Z.max 0 (be mem (off + 4) 2 - 8)).
Proof.
  intros Hin. unfold UDPParser_sourcePort, UDPParser_destinationPort, UDPParser_payloadLength.
  rewrite !load_big_spec by (done || lia). cbn [mbind option_bind]. split; [done|]. split; [done|].
  pose proof (be_range mem (off + 4) 2 16 Hbytes ltac:(lia) eq_refl) as Hb. unfold is_uint in Hb.
  unfold sizeof_UDPHeader. bcase; f_equal; [lia|]. rewrite wrap_small; lia.
Qed.

End inside.

(** ** Properties *)

(** C31: The packet parsers read network-order fields inside the packet, on hosts of
    either byte order.  For a view of [len] bytes inside the memory: Ethernet and UDP
    headers are returned exactly when they fit; an IPv4 header is returned exactly when
    20 bytes and the header length it announces fit and the version is 4, its payload
    then starts inside the view; and every field read is the value of its bytes in
    network order, the payload lengths being the announced lengths less the headers,
    never negative. *)
Theorem packet_parsers_read_network_order :
  forall (little : bool) (mem : bytes) (off : nat) (len : Z),
  all_bytes mem -> 0 <= len -> (off + Z.to_nat len <= length mem)%nat ->
  (EthernetParser_parse (Some off) len = (if decide (14 <= len) then Some off else None) /\
   (14 <= len -> EthernetParser_etherType little mem (Some off) = Some (be mem (off + 12) 2))) /\
  (IPv4Parser_parse mem (Some off) len = Some (if decide (ipv4_ok mem off len) then Some off else None) /\
   (ipv4_ok mem off len ->
      exists p, IPv4Parser_payload mem (Some off) = Some (Some p) /\
        (off + 20 <= p <= off + Z.to_nat len)%nat /\
        IPv4Parser_payloadLength little mem (Some off) =
          Some (Z.max 0 (be mem (off + 2) 2 - Z.of_nat (p - off))))) /\
  (UDPParser_parse (Some off) len = (if decide (8 <= len) then Some off else None) /\
   (8 <= len ->
      UDPParser_sourcePort little mem (Some off) = Some (be mem off 2) /\
      UDPParser_destinationPort little mem (Some off) = Some (be mem (off + 2) 2) /\
      UDPParser_payloadLength little mem (Some off) = Some (Z.max 0 (be mem (off + 4) 2 - 8)))).
Proof.
  intros little mem off len Hb Hl Hin. split; [|split].
  - unfold EthernetParser_parse, EthernetParser_parse_span, sizeof_EthernetHeader. split.
    + bcase; case_decide; done || lia.
    + intros H. apply load_big_spec; [done|lia].
  - split; [by apply ipv4_parse_spec|]. intros (H20 & _ & H5 & Hfit).
    destruct (ipv4_payload_spec little mem Hb off) as (Ep & _ & El); [lia|].
    eexists. split; [exact Ep|]. split; [lia|]. rewrite El. do 2 f_equal. lia.
  - split; [|intros H; apply udp_fields_spec; [done|lia]].
    unfold UDPParser_parse, UDPParser_parse_span, sizeof_UDPHeader. bcase; case_decide; done || lia.
Qed.

(** An IPv4 header without options that announces 28 bytes. *)
Definition demo_ip_header : bytes :=
  [69; 0; 0; 28; 0; 0; 0; 0; 64; 17; 0; 0; 10; 0; 0; 1; 10; 0; 0; 2].

Lemma packet_parsers_witness :
  IPv4Parser_payloadLength true demo_ip_header (Some 0%nat) = Some 8 /\
  exists p, IPv4Parser_payload demo_ip_header (Some 0%nat) = Some (Some p) /\
    (0 + 20 <= p <= 0 + Z.to_nat 20)%nat /\
    IPv4Parser_payloadLength false demo_ip_header (Some 0%nat) =
      Some (Z.max 0 (be demo_ip_header (0 + 2) 2 - Z.of_nat (p - 0))).
Proof.
  split; [reflexivity|].
  apply (packet_parsers_read_network_order false demo_ip_header 0 20);
    [repeat constructor; done|done|cbn; lia|].
  vm_compute. repeat split; discriminate.
Defined.
