(* ===== verification/Itch.v ===== *)
(** * ITCH messages

    [dpdk/parser/itch], its [messages] and [mapper] directories, and
    [market_data/replay/itch_replay_dispatcher.{hpp,cpp}].

    As in [Packets], a message pointer is an offset into memory and a load outside the
    memory is undefined.  The wire structures are packed: the offsets of their fields
    are the ones in the comments of the headers.  The dispatcher turns a message into a
    [MarketDataEvent] and submits it to an event sink, an instance of the class
    [MarketDataEventSink]. *)

From Stdlib Require Import String.
From S2P Require Import Prelude Types Consumer SpscRing Pipeline Wire Ouch.
From S2P Require Import Packets.

(** [pipeline/market_data_event_sink.hpp]. *)
Class MarketDataEventSink (S : Type) : Type := event_submit : S -> MarketDataEvent -> bool * S.

(** The pipeline is the sink of the runtimes. *)
#[global] Instance pipeline_sink {E} `{!EventConsumer E} : MarketDataEventSink (MarketDataPipeline (E := E)) :=
  MarketDataPipeline_submit.

(** ** Tags and sizes *)

Definition char_D : Z := 68.
Definition char_U : Z := 85.
Definition char_X : Z := 88.

Definition ITCHHeader : layout := [("message_type", 1%nat)]%string.

Definition AddOrderWireMessage : layout :=
  [("message_type", 1%nat); ("stock_locate", 2%nat); ("tracking_number", 2%nat); ("timestamp", 6%nat);
   ("order_reference_number", 8%nat); ("buy_sell_indicator", 1%nat); ("shares", 4%nat); ("stock", 8%nat);
   ("price", 4%nat)]%string.

Definition OrderCancelWireMessage : layout :=
  [("message_type", 1%nat); ("stock_locate", 2%nat); ("tracking_number", 2%nat); ("timestamp", 6%nat);
   ("order_reference_number", 8%nat); ("cancelled_shares", 4%nat)]%string.

Definition OrderDeleteWireMessage : layout :=
  [("message_type", 1%nat); ("stock_locate", 2%nat); ("tracking_number", 2%nat); ("timestamp", 6%nat);
   ("order_reference_number", 8%nat)]%string.

Definition OrderExecutedWireMessage : layout :=
  [("message_type", 1%nat); ("stock_locate", 2%nat); ("tracking_number", 2%nat); ("timestamp", 6%nat);
   ("order_reference_number", 8%nat); ("executed_shares", 4%nat); ("match_number", 8%nat)]%string.

Definition OrderReplaceWireMessage : layout :=
  [("message_type", 1%nat); ("stock_locate", 2%nat); ("tracking_number", 2%nat); ("timestamp", 6%nat);
   ("original_order_reference", 8%nat); ("new_order_reference", 8%nat); ("shares", 4%nat);
   ("price", 4%nat)]%string.

Definition sizeof_ITCHHeader : Z := SIZEOF ITCHHeader.
Definition sizeof_AddOrderWireMessage : Z := SIZEOF AddOrderWireMessage.
Definition sizeof_OrderCancelWireMessage : Z := SIZEOF OrderCancelWireMessage.
Definition sizeof_OrderDeleteWireMessage : Z := SIZEOF OrderDeleteWireMessage.
Definition sizeof_OrderExecutedWireMessage : Z := SIZEOF OrderExecutedWireMessage.
Definition sizeof_OrderReplaceWireMessage : Z := SIZEOF OrderReplaceWireMessage.

(** ** Messages of the program *)

(** [models/add_order.hpp] *)
Record ItchAddOrder : Type := mkAddOrder {
  ao_stockLocate : Z;
  ao_trackingNumber : Z;
  ao_orderReferenceNumber : Z;
  ao_isBuy : bool;
  ao_shares : Z;
  ao_symbol : Symbol;
  ao_price : Z
}.

Record OrderCancel : Type := mkOrderCancel {
  oc_orderReferenceNumber : Z;
  oc_cancelledShares : Z
}.

Record OrderDelete : Type := mkOrderDelete {
  od_orderReferenceNumber : Z
}.

Record OrderExecuted : Type := mkOrderExecuted {
  oe_orderReferenceNumber : Z;
  oe_executedShares : Z;
  oe_matchNumber : Z
}.

Record OrderReplace : Type := mkOrderReplace {
  or_originalOrderReferenceNumber : Z;
  or_newOrderReferenceNumber : Z;
  or_shares : Z;
  or_price : Z
}.

Section itch.
Variable little : bool.
Variable mem : bytes.

(** ** [ITCHParser] *)

Definition ITCHParser_parse (data : option nat) (length : Z) : option nat :=
  match data with
  | None => None
  | Some _ => if length <? sizeof_ITCHHeader then None else data
  end.

(** Dereferences its argument without a check. *)
Definition ITCHParser_messageType (header : option nat) : option Z := h ← header; rd mem h.

Definition ITCHParser_isAddOrder (header : option nat) : option bool :=
  match header with
  | None => Some false
  | Some h => c ← rd mem h; Some (c =? char_A)
  end.

Definition ITCHParser_payload (header : option nat) : option nat :=
  match header with
  | None => None
  | Some h => Some (h + 1)%nat
  end.

(** ** Message parsers *)

(** The check the five [parse] functions share: a pointer and enough bytes. *)
Definition wire_parse (size : Z) (data : option nat) (length : Z) : option nat :=
  match data with
  | None => None
  | Some _ => if length <? size then None else data
  end.

(** [message ? fromBigEndian(message->field) : 0] *)
Definition wire_field (off n : nat) (message : option nat) : option Z :=
  match message with
  | None => Some 0
  | Some m => load_big little mem (m + off) n
  end.

(** [message ? message->field : '\0'] *)
Definition wire_char (off : nat) (message : option nat) : option Z :=
  match message with
  | None => Some 0
  | Some m => rd mem (m + off)
  end.

Definition AddOrderParser_parse : option nat -> Z -> option nat := wire_parse sizeof_AddOrderWireMessage.
Definition AddOrderParser_messageType : option nat -> option Z := wire_char (OFFSET AddOrderWireMessage "message_type").
Definition AddOrderParser_stockLocate : option nat -> option Z :=
  wire_field (OFFSET AddOrderWireMessage "stock_locate") (SIZE AddOrderWireMessage "stock_locate").
Definition AddOrderParser_trackingNumber : option nat -> option Z :=
  wire_field (OFFSET AddOrderWireMessage "tracking_number") (SIZE AddOrderWireMessage "tracking_number").
Definition AddOrderParser_orderReferenceNumber : option nat -> option Z :=
  wire_field (OFFSET AddOrderWireMessage "order_reference_number") (SIZE AddOrderWireMessage "order_reference_number").
Definition AddOrderParser_buySellIndicator : option nat -> option Z := wire_char (OFFSET AddOrderWireMessage "buy_sell_indicator").
Definition AddOrderParser_shares : option nat -> option Z :=
  wire_field (OFFSET AddOrderWireMessage "shares") (SIZE AddOrderWireMessage "shares").
Definition AddOrderParser_price : option nat -> option Z :=
  wire_field (OFFSET AddOrderWireMessage "price") (SIZE AddOrderWireMessage "price").

(** The loop that copies the eight characters. *)
Definition AddOrderParser_stock (message : option nat) : option Symbol :=
  match message with
  | None => Some (replicate 8 0)
  | Some m => mapM (fun index => rd mem (m + OFFSET AddOrderWireMessage "stock" + index)) (seq 0 8)
  end.

(** The characters in place. *)
Definition AddOrderParser_stockView (message : option nat) : option bytes :=
  match message with
  | None => Some []
  | Some m => rd_n mem (m + OFFSET AddOrderWireMessage "stock") (SIZE AddOrderWireMessage "stock")
  end.

Definition OrderCancelParser_parse : option nat -> Z -> option nat := wire_parse sizeof_OrderCancelWireMessage.
Definition OrderCancelParser_orderReferenceNumber : option nat -> option Z :=
  wire_field (OFFSET OrderCancelWireMessage "order_reference_number") (SIZE OrderCancelWireMessage "order_reference_number").
Definition OrderCancelParser_cancelledShares : option nat -> option Z :=
  wire_field (OFFSET OrderCancelWireMessage "cancelled_shares") (SIZE OrderCancelWireMessage "cancelled_shares").

Definition OrderDeleteParser_parse : option nat -> Z -> option nat := wire_parse sizeof_OrderDeleteWireMessage.
Definition OrderDeleteParser_orderReferenceNumber : option nat -> option Z :=
  wire_field (OFFSET OrderDeleteWireMessage "order_reference_number") (SIZE OrderDeleteWireMessage "order_reference_number").

Definition OrderExecutedParser_parse : option nat -> Z -> option nat := wire_parse sizeof_OrderExecutedWireMessage.
Definition OrderExecutedParser_orderReferenceNumber : option nat -> option Z :=
  wire_field (OFFSET OrderExecutedWireMessage "order_reference_number") (SIZE OrderExecutedWireMessage "order_reference_number").
Definition OrderExecutedParser_executedShares : option nat -> option Z :=
  wire_field (OFFSET OrderExecutedWireMessage "executed_shares") (SIZE OrderExecutedWireMessage "executed_shares").
Definition OrderExecutedParser_matchNumber : option nat -> option Z :=
  wire_field (OFFSET OrderExecutedWireMessage "match_number") (SIZE OrderExecutedWireMessage "match_number").

Definition OrderReplaceParser_parse : option nat -> Z -> option nat := wire_parse sizeof_OrderReplaceWireMessage.
Definition OrderReplaceParser_originalOrderReferenceNumber : option nat -> option Z :=
  wire_field (OFFSET OrderReplaceWireMessage "original_order_reference") (SIZE OrderReplaceWireMessage "original_order_reference").
Definition OrderReplaceParser_newOrderReferenceNumber : option nat -> option Z :=
  wire_field (OFFSET OrderReplaceWireMessage "new_order_reference") (SIZE OrderReplaceWireMessage "new_order_reference").
Definition OrderReplaceParser_shares : option nat -> option Z :=
  wire_field (OFFSET OrderReplaceWireMessage "shares") (SIZE OrderReplaceWireMessage "shares").
Definition OrderReplaceParser_price : option nat -> option Z :=
  wire_field (OFFSET OrderReplaceWireMessage "price") (SIZE OrderReplaceWireMessage "price").

(** ** Mappers *)

Definition AddOrderMapper_fromWire (message : option nat) : option ItchAddOrder :=
  stockLocate ← AddOrderParser_stockLocate message;
  trackingNumber ← AddOrderParser_trackingNumber message;
  shares ← AddOrderParser_shares message;
  price ← AddOrderParser_price message;
  orderReferenceNumber ← AddOrderParser_orderReferenceNumber message;
  indicator ← AddOrderParser_buySellIndicator message;
  symbol ← AddOrderParser_stock message;
  Some (mkAddOrder stockLocate trackingNumber orderReferenceNumber (indicator =? char_B) shares symbol
          price).

Definition OrderCancelMapper_fromWire (message : option nat) : option OrderCancel :=
  orderReferenceNumber ← OrderCancelParser_orderReferenceNumber message;
  cancelledShares ← OrderCancelParser_cancelledShares message;
  Some (mkOrderCancel orderReferenceNumber cancelledShares).

Definition OrderDeleteMapper_fromWire (message : option nat) : option OrderDelete :=
  orderReferenceNumber ← OrderDeleteParser_orderReferenceNumber message;
  Some (mkOrderDelete orderReferenceNumber).

Definition OrderExecutedMapper_fromWire (message : option nat) : option OrderExecuted :=
  orderReferenceNumber ← OrderExecutedParser_orderReferenceNumber message;
  executedShares ← OrderExecutedParser_executedShares message;
  matchNumber ← OrderExecutedParser_matchNumber message;
  Some (mkOrderExecuted orderReferenceNumber executedShares matchNumber).

Definition OrderReplaceMapper_fromWire (message : option nat) : option OrderReplace :=
  originalOrderReferenceNumber ← OrderReplaceParser_originalOrderReferenceNumber message;
  newOrderReferenceNumber ← OrderReplaceParser_newOrderReferenceNumber message;
  shares ← OrderReplaceParser_shares message;
  price ← OrderReplaceParser_price message;
  Some (mkOrderReplace originalOrderReferenceNumber newOrderReferenceNumber shares price).

(** ** [ItchReplayDispatcher::dispatch] *)

(** The event of each message; members that are not named keep their defaults. *)
Definition add_event (order : ItchAddOrder) : MarketDataEvent :=
  mkEvent AddOrder (ao_orderReferenceNumber order) 0 0 (if ao_isBuy order then Buy else Sell)
    (ao_symbol order) (i64 (ao_price order)) (u32 (ao_shares order)).

Definition cancel_event (cancel : OrderCancel) : MarketDataEvent :=
  mkEvent CancelOrder (oc_orderReferenceNumber cancel) 0 0 Buy (replicate 8 0) 0
    (u32 (oc_cancelledShares cancel)).

Definition delete_event (deletion : OrderDelete) : MarketDataEvent :=
  mkEvent DeleteOrder (od_orderReferenceNumber deletion) 0 0 Buy (replicate 8 0) 0 0.

Definition execute_event (execution : OrderExecuted) : MarketDataEvent :=
  mkEvent ExecuteOrder (oe_orderReferenceNumber execution) 0 0 Buy (replicate 8 0) 0
    (u32 (oe_executedShares execution)).

Definition replace_event (replacement : OrderReplace) : MarketDataEvent :=
  mkEvent ReplaceOrder (or_originalOrderReferenceNumber replacement)
    (or_newOrderReferenceNumber replacement) 0 Buy (replicate 8 0) (i64 (or_price replacement))
    (u32 (or_shares replacement)).

Context {S : Type} `{!MarketDataEventSink S}.

(** The pattern of a case: parse, give up on [nullptr], map, submit. *)
Definition dispatch_case {M} (wire : option nat) (fromWire : option nat -> option M)
    (event : M -> MarketDataEvent) (sink : S) : option (bool * S) :=
  match wire with
  | None => Some (false, sink)
  | Some _ => m ← fromWire wire; Some (event_submit sink (event m))
  end.

Definition ItchReplayDispatcher_dispatch (sink : S) (message : option nat) (length : Z)
    : option (bool * S) :=
  match message with
  | None => Some (false, sink)
  | Some m =>
      if length =? 0 then Some (false, sink)
      else
        messageType ← rd mem m;
        if messageType =? char_A then
          dispatch_case (AddOrderParser_parse message length) AddOrderMapper_fromWire add_event sink
        else if messageType =? char_X then
          dispatch_case (OrderCancelParser_parse message length) OrderCancelMapper_fromWire cancel_event
            sink
        else if messageType =? char_D then
          dispatch_case (OrderDeleteParser_parse message length) OrderDeleteMapper_fromWire delete_event
            sink
        else if messageType =? char_E then
          dispatch_case (OrderExecutedParser_parse message length) OrderExecutedMapper_fromWire
            execute_event sink
        else if messageType =? char_U then
          dispatch_case (OrderReplaceParser_parse message length) OrderReplaceMapper_fromWire
            replace_event sink
        else Some (false, sink)
  end.

End itch.

(** ** Specification *)

(** The event a message stands for: by its tag, when the message is long enough, with
    fields in network order. *)
Definition itch_event (msg : bytes) : option MarketDataEvent :=
  let long_enough size := (size <=? length msg)%nat in
  let tag := be msg 0 1 in
  if (length msg =? 0)%nat then None
  else if tag =? char_A then
    if long_enough 36%nat
    then Some (mkEvent AddOrder (be msg 11 8) 0 0 (if be msg 19 1 =? char_B then Buy else Sell)
                 (take 8 (drop 24 msg)) (be msg 32 4) (be msg 20 4))
    else None
  else if tag =? char_X then
    if long_enough 23%nat
    then Some (mkEvent CancelOrder (be msg 11 8) 0 0 Buy (replicate 8 0) 0 (be msg 19 4))
    else None
  else if tag =? char_D then
    if long_enough 19%nat
    then Some (mkEvent DeleteOrder (be msg 11 8) 0 0 Buy (replicate 8 0) 0 0)
    else None
  else if tag =? char_E then
    if long_enough 31%nat
    then Some (mkEvent ExecuteOrder (be msg 11 8) 0 0 Buy (replicate 8 0) 0 (be msg 19 4))
    else None
  else if tag =? char_U then
    if long_enough 35%nat
    then Some (mkEvent ReplaceOrder (be msg 11 8) (be msg 19 8) 0 Buy (replicate 8 0) (be msg 31 4)
                 (be msg 27 4))
    else None
  else None.

(** Submitting the event, if there is one. *)
Definition submit_event {S} `{!MarketDataEventSink S} (sink : S) (event : option MarketDataEvent)
    : bool * S :=
  match event with
  | Some event => event_submit sink event
  | None => (false, sink)
  end.

(** A field of a view is the field of the memory. *)
Lemma be_view mem off len o n :
  (o + n <= len)%nat -> be (take len (drop off mem)) o n = be mem (off + o) n.
Proof.
  intros H. unfold be. f_equal. rewrite skipn_firstn_comm, take_take, drop_drop. f_equal. lia.
Qed.

Lemma mapM_rd mem off k n :
  (off + k + n <= length mem)%nat ->
  mapM (fun index => rd mem (off + index)) (seq k n) = Some (take n (drop (off + k) mem)).
Proof.
  revert k. induction n as [|n IH]; intros k H; [done|]. cbn [seq mapM].
  destruct (rd_inside mem (off + k)) as [b Hb]; [lia|]. rewrite Hb. cbn [mbind option_bind].
  rewrite IH by lia. cbn [mbind option_bind]. rewrite (drop_S mem b (off + k)) by exact Hb.
  by rewrite <- plus_n_Sm.
Qed.

Section dispatch_spec.
Context (little : bool) (mem : bytes) (Hbytes : all_bytes mem).
Context (off len : nat) (Hin : (off + len <= length mem)%nat).
Let msg : bytes := take len (drop off mem).

Lemma view_length : length msg = len.
Proof. unfold msg. rewrite length_take, length_drop. lia. Qed.

Lemma field_spec o n : (o + n <= len)%nat -> wire_field little mem o n (Some off) = Some (be msg o n).
Proof.
  intros H. unfold wire_field. rewrite load_big_spec by (done || lia). unfold msg.
  by rewrite be_view.
Qed.

Lemma char_spec o : (o < len)%nat -> wire_char mem o (Some off) = Some (be msg o 1).
Proof.
  intros H. unfold wire_char. rewrite rd_be by lia. unfold msg. by rewrite be_view by lia.
Qed.

Lemma stock_spec : (32 <= len)%nat -> AddOrderParser_stock mem (Some off) = Some (take 8 (drop 24 msg)).
Proof.
  intros H. unfold AddOrderParser_stock. rewrite mapM_rd by lia. f_equal. unfold msg.
  rewrite skipn_firstn_comm, take_take, drop_drop. f_equal; [lia|]. f_equal. lia.
Qed.

Lemma width32 o : (o + 4 <= len)%nat -> u32 (be msg o 4) = be msg o 4 /\ i64 (be msg o 4) = be msg o 4.
Proof.
  intros H. pose proof (be_range msg o 4 32) as Hr. unfold is_uint in Hr.
  rewrite view_length in Hr. specialize (Hr (all_bytes_slice _ _ _ Hbytes) H eq_refl).
  split; [by apply wrap_small|]. apply sint_small; [lia|]. cbn. lia.
Qed.

(** Every parser accepts a view that is long enough, and only such. *)
Lemma parse_spec (size : nat) :
  wire_parse (Z.of_nat size) (Some off) (Z.of_nat len) = if (size <=? len)%nat then Some off else None.
Proof.
  unfold wire_parse. destruct (Nat.leb_spec size len).
  - by rewrite (proj2 (Z.ltb_ge _ _)) by lia.
  - by rewrite (proj2 (Z.ltb_lt _ _)) by lia.
Qed.

Lemma dispatch_case_spec {S M} `{!MarketDataEventSink S} (size : nat) (fromWire : option nat -> option M)
    (event : M -> MarketDataEvent) (m : M) (sink : S) :
  ((size <= len)%nat -> fromWire (Some off) = Some m) ->
  dispatch_case (wire_parse (Z.of_nat size) (Some off) (Z.of_nat len)) fromWire event sink =
  Some (submit_event sink (if (size <=? length msg)%nat then Some (event m) else None)).
Proof.
  intros Hm. rewrite view_length, parse_spec. destruct (Nat.leb_spec size len) as [H|H]; [|done].
  cbn [dispatch_case]. by rewrite Hm.
Qed.

(** What the mappers read. *)

Lemma add_fromWire : (36 <= len)%nat ->
  AddOrderMapper_fromWire little mem (Some off) =
  Some (mkAddOrder (be msg 1 2) (be msg 3 2) (be msg 11 8) (be msg 19 1 =? char_B) (be msg 20 4)
          (take 8 (drop 24 msg)) (be msg 32 4)).
Proof.
  intros H. unfold AddOrderMapper_fromWire, AddOrderParser_stockLocate, AddOrderParser_trackingNumber,
    AddOrderParser_shares, AddOrderParser_price, AddOrderParser_orderReferenceNumber,
    AddOrderParser_buySellIndicator.
  by rewrite !field_spec, char_spec, stock_spec by lia.
Qed.

Lemma cancel_fromWire : (23 <= len)%nat ->
  OrderCancelMapper_fromWire little mem (Some off) = Some (mkOrderCancel (be msg 11 8) (be msg 19 4)).
Proof.
  intros H. unfold OrderCancelMapper_fromWire, OrderCancelParser_orderReferenceNumber,
    OrderCancelParser_cancelledShares. by rewrite !field_spec by lia.
Qed.

Lemma delete_fromWire : (19 <= len)%nat ->
  OrderDeleteMapper_fromWire little mem (Some off) = Some (mkOrderDelete (be msg 11 8)).
Proof.
  intros H. unfold OrderDeleteMapper_fromWire, OrderDeleteParser_orderReferenceNumber.
  by rewrite !field_spec by lia.
Qed.

Lemma executed_fromWire : (31 <= len)%nat ->
  OrderExecutedMapper_fromWire little mem (Some off) =
  Some (mkOrderExecuted (be msg 11 8) (be msg 19 4) (be msg 23 8)).
Proof.
  intros H. unfold OrderExecutedMapper_fromWire, OrderExecutedParser_orderReferenceNumber,
    OrderExecutedParser_executedShares, OrderExecutedParser_matchNumber. by rewrite !field_spec by lia.
Qed.

Lemma replace_fromWire : (35 <= len)%nat ->
  OrderReplaceMapper_fromWire little mem (Some off) =
  Some (mkOrderReplace (be msg 11 8) (be msg 19 8) (be msg 27 4) (be msg 31 4)).
Proof.
  intros H. unfold OrderReplaceMapper_fromWire, OrderReplaceParser_originalOrderReferenceNumber,
    OrderReplaceParser_newOrderReferenceNumber, OrderReplaceParser_shares, OrderReplaceParser_price.
  by rewrite !field_spec by lia.
Qed.

(** The casts to the types of the event keep the values. *)
Ltac same_event size :=
  rewrite view_length; destruct (Nat.leb_spec size len); [|done];
  unfold add_event, cancel_event, delete_event, execute_event, replace_event; cbn;
  repeat match goal with
  | |- context [u32 (be msg ?o 4)] => rewrite (proj1 (width32 o ltac:(lia)))
  | |- context [i64 (be msg ?o 4)] => rewrite (proj2 (width32 o ltac:(lia)))
  end; done.

Lemma dispatch_spec {S} `{!MarketDataEventSink S} (sink : S) :
  ItchReplayDispatcher_dispatch little mem sink (Some off) (Z.of_nat len) =
  Some (submit_event sink (itch_event msg)).
Proof.
  unfold ItchReplayDispatcher_dispatch, itch_event. rewrite view_length.
  destruct (Nat.eqb_spec len 0) as [E0|E0]; [by rewrite E0|].
  rewrite (proj2 (Z.eqb_neq _ _)) by lia. pose proof (char_spec 0 ltac:(lia)) as Ht.
  unfold wire_char in Ht. rewrite Nat.add_0_r in Ht. rewrite Ht. cbn [mbind option_bind].
  repeat match goal with |- context [if be msg 0 1 =? ?c then _ else _] =>
    destruct (be msg 0 1 =? c) end; [..|done].
  - rewrite (dispatch_case_spec 36 _ _ _ _ add_fromWire). same_event 36%nat.
  - rewrite (dispatch_case_spec 23 _ _ _ _ cancel_fromWire). same_event 23%nat.
  - rewrite (dispatch_case_spec 19 _ _ _ _ delete_fromWire). same_event 19%nat.
  - rewrite (dispatch_case_spec 31 _ _ _ _ executed_fromWire). same_event 31%nat.
  - rewrite (dispatch_case_spec 35 _ _ _ _ replace_fromWire). same_event 35%nat.
Qed.

End dispatch_spec.

(** The events are in the ranges of their types. *)
Lemma itch_event_ranges msg event :
  all_bytes msg -> itch_event msg = Some event ->
  is_uint 64 (ev_orderId event) /\ is_uint 64 (ev_newOrderId event) /\ is_uint 32 (ev_price event) /\
  is_uint 32 (ev_quantity event) /\ length (ev_symbol event) = 8%nat /\ all_bytes (ev_symbol event).
Proof.
  intros Hb. unfold itch_event. cbn zeta.
  assert (all_bytes (replicate 8 0)) as H0 by (repeat constructor; done).
  assert (is_uint 64 0 /\ is_uint 32 0) as [Z64 Z32] by done.
  repeat match goal with
  | |- context [if ?c then Some _ else _] => destruct c eqn:?; [intros [= <-]; cbn|done]
  | |- context [if ?c then _ else _] => destruct c
  end; try done; repeat match goal with H : (_ <=? _)%nat = true |- _ => apply Nat.leb_le in H end;
  repeat split; try done;
    try (by apply (be_range _ _ _ 64); [done|lia|]); try (by apply (be_range _ _ _ 32); [done|lia|]).
  - rewrite length_take, length_drop. lia.
  - by apply all_bytes_slice.
Qed.

(** ** Properties *)

(** C32: The ITCH dispatcher decodes exactly the protocol's messages.  For every view
    inside the memory, on hosts of either byte order, [dispatch] reads only inside the
    view; a message with one of the five tags and at least its size is submitted to the
    sink as the event with the fields in network order, which are in the ranges of
    their types, and the sink's answer returned; anything else, an empty view or a null
    pointer is refused and leaves the sink alone. *)
Theorem itch_dispatcher_decodes_messages :
  forall (S : Type) (sink_class : MarketDataEventSink S) (sink : S) (little : bool) (mem : bytes)
    (off len : nat),
  all_bytes mem -> (off + len <= length mem)%nat ->
  let msg := take len (drop off mem) in
  ItchReplayDispatcher_dispatch little mem sink None (Z.of_nat len) = Some (false, sink) /\
  ItchReplayDispatcher_dispatch little mem sink (Some off) (Z.of_nat len) =
    Some (match itch_event msg with
          | Some event => event_submit sink event
          | None => (false, sink)
          end) /\
  (forall event, itch_event msg = Some event ->
     is_uint 64 (ev_orderId event) /\ is_uint 64 (ev_newOrderId event) /\
     is_uint 32 (ev_price event) /\ is_uint 32 (ev_quantity event)).
Proof.
  intros S SC sink little mem off len Hb Hin msg. split; [done|].
  split; [by apply dispatch_spec|]. intros event He.
  apply itch_event_ranges in He as (? & ? & ? & ? & _); [done|]. by apply all_bytes_slice.
Qed.

(** A sink that keeps the events it is given. *)
Definition recording_event_sink : MarketDataEventSink (list MarketDataEvent) :=
  fun log event => (true, log ++ [event]).

(** An Order Cancel of 5 shares of order 258, behind two other bytes. *)
Definition demo_cancel_message : bytes :=
  [0; 0] ++ [88; 0; 1; 0; 0; 0; 0; 0; 0; 0; 0] ++ [0; 0; 0; 0; 0; 0; 1; 2] ++ [0; 0; 0; 5].

Lemma itch_dispatcher_witness :
  ItchReplayDispatcher_dispatch true demo_cancel_message (MarketDataEventSink0 := recording_event_sink) []
    (Some 2%nat) (Z.of_nat 23) =
  Some (true, [mkEvent CancelOrder 258 0 0 Buy (replicate 8 0) 0 5]).
Proof.
  destruct (itch_dispatcher_decodes_messages _ recording_event_sink [] true demo_cancel_message 2 23)
    as (_ & E & _); [repeat constructor; done|cbn; lia|].
  rewrite E. reflexivity.
Defined.
