(* ===== verification/Replay.v ===== *)
(** * Replay files

    [market_data/replay/itch_replay_reader.{hpp,cpp}],
    [market_data/replay/pcap_replay_reader.{hpp,cpp}], the replay branch of
    [apps/trading_runtime.cpp] and [tools/generate_sample_itch_replay.cpp].

    A replay file is a sequence of messages, each behind its length in two bytes in
    network order.  The input stream is the bytes still to be read and the state bits of
    [std::ifstream]; an output stream is the bytes written.  The replay loop is modelled for
    any event sink; [ReplayRun] runs it against the pipeline's worker. *)

From S2P Require Import Prelude Types OrderBook BookStore Consumer SpscRing Pipeline.
From S2P Require Import Wire Ouch Packets Itch.

(** ** Input streams *)

Record ifstream : Type := mkStream {
  stream_open : bool;
  stream_rest : bytes;
  stream_eof : bool;
  stream_fail : bool
}.

(** Opening a file; a failure sets the fail bit. *)
Definition ifstream_open (file : option bytes) : ifstream :=
  match file with
  | Some content => mkStream true content false false
  | None => mkStream false [] false true
  end.

(** [read(buffer, n)]: nothing unless the stream is good; a short read sets the end and
    the fail bits. *)
Definition stream_read (s : ifstream) (n : nat) : bytes * ifstream :=
  if stream_eof s || stream_fail s
  then ([], mkStream (stream_open s) (stream_rest s) (stream_eof s) true)
  else if (n <=? length (stream_rest s))%nat
  then (take n (stream_rest s), mkStream (stream_open s) (drop n (stream_rest s)) false false)
  else (stream_rest s, mkStream (stream_open s) [] true true).

(** ** [ItchReplayReader] *)

Definition ItchReplayReader_new (file : option bytes) : ifstream := ifstream_open file.

Definition ItchReplayReader_isOpen (stream : ifstream) : bool := stream_open stream.

Section reader.
Variable little : bool.

Definition ItchReplayReader_readNext (stream : ifstream) (message : bytes) : bool * bytes * ifstream :=
  let '(networkLength, stream) := stream_read stream 2 in
  if stream_eof stream then (false, message, stream)
  else if stream_fail stream then (false, message, stream)
  else
    let messageLength := fromBigEndian little 2 (native_value little networkLength) in
    if messageLength =? 0 then (false, message, stream)
    else
      let '(body, stream) := stream_read stream (Z.to_nat messageLength) in
      if stream_fail stream then (false, [], stream)
      else (true, body, stream).

(** ** The replay loop of [trading_runtime] *)

Context {S : Type} `{!MarketDataEventSink S}.

(** [++replayedMessages] when [dispatch] returned true; [message.data()] points at the
    first byte of the vector. *)
Definition replay_dispatch (message : bytes) (sink : S) (replayedMessages : Z) : option (S * Z) :=
  '(ok, sink) ← ItchReplayDispatcher_dispatch little message sink (Some O) (Z.of_nat (length message));
  Some (sink, if (ok : bool) then u64 (replayedMessages + 1) else replayedMessages).

(** [while (reader.readNext(message)) ...] without another thread. *)
Fixpoint replay_loop (fuel : nat) (stream : ifstream) (message : bytes) (sink : S)
    (replayedMessages : Z) : option (S * Z * ifstream) :=
  match fuel with
  | O => None
  | Datatypes.S fuel =>
      let '(more, message, stream) := ItchReplayReader_readNext stream message in
      if (more : bool) then
        '(sink, replayedMessages) ← replay_dispatch message sink replayedMessages;
        replay_loop fuel stream message sink replayedMessages
      else Some (sink, replayedMessages, stream)
  end.

End reader.

(** ** [PcapReplayReader]

    libpcap answers [pcap_next_ex] with a status and a packet; a thrown exception is the
    outcome [Throws]. *)

Definition PCAP_ERROR : Z := -1.
Definition PCAP_ERROR_BREAK : Z := -2.

Inductive pcap_outcome : Type :=
  | Packet (data : bytes) (length : Z)
  | EndOfCapture
  | NoPacket
  | Throws.

(** [status], the packet's bytes and [caplen] are what [pcap_next_ex] returned. *)
Definition PcapReplayReader_nextPacket (status : Z) (packet_data : bytes) (caplen : Z) : pcap_outcome :=
  if status =? 1 then Packet packet_data caplen
  else if status =? PCAP_ERROR_BREAK then EndOfCapture
  else if status =? PCAP_ERROR then Throws
  else NoPacket.

(** ** Writing replay files *)

(** The bytes an integer of [n] bytes has in memory. *)
Definition native_bytes (little : bool) (n : nat) (value : Z) : bytes :=
  let low_first := (fun i => (value / 2 ^ (8 * Z.of_nat i)) mod 256) <$> seq 0 n in
  if little then low_first else reverse low_first.

(** [htons], [htonl] and [htobe64] of an [n]-byte value, as it lies in memory. *)
Definition network_bytes (little : bool) (n : nat) (value : Z) : bytes :=
  native_bytes little n (toBigEndian little n value).

(** [writeMessage(stream, message)], the message being the bytes of the structure. *)
Definition writeMessage (little : bool) (stream message : bytes) : bytes :=
  stream ++ network_bytes little 2 (u16 (Z.of_nat (length message))) ++ message.

Definition sample_symbol : Symbol := [65; 65; 80; 76; 32; 32; 32; 32].

Definition makeAddOrder (little : bool) (orderReferenceNumber side shares price : Z) : bytes :=
  [char_A] ++ replicate 2 0 ++ replicate 2 0 ++ replicate 6 0 ++
  network_bytes little 8 orderReferenceNumber ++ [side] ++ network_bytes little 4 shares ++
  sample_symbol ++ network_bytes little 4 price.

(** The file [main] writes. *)
Definition generate_sample_itch_replay (little : bool) : bytes :=
  let bid := makeAddOrder little 5001 char_B 900 98 in
  let ask := makeAddOrder little 5002 char_S 100 99 in
  writeMessage little (writeMessage little [] bid) ask.

(** ** Bytes of integers *)

Lemma native_bytes_S n v :
  native_bytes true (S n) v = v mod 256 :: native_bytes true n (v / 256).
Proof.
  unfold native_bytes. cbn [seq fmap list_fmap]. f_equal; [by rewrite Z.div_1_r|].
  rewrite <- fmap_S_seq, <- list_fmap_compose. apply list_fmap_ext. intros _ i _. unfold compose.
  f_equal. rewrite Z.div_div by lia. f_equal. change 256 with (2 ^ 8).
  rewrite <- Z.pow_add_r by lia. f_equal. lia.
Qed.

Lemma native_bytes_length n v : length (native_bytes true n v) = n.
Proof. unfold native_bytes. by rewrite length_fmap, length_seq. Qed.

Lemma native_bytes_bytes n v : all_bytes (native_bytes true n v).
Proof.
  revert v. induction n as [|n IH]; intros v; [constructor|]. rewrite native_bytes_S.
  constructor; [|apply IH]. unfold is_byte, is_uint. change (2 ^ 8) with 256. zdm.
Qed.

Lemma little_native n v : 0 <= v < 2 ^ (8 * Z.of_nat n) -> little_value (native_bytes true n v) = v.
Proof.
  revert v. induction n as [|n IH]; intros v Hv; [cbn in *; lia|].
  rewrite native_bytes_S. cbn [little_value].
  replace (8 * Z.of_nat (S n)) with (8 + 8 * Z.of_nat n) in Hv by lia.
  rewrite Z.pow_add_r in Hv by lia. change (2 ^ 8) with 256 in Hv.
  rewrite IH by zdm. zdm.
Qed.

Lemma native_little l : all_bytes l -> native_bytes true (length l) (little_value l) = l.
Proof.
  induction 1 as [|b l Hb _ IH]; [done|]. cbn [length]. rewrite native_bytes_S. cbn [little_value].
  unfold is_byte, is_uint in Hb. change (2 ^ 8) with 256 in Hb.
  replace ((b + 256 * little_value l) mod 256) with b by zdm.
  replace ((b + 256 * little_value l) / 256) with (little_value l) by zdm. by rewrite IH.
Qed.

Lemma big_value_reverse l : big_value l = little_value (reverse l).
Proof.
  induction l as [|b l IH] using rev_ind; [done|]. rewrite big_value_app, reverse_app. cbn.
  rewrite IH. unfold big_value. cbn. lia.
Qed.

(** Integers lie in memory in network order, whatever the byte order of the host. *)
Lemma network_bytes_eq little n v : 0 <= v < 2 ^ (8 * Z.of_nat n) ->
  network_bytes little n v = reverse (native_bytes true n v).
Proof.
  intros Hv. unfold network_bytes, toBigEndian. destruct little; [|done].
  rewrite <- (little_native n v Hv) at 1.
  pose proof (byteswap_little _ (native_bytes_bytes n v)) as E. rewrite native_bytes_length in E.
  rewrite E, big_value_reverse.
  rewrite <- (native_bytes_length n v) at 1. rewrite <- length_reverse. apply native_little.
  apply Forall_reverse, native_bytes_bytes.
Qed.

Lemma network_bytes_spec little n v : 0 <= v < 2 ^ (8 * Z.of_nat n) ->
  length (network_bytes little n v) = n /\ all_bytes (network_bytes little n v) /\
  big_value (network_bytes little n v) = v.
Proof.
  intros Hv. rewrite network_bytes_eq by done. rewrite length_reverse, native_bytes_length.
  split; [done|]. split; [apply Forall_reverse, native_bytes_bytes|].
  by rewrite big_value_reverse, reverse_involutive, little_native.
Qed.

(** A load of a few bytes in network order. *)
Lemma load_bytes little bs n : all_bytes bs -> length bs = n ->
  fromBigEndian little n (native_value little bs) = big_value bs.
Proof.
  intros Hb <-. unfold fromBigEndian, native_value. destruct little; [|done]. by apply byteswap_little.
Qed.

(** ** The messages of a file *)

(** No complete message follows: the length is cut off, 0, or larger than what is left. *)
Definition incomplete (tail : bytes) : Prop :=
  (length tail < 2)%nat \/ be tail 0 2 = 0 \/ Z.of_nat (length tail) < 2 + be tail 0 2.

Inductive framed_file : bytes -> list bytes -> Prop :=
  | framed_end tail : incomplete tail -> framed_file tail []
  | framed_message header message rest messages :
      length header = 2%nat -> big_value header = Z.of_nat (length message) -> message <> [] ->
      framed_file rest messages -> framed_file (header ++ message ++ rest) (message :: messages).

(** Every file is cut into messages in one way. *)
Lemma framed_file_exists file : all_bytes file -> exists messages, framed_file file messages.
Proof.
  remember (length file) as n eqn:En. revert file En.
  induction (lt_wf n) as [n _ IH]; intros file -> Hb.
  assert (incomplete file \/ ~ incomplete file) as [H|H]
    by (unfold incomplete; lia); [exists []; by constructor|].
  unfold incomplete in H.
  pose proof (be_range file 0 2 16 Hb ltac:(lia) eq_refl) as Hr. unfold is_uint in Hr.
  set (k := Z.to_nat (be file 0 2)) in *. set (rest := drop (2 + k) file).
  destruct (IH (length rest)) with rest as [messages Hm]; [|done|by apply Forall_drop|].
  { unfold rest. rewrite length_drop. lia. }
  assert (take 2 file ++ take k (drop 2 file) ++ rest = file) as E
    by (unfold rest; by rewrite <- drop_drop, !take_drop).
  assert (length (take k (drop 2 file)) = k) as Hk by (rewrite length_take, length_drop; lia).
  exists (take k (drop 2 file) :: messages).
  pose proof (framed_message (take 2 file) (take k (drop 2 file)) rest messages) as F.
  rewrite E in F. apply F; [rewrite length_take; lia| | |done].
  - rewrite Hk. unfold k. rewrite Z2Nat.id by lia. done.
  - intros E0. rewrite E0 in Hk. cbn in Hk. lia.
Qed.

(** A stream from which [rest] can be read. *)
Definition good_stream (rest : bytes) : ifstream := mkStream true rest false false.

Lemma stream_read_at rest n : (n <= length rest)%nat ->
  stream_read (good_stream rest) n = (take n rest, good_stream (drop n rest)).
Proof. intros H. unfold stream_read. cbn. by rewrite (proj2 (Nat.leb_le _ _)). Qed.

Lemma stream_read_full bs rest :
  stream_read (good_stream (bs ++ rest)) (length bs) = (bs, good_stream rest).
Proof.
  rewrite stream_read_at by (rewrite length_app; lia). by rewrite take_app_length, drop_app_length.
Qed.

Lemma stream_read_short rest n : (length rest < n)%nat ->
  stream_read (good_stream rest) n = (rest, mkStream true [] true true).
Proof. intros H. unfold stream_read. cbn. by rewrite (proj2 (Nat.leb_gt _ _)). Qed.

Lemma readNext_message little header message rest old :
  all_bytes header -> length header = 2%nat -> big_value header = Z.of_nat (length message) ->
  message <> [] ->
  ItchReplayReader_readNext little (good_stream (header ++ message ++ rest)) old =
  (true, message, good_stream rest).
Proof.
  intros Hb H2 Hv Hne. unfold ItchReplayReader_readNext.
  rewrite <- H2 at 1. rewrite stream_read_full. cbn [stream_eof stream_fail good_stream].
  cbv zeta. rewrite load_bytes, Hv by done.
  destruct message as [|b message]; [done|]. rewrite (proj2 (Z.eqb_neq _ _)) by (cbn; lia).
  rewrite Nat2Z.id. fold (good_stream ((b :: message) ++ rest)). by rewrite stream_read_full.
Qed.

Lemma readNext_end little tail old :
  all_bytes tail -> incomplete tail ->
  exists message stream, ItchReplayReader_readNext little (good_stream tail) old = (false, message, stream).
Proof.
  intros Hb Hi. unfold ItchReplayReader_readNext.
  destruct (decide (length tail < 2)%nat) as [H|H].
  { rewrite stream_read_short by done. by do 2 eexists. }
  assert (length (take 2 tail) = 2%nat) as H2 by (rewrite length_take; lia).
  rewrite stream_read_at by lia.
  cbn [stream_eof stream_fail good_stream]. cbv zeta.
  rewrite load_bytes by (by apply Forall_take || done). change (big_value (take 2 tail)) with (be tail 0 2).
  bcase; [by do 2 eexists|]. destruct Hi as [?|[?|Hs]]; [done..|].
  fold (good_stream (drop 2 tail)). pose proof (be_range tail 0 2 16 Hb ltac:(lia) eq_refl) as Hr.
  unfold is_uint in Hr. rewrite stream_read_short by (rewrite length_drop; lia). by do 2 eexists.
Qed.

(** ** What the loop hands to the sink *)

(** Submitting one event and counting it when it was accepted. *)
Definition replay_one {S} `{!MarketDataEventSink S} (st : S * Z) (event : MarketDataEvent) : S * Z :=
  let '(ok, sink) := event_submit (fst st) event in
  (sink, if ok then u64 (snd st + 1) else snd st).

Lemma replay_dispatch_spec {S} `{!MarketDataEventSink S} little message (sink : S) k :
  all_bytes message ->
  replay_dispatch little message sink k =
  Some (match itch_event message with Some event => replay_one (sink, k) event | None => (sink, k) end).
Proof.
  intros Hb. unfold replay_dispatch. rewrite dispatch_spec by (done || lia).
  cbn [mbind option_bind]. rewrite drop_0, firstn_all. unfold submit_event, replay_one. cbn [fst snd].
  destruct (itch_event message) as [event|]; [|done]. by destruct (event_submit sink event).
Qed.

Lemma replay_loop_spec {S} `{!MarketDataEventSink S} little file messages :
  framed_file file messages -> all_bytes file ->
  forall fuel old (sink : S) k, (length messages < fuel)%nat ->
  exists stream, replay_loop little fuel (good_stream file) old sink k =
    Some (foldl replay_one (sink, k) (omap itch_event messages), stream).
Proof.
  induction 1 as [tail Hi|header message rest messages H2 Hv Hne _ IH]; intros Hb fuel old sink k Hf;
    (destruct fuel as [|fuel]; [cbn in Hf; lia|]); cbn [replay_loop].
  - destruct (readNext_end little tail old Hb Hi) as (m & stream & ->). by exists stream.
  - apply Forall_app in Hb as [Hh [Hm Hr]%Forall_app].
    rewrite readNext_message by done. rewrite replay_dispatch_spec by done. cbn [mbind option_bind].
    cbn [length] in Hf.
    change (omap itch_event (message :: messages)) with
      (match itch_event message with
       | Some e => e :: omap itch_event messages | None => omap itch_event messages end).
    destruct (itch_event message) as [event|].
    + cbn [foldl]. destruct (replay_one (sink, k) event) as [sink1 k1]. apply IH; [done|lia].
    + apply IH; [done|lia].
Qed.

(** Files made by [writeMessage]. *)
Definition writable (message : bytes) : Prop :=
  message <> [] /\ Z.of_nat (length message) < 65536 /\ all_bytes message.

Lemma written_framed little messages tail :
  Forall writable messages -> incomplete tail ->
  framed_file (foldl (writeMessage little) [] messages ++ tail) messages /\
  all_bytes (foldl (writeMessage little) [] messages).
Proof.
  intros HF Ht. set (frame m := network_bytes little 2 (u16 (Z.of_nat (length m))) ++ m).
  assert (forall ms acc, foldl (writeMessage little) acc ms = acc ++ mjoin (frame <$> ms)) as E.
  { induction ms as [|m ms IH]; intros acc; cbn; [by rewrite app_nil_r|].
    rewrite IH. unfold writeMessage, frame. by rewrite <- !app_assoc. }
  rewrite E. cbn [app]. clear E.
  induction HF as [|m messages [Hne [Hl Hb]] HF IH]; [split; [by constructor|constructor]|].
  destruct IH as [IH IHb].
  destruct (network_bytes_spec little 2 (u16 (Z.of_nat (length m)))) as (H2 & Hnb & Hv);
    [apply wrap_range; lia|].
  rewrite (wrap_small 16 (Z.of_nat (length m))) in H2, Hnb, Hv by (change (2 ^ 16) with 65536; lia).
  cbn. unfold frame at 1 3. rewrite (wrap_small 16 (Z.of_nat (length m)))
    by (change (2 ^ 16) with 65536; lia).
  rewrite <- !app_assoc. split; [by constructor|]. repeat (apply Forall_app; split); done.
Qed.

(** ** Properties *)

(** C33: Replaying a file hands its messages to the sink, once each and in order.  Every
    file has a division into messages; the replay loop over it terminates, on hosts of
    either byte order, without undefined behaviour, gives the sink exactly the events
    of the messages in their order, and counts the accepted ones.  In a file written
    with [writeMessage] on a host of either byte order, even when a cut-off message
    follows, the messages are the ones written. *)
Theorem replay_reads_what_was_written :
  forall (S : Type) (sink_class : MarketDataEventSink S) (sink : S) (little : bool) (file : bytes),
  all_bytes file ->
  (exists messages, framed_file file messages) /\
  (forall messages, framed_file file messages ->
     exists stream,
       replay_loop little (length messages + 1) (ItchReplayReader_new (Some file)) [] sink 0 =
       Some (foldl replay_one (sink, 0) (omap itch_event messages), stream)) /\
  (forall (writer : bool) messages tail, Forall writable messages -> incomplete tail ->
     framed_file (foldl (writeMessage writer) [] messages ++ tail) messages).
Proof.
  intros S SC sink little file Hb. split; [by apply framed_file_exists|]. split.
  - intros messages Hm. apply (replay_loop_spec little file messages Hm Hb). lia.
  - intros writer messages tail HF Ht. by apply written_framed.
Qed.

(** The sample file, written on a big-endian host and replayed on a little-endian one:
    a bid and an ask. *)
Lemma replay_reads_witness :
  let bid := makeAddOrder false 5001 char_B 900 98 in
  let ask := makeAddOrder false 5002 char_S 100 99 in
  exists stream,
    replay_loop true 3 (ItchReplayReader_new (Some (generate_sample_itch_replay false))) []
      (MarketDataEventSink0 := recording_event_sink) [] 0 =
    Some (foldl (replay_one (MarketDataEventSink0 := recording_event_sink)) ([], 0)
            (omap itch_event [bid; ask]), stream) /\
    foldl (replay_one (MarketDataEventSink0 := recording_event_sink)) ([], 0)
      (omap itch_event [bid; ask]) =
    ([mkEvent AddOrder 5001 0 0 Buy sample_symbol 98 900;
      mkEvent AddOrder 5002 0 0 Sell sample_symbol 99 100], 2).
Proof.
  cbn zeta.
  assert (all_bytes (generate_sample_itch_replay false)) as Hb
    by (apply (bool_decide_unpack _); vm_compute; exact I).
  destruct (replay_reads_what_was_written _ recording_event_sink [] true
    (generate_sample_itch_replay false) Hb) as (_ & Hloop & Hwritten).
  destruct (Hloop [makeAddOrder false 5001 char_B 900 98; makeAddOrder false 5002 char_S 100 99])
    as [stream E].
  - rewrite <- (app_nil_r (generate_sample_itch_replay false)).
    apply (Hwritten false [makeAddOrder false 5001 char_B 900 98; makeAddOrder false 5002 char_S 100 99] []).
    + repeat constructor; try discriminate; apply (bool_decide_unpack _); vm_compute; exact I.
    + left. cbn. lia.
  - exists stream. split; [exact E|reflexivity].
Defined.
