(* ===== verification/Tools.v ===== *)
(** * Supporting code around external libraries

    [common/numa_utils.{hpp,cpp}] over libnuma, [logging/async_logger.{hpp,cpp}] over
    spdlog, the life of a [market_data/replay/pcap_replay_reader.{hpp,cpp}] over libpcap,
    and the program [tools/itch/itch_sender.cpp] over sockets.

    The libraries are not part of the repository: an [Oracle] is any state that answers
    calls, and every call is logged with its answer.  What these components promise is how
    they use the libraries, so their theorems are about the log, for every oracle. *)

From Stdlib Require Import String.
From S2P Require Import Prelude Types Text Consumer Wire Ouch Packets Itch Replay.

(** ** Calls to a library *)

Class Oracle (W C R : Type) : Type := oracle : W -> C -> R * W.

Record Ext (W C R : Type) : Type := mkExt { ext_world : W; ext_log : list (C * R) }.
Arguments mkExt {W C R}.
Arguments ext_world {W C R}.
Arguments ext_log {W C R}.

Definition ask {W C R} `{!Oracle W C R} (c : C) (e : Ext W C R) : R * Ext W C R :=
  let '(r, w) := oracle (ext_world e) c in (r, mkExt w (ext_log e ++ [(c, r)])).

(** A call adds itself to the log. *)
Lemma ask_log {W C R} `{!Oracle W C R} (c : C) (e : Ext W C R) r e' :
  ask c e = (r, e') -> ext_log e' = ext_log e ++ [(c, r)].
Proof. unfold ask. destruct (oracle _ _) as [r' w']. by intros [= <- <-]. Qed.

(** Evaluates the calls of a goal one by one. *)
Ltac asks :=
  repeat (match goal with
  | |- context [ask ?c ?e] =>
      let r := fresh "r" in let e' := fresh "e" in let E := fresh "E" in
      destruct (ask c e) as [r e'] eqn:E; apply ask_log in E; cbn [fst snd]
  | |- context [if ?b then _ else _] => destruct b eqn:?; cbn [fst snd]
  end).

(** ** NUMA *)

Module Numa.

Inductive Call : Type :=
  | c_available
  | c_max_node
  | c_getcpu
  | c_node_of_cpu (cpu : Z)
  | c_alloc_onnode (size node : Z)
  | c_free (memory size : Z).

Section numa.
Context {W : Type} `{!Oracle W Call Z}.

Abbreviation St := (Ext W Call Z).

Definition isAvailable (e : St) : bool * St :=
  let '(r, e) := ask c_available e in (r >=? 0, e).

Definition nodeCount (e : St) : Z * St :=
  let '(available, e) := isAvailable e in
  if negb available then (0, e)
  else let '(max_node, e) := ask c_max_node e in (i32 (max_node + 1), e).

Definition currentCpuNode (e : St) : Z * St :=
  let '(available, e) := isAvailable e in
  if negb available then (-1, e)
  else
    let '(cpu, e) := ask c_getcpu e in
    if cpu <? 0 then (-1, e) else ask (c_node_of_cpu cpu) e.

(** [&&] does not look at the count for a negative node. *)
Definition isValidNode (node : Z) (e : St) : bool * St :=
  if node >=? 0 then let '(count, e) := nodeCount e in (node <? count, e) else (false, e).

Definition allocateOnNode (size node : Z) (e : St) : Z * St :=
  if size =? 0 then (0, e)
  else
    let '(valid, e) := isValidNode node e in
    if negb valid then (0, e) else ask (c_alloc_onnode size node) e.

Definition freeMemory (memory size : Z) (e : St) : St :=
  if (memory =? 0) || (size =? 0) then e else (ask (c_free memory size) e).2.

(** libnuma's rules: nothing but [numa_available] before that has succeeded, memory only
    on nodes up to the highest one, never of size 0, and no null pointer freed. *)
Fixpoint disciplined (available : bool) (max_node : option Z) (log : list (Call * Z)) : bool :=
  match log with
  | [] => true
  | (c, r) :: log =>
      match c with
      | c_available => disciplined (available || (r >=? 0)) max_node log
      | c_max_node => available && disciplined available (Some r) log
      | c_getcpu => disciplined available max_node log
      | c_node_of_cpu cpu => available && (0 <=? cpu) && disciplined available max_node log
      | c_alloc_onnode size node =>
          available && negb (size =? 0) &&
          (match max_node with Some m => (0 <=? node) && (node <=? m) | None => false end) &&
          disciplined available max_node log
      | c_free memory size =>
          available && negb (memory =? 0) && negb (size =? 0) && disciplined available max_node log
      end
  end.

(** What the log says about availability and the last answer of [numa_max_node]. *)
Definition known_available (log : list (Call * Z)) : bool :=
  existsb (fun c => match c with (c_available, r) => r >=? 0 | _ => false end) log.

Definition known_max (log : list (Call * Z)) : option Z :=
  foldl (fun m c => match c with (c_max_node, r) => Some r | _ => m end) None log.

Definition fine (log : list (Call * Z)) : Prop := disciplined false None log = true.

Lemma disciplined_app log1 log2 : forall available max_node,
  disciplined available max_node (log1 ++ log2) =
  disciplined available max_node log1 &&
  disciplined (available || known_available log1)
    (foldl (fun m c => match c with (c_max_node, r) => Some r | _ => m end) max_node log1) log2.
Proof.
  induction log1 as [|[c r] log1 IH]; intros available max_node; cbn [app disciplined].
  { unfold known_available. cbn. by rewrite orb_false_r. }
  unfold known_available in *. cbn [existsb foldl].
  destruct c; rewrite IH; cbn [orb]; rewrite <- ?andb_assoc; try done. by rewrite orb_assoc.
Qed.

Lemma fine_snoc log c r :
  fine (log ++ [(c, r)]) <-> fine log /\ disciplined (known_available log) (known_max log) [(c, r)] = true.
Proof. unfold fine. rewrite disciplined_app, andb_true_iff. by cbn [orb]. Qed.

Lemma known_available_snoc log c r :
  known_available (log ++ [(c, r)]) =
  known_available log || match c with c_available => r >=? 0 | _ => false end.
Proof. unfold known_available. rewrite existsb_app. cbn. by rewrite orb_false_r. Qed.

Lemma known_max_snoc log c r :
  known_max (log ++ [(c, r)]) = match c with c_max_node => Some r | _ => known_max log end.
Proof. unfold known_max. by rewrite foldl_app. Qed.

(** *** Operations *)

(** [numa_max_node] returns an [int]. *)
Class Laws : Prop := max_node_int : forall w : W, is_sint 32 (oracle w c_max_node).1.

Lemma ask_max_node (laws : Laws) e r e' : ask c_max_node e = (r, e') -> is_sint 32 r.
Proof.
  unfold ask. pose proof (laws (ext_world e)) as Hl. destruct (oracle _ _) as [r0 w]. by intros [= <- _].
Qed.

(** The log grows and stays fine. *)
Definition continues (e e' : St) : Prop :=
  (fine (ext_log e) -> fine (ext_log e')) /\
  (known_available (ext_log e) = true -> known_available (ext_log e') = true).

Lemma isAvailable_fine e b e' :
  isAvailable e = (b, e') -> continues e e' /\ (b = true -> known_available (ext_log e') = true).
Proof.
  unfold isAvailable. destruct (ask c_available e) as [r e1] eqn:E. apply ask_log in E. intros [= <- <-].
  unfold continues. rewrite E, fine_snoc, known_available_snoc. cbn. split; [split|].
  - done.
  - by intros ->.
  - intros ->. by rewrite orb_true_r.
Qed.

Lemma nodeCount_fine (laws : Laws) e n e' :
  nodeCount e = (n, e') -> continues e e' /\
  (0 < n -> known_available (ext_log e') = true /\ exists m, known_max (ext_log e') = Some m /\ n <= m + 1).
Proof.
  unfold nodeCount. destruct (isAvailable e) as [b e1] eqn:Eb. apply isAvailable_fine in Eb as [[C1 C2] Hb].
  destruct b; cbn [negb]; [|intros [= <- <-]; split; [done|lia]].
  destruct (ask c_max_node e1) as [r e2] eqn:E. pose proof (ask_max_node _ _ _ _ E) as Hr.
  apply ask_log in E. intros [= <- <-]. specialize (Hb eq_refl). unfold continues.
  rewrite E, fine_snoc, known_available_snoc, known_max_snoc. cbn. rewrite Hb. cbn. split; [split; [|done]; tauto|].
  intros _. split; [done|]. exists r. split; [done|]. unfold is_sint in Hr. destruct (decide (r = 2 ^ 31 - 1)) as [->|].
  - vm_compute. discriminate.
  - rewrite sint_small by lia. lia.
Qed.

Lemma currentCpuNode_fine e n e' : currentCpuNode e = (n, e') -> continues e e'.
Proof.
  unfold currentCpuNode. destruct (isAvailable e) as [b e1] eqn:Eb. apply isAvailable_fine in Eb as [[C1 C2] Hb].
  destruct b; cbn [negb]; [|by intros [= <- <-]]. specialize (Hb eq_refl). asks.
  - intros [= <- <-]. unfold continues. rewrite E, fine_snoc, known_available_snoc. cbn. rewrite Hb. tauto.
  - intros [= <- <-]. unfold continues. rewrite E0, E, !fine_snoc, !known_available_snoc. cbn.
    rewrite Hb. cbn. rewrite (proj2 (Z.leb_le _ _)) by lia. tauto.
Qed.

Lemma isValidNode_fine (laws : Laws) node e b e' :
  isValidNode node e = (b, e') -> continues e e' /\
  (b = true -> 0 <= node /\ known_available (ext_log e') = true /\
     exists m, known_max (ext_log e') = Some m /\ node <= m).
Proof.
  unfold isValidNode. bcase; [|by intros [= <- <-]].
  destruct (nodeCount e) as [n e1] eqn:En. apply (nodeCount_fine laws) in En as [C Hn]. intros [= <- <-].
  split; [done|]. intros Hlt%Z.ltb_lt. destruct Hn as (Ha & m & Hm & Hle); [lia|].
  split; [lia|]. split; [done|]. exists m. split; [done|lia].
Qed.

Lemma allocateOnNode_fine (laws : Laws) size node e p e' :
  allocateOnNode size node e = (p, e') -> continues e e' /\
  (p <> 0 -> exists r, In (c_alloc_onnode size node, r) (ext_log e')).
Proof.
  unfold allocateOnNode. bcase; [by intros [= <- <-]|].
  destruct (isValidNode node e) as [b e1] eqn:Eb. apply (isValidNode_fine laws) in Eb as [[C1 C2] Hb].
  destruct b; cbn [negb]; [|by intros [= <- <-]]. destruct Hb as (Hn & Ha & m & Hm & Hle); [done|].
  intros Ea%ask_log. unfold continues. rewrite Ea, fine_snoc, known_available_snoc. cbn [disciplined].
  rewrite Ha, Hm, (proj2 (Z.eqb_neq size 0)), (proj2 (Z.leb_le 0 node)), (proj2 (Z.leb_le node m)) by lia.
  cbn [andb negb orb]. split; [tauto|]. intros _. exists p. apply in_or_app. right. by left.
Qed.

(** Memory was handed out only by a library that is available. *)
Lemma fine_alloc_available log size node r :
  fine log -> In (c_alloc_onnode size node, r) log -> known_available log = true.
Proof.
  induction log as [|[c r'] log IH] using rev_ind; [done|]. intros [Hf Hc]%fine_snoc Hin.
  rewrite known_available_snoc. apply in_app_or in Hin as [Hin|[[= -> ->]|[]]].
  - by rewrite (IH Hf Hin).
  - cbn in Hc. by destruct (known_available log).
Qed.

(** *** Programs that use the functions *)

(** Memory that is freed is null or was returned by [allocateOnNode]. *)
Inductive step : St -> St -> Prop :=
  | step_available e b e' : isAvailable e = (b, e') -> step e e'
  | step_count e n e' : nodeCount e = (n, e') -> step e e'
  | step_node e n e' : currentCpuNode e = (n, e') -> step e e'
  | step_valid e node b e' : isValidNode node e = (b, e') -> step e e'
  | step_alloc e size node p e' : allocateOnNode size node e = (p, e') -> step e e'
  | step_free e memory size :
      memory = 0 \/ (exists s n, In (c_alloc_onnode s n, memory) (ext_log e)) ->
      step e (freeMemory memory size e).

(** Whatever a program does with these functions, libnuma is used by its rules. *)
Theorem numa_used_by_its_rules (laws : Laws) w e :
  rtc step (mkExt w []) e -> fine (ext_log e).
Proof.
  intros Hr. assert (forall a b, rtc step a b -> fine (ext_log a) -> fine (ext_log b)) as Hgen.
  2:{ by apply (Hgen _ _ Hr). }
  clear Hr. induction 1 as [|a b c Hs _ IH]; intros Ha; [done|]. apply IH. clear IH.
  destruct Hs as [? ? ? H|? ? ? H|? ? ? H|? ? ? ? H|? ? ? ? ? H|e0 memory size Hm].
  - by apply isAvailable_fine in H as [[C _] _]; apply C.
  - by apply (nodeCount_fine laws) in H as [[C _] _]; apply C.
  - by apply currentCpuNode_fine in H as [C _]; apply C.
  - by apply (isValidNode_fine laws) in H as [[C _] _]; apply C.
  - by apply (allocateOnNode_fine laws) in H as [[C _] _]; apply C.
  - unfold freeMemory. bcase; [done|]. destruct Hm as [?|(s & n & Hin)]; [lia|].
    destruct (ask (c_free memory size) e0) as [r e1] eqn:Ea. apply ask_log in Ea. cbn [snd]. rewrite Ea.
    apply fine_snoc. split; [done|]. cbn. rewrite (fine_alloc_available _ _ _ _ Ha Hin).
    by rewrite !(proj2 (Z.eqb_neq _ _)) by lia.
Qed.

End numa.
End Numa.

(** ** The asynchronous logger *)

Module Logger.

(** Names and patterns are strings; a pointer is its address; [None] is an exception. *)
Inductive Call : Type :=
  | c_init_thread_pool (queue_size threads : Z)
  | c_basic_file_sink (path : string) (truncate : bool)
  | c_thread_pool
  | c_async_logger (name : string) (sink pool : Z)
  | c_set_level (logger : Z)
  | c_set_pattern (logger : Z) (pattern : string)
  | c_register_logger (logger : Z)
  | c_flush (logger : Z)
  | c_drop (name : string)
  | c_shutdown.

Section logger.
Context {W : Type} `{!Oracle W Call (option Z)}.

(** The static pointer, [None] for null, and the library. *)
Record St : Type := mkSt { logger_ : option Z; lib : Ext W Call (option Z) }.

(** Whether the function returned; it throws what a call throws. *)
Abbreviation M := (St -> bool * St) (only parsing).

Definition ret : M := fun s => (true, s).

Definition try (c : Call) (k : Z -> M) : M := fun s =>
  match ask c (lib s) with
  | (Some r, e) => k r (mkSt (logger_ s) e)
  | (None, e) => (false, mkSt (logger_ s) e)
  end.

Definition assign (l : option Z) (k : M) : M := fun s => k (mkSt l (lib s)).

Definition AsyncLogger_initialize (filePath : string) : M := fun s =>
  match logger_ s with
  | Some _ => ret s
  | None =>
      try (c_init_thread_pool 8192 1) (fun _ =>
      try (c_basic_file_sink filePath true) (fun sink =>
      try c_thread_pool (fun pool =>
      try (c_async_logger "openhft" sink pool) (fun logger =>
      assign (Some logger) (
      try (c_set_level logger) (fun _ =>
      try (c_set_pattern logger "%Y-%m-%d %H:%M:%S.%e [%l] %v") (fun _ =>
      try (c_register_logger logger) (fun _ => ret)))))))) s
  end.

Definition AsyncLogger_shutdown : M := fun s =>
  match logger_ s with
  | None => ret s
  | Some logger =>
      try (c_flush logger) (fun _ =>
      try (c_drop "openhft") (fun _ =>
      assign None (try c_shutdown (fun _ => ret)))) s
  end.

Definition AsyncLogger_get (s : St) : option Z := logger_ s.

(** The logger registered after a log of calls. *)
Definition registered_from (reg : option Z) (log : list (Call * option Z)) : option Z :=
  foldl (fun reg c => match c with
                      | (c_register_logger l, Some _) => Some l
                      | (c_drop _, Some _) => None
                      | _ => reg
                      end) reg log.

Definition registered : list (Call * option Z) -> option Z := registered_from None.

(** Nothing is registered over a registered logger, and only the registered logger is
    flushed and dropped. *)
Fixpoint proper (reg : option Z) (log : list (Call * option Z)) : Prop :=
  match log with
  | [] => True
  | (c_register_logger l, r) :: log =>
      reg = None /\ proper (match r with Some _ => Some l | None => reg end) log
  | (c_flush l, _) :: log => reg = Some l /\ proper reg log
  | (c_drop _, r) :: log => reg <> None /\ proper (match r with Some _ => None | None => reg end) log
  | _ :: log => proper reg log
  end.

(** The calls that only configure a logger, or flush and drop the one registered, return;
    opening the file and the thread pool may fail. *)
Class Laws : Prop := configures : forall (w : W) c,
  match c with
  | c_set_level _ | c_set_pattern _ _ | c_register_logger _ | c_flush _ | c_drop _ | c_shutdown =>
      is_Some (oracle w c).1
  | _ => True
  end.

Definition inv (s : St) : Prop :=
  proper None (ext_log (lib s)) /\ registered (ext_log (lib s)) = logger_ s.

Lemma registered_snoc log c r :
  registered (log ++ [(c, r)]) =
  match c, r with
  | c_register_logger l, Some _ => Some l
  | c_drop _, Some _ => None
  | _, _ => registered log
  end.
Proof. unfold registered, registered_from. rewrite foldl_app. cbn. by destruct c, r. Qed.

Lemma proper_snoc log c r :
  proper None (log ++ [(c, r)]) <-> proper None log /\ proper (registered log) [(c, r)].
Proof.
  unfold registered. generalize (@None Z). induction log as [|[c' r'] log IH]; intros reg; cbn [app].
  { cbn. tauto. }
  destruct c', r'; cbn [proper]; rewrite IH; unfold registered_from; cbn [foldl]; tauto.
Qed.

Lemma ask_law (laws : Laws) c e r e' :
  ask c e = (r, e') ->
  match c with
  | c_set_level _ | c_set_pattern _ _ | c_register_logger _ | c_flush _ | c_drop _ | c_shutdown => is_Some r
  | _ => True
  end.
Proof.
  unfold ask. pose proof (laws (ext_world e) c) as Hl. destruct (oracle _ _) as [r0 w]. intros [= <- _].
  exact Hl.
Qed.

(** Makes the calls of a goal one by one. *)
Ltac lib_calls laws :=
  repeat match goal with
  | |- context [ask ?c ?e] =>
      let r := fresh "r" in let e' := fresh "e" in let E := fresh "E" in let Hl := fresh "Hl" in
      destruct (ask c e) as [r e'] eqn:E; pose proof (ask_law laws _ _ _ _ E) as Hl; apply ask_log in E;
      destruct r; [|try (by destruct Hl)]; clear Hl; cbn [lib logger_]
  end.

Lemma initialize_inv (laws : Laws) path s b s' :
  inv s -> AsyncLogger_initialize path s = (b, s') ->
  inv s' /\ (b = true -> is_Some (AsyncLogger_get s')) /\
  (forall l, AsyncLogger_get s = Some l -> s' = s /\ b = true).
Proof.
  intros [Hp Hr]. unfold AsyncLogger_initialize, AsyncLogger_get, inv. destruct s as [[l|] e]; cbn in *.
  { intros [= <- <-]. split; [done|]. split; [by eexists|done]. }
  unfold try, assign, ret; cbn [lib logger_]; lib_calls laws; intros [= <- <-]; cbn [lib logger_];
    repeat match goal with E : ext_log _ = _ |- _ => rewrite E; clear E end;
    rewrite ?proper_snoc, ?registered_snoc; cbn; (split; [|split; [intros Hb; first [discriminate Hb|eexists; reflexivity]|done]]); tauto.
Qed.

Lemma shutdown_inv (laws : Laws) s b s' :
  inv s -> AsyncLogger_shutdown s = (b, s') -> inv s' /\ b = true /\ AsyncLogger_get s' = None.
Proof.
  intros [Hp Hr]. unfold AsyncLogger_shutdown, AsyncLogger_get, inv. destruct s as [[l|] e]; cbn in *.
  2:{ by intros [= <- <-]. }
  unfold try, assign, ret; cbn [lib logger_]; lib_calls laws; intros [= <- <-]; cbn [lib logger_];
    repeat match goal with E : ext_log _ = _ |- _ => rewrite E; clear E end;
    rewrite ?proper_snoc, ?registered_snoc; cbn; rewrite ?Hr; (split; [|done]); naive_solver.
Qed.

Inductive step : St -> St -> Prop :=
  | step_initialize s path b s' : AsyncLogger_initialize path s = (b, s') -> step s s'
  | step_shutdown s b s' : AsyncLogger_shutdown s = (b, s') -> step s s'.

(** However often the logger is initialised and shut down, also when opening its file fails,
    the library holds exactly the logger [get] returns, never registers it twice and drops
    only what is registered; after [shutdown] there is none, and after an [initialize] that
    returned there is one. *)
Theorem logger_registered_once (laws : Laws) w s :
  rtc step (mkSt None (mkExt w [])) s ->
  proper None (ext_log (lib s)) /\ registered (ext_log (lib s)) = AsyncLogger_get s /\
  (forall path s', AsyncLogger_initialize path s = (true, s') -> is_Some (AsyncLogger_get s')) /\
  (forall b s', AsyncLogger_shutdown s = (b, s') -> b = true /\ AsyncLogger_get s' = None).
Proof.
  intros Hr. assert (inv s) as Hi.
  { assert (forall a b, rtc step a b -> inv a -> inv b) as Hgen; [|by apply (Hgen _ _ Hr)].
    clear Hr. induction 1 as [|a b c Hs _ IH]; intros Ha; [done|]. apply IH.
    destruct Hs as [? ? ? ? E|? ? ? E];
      [by apply (initialize_inv laws) in E as [? _]|by apply (shutdown_inv laws) in E as [? _]]. }
  destruct Hi as [Hp Hreg]. split; [done|]. split; [done|]. split.
  - intros path s' E. apply (initialize_inv laws) in E as (_ & H & _); [by apply H|by split].
  - intros b s' E. apply (shutdown_inv laws) in E as (_ & ? & ?); [done|by split].
Qed.

End logger.
End Logger.

(** ** The life of a capture reader *)

Module Pcap.

Inductive Call : Type :=
  | c_open_offline (path : string)
  | c_next_ex (handle : Z)
  | c_geterr (handle : Z)
  | c_close (handle : Z).

(** The returned pointer or status, and the packet [pcap_next_ex] points at. *)
Record Reply : Type := mkReply { p_ret : Z; p_data : bytes; p_caplen : Z }.

Section reader.
Context {W : Type} `{!Oracle W Call Reply}.

Abbreviation St := (Ext W Call Reply).

(** The handle, [None] for the exception thrown when the file cannot be opened. *)
Definition PcapReplayReader_new (path : string) (e : St) : option Z * St :=
  let '(handle, e) := ask (c_open_offline path) e in
  if p_ret handle =? 0 then (None, e) else (Some (p_ret handle), e).

Definition PcapReplayReader_delete (handle : Z) (e : St) : St :=
  if negb (handle =? 0) then (ask (c_close handle) e).2 else e.

(** The text of the exception comes from [pcap_geterr]. *)
Definition nextPacket (handle : Z) (e : St) : pcap_outcome * St :=
  let '(r, e) := ask (c_next_ex handle) e in
  match PcapReplayReader_nextPacket (p_ret r) (p_data r) (p_caplen r) with
  | Throws => let '(_, e) := ask (c_geterr handle) e in (Throws, e)
  | outcome => (outcome, e)
  end.

(** A scope that reads at most [n] packets: what it read, and how it was left. *)
Fixpoint read_packets (n : nat) (handle : Z) (e : St) : list (bytes * Z) * pcap_outcome * St :=
  match n with
  | O => ([], NoPacket, e)
  | S n =>
      let '(outcome, e) := nextPacket handle e in
      match outcome with
      | Packet data length =>
          let '(packets, last, e) := read_packets n handle e in ((data, length) :: packets, last, e)
      | _ => ([], outcome, e)
      end
  end.

(** The destructor runs on every way out of the scope; [None] when the constructor threw. *)
Definition capture_scope (path : string) (n : nat) (e : St)
    : option (list (bytes * Z) * pcap_outcome) * St :=
  let '(handle, e) := PcapReplayReader_new path e in
  match handle with
  | None => (None, e)
  | Some handle =>
      let '(packets, last, e) := read_packets n handle e in
      (Some (packets, last), PcapReplayReader_delete handle e)
  end.

(** The packets in the answers of [pcap_next_ex]. *)
Definition answered_packet (c : Call * Reply) : option (bytes * Z) :=
  match c with
  | (c_next_ex _, r) => if p_ret r =? 1 then Some (p_data r, p_caplen r) else None
  | _ => None
  end.

(** Calls on an open handle that do not close it. *)
Definition uses (handle : Z) (c : Call * Reply) : Prop := c.1 = c_next_ex handle \/ c.1 = c_geterr handle.

Lemma nextPacket_log handle e outcome e' :
  nextPacket handle e = (outcome, e') ->
  exists calls, ext_log e' = ext_log e ++ calls /\ Forall (uses handle) calls /\
    omap answered_packet calls = match outcome with Packet d l => [(d, l)] | _ => [] end.
Proof.
  unfold nextPacket. destruct (ask (c_next_ex handle) e) as [r e1] eqn:E. apply ask_log in E.
  unfold PcapReplayReader_nextPacket, PCAP_ERROR_BREAK, PCAP_ERROR.
  repeat match goal with |- context [if ?b then _ else _] => destruct b eqn:? end;
    try (destruct (ask (c_geterr handle) e1) as [r2 e2] eqn:E2; apply ask_log in E2); intros [= <- <-];
    rewrite ?E2, E, <- ?app_assoc; eexists; (split; [done|]);
    (split; [repeat constructor|]); cbn; by rewrite Heqb.
Qed.

Lemma read_packets_log n handle : forall e packets last e',
  read_packets n handle e = (packets, last, e') ->
  exists calls, ext_log e' = ext_log e ++ calls /\ Forall (uses handle) calls /\
    omap answered_packet calls = packets.
Proof.
  induction n as [|n IH]; intros e packets last e'; cbn [read_packets].
  { intros [= <- <- <-]. exists []. by rewrite app_nil_r. }
  destruct (nextPacket handle e) as [outcome e1] eqn:E.
  apply nextPacket_log in E as (calls & El & Hu & Ha). destruct outcome as [data len| | |].
  2-4: intros [= <- <- <-]; by exists calls.
  destruct (read_packets n handle e1) as [[packets1 last1] e2] eqn:Er.
  apply IH in Er as (calls1 & El1 & Hu1 & Ha1). intros [= <- <- <-]. exists (calls ++ calls1).
  rewrite El1, El, app_assoc. split; [done|]. split; [by apply Forall_app|]. by rewrite omap_app, Ha, Ha1.
Qed.

(** However the scope is left, the capture is opened once, read through its own handle,
    and closed exactly once after the last read, or not at all when it could not be
    opened; what was read are the packets the library answered with, in order. *)
Theorem capture_closed_exactly_once path n (w : W) result e :
  capture_scope path n (mkExt w []) = (result, e) ->
  match result with
  | None => exists r, ext_log e = [(c_open_offline path, r)] /\ p_ret r = 0
  | Some (packets, _) => exists r calls last,
      ext_log e = (c_open_offline path, r) :: calls ++ [(c_close (p_ret r), last)] /\ p_ret r <> 0 /\
      Forall (uses (p_ret r)) calls /\ omap answered_packet calls = packets
  end.
Proof.
  unfold capture_scope, PcapReplayReader_new, PcapReplayReader_delete.
  destruct (ask (c_open_offline path) (mkExt w [])) as [r e1] eqn:E. apply ask_log in E. cbn in E.
  destruct (Z.eqb_spec (p_ret r) 0) as [Hz|Hz]; [intros [= <- <-]; by exists r|].
  destruct (read_packets n (p_ret r) e1) as [[packets last] e2] eqn:Er.
  apply read_packets_log in Er as (calls & El & Hu & Ha). rewrite (proj2 (Z.eqb_neq _ _)) by done.
  cbn [negb]. destruct (ask (c_close (p_ret r)) e2) as [r3 e3] eqn:Ec. apply ask_log in Ec.
  intros [= <- <-]. cbn [snd]. exists r, calls, r3. by rewrite Ec, El, E.
Qed.

End reader.
End Pcap.

(** ** The ITCH sender *)

Module Sender.

Inductive Call : Type :=
  | c_socket_dgram
  | c_inet_pton (host : string)
  | c_sendto (fd : Z) (data : bytes) (addr : bytes) (port : Z)
  | c_close (fd : Z).

(** The return value, and the address [inet_pton] wrote. *)
Record Reply : Type := mkReply { s_ret : Z; s_addr : bytes }.

(** [AddOrderWireMessage message], its fields assigned through [htons], [htonl] and
    [hostToBigEndian64] and laid out without padding. *)
Definition sender_message (little : bool) : bytes :=
  [char_A] ++ network_bytes little 2 1 ++ network_bytes little 2 1 ++ replicate 6 0 ++
  network_bytes little 8 12345 ++ [char_B] ++ network_bytes little 4 100 ++ chars "AAPL    " ++
  network_bytes little 4 50000.

Section sender.
Context {W : Type} `{!Oracle W Call Reply}.

Abbreviation St := (Ext W Call Reply).

(** The exit status and the text on the standard output. *)
Definition itch_sender_main (little : bool) (e : St) : Z * string * St :=
  let message := sender_message little in
  let '(sock, e) := ask c_socket_dgram e in
  if s_ret sock <? 0 then (1, EmptyString, e)
  else
    let '(converted, e) := ask (c_inet_pton "192.168.50.2") e in
    if negb (s_ret converted =? 1) then
      let '(_, e) := ask (c_close (s_ret sock)) e in (1, EmptyString, e)
    else
      let '(sent, e) := ask (c_sendto (s_ret sock) message (s_addr converted) 9000) e in
      if negb (s_ret sent =? Z.of_nat (length message)) then
        let '(_, e) := ask (c_close (s_ret sock)) e in (1, EmptyString, e)
      else
        let text := ("Sent ITCH AddOrder: id=12345 symbol=AAPL side=BUY shares=100 price=1000000 bytes=" ++
                     decimal_string (s_ret sent) ++ newline)%string in
        let '(_, e) := ask (c_close (s_ret sock)) e in (0, text, e).

(** The socket is closed exactly once, as the last call, on every path on which it was
    opened; the program succeeds exactly when the whole datagram went to port 9000; and
    the datagram decodes, on hosts of either byte order, to the order to buy 100 shares at
    50000, whatever price the message on the console names. *)
Theorem sender_sends_one_order little (w : W) status text e :
  itch_sender_main little (mkExt w []) = (status, text, e) ->
  itch_event (sender_message little) = Some (mkEvent AddOrder 12345 0 0 Buy (chars "AAPL    ") 50000 100) /\
  match ext_log e with
  | [(c_socket_dgram, sock)] => s_ret sock < 0 /\ status = 1
  | [(c_socket_dgram, sock); (c_inet_pton _, ok); (c_close fd, _)] =>
      0 <= s_ret sock /\ fd = s_ret sock /\ s_ret ok <> 1 /\ status = 1
  | [(c_socket_dgram, sock); (c_inet_pton _, ok); (c_sendto fd data addr port, sent); (c_close fd', _)] =>
      0 <= s_ret sock /\ fd = s_ret sock /\ fd' = s_ret sock /\ data = sender_message little /\
      addr = s_addr ok /\ port = 9000 /\ (status = 0 <-> s_ret sent = 36)
  | _ => False
  end.
Proof.
  intros E. split; [by destruct little; vm_compute|]. revert E. unfold itch_sender_main. cbv zeta.
  assert (Z.of_nat (length (sender_message little)) = 36) as -> by (by destruct little).
  asks; intros [= <- <- <-]; repeat match goal with E : ext_log _ = _ |- _ => rewrite E; clear E end; cbn;
    bprop; split_and!; try lia; try done.
Qed.

End sender.
End Sender.
