(* ===== verification/ReplayRun.v ===== *)
(** * A replay run

    The replay branch of [main] in [apps/trading_runtime.cpp]: the main thread starts
    the pipeline, dispatches the messages of the file into it, waits until the worker
    has counted them all, and stops the pipeline, while the worker consumes.  A run is
    an interleaving of the steps of the two threads. *)

From S2P Require Import Prelude Types OrderBook BookStore Consumer SpscRing Pipeline.
From S2P Require Import Wire Ouch Packets Itch Replay.

(** Where the main thread is: in the reading loop, in the loop that waits for
    [processedCount], in [stop], or behind it. *)
Inductive replay_phase : Type := Reading | Waiting | Stopping | Finished.

Section run.

Context {E : Type} `{!EventConsumer E} (little : bool).

(** [run_read] is ghost state, the messages read so far. *)
Record ReplayRun : Type := mkRun {
  run_stream : ifstream;
  run_message : bytes;
  run_replayed : Z;
  run_phase : replay_phase;
  run_pipe : MarketDataPipeline (E := E);
  run_read : list bytes
}.

(** The reader is open and [pipeline.start()] has been called. *)
Definition replay_start (file : bytes) (consumer : E) : ReplayRun :=
  mkRun (ItchReplayReader_new (Some file)) [] 0 Reading
    (MarketDataPipeline_start (MarketDataPipeline_new consumer)) [].

Definition set_pipe (r : ReplayRun) (phase : replay_phase) (p : MarketDataPipeline) : ReplayRun :=
  mkRun (run_stream r) (run_message r) (run_replayed r) phase p (run_read r).

(** One step of the main thread; [None] while it blocks in [join], at its end, or on
    undefined behaviour. *)
Definition main_step (r : ReplayRun) : option ReplayRun :=
  match run_phase r with
  | Reading =>
      let '(more, message, stream) := ItchReplayReader_readNext little (run_stream r) (run_message r) in
      if (more : bool) then
        '(pipe, replayedMessages) ← replay_dispatch little message (run_pipe r) (run_replayed r);
        Some (mkRun stream message replayedMessages Reading pipe (run_read r ++ [message]))
      else Some (mkRun stream message (run_replayed r) Waiting (run_pipe r) (run_read r))
  | Waiting =>
      if processedCount_ (run_pipe r) <? run_replayed r then Some r
      else Some (set_pipe r Stopping (MarketDataPipeline_stop (run_pipe r)))
  | Stopping =>
      match worker_ (run_pipe r) with
      | W_exit => Some (set_pipe r Finished (joined (run_pipe r)))
      | _ => None
      end
  | Finished => None
  end.

Inductive replay_step : ReplayRun -> ReplayRun -> Prop :=
  | replay_main r r' : main_step r = Some r' -> replay_step r r'
  | replay_worker r p : worker_step (run_pipe r) = Some p -> replay_step r (set_pipe r (run_phase r) p).

(** ** Invariant *)

Record run_inv (messages : list bytes) (consumer : E) (r : ReplayRun) : Prop := {
  ri_pipe : pipeline_reachable consumer (run_pipe r);
  ri_main : match run_phase r with
            | Reading | Waiting => main_ (run_pipe r) = M_ready /\ running_ (run_pipe r) = true
            | Stopping => main_ (run_pipe r) = M_joining /\ running_ (run_pipe r) = false
            | Finished => consumed_ (run_pipe r) = accepted_ (run_pipe r)
            end;
  ri_read : exists todo, messages = run_read r ++ todo /\
    match run_phase r with
    | Reading => exists rest, run_stream r = good_stream rest /\ framed_file rest todo /\ all_bytes rest
    | _ => todo = []
    end;
  ri_accepted : accepted_ (run_pipe r) `sublist_of` omap itch_event (run_read r);
  ri_replayed : run_replayed r = Z.of_nat (length (accepted_ (run_pipe r)));
  ri_started : started_at_ (run_pipe r) = O
}.

Lemma submit_pipe (p : MarketDataPipeline (E := E)) event :
  let '(ok, p') := MarketDataPipeline_submit p event in
  main_ p' = main_ p /\ running_ p' = running_ p /\ started_at_ p' = started_at_ p /\
  accepted_ p' = if ok then accepted_ p ++ [event] else accepted_ p.
Proof. unfold MarketDataPipeline_submit. by destruct (tryPush _ _ _). Qed.

(** What a worker step leaves alone. *)
Lemma worker_step_keeps (p p' : MarketDataPipeline (E := E)) :
  worker_step p = Some p' ->
  main_ p' = main_ p /\ running_ p' = running_ p /\ started_at_ p' = started_at_ p /\
  accepted_ p' = accepted_ p /\ (exists more, consumed_ p' = consumed_ p ++ more).
Proof.
  assert (forall l : list MarketDataEvent, exists more, l = l ++ more) as H0
    by (intros; exists []; by rewrite app_nil_r).
  unfold worker_step. destruct (worker_ p); try done; intros [= <-]; cbn; [done| |done].
  unfold worker_pop. destruct (tryPop _ _ _) as [[event|] queue]; cbn; [|done].
  do 4 (split; [done|]). by eexists.
Qed.

Lemma sublist_snoc {A} (l k : list A) x : l `sublist_of` k -> l ++ [x] `sublist_of` k ++ [x].
Proof. intros H. by apply sublist_app. Qed.

Lemma sublist_full {A} (l k : list A) : l `sublist_of` k -> (length k <= length l)%nat -> l = k.
Proof.
  induction 1 as [|x l k Hs IH|x l k Hs IH]; cbn; intros Hl; [done|f_equal; apply IH; lia|].
  apply sublist_length in Hs. lia.
Qed.

Section inv.
Context (messages : list bytes) (consumer : E).
Context (Hsize : Z.of_nat (length messages) < 2 ^ 64).
Abbreviation inv := (run_inv messages consumer).

Lemma run_inv_start file :
  framed_file file messages -> all_bytes file -> inv (replay_start file consumer).
Proof.
  intros Hfile Hbytes. constructor; cbn; try done.
  - eapply rtc_l; [by apply step_start|]. apply rtc_refl.
  - exists messages. split; [done|]. by exists file.
Qed.

(** A message that is read: its event, if any, goes through [submit]. *)
Lemma read_inv r message rest todo :
  inv r -> run_phase r = Reading -> messages = run_read r ++ message :: todo ->
  framed_file rest todo -> all_bytes rest -> all_bytes message ->
  exists pipe k, replay_dispatch little message (run_pipe r) (run_replayed r) = Some (pipe, k) /\
    inv (mkRun (good_stream rest) message k Reading pipe (run_read r ++ [message])).
Proof.
  intros [Hp Hm _ Ha Hk Hs] Eph Em Hf Hb Hmb. rewrite Eph in Hm. destruct Hm as [Hm Hr].
  rewrite replay_dispatch_spec by done. unfold replay_one. cbn [fst snd].
  assert (exists todo', messages = (run_read r ++ [message]) ++ todo' /\
    exists rest', good_stream rest = good_stream rest' /\ framed_file rest' todo' /\ all_bytes rest')
    as Hread by (exists todo; split; [by rewrite <- app_assoc|by exists rest]).
  destruct (itch_event message) as [event|] eqn:Eev.
  - pose proof (submit_pipe (run_pipe r) event) as Hsub.
    pose proof (step_submit (run_pipe r) event Hm) as Hstep.
    change (event_submit (run_pipe r) event) with (MarketDataPipeline_submit (run_pipe r) event).
    destruct (MarketDataPipeline_submit (run_pipe r) event) as [ok pipe]. cbn [snd] in Hstep.
    destruct Hsub as (Em' & Er' & Es' & Ea').
    do 2 eexists. split; [done|]. constructor; cbn.
    + eapply rtc_r; [exact Hp|exact Hstep].
    + by rewrite Em', Er'.
    + exact Hread.
    + rewrite omap_app. cbn. rewrite Eev, Ea'. destruct ok; [by apply sublist_snoc|].
      by apply sublist_inserts_r.
    + rewrite Ea'. destruct ok; [|done]. rewrite length_app. cbn. rewrite wrap_small; [lia|].
      pose proof (sublist_length _ _ Ha) as Hl. pose proof (length_omap_le itch_event (run_read r)) as Ho.
      apply (f_equal length) in Em. rewrite length_app in Em. cbn in Em. lia.
    + by rewrite Es'.
  - do 2 eexists. split; [done|]. constructor; cbn; try done.
    rewrite omap_app. cbn. by rewrite Eev, app_nil_r.
Qed.

(** The main thread takes a step, and keeps the invariant, unless it waits for the
    worker in [stop] or has finished. *)
Lemma main_step_inv r :
  inv r ->
  (run_phase r = Finished \/ run_phase r = Stopping /\ worker_ (run_pipe r) <> W_exit) \/
  exists r', main_step r = Some r' /\ inv r' /\
    match run_phase r with
    | Reading => run_phase r' = Waiting \/
        run_phase r' = Reading /\ (length (run_read r) < length (run_read r') <= length messages)%nat
    | Waiting => if processedCount_ (run_pipe r) <? run_replayed r then r' = r else run_phase r' = Stopping
    | _ => run_phase r' = Finished
    end.
Proof.
  intros I. unfold main_step. destruct (run_phase r) eqn:Eph.
  - right. destruct (ri_read _ _ _ I) as (todo & Em & Hph). rewrite Eph in Hph.
    destruct Hph as (rest & Es & Hf & Hb). rewrite Es.
    inversion Hf as [tail Hi|header message rest' todo' H2 Hv Hne Hf']; subst rest todo.
    + destruct (readNext_end little tail (run_message r) Hb Hi) as (m & stream & ->).
      eexists. split; [done|]. split; [|by left]. destruct I as [Hp Hm _ Ha Hk Hst].
      rewrite Eph in Hm. constructor; cbn; try done. by exists [].
    + apply Forall_app in Hb as [Hbh [Hbm Hbr]%Forall_app].
      rewrite readNext_message by done.
      destruct (read_inv r message rest' todo') as (pipe & k & -> & I'); [done..|].
      eexists. split; [done|]. split; [exact I'|]. right. cbn. split; [done|].
      apply (f_equal length) in Em. rewrite !length_app in *. cbn in *. lia.
  - right. destruct I as [Hp Hm Hr Ha Hk Hst]. rewrite Eph in Hm, Hr.
    destruct (processedCount_ (run_pipe r) <? run_replayed r) eqn:Ec.
    + exists r. split; [done|]. split; [|done]. constructor; rewrite ?Eph; done.
    + eexists. split; [done|]. split; [|done]. unfold MarketDataPipeline_stop.
      destruct Hm as [Hm Hrun]. rewrite Hrun. constructor; cbn; try done.
      eapply rtc_r; [exact Hp|]. pose proof (step_stop (run_pipe r) Hm) as Hs.
      unfold MarketDataPipeline_stop in Hs. by rewrite Hrun in Hs.
  - destruct (worker_ (run_pipe r)) eqn:Ew; try (by left; right). right.
    destruct I as [Hp Hm Hr Ha Hk Hst]. rewrite Eph in Hm, Hr. destruct Hm as [Hm Hrun].
    eexists. split; [done|]. split; [|done]. pose proof (pipeline_reachable_inv _ _ Hp) as Ip.
    destruct (pi_queue _ _ Ip) as (q & _ & Eq & Hq). rewrite Ew in Hq. rewrite Hq, app_nil_r in Eq.
    constructor; cbn; try done. eapply rtc_r; [exact Hp|]. by apply step_join.
  - by left; left.
Qed.

Lemma worker_inv r p :
  inv r -> worker_step (run_pipe r) = Some p -> inv (set_pipe r (run_phase r) p).
Proof.
  intros [Hp Hm Hr Ha Hk Hst] Hw. pose proof (worker_step_keeps _ _ Hw) as (Em & Er & Es & Ea & more & Ec).
  pose proof (rtc_r _ _ _ Hp (step_worker _ _ Hw)) as Hp'. pose proof (pipeline_reachable_inv _ _ Hp') as I'.
  constructor; cbn; try done.
  - rewrite Em, Er. destruct (run_phase r); [done..|].
    destruct (pi_queue _ _ I') as (q & _ & Eq & _). rewrite Ec, Ea, Hm in *.
    apply (f_equal length) in Eq. rewrite !length_app in Eq.
    destruct more; [by rewrite app_nil_r|cbn in Eq; lia].
  - by rewrite Ea.
  - by rewrite Ea.
  - by rewrite Es.
Qed.

Lemma replay_inv file r :
  framed_file file messages -> all_bytes file ->
  rtc replay_step (replay_start file consumer) r -> inv r.
Proof.
  intros Hf Hb. revert r. apply (rtc_ind_r (R := replay_step)); [by apply run_inv_start|].
  intros r r' _ Hstep I. destruct Hstep as [r r' Hs|r p Hw]; [|by apply worker_inv].
  destruct (main_step_inv r I) as [[E0|[E0 Hne]]|(r1 & Hs1 & I1 & _)].
  - unfold main_step in Hs. by rewrite E0 in Hs.
  - unfold main_step in Hs. rewrite E0 in Hs. by destruct (worker_ (run_pipe r)).
  - congruence.
Qed.

(** ** The run can always be finished *)

Lemma worker_run r p :
  worker_steps (run_pipe r) p -> rtc replay_step r (set_pipe r (run_phase r) p).
Proof.
  remember (run_pipe r) as p0 eqn:E0. intros H. revert r E0.
  induction H as [p0|p0 p1 p' Hs _ IH]; intros r ->.
  - destruct r. apply rtc_refl.
  - eapply rtc_l; [by apply replay_worker|]. by apply (IH (set_pipe r (run_phase r) p1)).
Qed.

Lemma stopping_finishes r : inv r -> run_phase r = Stopping ->
  exists r', rtc replay_step r r' /\ run_phase r' = Finished.
Proof.
  intros I Eph. pose proof (ri_main _ _ _ I) as Hm. rewrite Eph in Hm. destruct Hm as [Hm Hr].
  pose proof (pipeline_reachable_inv _ _ (ri_pipe _ _ _ I)) as Ip.
  destruct (worker_exits consumer (run_pipe r) Ip Hr) as (p' & Hs & Hw); [by apply (pi_joining _ _ Ip)|].
  eexists. split; [eapply rtc_r; [by apply worker_run|]|].
  - apply replay_main. unfold main_step. cbn. by rewrite Eph, Hw.
  - done.
Qed.

(** The worker reaches the count the main thread waits for. *)
Lemma waiting_released r : inv r -> run_phase r = Waiting ->
  exists p', worker_steps (run_pipe r) p' /\ run_replayed r <= processedCount_ p'.
Proof.
  intros I Eph. pose proof (ri_main _ _ _ I) as Hm. rewrite Eph in Hm. destruct Hm as [Hm Hr].
  pose proof (pipeline_reachable_inv _ _ (ri_pipe _ _ _ I)) as Ip.
  destruct (worker_catches_up consumer (run_pipe r) Ip Hr) as (p' & Hs & Em & Ea & Er & Ec & Hpd & Hw).
  exists p'. split; [done|]. pose proof (worker_steps_inv _ _ _ Ip Hs) as Ip'.
  assert (started_at_ p' = O) as Est.
  { clear - Hs I. pose proof (ri_started _ _ _ I) as E0. induction Hs as [|p p1 p' Hw _ IH]; [done|].
    apply IH. apply worker_step_keeps in Hw as (_ & _ & -> & _). done. }
  pose proof (pi_count _ _ Ip' Hw) as Hc. rewrite Hpd, Est, Ec, Z.add_0_r in Hc.
  pose proof (pi_range _ _ Ip') as Hrg. unfold is_uint in Hrg. rewrite (wrap_small 64 (processedCount_ p')) in Hc by done.
  rewrite Hc, (ri_replayed _ _ _ I). pose proof (sublist_length _ _ (ri_accepted _ _ _ I)) as Hl.
  pose proof (length_omap_le itch_event (run_read r)) as Ho.
  destruct (ri_read _ _ _ I) as (todo & Em' & _). apply (f_equal length) in Em'.
  rewrite length_app in Em'. rewrite wrap_small; lia.
Qed.

Lemma waiting_finishes r : inv r -> run_phase r = Waiting ->
  exists r', rtc replay_step r r' /\ run_phase r' = Finished.
Proof.
  intros I Eph. destruct (waiting_released r I Eph) as (p' & Hs & Hge).
  pose proof (worker_run r p' Hs) as Hrun. set (r1 := set_pipe r (run_phase r) p') in *.
  assert (inv r1) as I1.
  { clear - I Hs. subst r1. remember (run_pipe r) as p eqn:E0. revert r I E0.
    induction Hs as [p|p p1 p' Hw _ IH]; intros r I ->; [by destruct r|].
    apply (IH (set_pipe r (run_phase r) p1)); [by apply worker_inv|done]. }
  assert (run_phase r1 = Waiting) as Eph1 by exact Eph.
  destruct (main_step_inv r1 I1) as [[?|[? _]]|(r2 & Hm & I2 & H2)]; [congruence..|].
  rewrite Eph1 in H2. rewrite (proj2 (Z.ltb_ge _ _)) in H2 by exact Hge.
  destruct (stopping_finishes r2 I2 H2) as (r3 & Hs3 & E3). exists r3. split; [|done].
  etrans; [exact Hrun|]. eapply rtc_l; [by apply replay_main|exact Hs3].
Qed.

Lemma replay_finishes r : inv r -> exists r', rtc replay_step r r' /\ run_phase r' = Finished.
Proof.
  remember (length messages - length (run_read r))%nat as n eqn:En. revert r En.
  induction (lt_wf n) as [n _ IH]; intros r -> I. destruct (run_phase r) eqn:Eph.
  - destruct (main_step_inv r I) as [[?|[? _]]|(r1 & Hm & I1 & H1)]; [congruence..|].
    rewrite Eph in H1.
    assert (exists r', rtc replay_step r1 r' /\ run_phase r' = Finished) as (r' & Hs & E').
    { destruct H1 as [H1|[H1 Hl]]; [by apply waiting_finishes|]. eapply IH; [|done|done]. lia. }
    exists r'. split; [|done]. eapply rtc_l; [by apply replay_main|done].
  - by apply waiting_finishes.
  - by apply stopping_finishes.
  - exists r. split; [apply rtc_refl|done].
Qed.

End inv.
End run.

(** ** Properties *)

(** C34: A replay always can run to its end and delivers what was accepted.  In every
    interleaving of the main thread and the worker: from every state the run can be
    finished, so that neither the loop that waits for [processedCount] nor [stop] is
    stuck; the main thread is never in an undefined state, it only blocks in [stop]; the
    events in the pipeline are messages of the file, in their order, and their number is
    [replayedMessages]; and at the end every message has been read and the consumer has
    consumed exactly the accepted events, once each and in order. *)
Theorem replay_run_finishes :
  forall (E : Type) (EC : EventConsumer E) (consumer : E) (little : bool) (file : bytes)
    (messages : list bytes) (r : ReplayRun),
  framed_file file messages -> all_bytes file -> Z.of_nat (length messages) < 2 ^ 64 ->
  rtc (replay_step little) (replay_start file consumer) r ->
  (exists r', rtc (replay_step little) r r' /\ run_phase r' = Finished) /\
  (run_phase r = Finished \/ run_phase r = Stopping /\ worker_ (run_pipe r) <> W_exit \/
   exists r', main_step little r = Some r') /\
  accepted_ (run_pipe r) `sublist_of` omap itch_event (run_read r) /\
  run_replayed r = Z.of_nat (length (accepted_ (run_pipe r))) /\
  (run_phase r = Finished -> run_read r = messages /\
     consumer_ (run_pipe r) = foldl consume consumer (accepted_ (run_pipe r))).
Proof.
  intros E EC consumer little file messages r Hf Hb Hsize Hr.
  pose proof (replay_inv little messages consumer Hsize file r Hf Hb Hr) as I.
  split; [by apply (replay_finishes little messages consumer)|].
  split.
  { destruct (main_step_inv little messages consumer Hsize r I) as [[?|?]|(r' & ? & _)];
      [by left|by right; left|right; right; by exists r']. }
  split; [apply (ri_accepted _ _ _ I)|]. split; [apply (ri_replayed _ _ _ I)|].
  intros Eph. destruct (ri_read _ _ _ I) as (todo & Em & Ht). pose proof (ri_main _ _ _ I) as Hm.
  rewrite Eph in Ht, Hm. rewrite Em, Ht, app_nil_r. split; [done|].
  rewrite <- Hm. apply (pi_consumer _ _ (pipeline_reachable_inv _ _ (ri_pipe _ _ _ I))).
Qed.

(** From the replay file to the book.  When a replay into the book consumer has
    finished, with as many messages counted as the file has decodable ones, and the
    events of the file are admissible, the book shows the abstract book that those
    events give: from the bytes of the file to best prices and the queues of the price
    levels, whatever the interleaving. *)
Theorem replay_file_builds_the_book :
  forall (std_hash : Z -> Z) (base : Z) (little : bool) (file : bytes) (messages : list bytes)
    (r : ReplayRun),
  framed_file file messages -> all_bytes file -> Z.of_nat (length messages) < 2 ^ 64 ->
  rtc (replay_step (EventConsumer0 := book_event_consumer std_hash) little)
    (replay_start file (Some (MarketDataBookConsumer_new base))) r ->
  run_phase r = Finished -> run_replayed r = Z.of_nat (length (omap itch_event messages)) ->
  admissible_run [] (omap itch_event messages) ->
  exists c, consumer_ (run_pipe r) = Some c /\
    shows std_hash (con_book c) (con_heap c) (foldl spec_consume [] (omap itch_event messages)).
Proof.
  intros std_hash base little file messages r Hf Hb Hsize Hr Eph Hk Hadm.
  pose proof (replay_inv (EventConsumer0 := book_event_consumer std_hash) little messages _ Hsize file
    r Hf Hb Hr) as I.
  destruct (ri_read _ _ _ I) as (todo & Em & Ht). pose proof (ri_main _ _ _ I) as Hm.
  rewrite Eph in Ht, Hm. rewrite Ht, app_nil_r in Em.
  pose proof (ri_accepted _ _ _ I) as Ha. rewrite <- Em in Ha.
  pose proof (ri_replayed _ _ _ I) as Hl. rewrite Hk in Hl.
  assert (accepted_ (run_pipe r) = omap itch_event messages) as Ea
    by (apply sublist_full; [done|lia]).
  pose proof (pi_consumer _ _ (pipeline_reachable_inv (EventConsumer0 := book_event_consumer std_hash)
    _ _ (ri_pipe _ _ _ I))) as Hc. rewrite Hm, Ea in Hc.
  destruct (consume_all_refines std_hash (MarketDataBookConsumer_new base) [] (omap itch_event messages))
    as (c & Ec & L & R & <- & _); [|done|].
  { exists []. split; [apply store_new|done]. }
  exists c. split; [|by eapply store_shows]. rewrite Hc. exact Ec.
Qed.

(** Runs under a given schedule; [true] is a step of the main thread. *)
Fixpoint replay_schedule {E} `{!EventConsumer E} (little : bool) (schedule : list bool)
    (r : ReplayRun (E := E)) : option ReplayRun :=
  match schedule with
  | [] => Some r
  | true :: schedule => r ← main_step little r; replay_schedule little schedule r
  | false :: schedule =>
      p ← worker_step (run_pipe r); replay_schedule little schedule (set_pipe r (run_phase r) p)
  end.

Lemma replay_schedule_run {E} `{!EventConsumer E} little schedule : forall (r r' : ReplayRun (E := E)),
  replay_schedule little schedule r = Some r' -> rtc (replay_step little) r r'.
Proof.
  induction schedule as [|[] schedule IH]; intros r r'; cbn; [by intros [= ->]|..].
  - destruct (main_step little r) as [r1|] eqn:E1; [|done]. intros H.
    eapply rtc_l; [by apply replay_main|by apply IH].
  - destruct (worker_step (run_pipe r)) as [p|] eqn:E1; [|done]. intros H.
    eapply rtc_l; [by apply replay_worker|by apply IH].
Qed.

(** The sample file: both messages are read before the worker runs; the worker counts
    them, the main thread stops waiting, and the worker exits. *)
Definition demo_schedule : list bool :=
  [true; true; true; false; false; false; false; false; true; false; false; false; true].

Definition demo_replay_messages : list bytes :=
  [makeAddOrder true 5001 char_B 900 98; makeAddOrder true 5002 char_S 100 99].

Lemma demo_replay_file :
  framed_file (generate_sample_itch_replay true) demo_replay_messages /\
  all_bytes (generate_sample_itch_replay true).
Proof.
  split; [|apply (bool_decide_unpack _); vm_compute; exact I].
  rewrite <- (app_nil_r (generate_sample_itch_replay true)).
  apply (written_framed true demo_replay_messages []).
  - repeat constructor; try discriminate; apply (bool_decide_unpack _); vm_compute; exact I.
  - left. cbn. lia.
Qed.

Lemma replay_run_witness :
  exists r, rtc (replay_step (EventConsumer0 := recording_consumer) true)
      (replay_start (generate_sample_itch_replay true) []) r /\
    run_phase r = Finished /\ run_replayed r = 2 /\
    consumer_ (run_pipe r) = [mkEvent AddOrder 5001 0 0 Buy sample_symbol 98 900;
                              mkEvent AddOrder 5002 0 0 Sell sample_symbol 99 100].
Proof.
  assert ((fun r => (run_phase r, run_replayed r, accepted_ (run_pipe r))) <$>
    replay_schedule (EventConsumer0 := recording_consumer) true demo_schedule
      (replay_start (generate_sample_itch_replay true) []) =
    Some (Finished, 2, [mkEvent AddOrder 5001 0 0 Buy sample_symbol 98 900;
                        mkEvent AddOrder 5002 0 0 Sell sample_symbol 99 100])) as H
    by (vm_compute; reflexivity).
  destruct (replay_schedule _ _ _) as [r|] eqn:E; [|discriminate H]. injection H as Eph Ek Ea.
  apply replay_schedule_run in E. destruct demo_replay_file as [Hf Hb].
  destruct (replay_run_finishes _ recording_consumer [] true _ _ r Hf Hb) as (_ & _ & _ & _ & Hend);
    [reflexivity|exact E|].
  destruct (Hend Eph) as [_ Hc]. exists r. split; [exact E|]. split; [exact Eph|].
  split; [exact Ek|]. rewrite Hc, Ea. reflexivity.
Defined.
