(* ===== verification/Receiver.v ===== *)
(** * The DPDK receiver

    [dpdk/receiver/receiver.{hpp,cpp}], [udp_payload_sink.hpp] and
    [itch_udp_payload_sink.hpp].

    DPDK is not part of the repository: [DpdkWorld] is any state that answers its calls,
    and the packets of a burst are arguments of the model.  A packet buffer has the bytes
    that can be read from [rte_pktmbuf_mtod] on and the length [rte_pktmbuf_pkt_len]
    returns.  Freed buffers are logged.  The text of the report is not modelled, only
    when it is made and what it does to the counters; the NUMA socket queries passed as
    arguments of the set-up calls are left out. *)

From Stdlib Require Import SpecFloat.
From S2P Require Import Prelude Types Consumer SpscRing Pipeline Wire Ouch.
From S2P Require Import Packets Itch Replay.

(** ** Payload sinks *)

(** [submit] of the span of [size] bytes at [data] in the memory [mem]. *)
Class UdpPayloadSink (S : Type) : Type :=
  payload_submit : S -> bytes -> option nat -> Z -> option (bool * S).

Definition ItchUdpPayloadSink {S} `{!MarketDataEventSink S} (little : bool) : UdpPayloadSink S :=
  fun sink mem data size => ItchReplayDispatcher_dispatch little mem sink data size.

(** ** The receive loop *)

Record rte_mbuf : Type := mkMbuf {
  mb_address : Z;
  mb_data : bytes;
  mb_pkt_len : Z
}.

Definition BURST_SIZE : Z := 32.

(** [rx_sink] is [None] when the receiver has no payload sink; [rx_freed] lists the
    buffers given back and [rx_reports] the counters at each report. *)
Record RxState (S : Type) : Type := mkRx {
  rx_sink : option S;
  rx_packetCount : Z;
  rx_byteCount : Z;
  rx_freed : list Z;
  rx_reports : list (Z * Z)
}.
Arguments mkRx {S}.
Arguments rx_sink {S}.
Arguments rx_packetCount {S}.
Arguments rx_byteCount {S}.
Arguments rx_freed {S}.
Arguments rx_reports {S}.

Section receiver.
Variable little : bool.
Context {S : Type} `{!UdpPayloadSink S}.

Definition rte_pktmbuf_free (packet : rte_mbuf) (st : RxState S) : RxState S :=
  mkRx (rx_sink st) (rx_packetCount st) (rx_byteCount st) (rx_freed st ++ [mb_address packet])
    (rx_reports st).

(** [++packetCount; byteCount += packetLength;] *)
Definition count_packet (packetLength : Z) (st : RxState S) : RxState S :=
  mkRx (rx_sink st) (u64 (rx_packetCount st + 1)) (u64 (rx_byteCount st + packetLength)) (rx_freed st)
    (rx_reports st).

(** [if (payloadSink_ != nullptr) payloadSink_->submit(payloadView)], the result ignored. *)
Definition submit_payload (mem : bytes) (payload : option nat) (payloadLength : Z) (st : RxState S)
    : option (RxState S) :=
  match rx_sink st with
  | None => Some st
  | Some sink =>
      '(_, sink) ← payload_submit sink mem payload payloadLength;
      Some (mkRx (Some sink) (rx_packetCount st) (rx_byteCount st) (rx_freed st) (rx_reports st))
  end.

(** The body of the [for] loop; [continue] is an early result. *)
Definition receive_packet (st : RxState S) (packet : rte_mbuf) : option (RxState S) :=
  let mem := mb_data packet in
  let packetLength := mb_pkt_len packet in
  let ethernet := EthernetParser_parse_span (Some O) packetLength in
  match ethernet with
  | None => Some (rte_pktmbuf_free packet st)
  | Some _ =>
      etherType ← EthernetParser_etherType little mem ethernet;
      if negb (etherType =? 2048) then Some (rte_pktmbuf_free packet st)
      else
        let ipv4Data := EthernetParser_payload ethernet in
        let ipv4AvailableLength := packetLength - sizeof_EthernetHeader in
        ipv4 ← IPv4Parser_parse_span mem ipv4Data ipv4AvailableLength;
        match ipv4 with
        | None => Some (rte_pktmbuf_free packet st)
        | Some _ =>
            protocol ← IPv4Header_protocol mem ipv4;
            if negb (protocol =? 17) then Some (rte_pktmbuf_free packet st)
            else
              udpData ← IPv4Parser_payload mem ipv4;
              udpAvailableLength ← IPv4Parser_payloadLength little mem ipv4;
              let udp := UDPParser_parse_span udpData udpAvailableLength in
              match udp with
              | None => Some (rte_pktmbuf_free packet st)
              | Some _ =>
                  destinationPort ← UDPParser_destinationPort little mem udp;
                  if negb (destinationPort =? 9000) then Some (rte_pktmbuf_free packet st)
                  else
                    let st := count_packet packetLength st in
                    let payload := UDPParser_payload udp in
                    payloadLength ← UDPParser_payloadLength little mem udp;
                    st ← submit_payload mem payload payloadLength st;
                    Some (rte_pktmbuf_free packet st)
              end
        end
  end.

(** [for (i = 0; i < received; ++i)] *)
Fixpoint receive_burst (st : RxState S) (packets : list rte_mbuf) : option (RxState S) :=
  match packets with
  | [] => Some st
  | packet :: packets => st ← receive_packet st packet; receive_burst st packets
  end.

(** [1.0] *)
Definition one_second : spec_float := S754_finite false 4503599627370496 (-52).

(** The counters are logged, as the values the report is made from, and reset. *)
Definition reset_counters (st : RxState S) : RxState S :=
  mkRx (rx_sink st) 0 0 (rx_freed st) (rx_reports st ++ [(rx_packetCount st, rx_byteCount st)]).

(** [if (elapsed >= 1.0)]: report and reset the counters. *)
Definition report (elapsed : spec_float) (st : RxState S) : RxState S :=
  if SFleb one_second elapsed then reset_counters st else st.

(** The [while (true)] loop over the bursts received and the times that elapsed. *)
Fixpoint receive_loop (st : RxState S) (bursts : list (list rte_mbuf * spec_float)) : option (RxState S) :=
  match bursts with
  | [] => Some st
  | (packets, elapsed) :: bursts => st ← receive_burst st packets; receive_loop (report elapsed st) bursts
  end.

End receiver.

(** ** Setting up the port *)

Inductive DpdkCall : Type :=
  | rte_eal_init
  | pthread_setaffinity_np (cpuIndex : Z)
  | rte_eth_dev_count_avail
  | rte_eth_dev_info_get (portId : Z)
  | rte_pktmbuf_pool_create (n cacheSize privSize : Z)
  | rte_eth_dev_configure (portId rxQueues txQueues : Z)
  | rte_eth_rx_queue_setup (portId queueId ringSize pool : Z)
  | rte_eth_tx_queue_setup (portId queueId ringSize : Z)
  | rte_eth_dev_start (portId : Z).

Class DpdkWorld (W : Type) : Type := dpdk_call : W -> DpdkCall -> Z * W.

(** The state of the world and the calls made, with their results. *)
Abbreviation Dpdk W := (W * list (DpdkCall * Z))%type (only parsing).

Definition RX_RING_SIZE : Z := 1024.
Definition TX_RING_SIZE : Z := 1024.
Definition NUM_MBUFS : Z := 8191.
Definition MBUF_CACHE_SIZE : Z := 250.

Section setup.
Context {W : Type} `{!DpdkWorld W}.

Definition dpdk (c : DpdkCall) (e : Dpdk W) : Z * Dpdk W :=
  let '(ret, w) := dpdk_call e.1 c in (ret, (w, e.2 ++ [(c, ret)])).

Definition Receiver_initialize (e : Dpdk W) : bool * Dpdk W :=
  let '(ret, e) := dpdk rte_eal_init e in (negb (ret <? 0), e).

Definition pinCurrentThreadToCpu (cpuIndex : Z) (e : Dpdk W) : bool * Dpdk W :=
  let '(result, e) := dpdk (pthread_setaffinity_np cpuIndex) e in (result =? 0, e).

Definition Receiver_listPorts (e : Dpdk W) : Dpdk W := (dpdk rte_eth_dev_count_avail e).2.

Definition Receiver_printPortInfo (e : Dpdk W) : Dpdk W :=
  let '(portCount, e) := dpdk rte_eth_dev_count_avail e in
  if portCount =? 0 then e else (dpdk (rte_eth_dev_info_get 0) e).2.

(** The pool's address, [0] for [nullptr]. *)
Definition Receiver_createMempool (e : Dpdk W) : option Z * Dpdk W :=
  let '(pool, e) := dpdk (rte_pktmbuf_pool_create NUM_MBUFS MBUF_CACHE_SIZE 0) e in
  (if pool =? 0 then None else Some pool, e).

Definition Receiver_configurePort (portId : Z) (e : Dpdk W) : bool * Dpdk W :=
  let '(ret, e) := dpdk (rte_eth_dev_configure portId 1 1) e in (negb (ret <? 0), e).

Definition Receiver_setupRxQueue (portId pool : Z) (e : Dpdk W) : bool * Dpdk W :=
  let '(ret, e) := dpdk (rte_eth_rx_queue_setup portId 0 RX_RING_SIZE pool) e in (negb (ret <? 0), e).

Definition Receiver_setupTxQueue (portId : Z) (e : Dpdk W) : bool * Dpdk W :=
  let '(ret, e) := dpdk (rte_eth_tx_queue_setup portId 0 TX_RING_SIZE) e in (negb (ret <? 0), e).

Definition Receiver_startPort (portId : Z) (e : Dpdk W) : bool * Dpdk W :=
  let '(ret, e) := dpdk (rte_eth_dev_start portId) e in (negb (ret <? 0), e).

(** [run] up to the [while] loop: [true] when the loop is entered. *)
Definition Receiver_run_setup (rxCpu : option Z) (e : Dpdk W) : bool * Dpdk W :=
  let e := match rxCpu with
           | Some cpu => (pinCurrentThreadToCpu cpu e).2
           | None => e
           end in
  let e := Receiver_listPorts e in
  let e := Receiver_printPortInfo e in
  let '(pool, e) := Receiver_createMempool e in
  match pool with
  | None => (false, e)
  | Some pool =>
      let '(count, e) := dpdk rte_eth_dev_count_avail e in
      if count =? 0 then (false, e)
      else
        let '(ok, e) := Receiver_configurePort 0 e in
        if negb ok then (false, e)
        else
          let '(ok, e) := Receiver_setupRxQueue 0 pool e in
          if negb ok then (false, e)
          else
            let '(ok, e) := Receiver_setupTxQueue 0 e in
            if negb ok then (false, e)
            else
              let '(ok, e) := Receiver_startPort 0 e in
              (ok, e)
  end.

(** [main] of [dpdk/receiver/main.cpp], which has no sink and no CPU: the exit status, [None]
    when the receive loop, which has no way out, is entered. *)
Definition receiver_main (e : Dpdk W) : option Z * Dpdk W :=
  let '(ok, e) := Receiver_initialize e in
  if negb ok then (Some (-1), e)
  else
    let '(entered, e) := Receiver_run_setup None e in
    (if (entered : bool) then None else Some 0, e).

End setup.

(** ** What the receiver accepts *)

(** The UDP header behind the IPv4 header of a frame. *)
Definition udp_offset (pkt : bytes) : nat := (14 + Z.to_nat (4 * ip_ihl pkt 14))%nat.

(** An IPv4 frame: the Ethernet type and an acceptable IPv4 header. *)
Definition ipv4_frame (pkt : bytes) : Prop :=
  (14 <= length pkt)%nat /\ be pkt 12 2 = 2048 /\ ipv4_ok pkt 14 (Z.of_nat (length pkt) - 14).

(** A frame with a UDP header for port 9000. *)
Definition addressed (pkt : bytes) : Prop :=
  ipv4_frame pkt /\ be pkt 23 1 = 17 /\ 8 <= be pkt 16 2 - 4 * ip_ihl pkt 14 /\
  be pkt (udp_offset pkt + 2) 2 = 9000.

#[global] Instance addressed_dec pkt : Decision (addressed pkt).
Proof. unfold addressed, ipv4_frame. apply _. Defined.

(** The lengths the headers announce lie inside the frame: IPv4's inside the packet, and
    UDP's inside IPv4's. *)
Definition honest_lengths (pkt : bytes) : Prop :=
  ipv4_frame pkt ->
  14 + be pkt 16 2 <= Z.of_nat (length pkt) /\
  (8 <= be pkt 16 2 - 4 * ip_ihl pkt 14 ->
     be pkt (udp_offset pkt + 4) 2 <= be pkt 16 2 - 4 * ip_ihl pkt 14).

(** The payload of an addressed frame. *)
Definition udp_payload (pkt : bytes) : bytes :=
  take (Z.to_nat (be pkt (udp_offset pkt + 4) 2 - 8)) (drop (udp_offset pkt + 8) pkt).

(** A buffer that holds one contiguous packet. *)
Definition whole_packet (packet : rte_mbuf) : Prop :=
  all_bytes (mb_data packet) /\ mb_pkt_len packet = Z.of_nat (length (mb_data packet)).

Section receiver_spec.
Context (little : bool) {S : Type} `{!MarketDataEventSink S}.
Abbreviation step := (receive_packet (UdpPayloadSink0 := ItchUdpPayloadSink little) little).

(** The effect of one packet. *)
Definition rx_spec (st : RxState S) (packet : rte_mbuf) : RxState S :=
  let pkt := mb_data packet in
  if decide (addressed pkt)
  then mkRx ((fun sink => (submit_event sink (itch_event (udp_payload pkt))).2) <$> rx_sink st)
         (u64 (rx_packetCount st + 1)) (u64 (rx_byteCount st + mb_pkt_len packet))
         (rx_freed st ++ [mb_address packet]) (rx_reports st)
  else mkRx (rx_sink st) (rx_packetCount st) (rx_byteCount st) (rx_freed st ++ [mb_address packet])
         (rx_reports st).

Lemma submit_payload_spec mem off n (st : RxState S) :
  all_bytes mem -> 0 <= n -> Z.of_nat off + n <= Z.of_nat (length mem) ->
  submit_payload (UdpPayloadSink0 := ItchUdpPayloadSink little) mem (Some off) n st =
  Some (mkRx ((fun sink => (submit_event sink (itch_event (take (Z.to_nat n) (drop off mem)))).2) <$> rx_sink st)
          (rx_packetCount st) (rx_byteCount st) (rx_freed st) (rx_reports st)).
Proof.
  intros Hb Hn Hin. unfold submit_payload. destruct st as [[sink|] pc bc fr rp]; cbn [rx_sink]; [|done].
  unfold payload_submit, ItchUdpPayloadSink.
  pose proof (dispatch_spec little mem Hb off (Z.to_nat n) ltac:(lia) sink) as E.
  rewrite Z2Nat.id in E by done. rewrite E. cbn. by destruct (submit_event _ _).
Qed.

Lemma ipv4_span_spec mem len : all_bytes mem -> 0 <= len -> (14 + Z.to_nat len <= length mem)%nat ->
  IPv4Parser_parse_span mem (Some 14%nat) len =
  Some (if decide (ipv4_ok mem 14 len) then Some 14%nat else None).
Proof. intros Hb Hl Hin. by rewrite <- ipv4_parse_spec. Qed.

(** Other frames are dropped. *)
Lemma receive_other st packet :
  whole_packet packet -> ~ ipv4_frame (mb_data packet) ->
  step st packet = Some (rte_pktmbuf_free packet st).
Proof.
  intros [Hb Hlen] Hf. destruct packet as [address pkt plen]. cbn [mb_data mb_pkt_len] in *. subst plen.
  unfold receive_packet. cbn [mb_data mb_pkt_len].
  unfold EthernetParser_parse_span, sizeof_EthernetHeader. unfold ipv4_frame in Hf.
  bcase; [done|]. cbn [EthernetParser_etherType EthernetParser_payload mbind option_bind].
  rewrite load_big_spec by (done || lia). cbn [mbind option_bind Nat.add].
  bcase; [done|]. rewrite ipv4_span_spec by (done || lia). cbn [mbind option_bind].
  rewrite decide_False; [done|]. intros Hok. apply Hf. split; [lia|]. by split.
Qed.

(** IPv4 frames with honest lengths. *)
Lemma receive_ipv4 st packet :
  whole_packet packet -> honest_lengths (mb_data packet) -> ipv4_frame (mb_data packet) ->
  step st packet = Some (rx_spec st packet).
Proof.
  intros [Hb Hlen] Hh Hf. destruct packet as [address pkt plen]. cbn [mb_data mb_pkt_len] in *. subst plen.
  unfold receive_packet, rx_spec, rte_pktmbuf_free. cbn [mb_data mb_pkt_len mb_address].
  unfold EthernetParser_parse_span, sizeof_EthernetHeader, addressed.
  destruct (Hh Hf) as [Hfit Hudp]. destruct Hf as (H14 & Ht & Hok).
  rewrite (proj2 (Z.ltb_ge _ _)) by lia.
  cbn [EthernetParser_etherType EthernetParser_payload mbind option_bind].
  rewrite load_big_spec by (done || lia). cbn [mbind option_bind Nat.add]. rewrite Ht. cbn [negb Z.eqb Pos.eqb].
  rewrite ipv4_span_spec by (done || lia). rewrite decide_True by done. cbn [mbind option_bind].
  pose proof Hok as (H20 & _ & H5 & Hihl).
  unfold IPv4Header_protocol. cbn [mbind option_bind]. rewrite rd_be by lia. cbn [mbind option_bind Nat.add].
  destruct (ipv4_payload_spec little pkt Hb 14) as (-> & _ & ->); [lia|]. cbn [mbind option_bind].
  fold (udp_offset pkt). change (14 + 2)%nat with 16%nat.
  destruct (Z.eqb_spec (be pkt 23 1) 17) as [Ep|Ep]; cbn [negb]; [|by rewrite decide_False by naive_solver].
  unfold UDPParser_parse_span, sizeof_UDPHeader.
  bcase; [rewrite decide_False; [done|intros (_ & _ & ? & _); lia]|].
  assert (8 <= be pkt 16 2 - 4 * ip_ihl pkt 14) as H8 by lia. specialize (Hudp H8).
  destruct (udp_fields_spec little pkt Hb (udp_offset pkt)) as (_ & -> & ->);
    [unfold udp_offset; lia|]. cbn [mbind option_bind].
  destruct (Z.eqb_spec (be pkt (udp_offset pkt + 2) 2) 9000) as [Ed|Ed]; cbn [negb];
    [|by rewrite decide_False by naive_solver].
  rewrite decide_True by (split; [exact (conj H14 (conj Ht Hok))|done]). cbn [UDPParser_payload count_packet].
  rewrite submit_payload_spec; [|done|lia|unfold udp_offset in *; lia].
  cbn [mbind option_bind]. unfold udp_payload.
  by replace (Z.to_nat (Z.max 0 (be pkt (udp_offset pkt + 4) 2 - 8))) with
    (Z.to_nat (be pkt (udp_offset pkt + 4) 2 - 8)) by lia.
Qed.

Definition well_received (packet : rte_mbuf) : Prop :=
  whole_packet packet /\ honest_lengths (mb_data packet).

Lemma receive_packet_spec st packet :
  well_received packet -> step st packet = Some (rx_spec st packet).
Proof.
  intros [Hw Hh]. destruct (decide (addressed (mb_data packet))) as [Ha|Ha];
    [apply receive_ipv4; [done..|apply Ha]|].
  unfold ipv4_frame. destruct (decide ((14 <= length (mb_data packet))%nat /\ be (mb_data packet) 12 2 = 2048 /\
    ipv4_ok (mb_data packet) 14 (Z.of_nat (length (mb_data packet)) - 14))) as [Hf|Hf].
  - by apply receive_ipv4.
  - rewrite receive_other by done. unfold rx_spec. by rewrite decide_False.
Qed.

(** The effect of one iteration of the receive loop. *)
Definition rx_iteration (st : RxState S) (burst : list rte_mbuf * spec_float) : RxState S :=
  report burst.2 (foldl rx_spec st burst.1).

Lemma receive_loop_spec (st : RxState S) bursts :
  Forall (fun burst => Forall well_received burst.1) bursts ->
  receive_loop (UdpPayloadSink0 := ItchUdpPayloadSink little) little st bursts =
  Some (foldl rx_iteration st bursts).
Proof.
  intros HF. revert st. induction HF as [|[packets elapsed] bursts Hp _ IH]; intros st; [done|].
  cbn [receive_loop foldl fst] in *.
  assert (forall ps st, Forall well_received ps ->
    receive_burst (UdpPayloadSink0 := ItchUdpPayloadSink little) little st ps = Some (foldl rx_spec st ps))
    as Hburst.
  { induction ps as [|p ps IHp]; intros st0 H; [done|]. apply Forall_cons in H as [H1 H2].
    cbn [receive_burst foldl]. rewrite receive_packet_spec by done. cbn [mbind option_bind]. by apply IHp. }
  rewrite Hburst by done. cbn [mbind option_bind]. apply IH.
Qed.

(** ** What a run adds up to *)

(** Packets for the receiver among those of a list. *)
Definition payloads (packets : list rte_mbuf) : list bytes :=
  udp_payload <$> filter addressed (mb_data <$> packets).

Definition feed_payloads (sink : S) (ps : list bytes) : S :=
  foldl (fun sink p => (submit_event sink (itch_event p)).2) sink ps.

(** All packets counted, in the reports and since the last one. *)
Definition counted (st : RxState S) : Z := foldr Z.add 0 (rx_reports st).*1 + rx_packetCount st.

Record received (st0 : RxState S) (packets : list rte_mbuf) (st : RxState S) : Prop := {
  rv_freed : rx_freed st = rx_freed st0 ++ (mb_address <$> packets);
  rv_sink : rx_sink st = (fun sink => feed_payloads sink (payloads packets)) <$> rx_sink st0;
  rv_counted : counted st = counted st0 + Z.of_nat (length (payloads packets))
}.

Lemma payloads_app ps qs : payloads (ps ++ qs) = payloads ps ++ payloads qs.
Proof. unfold payloads. by rewrite fmap_app, filter_app, fmap_app. Qed.

Lemma length_payloads ps : (length (payloads ps) <= length ps)%nat.
Proof.
  unfold payloads. rewrite length_fmap. etrans; [apply length_filter|]. by rewrite length_fmap.
Qed.

Lemma received_app st0 ps st1 qs st2 :
  received st0 ps st1 -> received st1 qs st2 -> received st0 (ps ++ qs) st2.
Proof.
  intros [F1 S1 C1] [F2 S2 C2]. constructor.
  - by rewrite F2, F1, fmap_app, app_assoc.
  - rewrite S2, S1, payloads_app. destruct (rx_sink st0); cbn; [|done].
    unfold feed_payloads. by rewrite foldl_app.
  - rewrite C2, C1, payloads_app, length_app. lia.
Qed.

Lemma received_packet (st : RxState S) packet :
  0 <= rx_packetCount st -> counted st + 1 < 2 ^ 64 -> rx_packetCount st <= counted st ->
  received st [packet] (rx_spec st packet).
Proof.
  intros H0 Hc Hle. unfold rx_spec, payloads, counted in *.
  destruct (decide (addressed (mb_data packet))) as [Ha|Ha]; constructor; cbn;
    rewrite ?filter_cons, ?decide_True, ?decide_False by done; cbn; try done.
  - unfold counted. cbn. rewrite wrap_small; lia.
  - by destruct (rx_sink st).
  - unfold counted. cbn. lia.
Qed.

Lemma received_report (st : RxState S) elapsed : received st [] (report elapsed st).
Proof.
  unfold report. destruct (SFleb one_second elapsed); constructor; cbn; try (by rewrite app_nil_r);
    try (by destruct (rx_sink st)); unfold counted; cbn; [|lia].
  rewrite fmap_app. cbn. rewrite foldr_app. cbn.
  assert (forall l z, foldr Z.add z l = foldr Z.add 0 l + z) as Hz
    by (induction l as [|x l IH]; intros z; cbn; [lia|rewrite IH; lia]).
  rewrite Hz. lia.
Qed.

(** The counter is what was counted since the last report. *)
Definition counter_ok (st : RxState S) : Prop := 0 <= rx_packetCount st <= counted st.

Lemma counter_ok_packet st packet :
  counter_ok st -> counted st + 1 < 2 ^ 64 -> counter_ok (rx_spec st packet).
Proof.
  unfold counter_ok, counted, rx_spec. intros H Hc. destruct (decide _); cbn; [|done].
  rewrite wrap_small; lia.
Qed.

Lemma counter_ok_report st elapsed : counter_ok st -> counter_ok (report elapsed st).
Proof.
  intros H. pose proof (rv_counted _ _ _ (received_report st elapsed)) as E. unfold counter_ok in *.
  rewrite E. cbn. unfold report. destruct (SFleb _ _); cbn; lia.
Qed.

Lemma received_burst packets : forall st : RxState S,
  counter_ok st -> counted st + Z.of_nat (length packets) < 2 ^ 64 ->
  received st packets (foldl rx_spec st packets) /\ counter_ok (foldl rx_spec st packets).
Proof.
  induction packets as [|p ps IH]; intros st Hok Hc; cbn [foldl length] in *.
  - split; [|done]. constructor; cbn; [by rewrite app_nil_r|by destruct (rx_sink st)|lia].
  - pose proof Hok as [H0 Hle].
    pose proof (received_packet st p H0 ltac:(lia) Hle) as Hp.
    destruct (IH (rx_spec st p)) as [Hrec Hok'].
    + apply counter_ok_packet; [done|lia].
    + rewrite (rv_counted _ _ _ Hp). pose proof (length_payloads [p]) as Hl. cbn [length] in Hl. lia.
    + split; [|done]. by apply (received_app _ [p] (rx_spec st p)).
Qed.

Lemma received_run bursts : forall st : RxState S,
  counter_ok st -> counted st + Z.of_nat (length (mjoin bursts.*1)) < 2 ^ 64 ->
  received st (mjoin bursts.*1) (foldl rx_iteration st bursts).
Proof.
  induction bursts as [|[ps elapsed] bursts IH]; intros st Hok Hc.
  - constructor; cbn; [by rewrite app_nil_r|by destruct (rx_sink st)|lia].
  - change (mjoin ((ps, elapsed) :: bursts).*1) with (ps ++ mjoin bursts.*1) in *. cbn [foldl].
    rewrite length_app in Hc. destruct (received_burst ps st Hok ltac:(lia)) as [Hrec Hok1].
    pose proof (received_report (foldl rx_spec st ps) elapsed) as Hrep.
    pose proof (received_app _ _ _ _ _ Hrec Hrep) as H1. rewrite app_nil_r in H1.
    apply (received_app _ ps (rx_iteration st (ps, elapsed))); [exact H1|]. apply IH.
    + by apply counter_ok_report.
    + unfold rx_iteration. cbn [fst snd]. rewrite (rv_counted _ _ _ H1).
      pose proof (length_payloads ps). lia.
Qed.

End receiver_spec.

(** ** Properties *)

(** C36: The receiver delivers exactly the datagrams for its port, and gives every buffer
    back.  Over any sequence of bursts of contiguous packets whose announced lengths lie
    inside the packets, whatever the reports in between, the receive loop runs without
    undefined behaviour; every buffer is freed exactly once, in the order of arrival; the
    sink has been given, in order, the event of each ITCH payload of an IPv4 UDP packet
    for port 9000 and nothing else; and the packets counted, in all reports and since,
    are the number of those packets. *)
Theorem receiver_delivers_datagrams :
  forall (S : Type) (sink_class : MarketDataEventSink S) (sink : option S) (little : bool)
    (bursts : list (list rte_mbuf * spec_float)),
  Forall (fun burst => Forall well_received burst.1) bursts ->
  Z.of_nat (length (mjoin bursts.*1)) < 2 ^ 64 ->
  exists st, receive_loop (UdpPayloadSink0 := ItchUdpPayloadSink little) little (mkRx sink 0 0 [] []) bursts =
      Some st /\
    rx_freed st = mb_address <$> mjoin bursts.*1 /\
    rx_sink st = (fun sink => feed_payloads sink (payloads (mjoin bursts.*1))) <$> sink /\
    foldr Z.add 0 (rx_reports st).*1 + rx_packetCount st = Z.of_nat (length (payloads (mjoin bursts.*1))).
Proof.
  intros S SC sink little bursts HF Hc. eexists. split; [by apply receive_loop_spec|].
  destruct (received_run bursts (mkRx sink 0 0 [] [])) as [Hf Hs Hn]; [|done|].
  - unfold counter_ok, counted. cbn. lia.
  - split; [exact Hf|]. split; [exact Hs|]. exact Hn.
Qed.

(** A frame for port 9000 with an ITCH payload. *)
Definition demo_frame (protocol ip_length udp_length : Z) (payload : bytes) : bytes :=
  replicate 12 0 ++ [8; 0] ++
  [69; 0; 0; ip_length; 0; 0; 0; 0; 64; protocol; 0; 0; 10; 0; 0; 1; 10; 0; 0; 2] ++
  [0; 7; 35; 40; 0; udp_length; 0; 0] ++ payload.

Definition demo_bursts : list (list rte_mbuf * spec_float) :=
  let cancel := drop 2 demo_cancel_message in
  [ ([mkMbuf 16 (demo_frame 17 51 31 cancel) 65; mkMbuf 17 (demo_frame 6 51 31 cancel) 65], one_second);
    ([mkMbuf 18 (demo_frame 17 51 31 cancel) 65], S754_zero false) ].

Lemma demo_bursts_ok : Forall (fun burst => Forall well_received burst.1) demo_bursts.
Proof.
  repeat constructor; cbn [fst mb_data mb_pkt_len];
    try (apply (bool_decide_unpack _); vm_compute; exact I); vm_compute; try discriminate.
  all: try (intros _; discriminate).
Qed.

Lemma receiver_delivers_witness :
  exists st, receive_loop (S := list MarketDataEvent)
      (UdpPayloadSink0 := ItchUdpPayloadSink (MarketDataEventSink0 := recording_event_sink) true) true
      (mkRx (Some []) 0 0 [] []) demo_bursts = Some st /\
    rx_freed st = [16; 17; 18] /\
    rx_sink st = Some [mkEvent CancelOrder 258 0 0 Buy (replicate 8 0) 0 5;
                       mkEvent CancelOrder 258 0 0 Buy (replicate 8 0) 0 5] /\
    foldr Z.add 0 (rx_reports st).*1 + rx_packetCount st = 2.
Proof.
  destruct (receiver_delivers_datagrams _ recording_event_sink (Some []) true demo_bursts)
    as (st & E & Hf & Hs & Hc); [exact demo_bursts_ok|reflexivity|].
  exists st. split; [exact E|]. split; [rewrite Hf; reflexivity|].
  split; [rewrite Hs; vm_compute; reflexivity|rewrite Hc; vm_compute; reflexivity].
Defined.

(** ** Announced lengths are trusted *)

(** Mapping an Add Order that the memory does not hold reads past its end. *)
Lemma add_fromWire_overrun little mem off :
  (length mem < off + 36)%nat -> AddOrderMapper_fromWire little mem (Some off) = None.
Proof.
  intros H. unfold AddOrderMapper_fromWire.
  destruct (AddOrderParser_stockLocate little mem (Some off)); [cbn [mbind option_bind]|done].
  destruct (AddOrderParser_trackingNumber little mem (Some off)); [cbn [mbind option_bind]|done].
  destruct (AddOrderParser_shares little mem (Some off)); [cbn [mbind option_bind]|done].
  unfold AddOrderParser_price, wire_field. by rewrite load_big_outside by lia.
Qed.

(** C37: The receiver trusts the lengths in the headers.  A frame for port 9000 whose UDP
    header announces room for an Add Order, but which ends inside it, makes the receiver
    read past the end of the packet: the announced length is checked against the size of
    the message, but never against the packet. *)
Theorem receiver_overruns_short_frames :
  forall (S : Type) (sink_class : MarketDataEventSink S) (sink : S) (little : bool) (address : Z)
    (ip_length udp_length : Z) (rest : bytes),
  28 <= ip_length < 256 -> 44 <= udp_length < 256 -> all_bytes rest -> (length rest < 35)%nat ->
  let frame := demo_frame 17 ip_length udp_length (char_A :: rest) in
  receive_packet (UdpPayloadSink0 := ItchUdpPayloadSink little) little (mkRx (Some sink) 0 0 [] [])
    (mkMbuf address frame (Z.of_nat (length frame))) = None.
Proof.
  intros S SC sink little address ip udp rest Hip Hudp Hrest Hlen frame.
  assert (length frame = (43 + length rest)%nat) as Hl by (unfold frame, demo_frame; cbn; lia).
  assert (all_bytes frame) as Hb.
  { unfold frame, demo_frame. repeat (apply Forall_app; split); repeat constructor;
      unfold is_byte, is_uint, char_A; try (cbn; lia). exact Hrest. }
  assert (be frame 12 2 = 2048 /\ be frame 16 2 = ip /\ be frame 23 1 = 17 /\ be frame 36 2 = 9000 /\
    be frame 38 2 = udp /\ be frame 42 1 = char_A /\ ip_version frame 14 = 4 /\ ip_ihl frame 14 = 5)
    as (Et & Eip & Ep & Ed & Eu & Etag & Ev & Eihl) by (by repeat split).
  unfold receive_packet. cbn [mb_data mb_pkt_len].
  unfold EthernetParser_parse_span, sizeof_EthernetHeader. rewrite (proj2 (Z.ltb_ge _ _)) by lia.
  cbn [EthernetParser_etherType EthernetParser_payload mbind option_bind].
  rewrite load_big_spec by (done || lia). cbn [mbind option_bind Nat.add]. rewrite Et. cbn [negb Z.eqb Pos.eqb].
  rewrite ipv4_span_spec by (done || lia). rewrite decide_True by (unfold ipv4_ok; lia).
  cbn [mbind option_bind]. unfold IPv4Header_protocol. cbn [mbind option_bind].
  rewrite rd_be by lia. cbn [mbind option_bind Nat.add]. rewrite Ep. cbn [negb Z.eqb Pos.eqb].
  destruct (ipv4_payload_spec little frame Hb 14) as (-> & _ & ->); [lia|].
  rewrite Eihl. change (14 + 2)%nat with 16%nat. rewrite Eip. cbn [mbind option_bind].
  change (14 + Z.to_nat (4 * 5))%nat with 34%nat. unfold UDPParser_parse_span, sizeof_UDPHeader.
  rewrite (proj2 (Z.ltb_ge _ _)) by lia.
  destruct (udp_fields_spec little frame Hb 34) as (_ & -> & ->); [lia|].
  change (34 + 2)%nat with 36%nat. change (34 + 4)%nat with 38%nat. rewrite Ed, Eu.
  cbn [mbind option_bind negb Z.eqb Pos.eqb UDPParser_payload].
  unfold submit_payload. cbn [rx_sink count_packet]. unfold payload_submit, ItchUdpPayloadSink,
    ItchReplayDispatcher_dispatch. rewrite (proj2 (Z.eqb_neq _ _)) by lia.
  rewrite rd_be by (cbn; lia). change (34 + 8)%nat with 42%nat. cbn [mbind option_bind]. rewrite Etag.
  change (char_A =? char_A) with true. unfold AddOrderParser_parse, wire_parse, sizeof_AddOrderWireMessage.
  rewrite (proj2 (Z.ltb_ge _ _)) by lia. cbn [dispatch_case].
  rewrite add_fromWire_overrun by lia. done.
Qed.

Lemma receiver_overruns_witness :
  receive_packet (S := list MarketDataEvent)
    (UdpPayloadSink0 := ItchUdpPayloadSink (MarketDataEventSink0 := recording_event_sink) true) true
    (mkRx (Some []) 0 0 [] []) (mkMbuf 16 (demo_frame 17 64 44 [char_A]) 43) = None.
Proof.
  apply (receiver_overruns_short_frames _ recording_event_sink [] true 16 64 44 []);
    [lia|lia|constructor|cbn; lia].
Defined.

(** ** Setting up *)

(** The calls between the creation of the pool and the start of the port, in order. *)
Definition port_setup (pool : Z) : list DpdkCall :=
  [ rte_pktmbuf_pool_create NUM_MBUFS MBUF_CACHE_SIZE 0; rte_eth_dev_count_avail;
    rte_eth_dev_configure 0 1 1; rte_eth_rx_queue_setup 0 0 RX_RING_SIZE pool;
    rte_eth_tx_queue_setup 0 0 TX_RING_SIZE; rte_eth_dev_start 0 ].

(** What [run] takes for success. *)
Definition succeeded (c : DpdkCall * Z) : Prop :=
  match c.1 with
  | rte_pktmbuf_pool_create _ _ _ => c.2 <> 0
  | rte_eth_dev_count_avail => c.2 <> 0
  | _ => 0 <= c.2
  end.

(** Calls that only inform. *)
Definition informs (c : DpdkCall * Z) : Prop :=
  match c.1 with
  | pthread_setaffinity_np _ | rte_eth_dev_count_avail | rte_eth_dev_info_get _ => True
  | _ => False
  end.

Section setup_spec.
Context {W : Type} `{!DpdkWorld W}.

Lemma dpdk_run c (e : Dpdk W) : exists ret w, dpdk c e = (ret, (w, e.2 ++ [(c, ret)])).
Proof. unfold dpdk. destruct (dpdk_call e.1 c) as [ret w]. by exists ret, w. Qed.

Lemma info_calls (rxCpu : option Z) (e : Dpdk W) :
  exists info w, Receiver_printPortInfo (Receiver_listPorts
      (match rxCpu with Some cpu => (pinCurrentThreadToCpu cpu e).2 | None => e end)) = (w, e.2 ++ info) /\
    Forall informs info.
Proof.
  assert (exists i w, match rxCpu with Some cpu => (pinCurrentThreadToCpu cpu e).2 | None => e end =
    (w, e.2 ++ i) /\ Forall informs i) as (i & w & -> & Hi).
  { destruct rxCpu as [cpu|]; [|exists [], e.1; rewrite app_nil_r; by destruct e].
    unfold pinCurrentThreadToCpu. destruct (dpdk_run (pthread_setaffinity_np cpu) e) as (ret & w & ->).
    do 2 eexists. split; [done|]. by repeat constructor. }
  unfold Receiver_listPorts, Receiver_printPortInfo.
  destruct (dpdk_run rte_eth_dev_count_avail (w, e.2 ++ i)) as (r1 & w1 & ->). cbn [snd].
  match goal with |- context [dpdk rte_eth_dev_count_avail ?e1] =>
    destruct (dpdk_run rte_eth_dev_count_avail e1) as (r2 & w2 & ->) end. cbn [snd].
  bcase.
  - do 2 eexists. split; [by rewrite <- !app_assoc|]. apply Forall_app. split; [done|]. by repeat constructor.
  - match goal with |- context [dpdk (rte_eth_dev_info_get 0) ?e1] =>
      destruct (dpdk_run (rte_eth_dev_info_get 0) e1) as (r3 & w3 & ->) end. cbn [snd].
    do 2 eexists. split; [by rewrite <- !app_assoc|]. apply Forall_app. split; [done|]. by repeat constructor.
Qed.

End setup_spec.

(** Runs the next call of the set-up. *)
Ltac setup_call :=
  match goal with |- context [dpdk ?c ?e1] =>
    let ret := fresh "ret" in let w := fresh "w" in let E := fresh "E" in
    destruct (dpdk_run c e1) as (ret & w & E); rewrite E; clear E; cbn [snd] end.

(** [Forall succeeded] of a list of calls whose tests are in the context. *)
Ltac calls_succeeded :=
  repeat first [apply Forall_nil_2 | apply Forall_cons_2; [unfold succeeded; cbn [fst snd]; lia|]].

(** Ends the run after the calls made: the log, the prefix, the successes. *)
Ltac setup_done info :=
  exists info; do 2 eexists; split; [rewrite <- !app_assoc; cbn [app]; reflexivity|];
  split; [assumption|]; split; [eexists; reflexivity|];
  split; [cbn [fmap list_fmap fst]; eexists; reflexivity|];
  split; [cbn [removelast]; calls_succeeded|];
  split; [first [discriminate | intros _; split; [reflexivity|calls_succeeded]]
         |intros [HP HF]; first [reflexivity | discriminate HP
            | repeat (apply Forall_cons in HF as [? HF]); unfold succeeded in *; cbn [fst snd] in *; lia]].

(** [entered] and the log after [run] has set up the port. *)
Definition set_up (log : list (DpdkCall * Z)) (entered : bool) (log' : list (DpdkCall * Z)) : Prop :=
  exists info setup pool, log' = log ++ info ++ setup /\ Forall informs info /\
    (exists rest, setup = (rte_pktmbuf_pool_create NUM_MBUFS MBUF_CACHE_SIZE 0, pool) :: rest) /\
    setup.*1 `prefix_of` port_setup pool /\
    Forall succeeded (removelast setup) /\
    (entered = true <-> setup.*1 = port_setup pool /\ Forall succeeded setup).

Lemma run_setup_spec {W} `{!DpdkWorld W} (rxCpu : option Z) (e : Dpdk W) :
  let '(entered, e') := Receiver_run_setup rxCpu e in set_up e.2 entered e'.2.
Proof.
  unfold set_up, Receiver_run_setup. cbv zeta.
  destruct (info_calls rxCpu e) as (info & w & -> & Hinfo).
  unfold Receiver_createMempool. setup_call.
  destruct (Z.eqb_spec ret 0) as [E0|E0]; cbn iota; [setup_done info|].
  setup_call. destruct (Z.eqb_spec ret0 0) as [E1|E1]; [setup_done info|].
  unfold Receiver_configurePort. setup_call. destruct (Z.ltb_spec ret1 0) as [E2|E2]; cbn [negb]; [setup_done info|].
  unfold Receiver_setupRxQueue. setup_call. destruct (Z.ltb_spec ret2 0) as [E3|E3]; cbn [negb]; [setup_done info|].
  unfold Receiver_setupTxQueue. setup_call. destruct (Z.ltb_spec ret3 0) as [E4|E4]; cbn [negb]; [setup_done info|].
  unfold Receiver_startPort. setup_call. destruct (Z.ltb_spec ret4 0) as [E5|E5]; cbn [negb]; setup_done info.
Qed.

(** C38: The receiver polls only a port that is set up.  For every answer of DPDK, the
    set-up of [run] makes, after the informational calls, a prefix of the calls: create
    the pool, count the ports, configure port 0, set up its receive queue with the pool
    that was created, set up its transmit queue, start it; all but the last of those made
    succeeded, and the receive loop is entered exactly when all six were made and
    succeeded.  The stand-alone receiver initialises DPDK before all of that, exits with
    -1 and without another call when it cannot, with 0 when the port cannot be set up,
    and otherwise never ends. *)
Theorem receiver_polls_only_a_started_port :
  forall (W : Type) (world : DpdkWorld W) (rxCpu : option Z) (e : Dpdk W),
  (let '(entered, e') := Receiver_run_setup rxCpu e in
   exists info setup pool, e'.2 = e.2 ++ info ++ setup /\ Forall informs info /\
     (exists rest, setup = (rte_pktmbuf_pool_create NUM_MBUFS MBUF_CACHE_SIZE 0, pool) :: rest) /\
     setup.*1 `prefix_of` port_setup pool /\
     Forall succeeded (removelast setup) /\
     (entered = true <-> setup.*1 = port_setup pool /\ Forall succeeded setup)) /\
  (let '(status, e') := receiver_main e in
   exists init, if init <? 0 then e'.2 = e.2 ++ [(rte_eal_init, init)] /\ status = Some (-1)
     else set_up (e.2 ++ [(rte_eal_init, init)]) (bool_decide (status = None)) e'.2 /\
       (status = None \/ status = Some 0)).
Proof.
  intros W world rxCpu e. split; [exact (run_setup_spec rxCpu e)|].
  unfold receiver_main, Receiver_initialize. destruct (dpdk_run rte_eal_init e) as (ret & w & ->).
  destruct (ret <? 0) eqn:Er; cbn [negb]; [exists ret; by rewrite Er|].
  pose proof (run_setup_spec None (w, e.2 ++ [(rte_eal_init, ret)])) as Hs.
  destruct (Receiver_run_setup None _) as [entered e']. exists ret. rewrite Er.
  destruct entered; (split; [exact Hs|]); [by left|by right].
Qed.
