(* ===== verification/LiveRun.v ===== *)
(** * A live run

    The DPDK branch of [main] in [apps/trading_runtime.cpp]: after the receiver is
    initialised the pipeline is started, and [Receiver::run] feeds it with the payloads of
    the packets that arrive while the worker consumes.  [live_step] is the interleaving of
    the two threads; packets are processed one at a time, so that the worker may run
    between any two submissions. *)

From Stdlib Require Import SpecFloat.
From S2P Require Import Prelude Types Consumer SpscRing Pipeline Wire Packets Itch Replay ReplayRun.
From S2P Require Import Receiver.

Local Arguments payloads : simpl never.

(** Where the receiving thread is in its loop: before [rte_eth_rx_burst], or with these
    packets of the burst still to be processed. *)
Inductive live_phase : Type := Polling | Processing (packets : list rte_mbuf).

Section live.
Context {E : Type} `{!EventConsumer E} (little : bool).

Abbreviation Pipe := (MarketDataPipeline (E := E)).
Abbreviation receive := (receive_packet (S := Pipe) (UdpPayloadSink0 := ItchUdpPayloadSink little) little).

(** [live_seen] is ghost state, the packets processed so far. *)
Record LiveRun : Type := mkLive {
  live_rx : RxState Pipe;
  live_at : live_phase;
  live_seen : list rte_mbuf
}.

(** The state in which [run] enters its loop, with the started pipeline as the sink. *)
Definition live_start (pipe : Pipe) : LiveRun := mkLive (mkRx (Some pipe) 0 0 [] []) Polling [].

(** How the branch begins: DPDK cannot be initialised and [main] returns 1; or the
    pipeline runs and the receiver loops; or the set-up of the receiver fails, [run]
    returns and the pipeline is stopped. *)
Inductive live_outcome : Type :=
  | ExitFailure
  | Looping (run : LiveRun)
  | Stopped (pipe : Pipe).

Definition live_begin {W} `{!DpdkWorld W} (rxCpu : option Z) (consumer : E) (e : Dpdk W)
    : live_outcome * Dpdk W :=
  let pipeline := MarketDataPipeline_new consumer in
  let '(ok, e) := Receiver_initialize e in
  if negb ok then (ExitFailure, e)
  else
    let pipeline := MarketDataPipeline_start pipeline in
    let '(entered, e) := Receiver_run_setup rxCpu e in
    if (entered : bool) then (Looping (live_start pipeline), e)
    else (Stopped (MarketDataPipeline_stop pipeline), e).

Definition set_sink (st : RxState Pipe) (pipe : Pipe) : RxState Pipe :=
  mkRx (Some pipe) (rx_packetCount st) (rx_byteCount st) (rx_freed st) (rx_reports st).

(** The steps of the two threads, for packets that satisfy [nic]. *)
Inductive live_step (nic : rte_mbuf -> Prop) : LiveRun -> LiveRun -> Prop :=
  | live_burst st packets seen :
      Forall nic packets -> Z.of_nat (length packets) <= BURST_SIZE ->
      live_step nic (mkLive st Polling seen) (mkLive st (Processing packets) seen)
  | live_packet st st' packet packets seen :
      receive st packet = Some st' ->
      live_step nic (mkLive st (Processing (packet :: packets)) seen)
        (mkLive st' (Processing packets) (seen ++ [packet]))
  | live_report st elapsed seen :
      live_step nic (mkLive st (Processing []) seen) (mkLive (report elapsed st) Polling seen)
  | live_worker st at_ seen pipe pipe' :
      rx_sink st = Some pipe -> worker_step pipe = Some pipe' ->
      live_step nic (mkLive st at_ seen) (mkLive (set_sink st pipe') at_ seen).

(** ** Invariant *)

Record live_inv (consumer : E) (r : LiveRun) (pipe : Pipe) : Prop := {
  li_sink : rx_sink (live_rx r) = Some pipe;
  li_pipe : pipeline_reachable consumer pipe;
  li_main : main_ pipe = M_ready /\ running_ pipe = true;
  li_seen : Forall well_received (live_seen r);
  li_todo : match live_at r with Polling => True | Processing packets => Forall well_received packets end;
  li_freed : rx_freed (live_rx r) = mb_address <$> live_seen r;
  li_accepted : accepted_ pipe `sublist_of` omap itch_event (payloads (live_seen r))
}.

Lemma live_inv_start consumer :
  live_inv consumer (live_start (MarketDataPipeline_start (MarketDataPipeline_new consumer)))
    (MarketDataPipeline_start (MarketDataPipeline_new consumer)).
Proof. constructor; try done. eapply rtc_l; [by apply step_start|]. apply rtc_refl. Qed.

Lemma omap_payloads_snoc seen packet :
  omap itch_event (payloads (seen ++ [packet])) = omap itch_event (payloads seen) ++
    (if decide (addressed (mb_data packet))
     then match itch_event (udp_payload (mb_data packet)) with Some ev => [ev] | None => [] end else []).
Proof.
  rewrite payloads_app, omap_app. f_equal.
  unfold payloads. cbn. by destruct (decide (addressed (mb_data packet))).
Qed.

(** One packet: its event, if it has one, goes through [submit]. *)
Lemma live_packet_inv consumer st packet packets seen pipe :
  live_inv consumer (mkLive st (Processing (packet :: packets)) seen) pipe ->
  exists st' pipe', receive st packet = Some st' /\
    live_inv consumer (mkLive st' (Processing packets) (seen ++ [packet])) pipe'.
Proof.
  intros [Es Hp [Hm Hr] Hseen Hw Hf Ha]. cbn in *. apply Forall_cons in Hw as [Hw Hws].
  rewrite receive_packet_spec by done. unfold rx_spec. rewrite Es.
  assert (Forall well_received (seen ++ [packet])) as Hseen' by (apply Forall_app; auto).
  assert (rx_freed st ++ [mb_address packet] = mb_address <$> seen ++ [packet]) as Hf'
    by (by rewrite Hf, fmap_app).
  pose proof (omap_payloads_snoc seen packet) as Ho.
  destruct (decide (addressed (mb_data packet))) as [Had|Had].
  - set (event := itch_event (udp_payload (mb_data packet))) in *.
    destruct event as [ev|]; cbn [fmap option_fmap submit_event snd].
    + pose proof (submit_pipe pipe ev) as Hsub. pose proof (step_submit pipe ev Hm) as Hstep.
      change (event_submit pipe ev) with (MarketDataPipeline_submit pipe ev) in *.
      destruct (MarketDataPipeline_submit pipe ev) as [ok pipe'] eqn:Esub. cbn [snd] in Hstep.
      destruct Hsub as (Em & Er & _ & Ea). eexists _, pipe'. split; [reflexivity|]. constructor; cbn; try done.
      * unfold event_submit, pipeline_sink. by rewrite Esub.
      * by eapply rtc_r.
      * by rewrite Em, Er.
      * rewrite Ho, Ea. destruct ok; [by apply sublist_snoc|by apply sublist_inserts_r].
    + eexists _, pipe. split; [reflexivity|]. constructor; cbn; try done. by rewrite Ho, app_nil_r.
  - eexists _, pipe. split; [reflexivity|]. constructor; cbn; try done. by rewrite Ho, app_nil_r.
Qed.

Lemma report_rx elapsed (st : RxState Pipe) :
  rx_sink (report elapsed st) = rx_sink st /\ rx_freed (report elapsed st) = rx_freed st.
Proof. unfold report, reset_counters. by destruct (SFleb _ _). Qed.

Lemma live_worker_inv consumer st at_ seen pipe pipe' :
  live_inv consumer (mkLive st at_ seen) pipe -> worker_step pipe = Some pipe' ->
  live_inv consumer (mkLive (set_sink st pipe') at_ seen) pipe'.
Proof.
  intros [Es Hp Hm Hseen Htodo Hf Ha] Hw. destruct (worker_step_keeps _ _ Hw) as (Em & Er & _ & Ea & _).
  constructor; cbn in *; try done; [|by rewrite Em, Er|by rewrite Ea].
  eapply rtc_r; [exact Hp|by apply step_worker].
Qed.

Lemma live_step_inv (nic : rte_mbuf -> Prop) consumer r r' pipe : (forall p, nic p -> well_received p) ->
  live_inv consumer r pipe -> live_step nic r r' -> exists pipe', live_inv consumer r' pipe'.
Proof.
  intros Hnic I Hs. destruct Hs as [st packets seen Hp _|st st' packet packets seen Hrec|st elapsed seen|
    st at_ seen p p' Es Hw].
  - exists pipe. destruct I. constructor; try done. cbn. by eapply Forall_impl.
  - destruct (live_packet_inv _ _ _ _ _ _ I) as (st1 & pipe' & E1 & I'). exists pipe'. congruence.
  - exists pipe. destruct (report_rx elapsed st) as [E1 E2]. destruct I. constructor; cbn in *; try done; congruence.
  - exists p'. pose proof (li_sink _ _ _ I) as Es'. cbn in Es'. assert (p = pipe) as -> by congruence.
    by apply (live_worker_inv _ _ _ _ pipe).
Qed.

Lemma live_reachable_inv (nic : rte_mbuf -> Prop) consumer r : (forall p, nic p -> well_received p) ->
  rtc (live_step nic) (live_start (MarketDataPipeline_start (MarketDataPipeline_new consumer))) r ->
  exists pipe, live_inv consumer r pipe.
Proof.
  intros Hnic. revert r. apply (rtc_ind_r (R := live_step nic)); [eexists; apply live_inv_start|].
  intros r r' _ Hs [pipe I]. by eapply live_step_inv.
Qed.

(** The worker's steps are steps of the run. *)
Lemma live_worker_steps nic st at_ seen pipe pipe' : rx_sink st = Some pipe -> worker_steps pipe pipe' ->
  rtc (live_step nic) (mkLive st at_ seen) (mkLive (set_sink st pipe') at_ seen).
Proof.
  intros Es Hs. revert st Es. induction Hs as [pipe|pipe p1 pipe' Hw _ IH]; intros st Es.
  - destruct st. cbn in Es. subst. apply rtc_refl.
  - eapply rtc_l; [by eapply live_worker|]. by apply (IH (set_sink st p1)).
Qed.

End live.

(** ** Properties *)

(** C35: A live run delivers what the receiver accepts.  In every interleaving of the
    receiving thread and the worker, for packets that are whole and announce lengths inside
    themselves: the receiver is never stuck on a packet; it has freed the buffers of the
    packets processed, once each and in order; the events the pipeline accepted are
    events of the ITCH payloads received, in their order; the consumer has consumed a
    prefix of them, once each and in order; and the worker alone can, from every state,
    bring the consumer to the state after all accepted events. *)
Theorem live_run_delivers :
  forall (E : Type) (EC : EventConsumer E) (consumer : E) (little : bool) (nic : rte_mbuf -> Prop)
    (r : LiveRun),
  (forall packet, nic packet -> well_received packet) ->
  rtc (live_step little nic) (live_start (MarketDataPipeline_start (MarketDataPipeline_new consumer))) r ->
  exists pipe, rx_sink (live_rx r) = Some pipe /\
    (forall packet packets, live_at r = Processing (packet :: packets) ->
       is_Some (receive_packet (UdpPayloadSink0 := ItchUdpPayloadSink little) little (live_rx r) packet)) /\
    rx_freed (live_rx r) = mb_address <$> live_seen r /\
    accepted_ pipe `sublist_of` omap itch_event (payloads (live_seen r)) /\
    (exists rest, accepted_ pipe = consumed_ pipe ++ rest) /\
    consumer_ pipe = foldl consume consumer (consumed_ pipe) /\
    exists r' pipe', rtc (live_step little nic) r r' /\ live_at r' = live_at r /\
      live_seen r' = live_seen r /\ rx_sink (live_rx r') = Some pipe' /\
      consumer_ pipe' = foldl consume consumer (accepted_ pipe).
Proof.
  intros E EC consumer little nic r Hnic Hr.
  destruct (live_reachable_inv little nic consumer r Hnic Hr) as [pipe I]. exists pipe.
  destruct r as [st at_ seen]. pose proof I as [Es Hp [Hm Hrun] _ _ Hf Ha]. cbn in *.
  pose proof (pipeline_reachable_inv _ _ Hp) as Ip. split; [done|]. split.
  { intros packet packets ->. by destruct (live_packet_inv little _ _ _ _ _ _ I) as (st' & _ & -> & _). }
  split; [done|]. split; [done|]. split; [destruct (pi_queue _ _ Ip) as (q & _ & Eq & _); by eexists|].
  split; [apply (pi_consumer _ _ Ip)|].
  destruct (worker_catches_up consumer pipe Ip Hrun) as (p' & Hs & _ & _ & _ & Ec & _).
  exists (mkLive (set_sink st p') at_ seen), p'. split; [by eapply live_worker_steps|]. split; [done|].
  split; [done|]. split; [done|]. rewrite <- Ec. apply (pi_consumer _ _ (worker_steps_inv _ _ _ Ip Hs)).
Qed.

(** One cancellation arrives and is processed. *)
Definition demo_packet : rte_mbuf := mkMbuf 16 (demo_frame 17 51 31 (drop 2 demo_cancel_message)) 65.

Definition demo_live_start : LiveRun :=
  live_start (MarketDataPipeline_start (MarketDataPipeline_new ([] : list MarketDataEvent))).

Lemma demo_packet_ok : well_received demo_packet.
Proof. pose proof demo_bursts_ok as [[H _]%Forall_cons _]%Forall_cons. exact H. Qed.

Lemma demo_live_run (EC : EventConsumer (list MarketDataEvent)) :
  rtc (live_step true well_received) demo_live_start
    (mkLive (rx_spec (live_rx demo_live_start) demo_packet) (Processing []) [demo_packet]).
Proof.
  eapply rtc_l; [apply (live_burst true well_received _ [demo_packet] [])|].
  - apply Forall_singleton, demo_packet_ok.
  - done.
  - eapply rtc_l; [|apply rtc_refl]. apply (live_packet true well_received _ _ demo_packet [] []).
    by apply receive_packet_spec, demo_packet_ok.
Qed.

Lemma live_run_witness :
  exists r' pipe',
    rtc (live_step (EventConsumer0 := recording_consumer) true well_received) demo_live_start r' /\
    rx_sink (live_rx r') = Some pipe' /\
    consumer_ pipe' = [mkEvent CancelOrder 258 0 0 Buy (replicate 8 0) 0 5].
Proof.
  destruct (live_run_delivers _ recording_consumer [] true well_received _ (fun p H => H)
    (demo_live_run recording_consumer))
    as (pipe & Es & _ & _ & _ & _ & _ & r' & pipe' & Hr & _ & _ & Es' & Ec).
  exists r', pipe'. split; [etrans; [apply demo_live_run|exact Hr]|]. split; [exact Es'|]. rewrite Ec.
  assert ((fun p => accepted_ p) <$> rx_sink (rx_spec
    (MarketDataEventSink0 := pipeline_sink (EventConsumer0 := recording_consumer))
    (live_rx demo_live_start) demo_packet) =
    Some [mkEvent CancelOrder 258 0 0 Buy (replicate 8 0) 0 5]) as Ha by (vm_compute; reflexivity).
  cbn [live_rx] in Es. rewrite Es in Ha. injection Ha as ->. reflexivity.
Defined.
