(* ===== verification/Options.v ===== *)
(** * Command lines

    The option parsing of [apps/trading_runtime.cpp] and [apps/exchange_runtime.cpp].

    Arguments are strings; [main] either exits with status 1, which is [Exits] with what it
    has written to the error stream, or goes on with the options.  [from_chars] is
    [std::from_chars] for an unsigned type: the longest run of digits, an error when
    there is none or the value does not fit, the value untouched on an error. *)

From Stdlib Require Import String Ascii.
From S2P Require Import Prelude Text.

Local Open Scope string_scope.
Local Open Scope Z_scope.

(** ** Outcomes *)

Inductive outcome (A : Type) : Type :=
  | Exits (cerr : string)
  | Goes (options : A).
Arguments Exits {A}.
Arguments Goes {A}.

Definition outcome_bind {A B} (m : outcome A) (f : A -> outcome B) : outcome B :=
  match m with Exits cerr => Exits cerr | Goes a => f a end.

Notation "'let?' x := m 'in' f" := (outcome_bind m (fun x => f))
  (at level 10, x name, m at level 100, f at level 200) : hft_scope.

Lemma outcome_bind_goes {A B} (m : outcome A) (f : A -> outcome B) b :
  outcome_bind m f = Goes b -> exists a, m = Goes a /\ f a = Goes b.
Proof. destruct m as [cerr|a]; [done|]. by exists a. Qed.

(** ** Numbers *)

Inductive errc : Type := no_error | invalid_argument | result_out_of_range.

(** The text behind the number, the error and the variable afterwards, for an unsigned
    type of [w] bits. *)
Definition from_chars (w : Z) (s : string) (value : Z) : string * errc * Z :=
  match digits_prefix s with
  | ([], _) => (s, invalid_argument, value)
  | (ds, tail) =>
      if decimal_value ds <? 2 ^ w then (tail, no_error, decimal_value ds)
      else (tail, result_out_of_range, value)
  end.

Definition parseCpuIndex (value : string) (cpuIndex : Z) : bool * Z :=
  let '(ptr, error, cpuIndex) := from_chars 64 value cpuIndex in
  (match error with no_error => true | _ => false end && (ptr =? "")%string, cpuIndex).

Definition parsePort (value : string) (port : Z) : bool * Z :=
  let '(ptr, error, parsedPort) := from_chars 32 value 0 in
  if negb (match error with no_error => true | _ => false end) || negb (ptr =? "")%string ||
     (parsedPort =? 0) || (parsedPort >? 65535)
  then (false, port)
  else (true, u16 parsedPort).

(** The exchange's version admits port 0. *)
Definition exchange_parsePort (value : string) (port : Z) : bool * Z :=
  let '(ptr, error, parsedPort) := from_chars 32 value 0 in
  if negb (match error with no_error => true | _ => false end) || negb (ptr =? "")%string ||
     (parsedPort >? 65535)
  then (false, port)
  else (true, u16 parsedPort).

(** ** [trading_runtime] *)

Inductive InputMode : Type := ReplayMode | DpdkMode.
Inductive ExecutionMode : Type := RecordingMode | TlsMode.

Record TradingOptions : Type := mkOptions {
  opt_mode : option InputMode;
  opt_replayFile : option string;
  opt_rxCpu : option Z;
  opt_pipelineCpu : option Z;
  opt_executionMode : ExecutionMode;
  opt_executionHost : string;
  opt_executionPort : Z;
  opt_caCertificatePath : string
}.

Definition TradingOptions_default : TradingOptions :=
  mkOptions None None None None RecordingMode "127.0.0.1" 0 "".

Definition set_mode (o : TradingOptions) (m : InputMode) (f : option string) : TradingOptions :=
  mkOptions (Some m) f (opt_rxCpu o) (opt_pipelineCpu o) (opt_executionMode o) (opt_executionHost o)
    (opt_executionPort o) (opt_caCertificatePath o).

Definition set_cpus (o : TradingOptions) (rx pipeline : option Z) : TradingOptions :=
  mkOptions (opt_mode o) (opt_replayFile o) rx pipeline (opt_executionMode o) (opt_executionHost o)
    (opt_executionPort o) (opt_caCertificatePath o).

Definition set_execution (o : TradingOptions) (m : ExecutionMode) (host : string) (port : Z) (ca : string)
    : TradingOptions :=
  mkOptions (opt_mode o) (opt_replayFile o) (opt_rxCpu o) (opt_pipelineCpu o) m host port ca.

(** [printUsage]. *)
Definition trading_usage : string :=
  "Usage:" ++ newline ++
  "  trading_runtime --mode replay <itch_replay_file> [--pipeline-cpu <cpu>] [--execution recording]" ++ newline ++
  newline ++
  "  trading_runtime --mode replay <itch_replay_file> [--pipeline-cpu <cpu>] --execution tls " ++
  "--host <ip> --port <port> --ca <certificate>" ++ newline ++
  newline ++
  "  trading_runtime --mode dpdk [--rx-cpu <cpu>] [--pipeline-cpu <cpu>] [--execution recording]" ++ newline ++
  newline ++
  "  trading_runtime --mode dpdk [--rx-cpu <cpu>] [--pipeline-cpu <cpu>] --execution tls " ++
  "--host <ip> --port <port> --ca <certificate>" ++ newline.

(** *** The branches of the loop over [argv]

    Each takes the arguments behind its flag and goes on, with [continue], as [next]. *)
Section flags.
Context (next : TradingOptions -> list string -> outcome TradingOptions) (o : TradingOptions).

Definition mode_flag (rest : list string) : outcome TradingOptions :=
  match rest with
  | [] => Exits ("Missing value for --mode" ++ newline ++ trading_usage)
  | modeValue :: rest =>
      if (modeValue =? "replay")%string then
        match rest with
        | [] => Exits ("Missing replay file" ++ newline ++ trading_usage)
        | file :: rest => next (set_mode o ReplayMode (Some file)) rest
        end
      else if (modeValue =? "dpdk")%string then next (set_mode o DpdkMode (opt_replayFile o)) rest
      else Exits ("Unknown mode: " ++ modeValue ++ newline ++ trading_usage)
  end.

Definition rx_cpu_flag (rest : list string) : outcome TradingOptions :=
  match rest with
  | [] => Exits ("Missing value for --rx-cpu" ++ newline)
  | value :: rest =>
      let '(ok, cpuIndex) := parseCpuIndex value 0 in
      if (ok : bool) then next (set_cpus o (Some cpuIndex) (opt_pipelineCpu o)) rest
      else Exits ("Invalid RX CPU index: " ++ value ++ newline)
  end.

Definition pipeline_cpu_flag (rest : list string) : outcome TradingOptions :=
  match rest with
  | [] => Exits ("Missing value for --pipeline-cpu" ++ newline)
  | value :: rest =>
      let '(ok, cpuIndex) := parseCpuIndex value 0 in
      if (ok : bool) then next (set_cpus o (opt_rxCpu o) (Some cpuIndex)) rest
      else Exits ("Invalid pipeline CPU index: " ++ value ++ newline)
  end.

Definition execution_flag (rest : list string) : outcome TradingOptions :=
  match rest with
  | [] => Exits ("Missing value for --execution" ++ newline)
  | executionValue :: rest =>
      let set m := set_execution o m (opt_executionHost o) (opt_executionPort o) (opt_caCertificatePath o) in
      if (executionValue =? "recording")%string then next (set RecordingMode) rest
      else if (executionValue =? "tls")%string then next (set TlsMode) rest
      else Exits ("Unknown execution mode: " ++ executionValue ++ newline)
  end.

Definition host_flag (rest : list string) : outcome TradingOptions :=
  match rest with
  | [] => Exits ("Missing value for --host" ++ newline)
  | host :: rest =>
      next (set_execution o (opt_executionMode o) host (opt_executionPort o) (opt_caCertificatePath o)) rest
  end.

Definition port_flag (rest : list string) : outcome TradingOptions :=
  match rest with
  | [] => Exits ("Missing value for --port" ++ newline)
  | value :: rest =>
      let '(ok, port) := parsePort value (opt_executionPort o) in
      if (ok : bool) then
        next (set_execution o (opt_executionMode o) (opt_executionHost o) port (opt_caCertificatePath o)) rest
      else Exits ("Invalid execution port: " ++ value ++ newline)
  end.

Definition ca_flag (rest : list string) : outcome TradingOptions :=
  match rest with
  | [] => Exits ("Missing value for --ca" ++ newline)
  | ca :: rest =>
      next (set_execution o (opt_executionMode o) (opt_executionHost o) (opt_executionPort o) ca) rest
  end.

End flags.

(** The loop. *)
Fixpoint parse_arguments (o : TradingOptions) (args : list string) : outcome TradingOptions :=
  match args with
  | [] => Goes o
  | argument :: rest =>
      if (argument =? "--mode")%string then mode_flag parse_arguments o rest
      else if (argument =? "--rx-cpu")%string then rx_cpu_flag parse_arguments o rest
      else if (argument =? "--pipeline-cpu")%string then pipeline_cpu_flag parse_arguments o rest
      else if (argument =? "--execution")%string then execution_flag parse_arguments o rest
      else if (argument =? "--host")%string then host_flag parse_arguments o rest
      else if (argument =? "--port")%string then port_flag parse_arguments o rest
      else if (argument =? "--ca")%string then ca_flag parse_arguments o rest
      else Exits ("Unknown argument: " ++ argument ++ newline ++ trading_usage)
  end.

(** The checks behind the loop. *)
Definition check_options (o : TradingOptions) : outcome TradingOptions :=
  match opt_mode o with
  | None => Exits ("Input mode was not specified" ++ newline ++ trading_usage)
  | Some mode =>
      let replay := match mode with ReplayMode => true | DpdkMode => false end in
      if replay && match opt_replayFile o with None => true | Some _ => false end
      then Exits ("Replay mode requires an input file" ++ newline)
      else if replay && match opt_rxCpu o with Some _ => true | None => false end
      then Exits ("--rx-cpu is only valid in DPDK mode" ++ newline)
      else match opt_executionMode o with
           | TlsMode =>
               if opt_executionPort o =? 0 then Exits ("TLS execution requires --port" ++ newline)
               else if (opt_caCertificatePath o =? "")%string then Exits ("TLS execution requires --ca" ++ newline)
               else Goes o
           | RecordingMode => Goes o
           end
  end.

(** [main] up to the construction of the components; [args] is [argv] without the name of
    the program. *)
Definition trading_options (args : list string) : outcome TradingOptions :=
  if (Datatypes.length args + 1 <? 3)%nat then Exits trading_usage
  else let? o := parse_arguments TradingOptions_default args in check_options o.

(** ** [exchange_runtime] *)

Record ExchangeOptions : Type := mkExchangeOptions {
  ex_port : Z;
  ex_certificatePath : string;
  ex_privateKeyPath : string
}.

Definition exchange_usage : string :=
  "Usage:" ++ newline ++ "  exchange_runtime --port <port> --cert <certificate> --key <private-key>" ++ newline.

Fixpoint exchange_arguments (o : ExchangeOptions) (args : list string) : outcome ExchangeOptions :=
  match args with
  | [] => Goes o
  | argument :: rest =>
      if (argument =? "--port")%string then
        match rest with
        | [] => Exits ("Missing value for --port" ++ newline ++ exchange_usage)
        | value :: rest =>
            let '(ok, port) := exchange_parsePort value (ex_port o) in
            if (ok : bool) then
              exchange_arguments (mkExchangeOptions port (ex_certificatePath o) (ex_privateKeyPath o)) rest
            else Exits ("Invalid port: " ++ value ++ newline)
        end
      else if (argument =? "--cert")%string then
        match rest with
        | [] => Exits ("Missing value for --cert" ++ newline)
        | path :: rest =>
            exchange_arguments (mkExchangeOptions (ex_port o) path (ex_privateKeyPath o)) rest
        end
      else if (argument =? "--key")%string then
        match rest with
        | [] => Exits ("Missing value for --key" ++ newline)
        | path :: rest =>
            exchange_arguments (mkExchangeOptions (ex_port o) (ex_certificatePath o) path) rest
        end
      else Exits ("Unknown argument: " ++ argument ++ newline ++ exchange_usage)
  end.

Definition exchange_options (args : list string) : outcome ExchangeOptions :=
  let? o := exchange_arguments (mkExchangeOptions 0 "" "") args in
  if (ex_certificatePath o =? "")%string then Exits ("TLS certificate is required" ++ newline)
  else if (ex_privateKeyPath o =? "")%string then Exits ("TLS private key is required" ++ newline)
  else Goes o.

Lemma from_chars_decimal w n value :
  0 <= n < 2 ^ w -> w <= 64 -> from_chars w (decimal_string n) value = ("", no_error, n).
Proof.
  intros Hn Hw. assert (n < 10 ^ 20).
  { pose proof (Z.pow_le_mono_r 2 w 64 ltac:(lia) Hw). change (10 ^ 20) with 100000000000000000000.
    change (2 ^ 64) with 18446744073709551616 in *. lia. }
  destruct (digits_of_spec 20 n) as (Hd & Hv & Hne); [change (Z.of_nat 20) with 20; lia|lia|].
  unfold from_chars, decimal_string. rewrite digits_prefix_string by done.
  destruct (digits_of 20 n) as [|d ds]; [done|]. rewrite Hv. by rewrite (proj2 (Z.ltb_lt _ _)) by lia.
Qed.

Lemma parseCpuIndex_decimal n value : is_uint 64 n -> parseCpuIndex (decimal_string n) value = (true, n).
Proof. intros Hn. unfold parseCpuIndex. by rewrite from_chars_decimal. Qed.

Lemma parsePort_decimal n port : 1 <= n <= 65535 -> parsePort (decimal_string n) port = (true, n).
Proof.
  intros Hn. unfold parsePort. rewrite from_chars_decimal by lia. cbn [negb orb String.eqb].
  rewrite (proj2 (Z.eqb_neq _ _)) by lia. rewrite Z.gtb_ltb, (proj2 (Z.ltb_ge _ _)) by lia.
  cbn [orb]. by rewrite wrap_small by lia.
Qed.

(** What the parsers accept is in range. *)
Lemma from_chars_range w s value tail v :
  from_chars w s value = (tail, no_error, v) -> 0 <= v < 2 ^ w.
Proof.
  unfold from_chars. destruct (digits_prefix s) as [[|d ds] rest] eqn:E; [done|]. bcase; [|done].
  intros [= <- <-]. split; [|done].
  assert (forall s, Forall is_digit (digits_prefix s).1) as Hd.
  { induction s0 as [|c s0 IH]; cbn; [constructor|]. unfold digit_of.
    destruct ((48 <=? Z.of_nat (nat_of_ascii c)) && (Z.of_nat (nat_of_ascii c) <=? 57)) eqn:Ec; [|constructor].
    bprop. destruct (digits_prefix s0). cbn in *. constructor; [unfold is_digit; lia|done]. }
  specialize (Hd s). rewrite E in Hd. cbn [fst] in Hd.
  assert (forall l acc, Forall is_digit l -> 0 <= acc -> 0 <= foldl (fun acc d => acc * 10 + d) acc l) as Hp.
  { induction l as [|x l IH]; intros acc Hl Ha; cbn; [done|]. apply Forall_cons in Hl as [Hx Hl].
    apply IH; [done|]. unfold is_digit in Hx. lia. }
  apply Hp; [done|lia].
Qed.

Lemma parseCpuIndex_range s value v : parseCpuIndex s value = (true, v) -> is_uint 64 v.
Proof.
  unfold parseCpuIndex. destruct (from_chars 64 s value) as [[ptr []] n] eqn:E; try done.
  intros [= _ <-]. by eapply from_chars_range.
Qed.

Lemma parsePort_range s port p : parsePort s port = (true, p) -> 1 <= p <= 65535.
Proof.
  unfold parsePort. destruct (from_chars 32 s 0) as [[ptr []] n] eqn:E; try done. cbn [negb orb].
  apply from_chars_range in E. bcase; [done|]. intros [= <-]. bprop.
  rewrite wrap_small; lia.
Qed.

Lemma exchange_parsePort_range s port p : exchange_parsePort s port = (true, p) -> is_uint 16 p.
Proof.
  unfold exchange_parsePort. destruct (from_chars 32 s 0) as [[ptr []] n] eqn:E; try done. cbn [negb orb].
  bcase; [done|]. intros [= <-]. apply wrap_range. lia.
Qed.

(** ** Accepted options *)

(** What every state of the argument loop satisfies. *)
Record parsed_ok (o : TradingOptions) : Prop := {
  po_file : opt_mode o = Some ReplayMode -> exists file, opt_replayFile o = Some file;
  po_rx : forall cpu, opt_rxCpu o = Some cpu -> is_uint 64 cpu;
  po_pipeline : forall cpu, opt_pipelineCpu o = Some cpu -> is_uint 64 cpu;
  po_port : 0 <= opt_executionPort o <= 65535
}.

Ltac parsed_step :=
  match goal with
  | |- context [match ?l with [] => Exits _ | _ :: _ => _ end] => destruct l; [done|]
  | |- context [if (?a =? ?b)%string then _ else _] => destruct (String.eqb a b)
  | |- context [parseCpuIndex ?v ?n] =>
      let E := fresh "E" in destruct (parseCpuIndex v n) as [[] ?] eqn:E; [apply parseCpuIndex_range in E|done]
  | |- context [parsePort ?v ?n] =>
      let E := fresh "E" in destruct (parsePort v n) as [[] ?] eqn:E; [apply parsePort_range in E|done]
  end.

Lemma parse_arguments_ok args : forall o o',
  parsed_ok o -> parse_arguments o args = Goes o' -> parsed_ok o'.
Proof.
  remember (Datatypes.length args) as n eqn:En. revert args En.
  induction (lt_wf n) as [n _ IH]. intros args -> o o' Ho.
  destruct args as [|argument rest]; cbn [parse_arguments]; [by intros [= <-]|].
  unfold mode_flag, rx_cpu_flag, pipeline_cpu_flag, execution_flag, host_flag, port_flag, ca_flag.
  repeat parsed_step; try done; apply (IH (Datatypes.length rest) ltac:(cbn; lia) _ eq_refl) ||
    (match goal with |- parse_arguments _ ?l = _ -> _ => apply (IH (Datatypes.length l)); [cbn; lia|done|] end);
    destruct Ho as [Hfile Hrx Hpl Hport]; constructor; cbn; try done; try (intros; naive_solver); try lia.
Qed.

(** The command line of a set of options. *)
Definition option_args (flag : string) (value : option string) : list string :=
  match value with Some v => [flag; v] | None => [] end.

Definition mode_args (o : TradingOptions) : list string :=
  match opt_mode o, opt_replayFile o with
  | Some ReplayMode, Some file => ["--mode"; "replay"; file]
  | Some DpdkMode, _ => ["--mode"; "dpdk"]
  | _, _ => []
  end.

Definition cpu_args (o : TradingOptions) : list string :=
  option_args "--rx-cpu" (decimal_string <$> opt_rxCpu o) ++
  option_args "--pipeline-cpu" (decimal_string <$> opt_pipelineCpu o).

Definition execution_args (o : TradingOptions) : list string :=
  ["--execution"; match opt_executionMode o with RecordingMode => "recording" | TlsMode => "tls" end] ++
  ["--host"; opt_executionHost o] ++
  option_args "--port" (if opt_executionPort o =? 0 then None else Some (decimal_string (opt_executionPort o))) ++
  ["--ca"; opt_caCertificatePath o].

Definition command_line (o : TradingOptions) : list string := mode_args o ++ cpu_args o ++ execution_args o.

(** Options the program can run with. *)
Record runnable (o : TradingOptions) : Prop := {
  rn_parsed : parsed_ok o;
  rn_mode : opt_mode o <> None;
  rn_replay : opt_mode o = Some ReplayMode -> opt_rxCpu o = None;
  rn_tls : opt_executionMode o = TlsMode -> 1 <= opt_executionPort o /\ opt_caCertificatePath o <> ""
}.

Lemma check_options_spec o o' :
  parsed_ok o -> check_options o = Goes o' -> o' = o /\ runnable o.
Proof.
  intros Ho. unfold check_options. destruct (opt_mode o) as [mode|] eqn:Em; [|done].
  assert ((mode = ReplayMode -> opt_rxCpu o = None) ->
    match opt_executionMode o with
    | TlsMode => if opt_executionPort o =? 0 then Exits ("TLS execution requires --port" ++ newline)
                 else if (opt_caCertificatePath o =? "")%string
                 then Exits ("TLS execution requires --ca" ++ newline) else Goes o
    | RecordingMode => Goes o
    end = Goes o' -> o' = o /\ runnable o) as Hrest.
  { intros Hrx. destruct (opt_executionMode o) eqn:Ee.
    - intros [= <-]. split; [done|]. constructor; try done; congruence || naive_solver.
    - bcase; [done|]. destruct (String.eqb_spec (opt_caCertificatePath o) ""); [done|]. intros [= <-].
      split; [done|]. constructor; try done; try congruence; [naive_solver|].
      pose proof (po_port _ Ho). split; [lia|done]. }
  destruct mode; cbn [andb]; [|by apply Hrest].
  destruct (opt_replayFile o); [|done]. destruct (opt_rxCpu o); [done|by apply Hrest].
Qed.

Lemma check_options_runnable o : runnable o -> check_options o = Goes o.
Proof.
  intros [Ho Hm Hr Ht]. unfold check_options. destruct (opt_mode o) as [mode|] eqn:Em; [|done].
  assert (match opt_executionMode o with
    | TlsMode => if opt_executionPort o =? 0 then Exits ("TLS execution requires --port" ++ newline)
                 else if (opt_caCertificatePath o =? "")%string
                 then Exits ("TLS execution requires --ca" ++ newline) else Goes o
    | RecordingMode => Goes o end = Goes o) as Hrest.
  { destruct (opt_executionMode o); [done|]. destruct Ht as [Hp Hc]; [done|].
    rewrite (proj2 (Z.eqb_neq _ _)) by lia. by rewrite (proj2 (String.eqb_neq _ _)). }
  destruct mode; cbn [andb]; [|done]. destruct (po_file _ Ho Em) as [file ->]. by rewrite Hr.
Qed.

Lemma exchange_arguments_port args : forall o o',
  is_uint 16 (ex_port o) -> exchange_arguments o args = Goes o' -> is_uint 16 (ex_port o').
Proof.
  remember (Datatypes.length args) as n eqn:En. revert args En.
  induction (lt_wf n) as [n _ IH]. intros args -> o o' Ho.
  destruct args as [|argument [|value rest]]; cbn [exchange_arguments]; [by intros [= <-]|..].
  { by repeat match goal with |- context [if ?b then _ else _] => destruct b end. }
  destruct (argument =? "--port")%string.
  - destruct (exchange_parsePort value (ex_port o)) as [[] port] eqn:E; [|done].
    apply exchange_parsePort_range in E. by apply (IH (Datatypes.length rest)); [cbn; lia|..].
  - repeat (bcase; [by apply (IH (Datatypes.length rest)); [cbn; lia|..]|]). done.
Qed.

#[local] Arguments decimal_string : simpl never.
#[local] Arguments parsePort : simpl never.
#[local] Arguments parseCpuIndex : simpl never.

Lemma parse_execution o o0 rest :
  parsed_ok o -> opt_executionPort o0 = 0 ->
  parse_arguments o0 (execution_args o ++ rest) =
  parse_arguments (set_execution o0 (opt_executionMode o) (opt_executionHost o) (opt_executionPort o)
                     (opt_caCertificatePath o)) rest.
Proof.
  intros Ho E0. pose proof (po_port _ Ho) as Hp. unfold execution_args.
  destruct (opt_executionMode o); cbn; (destruct (Z.eqb_spec (opt_executionPort o) 0) as [E|E]; cbn;
    [by rewrite E0, E|]); by rewrite parsePort_decimal by lia.
Qed.

Lemma parse_cpus o o0 rest :
  parsed_ok o -> opt_rxCpu o0 = None -> opt_pipelineCpu o0 = None ->
  parse_arguments o0 (cpu_args o ++ rest) =
  parse_arguments (set_cpus o0 (opt_rxCpu o) (opt_pipelineCpu o)) rest.
Proof.
  intros Ho E1 E2. pose proof (po_rx _ Ho) as Hrx. pose proof (po_pipeline _ Ho) as Hpl.
  unfold cpu_args. destruct o0 as [a b c d e f g h]. cbn in E1, E2. subst c d.
  destruct (opt_rxCpu o) as [rx|], (opt_pipelineCpu o) as [pl|]; cbn;
    rewrite ?parseCpuIndex_decimal by auto; cbn; rewrite ?parseCpuIndex_decimal by auto; done.
Qed.

Lemma parse_mode o rest :
  runnable o -> (opt_mode o = Some DpdkMode -> opt_replayFile o = None) ->
  parse_arguments TradingOptions_default (mode_args o ++ rest) =
  parse_arguments (mkOptions (opt_mode o) (opt_replayFile o) None None RecordingMode "127.0.0.1" 0 "") rest.
Proof.
  intros [Ho Hm _ _] Hd. unfold mode_args. destruct (opt_mode o) as [[]|] eqn:Em; [| |done].
  - destruct (po_file _ Ho Em) as [file ->]. done.
  - by rewrite Hd.
Qed.

Lemma parse_command_line o rest :
  runnable o -> (opt_mode o = Some DpdkMode -> opt_replayFile o = None) ->
  parse_arguments TradingOptions_default (command_line o ++ rest) = parse_arguments o rest.
Proof.
  intros Hr Hd. pose proof (rn_parsed _ Hr) as Ho. unfold command_line. rewrite <- !app_assoc.
  rewrite parse_mode, parse_cpus, parse_execution by done. by destruct o.
Qed.

(** *** Refusals *)

Definition trading_flags : list string :=
  ["--mode"; "--rx-cpu"; "--pipeline-cpu"; "--execution"; "--host"; "--port"; "--ca"].

(** A full command line with more arguments behind it. *)
Lemma trading_options_app o rest :
  runnable o -> (opt_mode o = Some DpdkMode -> opt_replayFile o = None) ->
  trading_options (command_line o ++ rest) = let? o' := parse_arguments o rest in check_options o'.
Proof.
  intros Hr Hd. unfold trading_options. rewrite parse_command_line by done.
  rewrite (proj2 (Nat.ltb_ge _ _)); [done|].
  unfold command_line, execution_args. rewrite !length_app. cbn. lia.
Qed.

Lemma unknown_argument o argument rest :
  argument ∉ trading_flags ->
  parse_arguments o (argument :: rest) = Exits ("Unknown argument: " ++ argument ++ newline ++ trading_usage).
Proof.
  intros Hn. unfold trading_flags in Hn. cbn [parse_arguments].
  repeat (apply not_elem_of_cons in Hn as [Hne Hn]; rewrite (proj2 (String.eqb_neq _ _) Hne); clear Hne). done.
Qed.

(** No refusal is silent. *)
Definition explained {A} (m : outcome A) : Prop := match m with Exits cerr => cerr <> "" | Goes _ => True end.

Ltac explained_step :=
  match goal with
  | |- explained (Exits _) => discriminate
  | |- explained (Goes _) => exact I
  | |- context [match ?l with [] => Exits _ | _ :: _ => _ end] => destruct l
  | |- context [if (?a =? ?b)%string then _ else _] => destruct (String.eqb a b)
  | |- context [parseCpuIndex ?v ?n] => destruct (parseCpuIndex v n) as [[] ?]
  | |- context [parsePort ?v ?n] => destruct (parsePort v n) as [[] ?]
  | |- context [exchange_parsePort ?v ?n] => destruct (exchange_parsePort v n) as [[] ?]
  end.

Lemma parse_arguments_explained args : forall o, explained (parse_arguments o args).
Proof.
  remember (Datatypes.length args) as n eqn:En. revert args En.
  induction (lt_wf n) as [n _ IH]. intros args -> o.
  destruct args as [|argument rest]; cbn [parse_arguments]; [exact I|].
  unfold mode_flag, rx_cpu_flag, pipeline_cpu_flag, execution_flag, host_flag, port_flag, ca_flag.
  repeat explained_step; eapply IH; try reflexivity; cbn; lia.
Qed.

Lemma exchange_arguments_explained args : forall o, explained (exchange_arguments o args).
Proof.
  remember (Datatypes.length args) as n eqn:En. revert args En.
  induction (lt_wf n) as [n _ IH]. intros args -> o.
  destruct args as [|argument rest]; cbn [exchange_arguments]; [exact I|].
  repeat explained_step; eapply IH; try reflexivity; cbn; lia.
Qed.

Lemma options_explained args : explained (trading_options args) /\ explained (exchange_options args).
Proof.
  split.
  - unfold trading_options. destruct (_ <? _)%nat; [discriminate|].
    pose proof (parse_arguments_explained args TradingOptions_default) as H.
    destruct (parse_arguments _ args) as [cerr|o]; [exact H|]. cbn [outcome_bind]. unfold check_options.
    destruct (opt_mode o) as [[]|], (opt_replayFile o), (opt_rxCpu o), (opt_executionMode o); cbn [andb];
      try destruct (opt_executionPort o =? 0); repeat explained_step.
  - unfold exchange_options. pose proof (exchange_arguments_explained args (mkExchangeOptions 0 "" "")) as H.
    destruct (exchange_arguments _ args) as [cerr|o]; [exact H|]. cbn [outcome_bind]. repeat explained_step.
Qed.

(** ** Properties *)

(** C39: The trading runtime runs exactly with complete options, and says why when it does
    not.  When [main] goes on, an input mode was given, a replay has a file and no receive
    CPU, CPU indices are 64-bit and the port 16-bit values, and TLS execution has a port and
    a certificate; and every such set of options is what its command line, with the numbers
    in decimal, is parsed to.  An unknown argument, and a flag without its value, behind a
    complete command line is refused by name.  The exchange goes on only with a
    certificate, a key and a 16-bit port, and neither program refuses its command line
    without a message. *)
Theorem runtime_options_sound_and_complete :
  (forall args o, trading_options args = Goes o -> runnable o) /\
  (forall o, runnable o -> (opt_mode o = Some DpdkMode -> opt_replayFile o = None) ->
     trading_options (command_line o) = Goes o /\
     (forall argument rest, argument ∉ trading_flags ->
        trading_options (command_line o ++ argument :: rest) =
          Exits ("Unknown argument: " ++ argument ++ newline ++ trading_usage)) /\
     (forall flag, flag ∈ trading_flags -> exists more,
        trading_options (command_line o ++ [flag]) = Exits ("Missing value for " ++ flag ++ newline ++ more))) /\
  (forall args o, exchange_options args = Goes o ->
     is_uint 16 (ex_port o) /\ ex_certificatePath o <> "" /\ ex_privateKeyPath o <> "") /\
  (forall args, trading_options args <> Exits "" /\ exchange_options args <> Exits "").
Proof.
  split; [|split; [|split]].
  - intros args o. unfold trading_options. bcase; [done|].
    intros (o1 & E1 & E2)%outcome_bind_goes.
    apply parse_arguments_ok in E1; [|constructor; cbn; done || lia].
    by apply check_options_spec in E2 as [-> Hr].
  - intros o Hr Hd. split; [|split].
    + rewrite <- (app_nil_r (command_line o)), trading_options_app by done. by apply check_options_runnable.
    + intros argument rest Hn. by rewrite trading_options_app, unknown_argument.
    + intros flag Hf. rewrite trading_options_app by done. unfold trading_flags in Hf.
      repeat (apply elem_of_cons in Hf as [->|Hf]; [by eexists|]). by apply elem_of_nil in Hf.
  - intros args o (o1 & E1 & E2)%outcome_bind_goes.
    destruct (String.eqb_spec (ex_certificatePath o1) ""); [done|].
    destruct (String.eqb_spec (ex_privateKeyPath o1) ""); [done|]. injection E2 as <-.
    split; [|done]. eapply exchange_arguments_port; [|exact E1]. unfold is_uint. cbn. lia.
  - intros args. destruct (options_explained args) as [H1 H2].
    split; intros E; rewrite E in *; by apply H1 || apply H2.
Qed.

(** A TLS replay. *)
Definition demo_options : TradingOptions :=
  mkOptions (Some ReplayMode) (Some "sample.bin") None (Some 3) TlsMode "10.0.0.2" 9443 "ca.pem".

Lemma runtime_options_witness :
  command_line demo_options =
    ["--mode"; "replay"; "sample.bin"; "--pipeline-cpu"; "3"; "--execution"; "tls"; "--host"; "10.0.0.2";
     "--port"; "9443"; "--ca"; "ca.pem"] /\
  trading_options (command_line demo_options) = Goes demo_options.
Proof.
  split; [reflexivity|]. apply runtime_options_sound_and_complete; [|discriminate].
  constructor; [constructor|..]; cbn.
  - intros _. by exists "sample.bin".
  - discriminate.
  - intros cpu [= <-]. unfold is_uint. lia.
  - lia.
  - discriminate.
  - done.
  - intros _. split; [lia|discriminate].
Defined.
