(* ===== verification/ExchangeRun.v ===== *)
(** * The exchange runtime

    [main] of [apps/exchange_runtime.cpp] behind its options: the server is started,
    polled with a timeout of 100 ms until a poll fails, and stopped; its destructor stops
    it once more.  The [while (true)] loop is run for a number of polls, so that its
    theorem speaks about every moment of a run.  The theorem holds for every handler, also
    one that is not defined on every frame, and for the runtime's own, [runtime_handler]
    over [runtime_engine]. *)

From Stdlib Require Import String.
From S2P Require Import Prelude Types MatchingEngine Wire Ouch Net NetLogic Exchange ExchangeServer.
From S2P Require Import OrderPool OrderBook BookStore MatchingSpec MatchingProofs ServerProofs ServerLifecycle ServerSim ServerFrames.
From S2P Require Import Risk Gateway Transport ServerClaims.
From S2P Require Import Text Options.

(** The engine, with the session map it shares with the handler, and the handler: the
    dispatcher of the runtime has no listener. *)
Definition runtime_engine (base : Z) : Engine ExchangeEnv := MatchingEngine_new base exchange_env.

Definition runtime_handler (std_hash : Z -> Z) : OuchHandler (Engine ExchangeEnv) :=
  ExchangeHandler std_hash (EventDispatcher_publish []).

Section main.
Context {W : Type} `{!World W} {H : Type} `{!OuchHandler H}.

(** At most [polls] iterations; [true] when the loop is still running. *)
Fixpoint event_loop (polls fuel : nat) (server : ExchangeTcpServer H) : IO W (bool * ExchangeTcpServer H) :=
  match polls with
  | O => io_ret (true, server)
  | S polls =>
      let! (ok, server) := ExchangeTcpServer_pollOnce fuel server 100 in
      if negb ok then io_ret (false, server) else event_loop polls fuel server
  end.

(** The exit status, [None] while the loop is running, and the server. *)
Definition exchange_main (o : ExchangeOptions) (handler : H) (polls fuel : nat)
    : IO W (option Z * ExchangeTcpServer H) :=
  let server := ExchangeTcpServer_new (ex_port o) 1001 handler (chars (ex_certificatePath o))
                  (chars (ex_privateKeyPath o)) in
  let! (started, server) := ExchangeTcpServer_start server in
  if negb started then
    let! server := ExchangeTcpServer_stop server in io_ret (Some 1, server)
  else
    let! (running, server) := event_loop polls fuel server in
    if (running : bool) then io_ret (None, server)
    else
      let! server := ExchangeTcpServer_stop server in
      let! server := ExchangeTcpServer_stop server in
      io_ret (Some 0, server).

End main.

(** What the process holds: nothing after its end, and what the server records before. *)
Definition accounted {W H} (status : option Z) (s : ExchangeTcpServer H) (e : Env W) : Prop :=
  match status with
  | Some _ => held_from [] (env_log e) = [] /\ server_idle s
  | None => held_from [] (env_log e) ≡ₚ all_handles s /\ NoDup (all_handles s) /\
            0 <= srv_listenFd s /\ 0 <= srv_epollFd s
  end.

(** ** In front of the recorder *)

Section proofs.
Context {W : Type} `{!World W, !WorldLaws W, !Quiescent W, !HandleLaws W}.
Context {H : Type} `{!OuchHandler H, !HandlerLaws} (handler : H).
Implicit Types (s : ExchangeTcpServer (list bytes)) (e : Env W).

Abbreviation scribe := (recorder handler 1001).

Lemma event_loop_tracked polls fuel N : forall s e, tracked None N s e -> (AcceptedSize + N < fuel)%nat ->
  wp (event_loop (OuchHandler0 := scribe) polls fuel s) e (fun r e' => tracked None N r.2 e').
Proof.
  induction polls as [|polls IH]; intros s e Hs Hf; cbn [event_loop]; [by apply wp_ret|].
  apply wp_bind. eapply wp_mono; [by eapply pollOnce_tracked|]. intros [ok s1] e1 Hs1.
  destruct ok; cbn [negb]; [by apply IH|by apply wp_ret].
Qed.

Lemma accounted_end status s e : owned [] e -> server_idle s -> accounted (Some status) s e.
Proof. intros [Hh _ _] Hi. split; [by apply Permutation_nil_r|done]. Qed.

Lemma exchange_main_tracked o polls fuel (w : W) : (AcceptedSize + patience w < fuel)%nat ->
  wp (exchange_main (OuchHandler0 := scribe) o [] polls fuel) (mkEnv w []) (fun r e =>
    accounted r.1 r.2 e /\ srv_handler r.2 = log_frames (env_log e)).
Proof.
  intros Hf. unfold exchange_main. apply wp_bind.
  eapply wp_mono; [apply (start_tracked (patience w)); [by repeat split|by split; constructor|done|]|].
  { split; [done|]. cbn. intros fd c E. by rewrite lookup_empty in E. }
  intros [ok s1] e1 [(Ho1 & _ & Hs1) Hi1]. cbn in Ho1, Hs1, Hi1. destruct ok; cbn [negb].
  - apply wp_bind. eapply wp_mono; [apply (event_loop_tracked _ _ (patience w)); [by split; [apply Hs1|]|done]|].
    intros [running s2] e2 [Hs2 [Hh2 _]]. cbn in Hs2, Hh2. destruct running.
    + apply wp_ret. split; [|done]. destruct Hs2 as [_ [Hh Hn _] _ _ Hl He]. by split_and!.
    + apply wp_bind. eapply wp_mono; [by apply stop_tracked, Hh2; apply (sg_owned _ _ _ _ Hs2)|].
      intros s3 e3 (Ho3 & Hi3 & Hh3).
      apply wp_bind. eapply wp_mono; [apply stop_tracked, Hh3; by rewrite all_handles_idle|].
      intros s4 e4 (Ho4 & Hi4 & Hh4). apply wp_ret. split; [by apply accounted_end|done].
  - apply wp_bind. eapply wp_mono; [by apply stop_tracked, (in_handed _ _ _ Hi1)|]. intros s2 e2 (Ho2 & Hi2 & Hh2).
    apply wp_ret. split; [by apply accounted_end|done].
Qed.

End proofs.

Lemma exchange_main_by_calls {W} `{!World W} {H} `{!OuchHandler H} o (handler : H) polls fuel :
  by_calls (W := W) (exchange_main o handler polls fuel).
Proof.
  assert (forall polls s, by_calls (W := W) (event_loop polls fuel s)) as Hl.
  { clear polls. induction polls as [|polls IH]; intros s; cbn [event_loop];
      repeat (walk_calls || apply pollOnce_by_calls || apply IH). }
  unfold exchange_main. repeat (walk_calls || apply start_by_calls || apply stop_by_calls || apply Hl).
Qed.

(** ** Handlers that may be undefined *)

Section undefined.
Context {W : Type} `{!World W} {H : Type} `{!OuchHandler H}.
Context (h0 : H) (acct : AccountId).

Abbreviation smap := (smap h0 acct).
Abbreviation same_flag := (same h0 acct snd (fun x => (fst x, smap (snd x)))).

Lemma event_loop_same polls fuel : forall (s : ExchangeTcpServer (list bytes)),
  srv_accountId s = acct ->
  same_flag s (event_loop (OuchHandler0 := recorder h0 acct) polls fuel s) (event_loop polls fuel (smap s)).
Proof.
  induction polls as [|polls IH]; intros s Ha; cbn [event_loop]; [repeat sim_step|].
  apply bind_flag; [by apply pollOnce_same|]. intros ok s1 Ha1.
  apply same_if; [repeat sim_step|apply IH; by rewrite Ha1].
Qed.

End undefined.

Lemma exchange_main_same {W} `{!World W} {H} `{!OuchHandler H} (handler : H) o polls fuel :
  same handler 1001 snd (fun x => (fst x, smap handler 1001 (snd x)))
    (ExchangeTcpServer_new (ex_port o) 1001 [] (chars (ex_certificatePath o)) (chars (ex_privateKeyPath o)))
    (exchange_main (W := W) (OuchHandler0 := recorder handler 1001) o [] polls fuel)
    (exchange_main o handler polls fuel).
Proof.
  unfold exchange_main. apply bind_flag; [apply start_same|]. intros started s1 Ha1. apply same_if.
  - apply bind_server; [apply stop_same|]. intros s2 _. repeat sim_step.
  - apply bind_flag; [by apply event_loop_same|]. intros running s2 _. apply same_if; [repeat sim_step|].
    apply bind_server; [apply stop_same|]. intros s3 _. apply bind_server; [apply stop_same|]. intros s4 _.
    repeat sim_step.
Qed.

(** The same server in front of another handler. *)
Definition in_front_of {H} (s : ExchangeTcpServer (list bytes)) (h : H) : ExchangeTcpServer H :=
  mkServer (srv_port s) (srv_accountId s) h (srv_certificatePath s) (srv_privateKeyPath s) (srv_sslContext s)
    (srv_listenFd s) (srv_epollFd s) (srv_clients s).

(** The frames of the log decide whether a run is defined. *)
Lemma exchange_main_frames {W} `{!World W, !WorldLaws W, !Quiescent W, !HandleLaws W} {H}
    `{!OuchHandler H, !HandlerLaws} o (handler : H) polls fuel (w : W) :
  (AcceptedSize + patience w < fuel)%nat ->
  exists status s e,
    exchange_main (OuchHandler0 := recorder handler 1001) o [] polls fuel (mkEnv w []) = Some ((status, s), e) /\
    srv_handler s = log_frames (env_log e) /\ accounted status s e /\
    exchange_main o handler polls fuel (mkEnv w []) =
      '(_, h) ← handler_run handler 1001 (log_frames (env_log e)); Some ((status, in_front_of s h), e).
Proof.
  intros Hf. destruct (exchange_main_tracked handler o polls fuel w Hf) as ([status s] & e & E & HQ & Hh).
  cbn [fst snd] in HQ, Hh. exists status, s, e. split_and!; [done..|].
  destruct (exchange_main_same handler o polls fuel _ _ _ E) as (_ & _ & Hs).
  specialize (Hs eq_refl (ex_intro _ handler eq_refl)). cbn [snd fst] in Hs. rewrite Hs, <- Hh.
  unfold smap, real, state_after. by destruct (handler_run handler 1001 (srv_handler s)) as [[rs h]|].
Qed.

(** C29: The exchange runtime returns and leaks nothing, and only an order can break it.
    Take every answer of the system and of OpenSSL that obeys their documented behaviour, and
    any handler.  Let a recorder stand in for the handler, that writes down its frames and
    answers like the handler as long as that is defined on them.  Then [main] returns after
    any number of polls, given fuel for the peers' data and one response: starting,
    accepting, the handshakes, reading, writing and closing all return.  The frames written
    down are exactly those of the log: what was received on each connection since it was
    opened, cut every 47 bytes, in the order in which the pieces were completed.  While
    [main] is running, the descriptors, the TLS context and the sessions acquired and not
    released are exactly, and once each, those of the listening socket, the epoll instance
    and the clients the server records; when it has ended, for whatever reason, it holds
    nothing.  With the handler itself, [main] is undefined when the handler is undefined on
    these frames, and otherwise it is the same run, makes the same calls, and leaves the
    handler in the state after these frames.  And the runtime's own [main], over its own
    engine, returns whenever all frames that can be read from the world decode to orders
    that can be placed; its book is then the one price-time priority gives for the orders in
    its log. *)
Theorem exchange_runtime_leaks_nothing :
  forall (W : Type) (world : World W) (laws : WorldLaws W) (quiescent : Quiescent W)
    (handles : HandleLaws W) (o : ExchangeOptions) (polls fuel : nat) (w : W),
  (AcceptedSize + patience w < fuel)%nat ->
  (forall (H : Type) (handler_class : OuchHandler H) (handler_laws : HandlerLaws) (handler : H),
   exists status s e,
     exchange_main (OuchHandler0 := recorder handler 1001) o [] polls fuel (mkEnv w []) = Some ((status, s), e) /\
     srv_handler s = log_frames (env_log e) /\
     match status with
     | Some _ => held_from [] (env_log e) = [] /\ server_idle s
     | None => held_from [] (env_log e) ≡ₚ all_handles s /\ NoDup (all_handles s) /\
               0 <= srv_listenFd s /\ 0 <= srv_epollFd s
     end /\
     match handler_run handler 1001 (log_frames (env_log e)) with
     | None => exchange_main o handler polls fuel (mkEnv w []) = None
     | Some (_, h) => exchange_main o handler polls fuel (mkEnv w []) = Some ((status, in_front_of s h), e)
     end) /\
  (forall (std_hash : Z -> Z) (base : Z),
   (forall cs, exists ms,
      Forall2 (fun m f => decodeEnterOrder (Some f) (Z.of_nat (length f)) = Some (Some m)) ms (log_frames (perform w cs)) /\
      Forall placeable ms /\ Sequencer_init + (1 + DefaultOrderCapacity) * Z.of_nat (length ms) < 2 ^ 64) ->
   exists status s e ms,
     exchange_main (OuchHandler0 := runtime_handler std_hash) o (runtime_engine base) polls fuel (mkEnv w []) =
       Some ((status, s), e) /\
     accounted status s e /\
     Forall2 (fun m f => decodeEnterOrder (Some f) (Z.of_nat (length f)) = Some (Some m)) ms (log_frames (env_log e)) /\
     shows std_hash (eng_book (srv_handler s)) (eng_heap (srv_handler s))
       (sp_book (spec_run spec_new (order_submission 1001 <$> ms)).2)).
Proof.
  intros W world laws quiescent handles o polls fuel w Hf. split.
  - intros H handler_class handler_laws handler.
    destruct (exchange_main_frames o handler polls fuel w Hf) as (status & s & e & E & Hh & HQ & Hm).
    exists status, s, e. split_and!; [done..|]. by destruct (handler_run handler 1001 _) as [[rs h]|].
  - intros std_hash base Hall.
    destruct (exchange_main_frames (OuchHandler0 := runtime_handler std_hash) o (runtime_engine base) polls fuel w Hf)
      as (status & s & e & E & _ & HQ & Hm).
    destruct (exchange_main_by_calls _ _ _ _ _ _ _ E) as (cs & Hl & _). cbn [env_log env_world app] in Hl.
    destruct (Hall cs) as (ms & Hd & Hp & Hseq). rewrite <- Hl in Hd.
    pose proof (handler_run_refines std_hash (EventDispatcher_publish []) 1001 ms _ Hd Hp _ _
      (engine_rel_new std_hash base exchange_env) spec_inv_new Hseq) as Hx.
    destruct (spec_run spec_new _) as [[ids trades] st] eqn:Es. destruct Hx as (resps & g & Ex & (L & R & _ & El & _) & _).
    change (handler_run (OuchHandler0 := runtime_handler std_hash) (runtime_engine base) 1001
      (log_frames (env_log e)) = Some (resps, g)) in Ex. rewrite Ex in Hm.
    exists status, (in_front_of s g), e, ms. split_and!; [exact Hm|exact HQ|exact Hd|].
    rewrite Es. cbn [snd]. rewrite <- El. by eapply store_shows.
Qed.

(** ** A world with handles and a peer

    The world of [NetLogic] that counts its handles, in which the session [sw_ssl], once it
    is open, receives [sw_in], at most ten bytes at a time. *)

Record SessionWorld : Type := mkSessionWorld { sw_fd : FdWorld; sw_ssl : Z; sw_in : bytes }.

Definition session_reads (w : SessionWorld) (c : Call) : option Z :=
  match c with
  | c_SSL_read ssl num => if (ssl =? sw_ssl w) && (ssl <? fw_next (sw_fd w)) then Some num else None
  | _ => None
  end.

#[export] Instance session_world : World SessionWorld := fun w c =>
  match session_reads w c with
  | Some num => let '(r, t) := toy_read (mkToyWorld (sw_in w) 0) num in (r, mkSessionWorld (sw_fd w) (sw_ssl w) (toy_in t))
  | None => let '(r, f) := fd_world (sw_fd w) c in (r, mkSessionWorld f (sw_ssl w) (sw_in w))
  end.

(** What a call does to either half. *)
Lemma session_step (w : SessionWorld) c :
  (exists ssl num, c = c_SSL_read ssl num /\ ssl = sw_ssl w /\ ssl < fw_next (sw_fd w) /\
     (world_call w c).1 = (toy_read (mkToyWorld (sw_in w) 0) num).1 /\
     (world_call w c).2 = mkSessionWorld (sw_fd w) (sw_ssl w) (toy_in (toy_read (mkToyWorld (sw_in w) 0) num).2)) \/
  (world_call w c).1 = (fd_world (sw_fd w) c).1 /\
  (world_call w c).2 = mkSessionWorld (fd_world (sw_fd w) c).2 (sw_ssl w) (sw_in w).
Proof.
  unfold world_call at 1 2 3 4, session_world, session_reads.
  destruct c; try (right; by destruct (fd_world _ _)).
  destruct (Z.eqb_spec ssl (sw_ssl w)) as [->|]; [|right; by destruct (fd_world _ _)].
  destruct (Z.ltb_spec (sw_ssl w) (fw_next (sw_fd w))); [|right; by destruct (fd_world _ _)].
  left. exists (sw_ssl w), num. cbn. by destruct (toy_read _ _).
Qed.

#[export] Instance session_laws : WorldLaws SessionWorld.
Proof.
  split; intros w.
  - intros fd data. destruct (session_step w (c_send fd data)) as [(? & ? & [=] & _)|[-> _]]. apply (send_count (sw_fd w)).
  - intros ssl data num. destruct (session_step w (c_SSL_write ssl data num)) as [(? & ? & [=] & _)|[-> _]].
    apply (write_count (sw_fd w)).
  - intros fd n. destruct (session_step w (c_recv fd n)) as [(? & ? & [=] & _)|[-> _]]. apply (recv_count (sw_fd w)).
  - intros ssl num. destruct (session_step w (c_SSL_read ssl num)) as [(? & n & [= _ <-] & _ & _ & -> & _)|[-> _]].
    + destruct (toy_read_count (mkToyWorld (sw_in w) 0) num). split; [lia|done].
    + apply (read_count (sw_fd w)).
  - intros epfd maxevents timeout.
    destruct (session_step w (c_epoll_wait epfd maxevents timeout)) as [(? & ? & [=] & _)|[-> _]].
    apply (epoll_count (sw_fd w)).
Qed.

#[export] Instance session_quiescent : Quiescent SessionWorld.
Proof.
  refine {| patience := fun w => (patience (sw_fd w) + length (sw_in w))%nat |}; intros w c;
    (destruct (session_step w c) as [(ssl & num & -> & _ & _ & E1 & E2)|[E1 E2]];
     rewrite ?E1, E2; cbn [sw_fd sw_in]).
  - pose proof (toy_read_patience (mkToyWorld (sw_in w) 0) num) as [Hm _]. unfold toy_patience in Hm. cbn in Hm.
    unfold toy_patience in *. lia.
  - pose proof (patience_mono (sw_fd w) c). unfold world_call in *. lia.
  - cbn [retried]. intros Hp. bprop. pose proof (toy_read_patience (mkToyWorld (sw_in w) 0) num) as [_ Hm].
    specialize (Hm Hp). unfold toy_patience in Hm. cbn in Hm.
    unfold toy_patience in *. lia.
  - intros Hr. pose proof (patience_retried (sw_fd w) c Hr). unfold world_call in *. lia.
Defined.

#[export] Instance session_handles : HandleLaws SessionWorld.
Proof.
  refine {| open_handle := fun w => open_handle (sw_fd w); watched := fun w => watched (sw_fd w) |}.
  - intros w c h. destruct (session_step w c) as [(ssl & num & -> & _)|[-> _]]; [done|]. apply (open_fresh (sw_fd w)).
  - intros w c h. destruct (session_step w c) as [(ssl & num & -> & _)|[-> ->]]; [done|]. apply (open_after (sw_fd w)).
  - intros w c h Ho Hr. destruct (session_step w c) as [(ssl & num & -> & _ & _ & _ & ->)|[_ ->]]; [done|].
    by apply (open_kept (sw_fd w)).
  - intros w fd. destruct (session_step w c_epoll_create1) as [(? & ? & [=] & _)|[E1 E2]].
    pose proof (watched_new (sw_fd w) fd) as Hn. unfold world_call at 1 in Hn.
    rewrite (surjective_pairing (world_call w _)), E1, E2. destruct (fd_world _ _) as [r f]. exact Hn.
  - intros w c epfd fd. destruct (session_step w c) as [(ssl & num & -> & _ & _ & _ & E2)|[E1 E2]].
    + destruct (world_call w _) as [r w']. cbn in E2. subst. intros Hw. by left.
    + pose proof (watched_step (sw_fd w) c epfd fd) as Hn. unfold world_call at 1 in Hn.
      rewrite (surjective_pairing (world_call w c)), E1, E2. destruct (fd_world _ _) as [r f]. exact Hn.
  - intros w epfd maxevents timeout.
    destruct (session_step w (c_epoll_wait epfd maxevents timeout)) as [(? & ? & [=] & _)|[-> _]].
    apply (watched_events (sw_fd w)).
Defined.

(** Nothing but the session's input is received, and it is opened at most once. *)
Lemma fd_world_step (w : FdWorld) c :
  fw_next w <= fw_next (fd_world w c).2 /\
  (forall ch bs, received_by c (fd_world w c).1 = Some (ch, bs) -> bs = []) /\
  (forall ch, opened c (fd_world w c).1 = Some ch ->
     (exists fd, ch = Tcp fd) \/ ch = Tls (fw_next w) /\ fw_next w < fw_next (fd_world w c).2).
Proof.
  unfold fd_world. destruct c; cbn; split_and!; try lia; try done; try (intros ch bs [= <- <-]; done);
    try (destruct (fw_clients w); cbn; lia).
  - intros ch. destruct (fw_clients w); cbn; [done|]. destruct (0 <=? fw_next w); [|done].
    intros [= <-]. left. by eexists.
  - intros ch. destruct (fw_next w =? 0); [done|]. intros [= <-]. right. split; [done|lia].
Qed.

(** The frames of any sequence of calls are a front of the session's input. *)
Lemma session_cut cs : forall (w : SessionWorld) (st : Cut) (total : bytes),
  Forall (fun f => length f = EnterOrderSize) (handed st) ->
  (length (unfinished st (Tls (sw_ssl w))) < EnterOrderSize)%nat ->
  (fw_next (sw_fd w) <= sw_ssl w -> unfinished st (Tls (sw_ssl w)) = []) ->
  mjoin (handed st) ++ unfinished st (Tls (sw_ssl w)) ++ sw_in w = total ->
  let frames := handed (foldl cut_step st (perform w cs)) in
  Forall (fun f => length f = EnterOrderSize) frames /\ mjoin frames `prefix_of` total.
Proof.
  induction cs as [|c cs IH]; intros w st total Hh Hl Hnew <-; cbn [perform foldl].
  { split; [done|]. by eexists. }
  destruct (session_step w c) as [(ssl & num & -> & Es & Hlt & E1 & E2)|[E1 E2]]; rewrite E1, E2.
  - assert (cut_step st (c_SSL_read ssl num, (toy_read (mkToyWorld (sw_in w) 0) num).1) =
      foldl (cut_byte (Tls (sw_ssl w))) st (take (Z.to_nat (rep_ret (toy_read (mkToyWorld (sw_in w) 0) num).1))
        (rep_data (toy_read (mkToyWorld (sw_in w) 0) num).1))) as -> by (by rewrite <- Es).
    pose proof (toy_read_queue (mkToyWorld (sw_in w) 0) num) as Hq. cbn [toy_in] in Hq.
    set (data := take _ _) in *.
    destruct (cut_bytes (Tls (sw_ssl w)) data st Hl) as ((fs & H1 & L1 & J1) & Hl1 & _).
    apply IH; cbn [sw_ssl sw_fd sw_in]; [|done|lia|].
    + rewrite H1. by apply Forall_app.
    + rewrite H1, join_app, <- app_assoc, (app_assoc (mjoin fs)), <- J1, <- app_assoc, Hq. done.
  - destruct (fd_world_step (sw_fd w) c) as (Hn & Hr & Ho).
    assert (handed (cut_step st (c, (fd_world (sw_fd w) c).1)) = handed st /\
      unfinished (cut_step st (c, (fd_world (sw_fd w) c).1)) (Tls (sw_ssl w)) = unfinished st (Tls (sw_ssl w))) as [Eh Eu].
    { unfold cut_step. cbn [fst snd]. destruct (opened c _) as [ch|] eqn:Eo.
      - split; [done|]. destruct (Ho _ eq_refl) as [[fd ->]|[-> Hlt]]; [by apply cut_set_other|].
        destruct (decide (sw_ssl w = fw_next (sw_fd w))) as [Ex|Hne].
        + rewrite <- Ex, cut_set_same. rewrite Hnew; [done|lia].
        + apply cut_set_other. congruence.
      - destruct (received_by c _) as [[ch bs]|]; [|done]. by rewrite (Hr _ _ eq_refl). }
    apply IH; cbn [sw_ssl sw_fd sw_in]; rewrite ?Eh, ?Eu; [done|done| |done]. intros Hle. apply Hnew. lia.
Qed.

(** One client connects over TLS and sends two orders; after five polls they have traded. *)
Definition demo_world : SessionWorld := mkSessionWorld (mkFdWorld 3 1 []) 7 (mjoin e2e_frames).

Definition demo_exchange_run : option ((option Z * ExchangeTcpServer (Engine ExchangeEnv)) * Env SessionWorld) :=
  exchange_main (OuchHandler0 := runtime_handler (fun k => k)) (mkExchangeOptions 9000 "c" "k") (runtime_engine 0) 5 200
    (mkEnv demo_world []).

Lemma demo_exchange_facts :
  (fun r => (r.1.1, length (all_handles r.1.2), log_frames (env_log r.2))) <$> demo_exchange_run =
    Some (None, 5%nat, e2e_frames).
Proof. vm_compute. reflexivity. Qed.

Lemma demo_exchange_outcome status s e :
  demo_exchange_run = Some ((status, s), e) ->
  status = None /\ length (all_handles s) = 5%nat /\ log_frames (env_log e) = e2e_frames.
Proof. intros E. pose proof demo_exchange_facts as Hr. rewrite E in Hr. clear E. by injection Hr. Qed.

Lemma demo_orders_placeable cs : exists ms,
  Forall2 (fun m f => decodeEnterOrder (Some f) (Z.of_nat (length f)) = Some (Some m)) ms (log_frames (perform demo_world cs)) /\
  Forall placeable ms /\ Sequencer_init + (1 + DefaultOrderCapacity) * Z.of_nat (length ms) < 2 ^ 64.
Proof.
  destruct (session_cut cs demo_world cut_new (mjoin e2e_frames)) as [Hl [rest Hp]];
    [constructor|cbn; unfold EnterOrderSize; lia|done|done|].
  destruct (frames_prefix _ e2e_frames rest EnterOrderSize ltac:(unfold EnterOrderSize; lia) Hl
    ltac:(by repeat constructor) (eq_sym Hp)) as [Ef _].
  set (frames := handed _) in *. change (log_frames (perform demo_world cs)) with frames.
  exists (take (length frames) (intent_orders 1 e2e_intents)). split_and!.
  - rewrite Ef at 2. apply Forall2_take, frames_decode, e2e_framed.
  - apply Forall_take, orders_placeable; [unfold is_uint; lia|apply e2e_submittable].
  - rewrite length_take. unfold Sequencer_init, DefaultOrderCapacity. cbn [e2e_intents intent_orders length]. lia.
Qed.

Lemma demo_orders ms :
  Forall2 (fun m f => decodeEnterOrder (Some f) (Z.of_nat (length f)) = Some (Some m)) ms e2e_frames ->
  sp_book (spec_run spec_new (order_submission 1001 <$> ms)).2 = [mkLimit 1002 1001 Buy 101 10].
Proof.
  intros HF. assert (ms = intent_orders 1 e2e_intents) as ->; [|vm_compute; reflexivity].
  pose proof (frames_decode _ _ e2e_framed) as HF'. revert HF'. generalize (intent_orders 1 e2e_intents). revert HF.
  generalize e2e_frames. intros frames HF. induction HF as [|m f ms fs E HF IH]; intros ms' HF'; inversion HF'; subst; [done|].
  f_equal; [congruence|by apply IH].
Qed.

Lemma exchange_runtime_witness :
  exists s e, demo_exchange_run = Some ((None, s), e) /\ held_from [] (env_log e) ≡ₚ all_handles s /\
    length (all_handles s) = 5%nat /\ log_frames (env_log e) = e2e_frames /\
    shows (fun k => k) (eng_book (srv_handler s)) (eng_heap (srv_handler s)) [mkLimit 1002 1001 Buy 101 10].
Proof.
  destruct (exchange_runtime_leaks_nothing SessionWorld session_world session_laws session_quiescent session_handles
    (mkExchangeOptions 9000 "c" "k") 5 200 demo_world) as [_ Hrun]; [cbn; lia|].
  destruct (Hrun (fun k => k) 0 demo_orders_placeable) as (status & s & e & ms & E & HQ & Hd & Hs).
  destruct (demo_exchange_outcome status s e E) as (-> & Hl & Hf). destruct HQ as (Hh & _ & _).
  rewrite Hf in Hd. rewrite (demo_orders ms Hd) in Hs.
  exists s, e. split; [exact E|]. split; [exact Hh|]. split; [exact Hl|]. split; [exact Hf|exact Hs].
Defined.
