(* ===== verification/TradingRun.v ===== *)
(** * The trading runtime

    The wiring of [main] in [apps/trading_runtime.cpp]: a replay file or the receiver feeds
    the pipeline, whose consumer applies each event to the book and asks the microstructure strategy;
    its intents go through the gateway and its risk checks to the OUCH execution sink and
    a transport. *)

From Stdlib Require Import SpecFloat String.
From S2P Require Import Prelude Types Text PriceLevel Bitmap OrderBook OrderBookProofs BookStore Consumer.
From S2P Require Import SpscRing Pipeline.
From S2P Require Import Risk Gateway Double Strategy Wire Ouch Net Transport.
From S2P Require Import Packets Itch Replay ReplayRun Receiver LiveRun.

(** ** Construction *)

(** The decimal literals of the source, correctly rounded. *)
Definition d_tenths (n : Z) : double := d_div (d_of_Z n) (d_of_Z 10).

Definition runtime_strategy : MicrostructureStrategy :=
  mkMicro (mkWeights (d_tenths 6) (d_tenths 4) d_zero) 1001 10 (d_tenths 2) (d_tenths (-2)).

Abbreviation TradingConsumer T :=
  (StrategyConsumer MicrostructureStrategy (Gateway (OuchExecutionSink T))) (only parsing).

Definition TradingRuntime_new {T} (base : Z) (transport : T) : TradingConsumer T :=
  mkStrategyConsumer (MarketDataBookConsumer_new base) runtime_strategy
    (mkGateway RiskManager_new (mkOuchExecutionSink transport 1)).

(** [MarketDataStrategyConsumer] as the consumer of the pipeline; [None] is a state
    reached through undefined behaviour. *)
Definition trading_consumer {T} `{!OuchTransport T} (std_hash : Z -> Z)
    : EventConsumer (option (TradingConsumer T)) :=
  fun c event => c ← c; MarketDataStrategyConsumer_consume std_hash c event.

(** ** The report at the end *)

Definition RecordingOuchTransport_sent (t : RecordingOuchTransport) : bool := rec_sent t.
Definition RecordingOuchTransport_lastLength (t : RecordingOuchTransport) : Z := rec_lastLength t.

Definition best_text (title : string) (level : option PriceLevel) : string :=
  match level with
  | Some level => (title ++ signed_string (lvl_price level) ++ newline)%string
  | None => EmptyString
  end.

(** [recordingTransport], a null pointer over TLS. *)
Definition recording_text (recordingTransport : option RecordingOuchTransport) : string :=
  match recordingTransport with
  | Some t =>
      if RecordingOuchTransport_sent t then
        ("Execution path reached OUCH transport. last message bytes=" ++
         decimal_string (RecordingOuchTransport_lastLength t) ++ newline)%string
      else EmptyString
  | None => EmptyString
  end.

(** What [main] writes before it returns 0. *)
Definition final_report (marketBook : ArrayOrderBook) (recordingTransport : option RecordingOuchTransport)
    : option string :=
  bestBid ← deref marketBook (ArrayOrderBook_bestBid marketBook);
  bestAsk ← deref marketBook (ArrayOrderBook_bestAsk marketBook);
  Some (best_text "Best Bid: " bestBid ++ best_text "Best Ask: " bestAsk ++
        recording_text recordingTransport)%string.

(** ** Specification *)

(** The report on an abstract book. *)
Definition spec_best_text (title : string) (s : Side) (A : list LimitOrder) : string :=
  if spec_best s A =? 0 then EmptyString else (title ++ decimal_string (spec_best s A) ++ newline)%string.

Definition report_text (A : list LimitOrder) (recordingTransport : option RecordingOuchTransport) : string :=
  (spec_best_text "Best Bid: " Buy A ++ spec_best_text "Best Ask: " Sell A ++
   recording_text recordingTransport)%string.

Lemma best_text_spec std_hash b p h held L s title :
  store_rel std_hash b p h held L ->
  let ptr := match s with Buy => ArrayOrderBook_bestBid b | Sell => ArrayOrderBook_bestAsk b end in
  exists level, deref b ptr = Some level /\ best_text title level = spec_best_text title s (abs h L).
Proof.
  intros R ptr. unfold spec_best_text. destruct (book_view_spec _ _ _ _ _ _ s R) as [[E D]|(Hv & D & El)].
  - exists None. split; [exact D|]. by rewrite E.
  - eexists. split; [exact D|]. unfold valid_price in Hv. rewrite (proj2 (Z.eqb_neq _ _)) by lia.
    unfold best_text. by rewrite El, signed_string_nonneg by lia.
Qed.

(** The report is the one on the abstract book. *)
Lemma final_report_spec std_hash b p h held L recording :
  store_rel std_hash b p h held L -> final_report b recording = Some (report_text (abs h L) recording).
Proof.
  intros R. unfold final_report, report_text.
  destruct (best_text_spec _ _ _ _ _ _ Buy "Best Bid: " R) as (bid & -> & <-).
  destruct (best_text_spec _ _ _ _ _ _ Sell "Best Ask: " R) as (ask & -> & <-). done.
Qed.

(** The orders the strategy places over a sequence of events, computed from the abstract
    book and the totals its levels show. *)
Definition trading_intents (events : list MarketDataEvent) : list OrderIntent :=
  book_intents (micro_decision runtime_strategy) [] no_excess events.

(** The orders of the runtime: 10 units for account 1001. *)
Definition tradeable (intent : OrderIntent) : Prop :=
  valid_price (int_price intent) /\ int_quantity intent = 10 /\ length (int_symbol intent) = 8%nat /\
  int_accountId intent = 1001.

(** A transport that returns for every message of an order's size. *)
Definition transport_total (T : Type) `{!OuchTransport T} : Prop :=
  forall t data, length data = EnterOrderSize -> is_Some (transport_send t (Some data)).

Lemma tradeable_wf intent : tradeable intent -> intent_wf intent /\ intent_encodable intent.
Proof.
  intros (Hp & Hq & Hs & Ha). unfold intent_wf, intent_encodable, is_sint, is_uint.
  unfold valid_price, MaxPriceLevels in Hp. rewrite Hq. split; [split; lia|]. split; [done|lia].
Qed.

Section trading.
Context {T : Type} `{!OuchTransport T} (Htotal : transport_total T) (std_hash : Z -> Z).

Lemma gateway_total (g : Gateway (OuchExecutionSink T)) intent :
  is_uint 32 (nextUserRefNum_ (executionSink_ g)) -> intent_encodable intent ->
  exists result g', Gateway_submit g intent = Some (result, g') /\
    is_uint 32 (nextUserRefNum_ (executionSink_ g')).
Proof.
  intros Hn Hi. unfold Gateway_submit. case_bool_decide; [by do 2 eexists|].
  rewrite sink_submit_eq. destruct (intent_order_frame _ _ Hn Hi) as (f & -> & Hl & _).
  cbn [mbind option_bind]. destruct (Htotal (transport_ (executionSink_ g)) f Hl) as [[sent t] ->].
  cbn [mbind option_bind]. destruct sent; cbn [negb]; do 2 eexists; (split; [done|]);
    cbn; apply wrap_range; lia.
Qed.

(** A state of the consumer: the book stands for [A], with [ph] left behind in its totals,
    and the gateway has served the intents so far. *)
Record trading_rel (g0 : Gateway (OuchExecutionSink T)) (c : TradingConsumer T) (A : list LimitOrder)
    (ph : Side -> Z -> Z) (intents : list OrderIntent) : Prop := {
  tr_book : consumer_at std_hash (sc_bookConsumer_ c) A ph;
  tr_strategy : sc_strategy_ c = runtime_strategy;
  tr_run : exists results, gateway_run g0 intents = Some (results, sc_intentSink_ c);
  tr_ref : is_uint 32 (nextUserRefNum_ (executionSink_ (sc_intentSink_ c)));
  tr_intents : Forall tradeable intents
}.

Lemma gateway_run_snoc (g : Gateway (OuchExecutionSink T)) intents results g1 intent result g2 :
  gateway_run g intents = Some (results, g1) -> Gateway_submit g1 intent = Some (result, g2) ->
  gateway_run g (intents ++ [intent]) = Some (results ++ [result], g2).
Proof.
  revert g results. induction intents as [|i intents IH]; intros g results; cbn.
  - intros [= <- <-] ->. done.
  - destruct (Gateway_submit g i) as [[r g']|]; [|done]. cbn.
    destruct (gateway_run g' intents) as [[rs g'']|] eqn:E; [|done]. cbn. intros [= <- <-] Hs.
    by rewrite (IH _ _ E Hs).
Qed.

Lemma micro_tradeable c A ph event intent :
  consumer_at std_hash c A ph -> length (ev_symbol event) = 8%nat ->
  micro_decision runtime_strategy A (shown A ph) event = Some intent -> tradeable intent.
Proof.
  intros (L & R & <- & _) Hsym (Hb & Ha & ->)%micro_decision_some. split_and!; [|done..]. cbn [int_price].
  destruct (book_view_spec _ _ _ _ _ _ (opposite (int_side intent)) R) as [[E _]|[Hv _]]; [|exact Hv].
  by destruct (int_side intent).
Qed.

Lemma trading_step g0 c A ph event intents :
  trading_rel g0 c A ph intents -> admissible A event -> length (ev_symbol event) = 8%nat ->
  let A' := spec_consume A event in
  let ph' := fun s p => ph s p + stale_event A event s p in
  exists c', MarketDataStrategyConsumer_consume std_hash c event = Some c' /\
    trading_rel g0 c' A' ph' (intents ++ option_list (micro_decision runtime_strategy A' (shown A' ph') event)).
Proof.
  intros [Rb Es [results Er] Hn HF] Hadm Hsym A' ph'.
  destruct (consume_at _ _ _ _ _ Rb Hadm) as (book & Eb & Rb'). fold A' ph' in Rb'.
  unfold MarketDataStrategyConsumer_consume, StrategyEngine_onMarketData. rewrite Eb, Es. cbn [mbind option_bind].
  rewrite (micro_decides std_hash runtime_strategy _ _ _ event Rb'). cbn [mbind option_bind].
  destruct (micro_decision _ _ _ _) as [intent|] eqn:Ed; cbn [option_list].
  - pose proof (micro_tradeable _ _ _ _ _ Rb' Hsym Ed) as Ht.
    destruct (gateway_total _ intent Hn (proj2 (tradeable_wf _ Ht))) as (result & g' & Eg & Hn').
    unfold intent_submit, gateway_intent_sink, GatewayOrderIntentSink_submit. rewrite Eg.
    cbn [mbind option_bind]. eexists. split; [done|].
    constructor; cbn; [done|done| |done|apply Forall_app; by split; [|constructor]].
    eexists. by eapply gateway_run_snoc.
  - eexists. split; [done|]. rewrite app_nil_r. constructor; cbn; [done|done|by eexists|done|done].
Qed.

Lemma trading_run_spec g0 events : forall c A ph intents,
  trading_rel g0 c A ph intents -> admissible_run A events ->
  Forall (fun e => length (ev_symbol e) = 8%nat) events ->
  exists c' ph',
    foldl (consume (EventConsumer := trading_consumer std_hash)) (Some c) events = Some c' /\
    trading_rel g0 c' (foldl spec_consume A events) ph'
      (intents ++ book_intents (micro_decision runtime_strategy) A ph events).
Proof.
  induction events as [|event events IH]; intros c A ph intents R Hadm HF.
  { exists c, ph. by rewrite app_nil_r. }
  apply Forall_cons in HF as [He HF]. destruct Hadm as [Hadm Hrun].
  destruct (trading_step _ _ _ _ _ _ R Hadm He) as (c1 & E1 & R1).
  destruct (IH c1 _ _ _ R1 Hrun HF) as (c' & ph' & E' & R').
  exists c', ph'. split; [|by rewrite <- app_assoc in R'].
  cbn [foldl]. unfold consume at 2, trading_consumer at 2. cbn [mbind option_bind]. by rewrite E1.
Qed.

End trading.

(** ** From market data to positions *)

Lemma framed_messages_bytes file messages :
  framed_file file messages -> all_bytes file -> Forall all_bytes messages.
Proof.
  induction 1 as [|header message rest messages _ _ _ _ IH]; intros Hb; [constructor|].
  apply Forall_app in Hb as [_ [Hm Hr]%Forall_app]. constructor; [done|by apply IH].
Qed.

Lemma events_symbols messages events :
  Forall all_bytes messages -> events `sublist_of` omap itch_event messages ->
  Forall (fun e => length (ev_symbol e) = 8%nat) events.
Proof.
  intros HF Hs. apply Forall_forall. intros event He. eapply elem_of_sublist in He; [|exact Hs].
  apply list_elem_of_omap in He as (m & Hm & E). rewrite Forall_forall in HF.
  by apply itch_event_ranges in E as (_ & _ & _ & _ & ? & _); [|apply HF].
Qed.

Lemma net_accepted_other account intents : forall results,
  Forall (fun i => int_accountId i <> account) intents -> net_accepted account intents results = 0.
Proof.
  induction intents as [|i intents IH]; intros [|r results] HF; cbn; try done.
  apply Forall_cons in HF as [Hi HF]. rewrite IH by done.
  rewrite bool_decide_false by congruence. by rewrite andb_false_r.
Qed.

Lemma recording_total : transport_total RecordingOuchTransport.
Proof.
  intros t data Hl. unfold transport_send, RecordingTransport. cbn [mbind option_bind].
  destruct (Nat.ltb_spec (length (rec_buffer t)) (length data)); [by eexists|].
  unfold wr. rewrite bool_decide_true by (cbn; lia). by eexists.
Qed.

Lemma tls_total {W} `{!World W} fuel : (EnterOrderSize <= fuel)%nat ->
  transport_total (TlsOuchTransport * Env W) (OuchTransport0 := TlsTransport fuel).
Proof.
  intros Hf [t e] data Hl. unfold transport_send, TlsTransport, TlsOuchTransport_send.
  destruct (negb _); [by eexists|].
  destruct (tls_send_loop_total fuel (tls_ssl t) data 0 e) as [[b e'] E]; [lia|].
  cbn. rewrite E. by eexists.
Qed.

(** What is true of the runtime when its pipeline is [pipe] and the events consumed so
    far are admissible. *)
Definition trading_state {T} `{!OuchTransport T} (std_hash : Z -> Z) (transport : T)
    (pipe : MarketDataPipeline (E := option (TradingConsumer T))) : Prop :=
  admissible_run [] (consumed_ pipe) ->
  let intents := trading_intents (consumed_ pipe) in
  exists c results,
    consumer_ pipe = Some c /\
    shows std_hash (con_book (sc_bookConsumer_ c)) (con_heap (sc_bookConsumer_ c))
      (foldl spec_consume [] (consumed_ pipe)) /\
    (forall recording, final_report (con_book (sc_bookConsumer_ c)) recording =
       Some (report_text (foldl spec_consume [] (consumed_ pipe)) recording)) /\
    Forall tradeable intents /\
    gateway_run (mkGateway RiskManager_new (mkOuchExecutionSink transport 1)) intents =
      Some (results, sc_intentSink_ c) /\
    forall account,
      currentPosition (riskManager_ (sc_intentSink_ c)) account = net_accepted account intents results /\
      Z.abs (net_accepted account intents results) <= MaxPosition /\
      (account <> 1001 -> net_accepted account intents results = 0).

(** A pipeline whose accepted events are those of some messages, in their order. *)
Definition fed {T} `{!OuchTransport T} (std_hash : Z -> Z) (base : Z) (transport : T)
    (pipe : MarketDataPipeline (E := option (TradingConsumer T))) : Prop :=
  pipeline_reachable (EventConsumer0 := trading_consumer std_hash)
    (Some (TradingRuntime_new base transport)) pipe /\
  exists messages, Forall all_bytes messages /\ accepted_ pipe `sublist_of` omap itch_event messages.

Lemma fed_symbols {T} `{!OuchTransport T} std_hash base (transport : T) pipe :
  fed std_hash base transport pipe -> Forall (fun e => length (ev_symbol e) = 8%nat) (consumed_ pipe).
Proof.
  intros [Hp (messages & HF & Ha)].
  pose proof (pipeline_reachable_inv (EventConsumer0 := trading_consumer std_hash) _ _ Hp) as Ip.
  pose proof (events_symbols _ _ HF Ha) as Hsym. destruct (pi_queue _ _ Ip) as (q & _ & Eq & _).
  rewrite Eq in Hsym. by apply Forall_app in Hsym as [Hsym _].
Qed.

Lemma trading_pipeline {T} `{!OuchTransport T} std_hash base (transport : T) pipe :
  transport_total T -> fed std_hash base transport pipe -> trading_state std_hash transport pipe.
Proof.
  intros Ht Hfed Hadm. pose proof (fed_symbols _ _ _ _ Hfed) as Hsym. destruct Hfed as [Hp _].
  pose proof (pipeline_reachable_inv (EventConsumer0 := trading_consumer std_hash) _ _ Hp) as Ip.
  set (g0 := mkGateway RiskManager_new (mkOuchExecutionSink transport 1)).
  destruct (trading_run_spec Ht std_hash g0 (consumed_ pipe) (TradingRuntime_new base transport) [] no_excess [])
    as (c & ph & Ec & [Rb _ [results Er] _ HI]); [|done|done|].
  { constructor; cbn; [apply consumer_at_new|done|by exists []|done|constructor]. }
  cbn [app] in Er, HI. fold (trading_intents (consumed_ pipe)) in Er, HI. intros intents.
  exists c, results. split; [by rewrite (pi_consumer _ _ Ip)|]. destruct Rb as (L & R & EA & _).
  split; [rewrite <- EA; by eapply store_shows|].
  split; [intros recording; rewrite <- EA; by eapply final_report_spec|].
  split; [done|]. split; [done|]. intros account.
  destruct (gateway_run_limits intents g0 results (sc_intentSink_ c) within_limits_new) as [Hw Hpos];
    [eapply Forall_impl; [exact HI|]; intros i Hi; apply (tradeable_wf _ Hi)|exact Er|].
  specialize (Hw account). rewrite Hpos in Hw |- *. change (currentPosition (riskManager_ g0) account) with 0 in *.
  rewrite Z.add_0_l in *. split; [done|]. split; [done|]. intros Hne. apply net_accepted_other.
  eapply Forall_impl; [exact HI|]. intros i (_ & _ & _ & Ha). congruence.
Qed.

Lemma all_bytes_payloads packets : Forall well_received packets -> Forall all_bytes (payloads packets).
Proof.
  intros HF. apply Forall_fmap, Forall_forall. intros pkt [_ Hin]%list_elem_of_filter.
  apply list_elem_of_fmap in Hin as (packet & -> & Hin). rewrite Forall_forall in HF.
  destruct (HF _ Hin) as [[Hb _] _]. by apply Forall_take, Forall_drop.
Qed.

(** Both kinds of run feed the pipeline from messages: those of the file, and the payloads
    of the packets received. *)
Lemma replay_fed {T} `{!OuchTransport T} std_hash base (transport : T) little file messages r :
  framed_file file messages -> all_bytes file -> Z.of_nat (length messages) < 2 ^ 64 ->
  rtc (replay_step (EventConsumer0 := trading_consumer std_hash) little)
    (replay_start file (Some (TradingRuntime_new base transport))) r ->
  fed std_hash base transport (run_pipe r).
Proof.
  intros Hf Hb Hsize Hr.
  pose proof (replay_inv (EventConsumer0 := trading_consumer std_hash) little messages _ Hsize file r Hf Hb Hr) as I.
  destruct (ri_read _ _ _ I) as (todo & Em & _). pose proof (framed_messages_bytes _ _ Hf Hb) as HF.
  rewrite Em in HF. apply Forall_app in HF as [HF _].
  split; [apply (ri_pipe _ _ _ I)|]. eexists. split; [exact HF|apply (ri_accepted _ _ _ I)].
Qed.

Lemma live_fed {T} `{!OuchTransport T} std_hash base (transport : T) little (nic : rte_mbuf -> Prop) r :
  (forall packet, nic packet -> well_received packet) ->
  rtc (live_step (EventConsumer0 := trading_consumer std_hash) little nic)
    (live_start (MarketDataPipeline_start
       (MarketDataPipeline_new (Some (TradingRuntime_new base transport))))) r ->
  exists pipe, rx_sink (live_rx r) = Some pipe /\ fed std_hash base transport pipe.
Proof.
  intros Hnic Hr.
  destruct (live_reachable_inv (EventConsumer0 := trading_consumer std_hash) little nic _ r Hnic Hr) as [pipe I].
  exists pipe. split; [apply (li_sink _ _ _ I)|]. split; [apply (li_pipe _ _ _ I)|].
  eexists. split; [apply all_bytes_payloads, (li_seen _ _ _ I)|apply (li_accepted _ _ _ I)].
Qed.

(** C40: The trading runtime as a whole, from a replay file and live.  At every moment of
    a run, over any transport that returns and whatever the interleaving, as long as the
    events consumed are admissible: the book shows the abstract book of those events, and
    the report [main] would write names its best prices; the
    intents that reached the gateway are exactly those the score of each book on the way
    calls for, in the order of the events, all of them orders of 10 for account 1001; the
    gateway and the execution sink are in the state that serving exactly these intents leads to;
    and the position of account 1001 is the sum of the executed intents and within the
    limit, that of every other account 0. *)
Theorem trading_runtime_respects_limits :
  forall (T : Type) (send : OuchTransport T) (std_hash : Z -> Z) (base : Z) (transport : T) (little : bool),
  transport_total T ->
  (forall (file : bytes) (messages : list bytes) (r : ReplayRun),
     framed_file file messages -> all_bytes file -> Z.of_nat (length messages) < 2 ^ 64 ->
     rtc (replay_step (EventConsumer0 := trading_consumer std_hash) little)
       (replay_start file (Some (TradingRuntime_new base transport))) r ->
     trading_state std_hash transport (run_pipe r)) /\
  (forall (nic : rte_mbuf -> Prop) (r : LiveRun),
     (forall packet, nic packet -> well_received packet) ->
     rtc (live_step (EventConsumer0 := trading_consumer std_hash) little nic)
       (live_start (MarketDataPipeline_start
          (MarketDataPipeline_new (Some (TradingRuntime_new base transport))))) r ->
     exists pipe, rx_sink (live_rx r) = Some pipe /\ trading_state std_hash transport pipe).
Proof.
  intros T send std_hash base transport little Ht. split.
  - intros file messages r Hf Hb Hsize Hr. by eapply trading_pipeline, replay_fed.
  - intros nic r Hnic Hr. destruct (live_fed _ _ _ _ _ _ Hnic Hr) as (pipe & Es & Hfed).
    exists pipe. split; [exact Es|]. by eapply trading_pipeline.
Qed.

(** The sample file over the recording transport: one order, to buy 10 at 99. *)
Definition demo_trading_run : option ReplayRun :=
  replay_schedule (EventConsumer0 := trading_consumer (fun k => k)) true demo_schedule
    (replay_start (generate_sample_itch_replay true)
       (Some (TradingRuntime_new 0 RecordingOuchTransport_new))).

Definition demo_gateway (r : ReplayRun (E := option (TradingConsumer RecordingOuchTransport)))
    : option (Gateway (OuchExecutionSink RecordingOuchTransport)) :=
  sc_intentSink_ <$> consumer_ (run_pipe r).

Lemma demo_trading_facts :
  exists r, rtc (replay_step (EventConsumer0 := trading_consumer (fun k => k)) true)
      (replay_start (generate_sample_itch_replay true)
         (Some (TradingRuntime_new 0 RecordingOuchTransport_new))) r /\
    run_phase r = Finished /\
    consumed_ (run_pipe r) = [mkEvent AddOrder 5001 0 0 Buy sample_symbol 98 900;
                              mkEvent AddOrder 5002 0 0 Sell sample_symbol 99 100] /\
    (fun g => currentPosition (riskManager_ g) 1001) <$> demo_gateway r = Some 10 /\
    (fun g => rec_sent (transport_ (executionSink_ g))) <$> demo_gateway r = Some true.
Proof.
  assert (run_phase <$> demo_trading_run = Some Finished) as Eph by (vm_compute; reflexivity).
  assert ((fun r => consumed_ (run_pipe r)) <$> demo_trading_run =
    Some [mkEvent AddOrder 5001 0 0 Buy sample_symbol 98 900;
          mkEvent AddOrder 5002 0 0 Sell sample_symbol 99 100]) as Ea by (vm_compute; reflexivity).
  assert ((fun r => (fun g => currentPosition (riskManager_ g) 1001) <$> demo_gateway r) <$> demo_trading_run =
    Some (Some 10)) as Hp by (vm_compute; reflexivity).
  assert ((fun r => (fun g => rec_sent (transport_ (executionSink_ g))) <$> demo_gateway r) <$> demo_trading_run =
    Some (Some true)) as Hs by (vm_compute; reflexivity).
  assert (forall r, demo_trading_run = Some r -> rtc (replay_step (EventConsumer0 := trading_consumer (fun k => k)) true)
      (replay_start (generate_sample_itch_replay true)
         (Some (TradingRuntime_new 0 RecordingOuchTransport_new))) r) as Hrun
    by (intros r; apply replay_schedule_run).
  revert Eph Ea Hp Hs Hrun. generalize demo_trading_run. intros [r|] Eph Ea Hp Hs Hrun; [|done].
  exists r. split; [by apply Hrun|]. apply (inj Some) in Eph, Ea, Hp, Hs. done.
Qed.

Lemma trading_runtime_witness :
  exists (r : ReplayRun) (c : TradingConsumer RecordingOuchTransport),
    run_phase r = Finished /\ consumer_ (run_pipe r) = Some c /\
    currentPosition (riskManager_ (sc_intentSink_ c)) 1001 = 10 /\
    rec_sent (transport_ (executionSink_ (sc_intentSink_ c))) = true.
Proof.
  destruct demo_trading_facts as (r & Hr & Eph & Ea & Hp & Hs). destruct demo_replay_file as [Hf Hb].
  destruct (trading_runtime_respects_limits _ RecordingTransport (fun k => k) 0 RecordingOuchTransport_new true
    recording_total) as [Hreplay _].
  destruct (Hreplay _ _ r Hf Hb ltac:(reflexivity) Hr) as (c & results & Ec & _);
    [rewrite Ea; vm_compute; repeat split; discriminate || reflexivity|].
  unfold demo_gateway in Hp, Hs. rewrite Ec in Hp, Hs.
  apply (inj Some) in Hp, Hs. exists r, c. split; [exact Eph|]. split; [exact Ec|]. split; [exact Hp|exact Hs].
Defined.
