(* ===== verification/System.v ===== *)
(** * From market data to the exchange's book

    The two programs of the repository put together: a trading runtime reads ITCH market
    data, from a replay file or from the network, and sends orders; the exchange's server
    reads the bytes the runtime's transport has put on the wire.  The theorem follows the
    data from the messages to the book of the exchange, and the risk manager's position to
    the imbalance of that book. *)

From S2P Require Import Prelude Types Bitmap OrderPool PriceLevel OrderBook BookStore Consumer MatchingEngine.
From S2P Require Import MatchingSpec MatchingProofs SpscRing Pipeline Risk Gateway Floor Strategy.
From S2P Require Import Wire Ouch Net Transport Exchange ExchangeServer ServerProofs ServerClaims ExchangeRun.
From S2P Require Import Packets Itch Replay ReplayRun Receiver LiveRun TradingRun.

(** ** The exchange of a single account *)

(** Every order in the book is the account's. *)
Definition owned_by (account : AccountId) (A : list LimitOrder) : Prop :=
  Forall (fun x => lo_account x = account) A.

Lemma self_trade_net account trades :
  Forall (fun t => trade_buy_account_id t = account /\ trade_sell_account_id t = account) trades ->
  net_quantity account trades = 0.
Proof.
  induction 1 as [|t trades [Hb Hs] _ IH]; [done|].
  change (net_quantity account (t :: trades)) with (trade_delta account t + net_quantity account trades).
  rewrite IH. unfold trade_delta. rewrite Hb, Hs. case_decide; lia.
Qed.

Lemma spec_trades_owned account x F : forall seq,
  lo_account x = account -> Forall (fun f => lo_account f.1 = account) F ->
  Forall (fun t => trade_buy_account_id t = account /\ trade_sell_account_id t = account) (spec_trades seq x F).
Proof.
  induction F as [|f F IH]; intros seq Hx HF; cbn [spec_trades]; constructor;
    apply Forall_cons in HF as [Hf HF]; [|by apply IH].
  unfold spec_trade. by destruct (lo_side x).
Qed.

(** One more order of the account: the book stays the account's, its trades are with
    itself, and an order that found room adds its signed quantity to what rests. *)
Lemma submit_owned account st s p q :
  spec_inv st -> owned_by account (sp_book st) -> 0 < q < 2 ^ 32 ->
  let '(id, trades, st') := spec_submit st account s p q in
  owned_by account (sp_book st') /\
  resting account (sp_book st') = resting account (sp_book st) + (if id =? 0 then 0 else side_sign s * q).
Proof.
  intros I Ho Hq. pose proof (submit_balance account st account s p q I Hq) as Hb.
  unfold owned_by in *. rewrite Forall_forall in Ho. unfold spec_submit in *.
  bcase; [split; [by apply Forall_forall|cbn; lia]|].
  set (x := mkLimit (sp_sequence st + 1) account s p q) in *.
  destruct (fills_spec s p q _ (si_wf _ I)) as (_ & _ & _ & _ & _ & Hmem).
  pose proof (fills_members s p q _ (si_wf _ I)) as HF. set (F := fills s p q _) in *. cbn [sp_book] in *.
  rewrite (self_trade_net account) in Hb; [|apply spec_trades_owned; [done|]].
  2:{ eapply Forall_impl; [exact HF|]. intros f (Hf & _). by apply Ho. }
  rewrite decide_True in Hb by done.
  assert (Forall (fun y => lo_account y = account) (apply_fills (sp_book st) F)) as HA.
  { apply Forall_forall. intros y Hy. destruct (Hmem _ Hy) as (z & Hz & _ & -> & _). by apply Ho. }
  split; [|lia]. bcase; [|done]. apply Forall_app. by repeat constructor.
Qed.

(** The signed quantity of the submissions that got an id. *)
Fixpoint taken_in (ids : list OrderId) (subs : list submission) : Z :=
  match ids, subs with
  | id :: ids, m :: subs =>
      (if id =? 0 then 0 else side_sign (sub_side m) * sub_quantity m) + taken_in ids subs
  | _, _ => 0
  end.

Lemma run_owned account subs : forall st,
  spec_inv st -> owned_by account (sp_book st) -> admissible_subs subs ->
  Forall (fun m => sub_account m = account) subs ->
  let '(ids, trades, st') := spec_run st subs in
  resting account (sp_book st') = resting account (sp_book st) + taken_in ids subs.
Proof.
  induction subs as [|m subs IH]; intros st I Ho Hadm Hac; cbn [spec_run]; [cbn; lia|].
  apply Forall_cons in Hadm as [Hm Hadm]. apply Forall_cons in Hac as [Ha Hac]. rewrite Ha.
  pose proof (submit_owned account st (sub_side m) (sub_price m) _ I Ho (proj2 Hm)) as H1.
  pose proof (spec_submit_inv st account (sub_side m) (sub_price m) _ I (proj2 Hm)) as I1.
  destruct (spec_submit st _ _ _ _) as [[id trades] st1]. cbn [snd] in I1. destruct H1 as [Ho1 Hr1].
  specialize (IH st1 I1 Ho1 Hadm Hac). destruct (spec_run st1 subs) as [[ids trades'] st2].
  cbn [taken_in]. lia.
Qed.

(** ** The client's side *)

(** The intents the gateway passed on and the sink sent. *)
Fixpoint passed (intents : list OrderIntent) (results : list GatewayResult) : list OrderIntent :=
  match intents, results with
  | intent :: intents, result :: results =>
      if GatewayResult_accepted result then intent :: passed intents results else passed intents results
  | _, _ => []
  end.

(** No order was lost on its way to the wire. *)
Definition undisturbed (results : list GatewayResult) : Prop :=
  Forall (fun r => riskResult r = Risk.Accepted -> executionSucceeded r = true) results.

Lemma gateway_run_sink {S} `{!OrderExecutionSink S} intents : forall (g g' : Gateway S) results,
  gateway_run g intents = Some (results, g') -> undisturbed results ->
  exists oks, sink_run (executionSink_ g) (passed intents results) = Some (oks, executionSink_ g') /\
    Forall (fun b => b = true) oks.
Proof.
  induction intents as [|i intents IH]; intros g g' results E Hu; cbn in E.
  { injection E as <- <-. exists []. by split. }
  destruct (Gateway_submit g i) as [[r g1]|] eqn:E1; [|done]. cbn in E.
  destruct (gateway_run g1 intents) as [[rs g2]|] eqn:E2; [|done]. cbn in E. injection E as <- <-.
  apply Forall_cons in Hu as [Hr Hu]. destruct (IH _ _ _ E2 Hu) as (oks & Es & Hok).
  apply gateway_submit_cases in E1 as [(Hc & -> & ->)|(_ & ok & sink & E1 & -> & ->)]; cbn [passed].
  - unfold GatewayResult_accepted. cbn [riskResult]. rewrite bool_decide_false by done. by exists oks.
  - specialize (Hr eq_refl). cbn in Hr. subst ok. change (GatewayResult_accepted (mkGatewayResult Risk.Accepted true)) with true.
    cbn [sink_run]. rewrite E1. cbn [mbind option_bind]. cbn [executionSink_] in Es. rewrite Es. cbn [mbind option_bind].
    eexists. split; [done|]. by constructor.
Qed.

Lemma passed_forall (P : OrderIntent -> Prop) intents : forall results,
  Forall P intents -> Forall P (passed intents results).
Proof.
  induction intents as [|i intents IH]; intros [|r results] HF; cbn; try constructor.
  apply Forall_cons in HF as [Hi HF]. case_match; [constructor|]; auto.
Qed.

Lemma passed_length intents : forall results, (length (passed intents results) <= length intents)%nat.
Proof.
  induction intents as [|i intents IH]; intros [|r results]; cbn; try lia.
  specialize (IH results). case_match; cbn; lia.
Qed.

(** What the exchange took in is what the gateway counted. *)
Lemma taken_in_position server intents : forall ids results,
  length ids = length (passed intents results) -> Forall (fun id => id <> 0) ids -> Forall tradeable intents ->
  taken_in ids (intent_submission server <$> passed intents results) = net_accepted 1001 intents results.
Proof.
  induction intents as [|i intents IH]; intros ids [|r results] Hl Hn HF; [by destruct ids..|].
  apply Forall_cons in HF as [(_ & _ & _ & Ha) HF]. cbn [passed net_accepted] in *. rewrite Ha.
  rewrite (bool_decide_true (1001 = 1001)) by done. rewrite andb_true_r.
  destruct (GatewayResult_accepted r); [|by rewrite IH].
  destruct ids as [|id ids]; [done|]. apply Forall_cons in Hn as [Hid Hn]. cbn in Hl. cbn [fmap list_fmap taken_in].
  rewrite (proj2 (Z.eqb_neq id 0)), IH by (done || lia). unfold signed_quantity, side_sign. cbn.
  destruct (int_side i); lia.
Qed.

(** ** The two programs together *)

Lemma tradeable_submittable intents : Forall tradeable intents -> Forall submittable intents.
Proof. intros HF. eapply Forall_impl; [exact HF|]. intros i (Hp & Hq & Hs & _). split_and!; [done|lia..|done]. Qed.

(** Every intent has been taken in when every answer confirms one. *)
Lemma delivered_ids ehash account n0 intents data fd ssl s' new ids st resps :
  delivered ehash account n0 intents data fd ssl true s' new ids st resps ->
  length ids = length intents -> Forall (fun id => id <> 0) ids.
Proof.
  intros D Hl. destruct (dl_kept _ _ _ _ _ _ _ _ _ _ _ _ _ D eq_refl) as [Hsome _].
  pose proof (dl_length _ _ _ _ _ _ _ _ _ _ _ _ _ D) as [_ Hr].
  apply Forall_lookup. intros i id Ei Hid. pose proof (lookup_lt_Some _ _ _ Ei) as Hi.
  destruct (lookup_lt_is_Some_2 intents i) as [intent Et]; [lia|].
  destruct (lookup_lt_is_Some_2 resps i) as [resp Er]; [lia|].
  pose proof (dl_answers _ _ _ _ _ _ _ _ _ _ _ _ _ D i id intent resp Ei Et Er) as Hc. subst id. cbn in Hc. subst resp.
  rewrite Forall_lookup in Hsome. by destruct (Hsome _ _ Er).
Qed.

(** The imbalance of the exchange's book is what the gateway has let through. *)
Lemma exchange_balance account intents results ids trades st :
  Forall tradeable intents ->
  spec_run spec_new (intent_submission account <$> passed intents results) = (ids, trades, st) ->
  Forall (fun id => id <> 0) ids -> length ids = length (passed intents results) ->
  resting account (sp_book st) = net_accepted 1001 intents results.
Proof.
  intros Htd Er Hn Hl. pose proof (passed_forall _ _ results Htd) as Hps.
  pose proof (run_owned account (intent_submission account <$> passed intents results) spec_new spec_inv_new
    (Forall_nil_2 _)) as Hr. rewrite Er in Hr.
  rewrite Hr; [rewrite taken_in_position by done; done|..].
  - apply Forall_fmap. eapply Forall_impl; [exact Hps|]. intros i (Hp & Hq & _). split; [exact Hp|]. cbn. lia.
  - apply Forall_fmap. by apply Forall_true.
Qed.

Section system.
Context {T : Type} `{!OuchTransport T} (laws : TransportLaws T) (transport : T).
Context {W : Type} `{!World W, !WorldLaws W, !Quiescent W} (ehash : Z -> Z) (ebase : Z).

(** What the exchange's server makes of the intents that have gone over the wire as [data]:
    serving any new connection of a new exchange on which nothing but these bytes can
    arrive returns; and once they all have, and the client is kept, what buys exceed sells
    by in the book is [position]. *)
Definition served_by_exchange (intents : list OrderIntent) (data : bytes) (position : Z) : Prop :=
  forall (fuel : nat) (s : ExchangeTcpServer (Engine ExchangeEnv)) (fd ssl : Z) (e : Env W),
  srv_clients s !! fd = Some (ClientState_new ssl true) -> srv_handler s = runtime_engine ebase ->
  (AcceptedSize + patience (env_world e) < fuel)%nat ->
  (forall bs, may_receive (env_world e) (new_channel fd ssl) bs -> bs `prefix_of` data) ->
  exists b s' e' new ids st resps,
    ExchangeTcpServer_handleClientReadable (OuchHandler0 := runtime_handler ehash) fuel fuel s fd e =
      Some ((b, s'), e') /\
    env_log e' = env_log e ++ new /\
    delivered ehash (srv_accountId s) 1 intents data fd ssl b s' new ids st resps /\
    (b = true -> received_on (new_channel fd ssl) new = data ->
     resting (srv_accountId s) (sp_book st) = position).

(** What the runtime with the pipeline [pipe] has traded, and what becomes of it at an
    exchange that reads what its transport has put on the wire. *)
Definition exchanged (pipe : MarketDataPipeline (E := option (TradingConsumer T))) : Prop :=
  admissible_run [] (consumed_ pipe) -> Z.of_nat (length (consumed_ pipe)) < 2 ^ 50 ->
  let intents := trading_intents (consumed_ pipe) in
  exists c results,
    consumer_ pipe = Some c /\
    gateway_run (mkGateway RiskManager_new (mkOuchExecutionSink transport 1)) intents =
      Some (results, sc_intentSink_ c) /\
    (undisturbed results ->
     let position := currentPosition (riskManager_ (sc_intentSink_ c)) 1001 in
     Z.abs position <= MaxPosition /\
     served_by_exchange (passed intents results) (wire (transport_ (executionSink_ (sc_intentSink_ c)))) position).

Lemma fed_exchanged std_hash base pipe :
  transport_total T -> wire transport = [] -> fed std_hash base transport pipe -> exchanged pipe.
Proof.
  intros Ht Hw Hfed Hadm Hsize.
  destruct (trading_pipeline _ _ _ _ Ht Hfed Hadm) as (c & results & Ec & _ & _ & Htd & Eg & Hpos).
  intros intents. fold intents in Htd, Eg, Hpos.
  exists c, results. split; [done|]. split; [done|]. intros Hu position. destruct (Hpos 1001) as (Hp & Hm & _).
  split; [unfold position; by rewrite Hp|]. intros fuel s fd ssl e Hc Hh Hf Hpeer.
  destruct (gateway_run_sink _ _ _ _ Eg Hu) as (oks & Es & Hok). cbn [executionSink_] in Es.
  pose proof (passed_length intents results) as Hlp.
  pose proof (book_intents_length (micro_decision runtime_strategy) (consumed_ pipe) [] no_excess : (length intents <= _)%nat).
  destruct (intents_delivered ehash (EventDispatcher_publish []) ebase (passed intents results)
    (mkOuchExecutionSink transport 1) (executionSink_ (sc_intentSink_ c)) oks fuel s fd ssl e)
    as (b & s' & e' & new & ids & st & resps & E & Hl & D); try done.
  { by apply tradeable_submittable, passed_forall. }
  { unfold Sequencer_init, DefaultOrderCapacity. lia. }
  exists b, s', e', new, ids, st, resps. split_and!; [done..|]. intros -> Hall.
  pose proof (dl_all _ _ _ _ _ _ _ _ _ _ _ _ _ D Hall) as Hlen.
  pose proof (delivered_ids _ _ _ _ _ _ _ _ _ _ _ _ D Hlen) as Hn.
  destruct (dl_spec _ _ _ _ _ _ _ _ _ _ _ _ _ D) as [trades Er].
  rewrite <- (proj1 (dl_length _ _ _ _ _ _ _ _ _ _ _ _ _ D)), take_ge in Er by lia.
  rewrite (exchange_balance _ intents results _ _ _ Htd Er Hn Hlen). by symmetry.
Qed.
End system.

(** C25: Market data reaches the exchange's book as orders.  Let the trading runtime run
    from a replay file or live, whatever the interleaving of its threads, over a transport
    that returns and keeps the transport laws.  Then, as long as the events consumed are
    admissible and no send has failed: the intents are exactly the strategy's orders on the
    reconstructed books, and the position of the risk manager is at most 500 units either
    way.  And let a new exchange's server have a new connection on which nothing but the
    bytes the runtime has put on the wire can arrive, in reads of any sizes.  Then serving it
    returns, given fuel for the peer's data and one response; the exchange's book is the one
    price-time priority gives for those of the intents the risk manager let through whose
    frames have arrived, with their sides, prices and quantities and in their order; each of
    them is answered by one Accepted message that decodes to them; and when all bytes have
    arrived and the connection is kept, what buys exceed sells by in the exchange's book is
    the position the runtime's risk manager has recorded. *)
Theorem market_data_reaches_the_exchange_book :
  forall (T : Type) (send : OuchTransport T) (laws : TransportLaws T) (W : Type) (world : World W)
    (world_laws : WorldLaws W) (quiescent : Quiescent W) (std_hash ehash : Z -> Z) (base ebase : Z)
    (transport : T) (little : bool),
  transport_total T -> wire transport = [] ->
  (forall (file : bytes) (messages : list bytes) (r : ReplayRun),
     framed_file file messages -> all_bytes file -> Z.of_nat (length messages) < 2 ^ 64 ->
     rtc (replay_step (EventConsumer0 := trading_consumer std_hash) little)
       (replay_start file (Some (TradingRuntime_new base transport))) r ->
     exchanged laws transport (W := W) ehash ebase (run_pipe r)) /\
  (forall (nic : rte_mbuf -> Prop) (r : LiveRun),
     (forall packet, nic packet -> well_received packet) ->
     rtc (live_step (EventConsumer0 := trading_consumer std_hash) little nic)
       (live_start (MarketDataPipeline_start
          (MarketDataPipeline_new (Some (TradingRuntime_new base transport))))) r ->
     exists pipe, rx_sink (live_rx r) = Some pipe /\ exchanged laws transport (W := W) ehash ebase pipe).
Proof.
  intros T send laws W world world_laws quiescent std_hash ehash base ebase transport little Ht Hw. split.
  - intros file messages r Hf Hb Hsize Hr. by eapply fed_exchanged, replay_fed.
  - intros nic r Hnic Hr. destruct (live_fed _ _ _ _ _ _ Hnic Hr) as (pipe & Es & Hfed).
    exists pipe. split; [exact Es|]. by eapply fed_exchanged.
Qed.

(** The sample file over TLS: the runtime buys 10 at 99, and the exchange reads the order
    in pieces of ten bytes. *)
Definition system_send : OuchTransport (TlsOuchTransport * Env ToyWorld) := TlsTransport 60.

Definition system_transport : TlsOuchTransport * Env ToyWorld :=
  (mkTlsOuchTransport [] 9000 [] 5 1 3, mkEnv (mkToyWorld [] 0) []).

Definition system_run : option ReplayRun :=
  replay_schedule (EventConsumer0 := trading_consumer (OuchTransport0 := system_send) (fun k => k)) true demo_schedule
    (replay_start (generate_sample_itch_replay true) (Some (TradingRuntime_new 0 system_transport))).

Definition system_bytes : bytes :=
  Eval vm_compute in default [] (r ← system_run; c ← consumer_ (run_pipe r);
    Some (sent_on (Tls 3) (env_log (transport_ (executionSink_ (sc_intentSink_ c))).2))).

Definition system_server : ExchangeTcpServer (Engine ExchangeEnv) :=
  set_client (ExchangeTcpServer_new 0 1001 (runtime_engine 0) [] []) 7 (ClientState_new 0 true).

Definition system_env : Env PeerWorld := mkEnv (mkPeerWorld (Tcp 7) (mkToyWorld system_bytes 1)) [].

Definition system_served : option ((bool * ExchangeTcpServer (Engine ExchangeEnv)) * Env PeerWorld) :=
  ExchangeTcpServer_handleClientReadable (OuchHandler0 := runtime_handler (fun k => k)) 200 200 system_server 7 system_env.

Lemma system_served_run :
  (fun r => (r.1.1, received_on (Tcp 7) (env_log r.2))) <$> system_served = Some (true, system_bytes).
Proof. vm_compute. reflexivity. Qed.

Definition system_gateway (r : ReplayRun (E := option (TradingConsumer (TlsOuchTransport * Env ToyWorld))))
    : option (Gateway (OuchExecutionSink (TlsOuchTransport * Env ToyWorld))) :=
  sc_intentSink_ <$> consumer_ (run_pipe r).

Definition system_wire (g : Gateway (OuchExecutionSink (TlsOuchTransport * Env ToyWorld))) : bytes :=
  wire (TransportLaws := tls_laws 60) (transport_ (executionSink_ g)).

Lemma system_facts :
  exists r c, rtc (replay_step (EventConsumer0 := trading_consumer (OuchTransport0 := system_send) (fun k => k)) true)
      (replay_start (generate_sample_itch_replay true) (Some (TradingRuntime_new 0 system_transport))) r /\
    consumed_ (run_pipe r) = [mkEvent AddOrder 5001 0 0 Buy sample_symbol 98 900;
                              mkEvent AddOrder 5002 0 0 Sell sample_symbol 99 100] /\
    consumer_ (run_pipe r) = Some c /\ currentPosition (riskManager_ (sc_intentSink_ c)) 1001 = 10 /\
    wire (TransportLaws := tls_laws 60) (transport_ (executionSink_ (sc_intentSink_ c))) = system_bytes.
Proof.
  assert ((fun r => consumed_ (run_pipe r)) <$> system_run =
    Some [mkEvent AddOrder 5001 0 0 Buy sample_symbol 98 900;
          mkEvent AddOrder 5002 0 0 Sell sample_symbol 99 100]) as Ea by (vm_compute; reflexivity).
  assert ((fun r => (fun g => currentPosition (riskManager_ g) 1001) <$> system_gateway r) <$> system_run =
    Some (Some 10)) as Hp by (vm_compute; reflexivity).
  assert ((fun r => system_wire <$> system_gateway r) <$> system_run = Some (Some system_bytes)) as Hw
    by (vm_compute; reflexivity).
  assert (forall r, system_run = Some r ->
    rtc (replay_step (EventConsumer0 := trading_consumer (OuchTransport0 := system_send) (fun k => k)) true)
      (replay_start (generate_sample_itch_replay true) (Some (TradingRuntime_new 0 system_transport))) r) as Hrun
    by (intros r; apply replay_schedule_run).
  revert Ea Hp Hw Hrun. generalize system_run. intros [r|] Ea Hp Hw Hrun; [|done].
  apply (inj Some) in Ea, Hp, Hw. unfold system_gateway in Hp, Hw. destruct (consumer_ (run_pipe r)) as [c|] eqn:Ec; [|done].
  apply (inj Some) in Hp, Hw. exists r, c. by split_and!; [apply Hrun| | | |].
Qed.

(** The orders of the sample file are sent. *)
Lemma sample_undisturbed results g :
  gateway_run (OrderExecutionSink0 := OuchExecutionSink_submit (OuchTransport0 := system_send))
    (mkGateway RiskManager_new (mkOuchExecutionSink system_transport 1))
    (trading_intents [mkEvent AddOrder 5001 0 0 Buy sample_symbol 98 900;
                      mkEvent AddOrder 5002 0 0 Sell sample_symbol 99 100]) = Some (results, g) ->
  undisturbed results.
Proof.
  assert (trading_intents [mkEvent AddOrder 5001 0 0 Buy sample_symbol 98 900;
                      mkEvent AddOrder 5002 0 0 Sell sample_symbol 99 100] =
    [mkOrderIntent 1001 Buy sample_symbol 99 10]) as -> by (vm_compute; reflexivity).
  intros Eg. vm_compute in Eg. injection Eg as <- _. by repeat constructor.
Qed.

Lemma market_data_witness :
  exists s' e' st, system_served = Some ((true, s'), e') /\
    shows (fun k => k) (eng_book (srv_handler s')) (eng_heap (srv_handler s')) (sp_book st) /\
    resting 1001 (sp_book st) = 10.
Proof.
  destruct system_facts as (r & c & Hr & Ea & Ec & Hp & Hw). destruct demo_replay_file as [Hf Hb].
  destruct (market_data_reaches_the_exchange_book _ system_send (tls_laws 60) PeerWorld peer_world peer_laws
    peer_quiescent (fun k => k) (fun k => k) 0 0 system_transport true) as [Hreplay _].
  - apply tls_total. unfold EnterOrderSize. lia.
  - reflexivity.
  - destruct (Hreplay _ _ r Hf Hb ltac:(reflexivity) Hr) as (c' & results & Ec' & Eg & Hx).
    + rewrite Ea. vm_compute. repeat split; discriminate || reflexivity.
    + rewrite Ea. reflexivity.
    + rewrite Ec in Ec'. injection Ec' as <-. rewrite Ea in Eg.
      destruct (Hx (sample_undisturbed _ _ Eg)) as [_ Hs].
      destruct (Hs 200%nat system_server 7 0 system_env)
        as (b & s' & e' & new & ids & st & resps & E & Hl & D & Hpos).
      * reflexivity.
      * reflexivity.
      * cbn. lia.
      * intros bs [cs ->].
        exact (eq_ind_r (fun bs => _ `prefix_of` bs) (peer_delivers cs (env_world system_env)) Hw).
      * pose proof system_served_run as Hrun. unfold system_served in Hrun |- *.
        rewrite E in Hrun. injection Hrun as -> Hrecv. cbn [env_log system_env app] in Hl. subst new.
        exists s', e', st. split; [exact E|]. split; [exact (dl_book _ _ _ _ _ _ _ _ _ _ _ _ _ D)|].
        exact (eq_trans (Hpos eq_refl (eq_trans Hrecv (eq_sym Hw))) Hp).
Defined.
