(* ===== verification/TradingMain.v ===== *)
(** * The execution side of the trading runtime

    What [main] of [apps/trading_runtime.cpp] does with its execution transport: it is
    chosen by the options, connected before anything else is built, handed to the
    execution sink, and, over TLS, read once after a replay for the exchange's answer.
    The recording transport keeps the last message; the TLS transport carries the world
    it talks to. *)

From Stdlib Require Import String.
From S2P Require Import Prelude Types Risk Gateway Wire Ouch Net Transport Text Options TradingRun.

Section transports.
Context {W : Type} `{!World W}.

Inductive ExecutionTransport : Type :=
  | ExecRecording (recording : RecordingOuchTransport)
  | ExecTls (tls : TlsOuchTransport * Env W).

(** The call through the base class. *)
#[export] Instance exec_transport (fuel : nat) : OuchTransport ExecutionTransport := fun t data =>
  match t with
  | ExecRecording r => '(ok, r) ← transport_send r data; Some (ok, ExecRecording r)
  | ExecTls t => '(ok, t) ← transport_send (OuchTransport := TlsTransport fuel) t data; Some (ok, ExecTls t)
  end.

(** [None] inside: [main] returns 1. *)
Definition select_transport (o : TradingOptions) (e : Env W) : option (option ExecutionTransport) :=
  match opt_executionMode o with
  | RecordingMode => Some (Some (ExecRecording RecordingOuchTransport_new))
  | TlsMode =>
      '((connected, tls), e) ← TlsOuchTransport_connect
          (TlsOuchTransport_new (chars (opt_executionHost o)) (opt_executionPort o)
             (chars (opt_caCertificatePath o))) e;
      Some (if (connected : bool) then Some (ExecTls (tls, e)) else None)
  end.

(** After a replay over TLS: 64 bytes are awaited and decoded; [None] inside when nothing
    was received or it was no Accepted message. *)
Definition read_response (fuel : nat) (t : ExecutionTransport) : option (option Accepted) :=
  match t with
  | ExecRecording _ => Some None
  | ExecTls (tls, e) =>
      '((received, response), _) ← TlsOuchTransport_receive fuel tls (Some (replicate AcceptedSize 0)) e;
      if (received : bool) then
        dispatched ← OuchResponseDispatcher_dispatch (Some response) (Z.of_nat (length response));
        Some (match dispatched with Some (R_Accepted accepted) => Some accepted | _ => None end)
      else Some None
  end.

(** *** What [main] announces before it builds anything *)

Definition cpu_text (requested managed : string) (cpu : option Z) : string :=
  match cpu with
  | Some cpu => (requested ++ decimal_string cpu ++ newline)%string
  | None => (managed ++ newline)%string
  end.

Definition affinity_text (o : TradingOptions) : string :=
  (cpu_text "Pipeline CPU affinity requested: CPU " "Pipeline CPU affinity: scheduler managed"
     (opt_pipelineCpu o) ++
   match opt_mode o with
   | Some DpdkMode => cpu_text "RX CPU affinity requested: CPU " "RX CPU affinity: scheduler managed" (opt_rxCpu o)
   | _ => EmptyString
   end)%string.

(** The announcement names the CPU the worker is to be pinned to. *)
Lemma affinity_text_names_cpu o cpu :
  opt_pipelineCpu o = Some cpu -> is_uint 64 cpu ->
  (read_labelled "Pipeline CPU affinity requested: CPU " (affinity_text o)).1 = cpu.
Proof.
  intros E Hc. unfold affinity_text, cpu_text. rewrite E, !append_assoc. by rewrite read_labelled_number.
Qed.

(** Every transport the runtime can choose returns on every order, with fuel for its
    bytes. *)
Lemma exec_transport_total fuel : (EnterOrderSize <= fuel)%nat ->
  transport_total ExecutionTransport (OuchTransport0 := exec_transport fuel).
Proof.
  intros Hf [r|[t e]] data Hl; unfold transport_send, exec_transport.
  - destruct (recording_total r data Hl) as [[ok r'] ->]. by eexists.
  - destruct (tls_total fuel Hf (t, e) data Hl) as [[ok t'] ->]. by eexists.
Qed.

(** The choice always returns; a TLS transport is used only when its connection is verified
    for the host, the port and the certificate of the options. *)
Theorem selected_transport_is_verified o (e : Env W) :
  exists t, select_transport o e = Some t /\
    match t with
    | None => opt_executionMode o = TlsMode
    | Some (ExecRecording _) => opt_executionMode o = RecordingMode
    | Some (ExecTls (tls, e')) =>
        opt_executionMode o = TlsMode /\ TlsOuchTransport_isConnected tls = true /\
        exists new, env_log e' = env_log e ++ new /\
          verified_connect (TlsOuchTransport_new (chars (opt_executionHost o)) (opt_executionPort o)
            (chars (opt_caCertificatePath o))) new
    end.
Proof.
  unfold select_transport. destruct (opt_executionMode o) eqn:Em; [by eexists|].
  set (t0 := TlsOuchTransport_new _ _ _). assert (tls_idle t0) as Hi by done.
  destruct (tls_connect_spec t0 e Hi) as (b & t' & e' & -> & new & Hlog & _ & Hb).
  cbn [mbind option_bind]. eexists. split; [done|]. destruct b; [|done].
  split; [done|]. destruct Hb as [Hc Hv]. split; [done|]. by exists new.
Qed.

End transports.

(** An Accepted message that arrives is the one reported. *)
Theorem response_is_reported {W} `{!World W} fuel (tls : TlsOuchTransport) (e e' : Env W) m bs :
  ac_wf m -> ac_appendageLength m = 0 -> AcceptedEncoder_encode m = Some bs ->
  TlsOuchTransport_receive fuel tls (Some (replicate AcceptedSize 0)) e = Some ((true, bs), e') ->
  read_response fuel (ExecTls (tls, e)) = Some (Some m).
Proof.
  intros Hm H0 Eb Er. unfold read_response. rewrite Er. cbn [mbind option_bind].
  destruct (dispatch_accepted m Hm H0) as (bs' & Eb' & _ & Hd). assert (bs' = bs) as -> by congruence.
  by rewrite Hd.
Qed.
